(** * zsh-edit-select: selection monitors and clipboard helpers

    A shallow embedding of the C helpers of zsh-edit-select:
    - the cache rendezvous ([write_primary], shared verbatim by every
      backend), with writes that store all they are given and writes that
      store less,
    - the working directory, which [daemon(0, 0)] changes,
    - the bounded readers ([read_fd_with_timeout], [read_all_stdin]),
    - the X11 backend (impl-x11/backends/x11/zes-x11-selection-monitor.c),
    - the clipboard server of its XWayland sibling
      (impl-wayland/backends/x11/zes-xwayland-monitor.c),
    - the Wayland backend
      (impl-wayland/backends/wayland/zes-wl-selection-monitor.c), its
      registry and its clipboard server, SIGPIPE included,
    - [ensure_cache_dir] and the two [main] functions.

    Conventions.  [unsigned long] is 64 bits wide and kept in [Z] with the
    wrap-around written out; [size_t] quantities are kept in [N]; buffers are
    [list byte]; a [char *] that may be [NULL] is an [option (list byte)].
    The cache directory is a finite map from file name to content. *)

From Stdlib Require Import ZArith NArith List Strings.Byte String DecimalString Lia.
From Stdlib Require DecimalN.
From stdpp Require Import gmap strings list fin_maps.

#[global] Instance byte_eq_decision : EqDecision byte := Byte.byte_eq_dec.

Set Warnings "-clear-no-such-hyp".

(** ** Constants of the sources *)

Definition PRIMARY_FILE : string := "primary".
Definition SEQ_FILE : string := "seq".
Definition PID_FILE : string := "monitor.pid".
Definition MAX_SELECTION_SIZE : N := 1024 * 1024.
Definition MAX_CLIPBOARD_SIZE : N := 4 * 1024 * 1024.

(** [unsigned long] arithmetic: [seq_counter++]. *)
Definition ULONG_MODULUS : Z := 2 ^ 64.
Definition ulong_incr (x : Z) : Z := ((x + 1) mod ULONG_MODULUS)%Z.

(** [printf]-style decimal conversions ("%lu" and "%d") and the newline.
    The 24-byte buffers of the sources hold every text produced here for a
    64-bit value: the longest, that of [ULONG_MAX] followed by the newline,
    has 21 bytes. *)
Definition newline : byte := x0a.

Definition fmt_lu (n : Z) : list byte :=
  list_byte_of_string (NilZero.string_of_uint (N.to_uint (Z.to_N n))).

Definition fmt_d (n : Z) : list byte :=
  if (n <? 0)%Z then x2d :: fmt_lu (- n) else fmt_lu n.

(** ** The cache directory and the system calls made on it

    [files] is the directory content, [denied] the names whose [open] for
    writing fails, and [trace] the system calls issued so far, oldest first.
    Files are identified by their name inside the directory that the three
    paths built by [ensure_cache_dir] name.  That is one directory for the
    whole run when [cache_dir] is absolute (the default, and what the shell
    passes); what a relative [cache_dir] changes is in the section on the
    working directory below. *)

Inductive syscall :=
| SysOpen (path : string) (ok : bool)
| SysWrite (path : string) (data : list byte)
| SysClose (path : string)
| SysUnlink (path : string).

Record disk := Disk {
  files : gmap string (list byte);
  denied : gset string;
  trace : list syscall
}.

(** Effect of one system call on the directory content.  An [open] here is
    always [O_WRONLY | O_CREAT | O_TRUNC]; a [write] appends at the file
    offset, which is the end of what this descriptor wrote so far. *)
Definition apply_syscall (c : syscall) (fs : gmap string (list byte))
  : gmap string (list byte) :=
  match c with
  | SysOpen p true => <[p := []]> fs
  | SysOpen p false => fs
  | SysWrite p bs => <[p := default [] (fs !! p) ++ bs]> fs
  | SysClose _ => fs
  | SysUnlink p => delete p fs
  end.

Definition replay (cs : list syscall) (fs : gmap string (list byte))
  : gmap string (list byte) :=
  foldl (fun acc c => apply_syscall c acc) fs cs.

Definition emit (c : syscall) (d : disk) : disk :=
  {| files := apply_syscall c (files d);
     denied := denied d;
     trace := trace d ++ [c] |}.

(** A descriptor is identified with the name it was opened on.  [sys_write]
    is a [write] that stores all the bytes it is given, as on a file system
    with room left; a [write] that stores less is [sys_write_returning]
    below.  The sources do not look at what [write] returns. *)
Definition sys_open (path : string) (d : disk) : option string * disk :=
  if decide (path ∈ denied d)
  then (None, emit (SysOpen path false) d)
  else (Some path, emit (SysOpen path true) d).

Definition sys_write (fd : string) (bs : list byte) (d : disk) : disk :=
  emit (SysWrite fd bs) d.

Definition sys_close (fd : string) (d : disk) : disk :=
  emit (SysClose fd) d.

Definition sys_unlink (path : string) (d : disk) : disk :=
  emit (SysUnlink path) d.

Definition syscall_path (c : syscall) : string :=
  match c with
  | SysOpen p _ | SysWrite p _ | SysClose p | SysUnlink p => p
  end.

(** ** write_primary (identical in the X11 and the Wayland source)

    [data] and [len] are the C pair (pointer, length): the bytes written are
    the first [len] bytes of the buffer. *)
Definition write_primary (data : option (list byte)) (len : N) (seq : Z)
    (d : disk) : disk :=
  match sys_open PRIMARY_FILE d with
  | (None, d1) => d1
  | (Some fd, d1) =>
      let d2 :=
        match data with
        | Some buf =>
            if (0 <? len)%N then sys_write fd (take (N.to_nat len) buf) d1
            else d1
        | None => d1
        end in
      let d3 := sys_close fd d2 in
      match sys_open SEQ_FILE d3 with
      | (Some fd', d4) =>
          let buf := fmt_lu seq ++ [newline] in
          sys_close fd' (sys_write fd' buf d4)
      | (None, d4) => d4
      end
  end.

(** ** Writes that store less than they are given

    A [write] may store fewer bytes than it is asked to (a short write: a
    full disk, a quota, an interrupting signal), or none and fail.  Both
    sources make one [write] call per file and discard what it returns
    ([(void)r]).  [sys_write_returning r] is the call that returns [r]: it
    stores the first [r] bytes of the buffer, none when [r <= 0].
    [write_primary_returning r_primary r_seq] is [write_primary] with the
    results of its two calls given; [sys_write] and [write_primary] above
    are the case in which every call stores all it is given. *)
Definition sys_write_returning (r : Z) (fd : string) (bs : list byte)
    (d : disk) : disk :=
  emit (SysWrite fd (take (Z.to_nat r) bs)) d.

Definition write_primary_returning (r_primary r_seq : Z)
    (data : option (list byte)) (len : N) (seq : Z) (d : disk) : disk :=
  match sys_open PRIMARY_FILE d with
  | (None, d1) => d1
  | (Some fd, d1) =>
      let d2 :=
        match data with
        | Some buf =>
            if (0 <? len)%N
            then sys_write_returning r_primary fd (take (N.to_nat len) buf) d1
            else d1
        | None => d1
        end in
      let d3 := sys_close fd d2 in
      match sys_open SEQ_FILE d3 with
      | (Some fd', d4) =>
          let buf := fmt_lu seq ++ [newline] in
          sys_close fd' (sys_write_returning r_seq fd' buf d4)
      | (None, d4) => d4
      end
  end.

(** The two inline fragments of [run_daemon] that both sources share: the
    pid file written after [daemon()], and the three [unlink]s made once
    the event loop has been left. *)
Definition write_pid_file (pid : Z) (d : disk) : disk :=
  match sys_open PID_FILE d with
  | (Some fd, d1) => sys_close fd (sys_write fd (fmt_d pid ++ [newline]) d1)
  | (None, d1) => d1
  end.

Definition unlink_cache_files (d : disk) : disk :=
  sys_unlink PID_FILE (sys_unlink SEQ_FILE (sys_unlink PRIMARY_FILE d)).

(** The bytes a call [write_primary data len seq] is asked to publish. *)
Definition payload (data : option (list byte)) (len : N) : list byte :=
  match data with
  | Some buf => if (0 <? len)%N then take (N.to_nat len) buf else []
  | None => []
  end.

(** The call sequence of a publish as the specification words it: open
    [primary] with truncate, write, close; then open [seq] with truncate,
    write the decimal sequence plus a newline, close. *)
Definition primary_spec_calls (data : option (list byte)) (len : N)
  : list syscall :=
  [SysOpen PRIMARY_FILE true]
  ++ match data with
     | Some buf =>
         if (0 <? len)%N then [SysWrite PRIMARY_FILE (take (N.to_nat len) buf)]
         else []
     | None => []
     end
  ++ [SysClose PRIMARY_FILE].

Definition seq_spec_calls (seq : Z) : list syscall :=
  [SysOpen SEQ_FILE true;
   SysWrite SEQ_FILE (fmt_lu seq ++ [newline]);
   SysClose SEQ_FILE].

Definition publish_spec_calls (data : option (list byte)) (len : N) (seq : Z)
  : list syscall :=
  primary_spec_calls data len ++ seq_spec_calls seq.

(** The calls of a publish whose two [write]s return [r_primary] and
    [r_seq]. *)
Definition primary_calls_returning (r_primary : Z)
    (data : option (list byte)) (len : N) : list syscall :=
  [SysOpen PRIMARY_FILE true]
  ++ match data with
     | Some buf =>
         if (0 <? len)%N
         then [SysWrite PRIMARY_FILE
                 (take (Z.to_nat r_primary) (take (N.to_nat len) buf))]
         else []
     | None => []
     end
  ++ [SysClose PRIMARY_FILE].

Definition seq_calls_returning (r_seq : Z) (seq : Z) : list syscall :=
  [SysOpen SEQ_FILE true;
   SysWrite SEQ_FILE (take (Z.to_nat r_seq) (fmt_lu seq ++ [newline]));
   SysClose SEQ_FILE].

(** ** The working directory

    [ensure_cache_dir] builds the three paths from [cache_dir] as it is
    given, and [daemon(0, 0)] changes the working directory to the root
    directory.  A relative [cache_dir] therefore names one directory before
    that call, the one the initial publish is made in, and another one
    after it, unless the daemon was started in the root directory.
    [root_files] and [root_denied] are what the three paths name once the
    working directory is the root directory. *)
Definition is_absolute (path : list byte) : bool :=
  match path with
  | c :: _ => bool_decide (c = x2f)
  | [] => false
  end.

Record workdir := Workdir {
  wd_cache_dir : list byte;
  wd_cwd : list byte;
  root_files : gmap string (list byte);
  root_denied : gset string
}.

Definition paths_move (w : workdir) : bool :=
  negb (is_absolute (wd_cache_dir w))
  && negb (bool_decide (wd_cwd w = [x2f])).

(** [chdir("/")], as the three paths see it: when they move, they name the
    files of the other directory from then on.  The system calls made so
    far stay made. *)
Definition chdir_root (w : workdir) (d : disk) : disk :=
  if paths_move w
  then {| files := root_files w; denied := root_denied w; trace := trace d |}
  else d.

(** The files of the directory the paths named before the call, which no
    path of the process names any more. *)
Definition left_behind (w : workdir) (d : disk)
  : option (gmap string (list byte)) :=
  if paths_move w then Some (files d) else None.

(** ** Results of [read] and [poll]

    The environment of a reading loop is the list of what its successive
    calls return.  [ReadData bs] is a call that finds the bytes [bs]; the
    kernel hands back at most the [count] asked for.  An exhausted list is
    end of input for [read] and a timeout for [poll]. *)

Inductive read_result :=
| ReadData (bs : list byte)
| ReadEof
| ReadAgain
| ReadError.

(** [read(fd, buf + total, count)]: [inl bs] for [n = length bs >= 0],
    [inr _] for [n < 0] ([inr true]: [errno] is [EAGAIN] or [EWOULDBLOCK]). *)
Definition sys_read (count : nat) (r : read_result)
  : list byte + bool :=
  match r with
  | ReadData bs => inl (take count bs)
  | ReadEof => inl []
  | ReadAgain => inr true
  | ReadError => inr false
  end.

Arguments sys_read : simpl never.

Inductive poll_result :=
| PollFail
| PollHup
| PollIdle
| PollIn (r : read_result).

(** The bytes a list of calls would deliver to a reader that never stops
    early: everything up to the first call that ends the transfer. *)
Fixpoint delivered_reads (reads : list read_result) : list byte :=
  match reads with
  | [] => []
  | r :: rest =>
      match sys_read 4096 r with
      | inl [] => []
      | inl bs => bs ++ delivered_reads rest
      | inr _ => []
      end
  end.

Fixpoint delivered_polls (polls : list poll_result) : list byte :=
  match polls with
  | [] => []
  | PollFail :: _ | PollHup :: _ => []
  | PollIdle :: rest => delivered_polls rest
  | PollIn r :: rest =>
      match sys_read 4096 r with
      | inl [] => []
      | inl bs => bs ++ delivered_polls rest
      | inr true => delivered_polls rest
      | inr false => []
      end
  end.

Section Programs.

(** Whether [malloc]/[realloc] of a given size succeeds. *)
Variable alloc_ok : N → bool.

(** ** read_fd_with_timeout (Wayland source)

    The loop carries [capacity] and [total] as the source does, and whether
    [buf] is still [NULL]; it returns the bytes stored from offset [total]
    on, so that the buffer handed back is their concatenation. *)
Fixpoint read_fd_loop (max_size : N) (polls : list poll_result)
    (capacity total : N) (have_buf : bool) : bool * N * list byte :=
  match polls with
  | [] => (have_buf, total, [])
  | PollFail :: _ => (have_buf, total, [])
  | PollHup :: _ => (have_buf, total, [])
  | PollIdle :: rest => read_fd_loop max_size rest capacity total have_buf
  | PollIn r :: rest =>
      let grow := (capacity <? total + 4096)%N in
      let capacity' :=
        if grow then (if (capacity =? 0)%N then 4096 else capacity * 2)%N
        else capacity in
      if grow && (max_size <? capacity')%N then (have_buf, total, [])
      else if grow && negb (alloc_ok (capacity' + 1)) then (have_buf, total, [])
      else
        let have_buf' := have_buf || grow in
        match sys_read 4096 r with
        | inl [] => (have_buf', total, [])
        | inl bs =>
            let '(b, t, tl) :=
              read_fd_loop max_size rest capacity'
                (total + N.of_nat (length bs)) have_buf' in
            (b, t, bs ++ tl)
        | inr true => read_fd_loop max_size rest capacity' total have_buf'
        | inr false => (have_buf', total, [])
        end
  end.

Definition read_fd_with_timeout (polls : list poll_result) (max_size : N)
  : option (list byte) * N :=
  let '(have_buf, total, bytes) := read_fd_loop max_size polls 0 0 false in
  (if have_buf then Some bytes else None, total).

(** ** read_all_stdin

    The two sources differ in the cap ([MAX_CLIPBOARD_SIZE] on Wayland,
    [MAX_SELECTION_SIZE] on X11) and in what a failing [realloc] does
    (Wayland keeps what it has, X11 frees the buffer and returns [NULL]). *)
Fixpoint stdin_loop (cap : N) (keep_on_fail : bool)
    (reads : list read_result) (capacity total : N)
  : option (N * list byte) :=
  let grow := (capacity <? total + 4096)%N in
  let capacity' := if grow then (capacity * 2)%N else capacity in
  if grow && (cap <? capacity')%N then Some (total, [])
  else if grow && negb (alloc_ok capacity')
  then (if keep_on_fail then Some (total, []) else None)
  else
    match reads with
    | [] => Some (total, [])
    | r :: rest =>
        match sys_read 4096 r with
        | inl [] => Some (total, [])
        | inl bs =>
            match stdin_loop cap keep_on_fail rest capacity'
                    (total + N.of_nat (length bs)) with
            | Some (t, tl) => Some (t, bs ++ tl)
            | None => None
            end
        | inr _ => Some (total, [])
        end
    end.

Definition read_all_stdin_with (cap : N) (keep_on_fail : bool)
    (reads : list read_result) : option (list byte) * N :=
  if alloc_ok 4096 then
    match stdin_loop cap keep_on_fail reads 4096 0 with
    | Some (total, bytes) => (Some bytes, total)
    | None => (None, 0%N)
    end
  else (None, 0%N).

End Programs.

(** ** How a run of a program ends

    [Exited code st]: the process returned from [main] (or called [_exit])
    with [code]; [Blocked st]: the environment has nothing more to deliver
    and the process is still inside its event loop. *)
Inductive outcome (S : Type) :=
| Exited (code : Z) (st : S)
| Blocked (st : S).
Arguments Exited {S} code st.
Arguments Blocked {S} st.

(** What [run_copy_clipboard] does in the calling process: it returns a
    code to [main], or it forks, in which case the parent calls [_exit]
    with [parent_code] and the child serves [data]. *)
Inductive copy_result :=
| CopyReturn (code : Z)
| CopyForked (parent_code : Z) (data : list byte).

Inductive fork_result := ForkFailed | ForkOk.

(** * The X11 backend (zes-x11-selection-monitor.c) *)
Module X11.

Inductive atom :=
| XA_PRIMARY | XA_CLIPBOARD | XA_UTF8_STRING | XA_TARGETS | XA_STRING
| XA_OTHER (n : N).

#[global] Instance atom_eq_decision : EqDecision atom.
Proof. solve_decision. Defined.

Inductive xevent :=
| XFixesSelectionNotify (selection : atom)
| SelectionRequest (target : atom)
| SelectionClear
| OtherEvent.

(** What the X server and the selection owner answer to one selection read:
    whether the selection has an owner, what the successive
    [XCheckTypedWindowEvent] calls find, whether the [SelectionNotify]
    names a property, and the 8-bit property value [XGetWindowProperty]
    finds ([None]: the call fails or there is no such property). *)
Record xsel_reply := XselReply {
  xs_owner : bool;
  xs_checks : list bool;
  xs_property : bool;
  xs_value : option (list byte)
}.

(** The process globals that matter, and the cache directory. *)
Record state := State {
  running : bool;
  seq_counter : Z;
  cache : disk
}.

Definition set_running (b : bool) (st : state) : state :=
  {| running := b; seq_counter := seq_counter st; cache := cache st |}.

Definition initial (d : disk) : state :=
  {| running := true; seq_counter := 0; cache := d |}.

Section Programs.

Variable alloc_ok : N → bool.

(** The [for (i = 0; i < 100; i++)] polling for [SelectionNotify]. *)
Fixpoint wait_notify (rounds : nat) (checks : list bool) : bool :=
  match rounds with
  | O => false
  | S rounds' =>
      match checks with
      | [] => false
      | true :: _ => true
      | false :: rest => wait_notify rounds' rest
      end
  end.

(** [XGetWindowProperty(.., 0, long_length, ..)] on an 8-bit property: at
    most [4 * long_length] bytes of the value. *)
Definition XGetWindowProperty (long_length : N) (value : option (list byte))
  : option (list byte) :=
  match value with
  | Some v => Some (take (N.to_nat (4 * long_length)) v)
  | None => None
  end.

(** [get_selection], of which [get_primary_selection] is the instance at
    [PRIMARY]: the two bodies differ in the property name only. *)
Definition get_selection (x : xsel_reply) : option (list byte) * N :=
  if negb (xs_owner x) then (None, 0%N)
  else
    let got_notify := wait_notify 100 (xs_checks x) in
    if got_notify && xs_property x then
      match XGetWindowProperty (MAX_SELECTION_SIZE / 4) (xs_value x) with
      | Some xdata =>
          let nitems := N.of_nat (length xdata) in
          if (0 <? nitems)%N then
            if alloc_ok (nitems + 1) then (Some xdata, nitems) else (None, 0%N)
          else (None, 0%N)
      | None => (None, 0%N)
      end
    else (None, 0%N).

Definition get_primary_selection (x : xsel_reply) : option (list byte) * N :=
  get_selection x.

Definition check_and_update_primary (x : xsel_reply) (st : state) : state :=
  let '(sel, len) := get_primary_selection x in
  let seq := ulong_incr (seq_counter st) in
  {| running := running st;
     seq_counter := seq;
     cache := write_primary (Some (default [] sel))
                (match sel with Some _ => len | None => 0%N end)
                seq (cache st) |}.

(** [run_oneshot] and [run_get_clipboard]: exit code and what is written to
    standard output. *)
Definition run_oneshot (x : xsel_reply) : Z * list byte :=
  match get_primary_selection x with
  | (Some data, len) =>
      if (0 <? len)%N then (0%Z, take (N.to_nat len) data) else (1%Z, [])
  | (None, _) => (1%Z, [])
  end.

Definition run_get_clipboard (x : xsel_reply) : Z * list byte :=
  match get_selection x with
  | (Some data, len) =>
      if (0 <? len)%N then (0%Z, take (N.to_nat len) data) else (1%Z, [])
  | (None, _) => (1%Z, [])
  end.

Definition read_all_stdin (reads : list read_result) : option (list byte) * N :=
  read_all_stdin_with alloc_ok MAX_SELECTION_SIZE false reads.

(** [run_copy_clipboard] up to the [fork]. *)
Definition run_copy_clipboard (stdin : list read_result)
    (owner_granted : bool) (fork : fork_result) : copy_result :=
  match read_all_stdin stdin with
  | (None, _) => CopyReturn 1
  | (Some data, data_len) =>
      if (data_len =? 0)%N then CopyReturn 1
      else if negb owner_granted then CopyReturn 1
      else
        match fork with
        | ForkFailed => CopyReturn 1
        | ForkOk => CopyForked 0 (take (N.to_nat data_len) data)
        end
  end.

(** *** The forked clipboard server *)

Inductive reply :=
| ReplyTargets
| ReplyData (target : atom) (data : list byte)
| ReplyRefused (target : atom).

Definition handle_selection_request (target : atom) (data : list byte)
  : reply :=
  if decide (target = XA_TARGETS) then ReplyTargets
  else if decide (target = XA_UTF8_STRING) then ReplyData target data
  else if decide (target = XA_STRING) then ReplyData target data
  else ReplyRefused target.

Record child := Child {
  c_running : bool;
  timeout_count : Z;
  selection_served : bool;
  replies : list reply
}.

Definition child_start : child :=
  {| c_running := true; timeout_count := 0;
     selection_served := false; replies := [] |}.

(** One pass of the outer loop sees the events that are pending when it
    starts; [tk_signal] says that SIGTERM or SIGINT is delivered during its
    [usleep]. *)
Record tick := Tick { tk_pending : list xevent; tk_signal : bool }.

(** The inner [while (XPending(dpy) > 0)] loop. *)
Fixpoint drain_pending (data : list byte) (evs : list xevent) (c : child)
  : child :=
  match evs with
  | [] => c
  | SelectionRequest target :: rest =>
      drain_pending data rest
        {| c_running := c_running c;
           timeout_count := 0;
           selection_served := true;
           replies := replies c ++ [handle_selection_request target data] |}
  | SelectionClear :: _ =>
      {| c_running := false; timeout_count := timeout_count c;
         selection_served := selection_served c; replies := replies c |}
  | _ :: rest => drain_pending data rest c
  end.

(** The outer [while (running && timeout_count < 500)] loop; the child
    calls [_exit(0)] when it leaves it. *)
Fixpoint serve_loop (data : list byte) (ticks : list tick) (c : child)
  : outcome child :=
  if c_running c && (timeout_count c <? 500)%Z then
    match ticks with
    | [] => Blocked c
    | t :: rest =>
        let c1 := drain_pending data (tk_pending t) c in
        if negb (c_running c1) then Exited 0 c1
        else
          serve_loop data rest
            {| c_running := negb (tk_signal t);
               timeout_count :=
                 if negb (selection_served c1) then (timeout_count c1 + 1)%Z
                 else timeout_count c1;
               selection_served := selection_served c1;
               replies := replies c1 |}
    end
  else Exited 0 c.

(** *** The daemon *)

Record daemon_env := DaemonEnv {
  cache_dir_ok : bool;
  xfixes_ok : bool;
  now : Z;
  daemonize_ok : bool;
  pid : Z;
  startup_reply : xsel_reply
}.

(** What reaches the daemon while it sits in [XNextEvent]: a signal, whose
    handler clears [running], or an event together with what a selection
    read made on that event would be answered. *)
Inductive daemon_input :=
| Signal
| Event (ev : xevent) (x : xsel_reply).

Definition handle_event (ev : xevent) (x : xsel_reply) (st : state) : state :=
  match ev with
  | XFixesSelectionNotify selection =>
      if decide (selection = XA_PRIMARY) then check_and_update_primary x st
      else st
  | _ => st
  end.

(** Inside [XNextEvent]: the call returns with the next event only. *)
Fixpoint next_event_loop (inputs : list daemon_input) (st : state)
  : state * bool :=
  match inputs with
  | [] => (st, false)
  | Signal :: rest => next_event_loop rest (set_running false st)
  | Event ev x :: rest =>
      let st' := handle_event ev x st in
      if running st' then next_event_loop rest st' else (st', true)
  end.

(** The [while (running)] loop: [true] when the loop was left. *)
Definition event_loop (inputs : list daemon_input) (st : state)
  : state * bool :=
  if running st then next_event_loop inputs st else (st, true).

(** The daemon's state when it reaches its event loop, or the exit code of
    a failed start.  Of [daemon(0, 0)] this keeps whether it succeeds: the
    three paths are taken to name the same files before and after it.  The
    change of directory it makes is in [daemon_startup_in] below. *)
Definition daemon_startup (env : daemon_env) (st : state) : Z * state + state :=
  if negb (cache_dir_ok env) then inl (1%Z, st)
  else if negb (xfixes_ok env) then inl (1%Z, st)
  else
    let seed := (now env mod ULONG_MODULUS)%Z in
    let st1 :=
      {| running := running st; seq_counter := seed;
         cache := write_primary (Some []) 0 seed (cache st) |} in
    if negb (daemonize_ok env) then inl (1%Z, st1)
    else
      let st2 :=
        {| running := running st1; seq_counter := seq_counter st1;
           cache := write_pid_file (pid env) (cache st1) |} in
      inr (check_and_update_primary (startup_reply env) st2).

Definition run_daemon (env : daemon_env) (inputs : list daemon_input)
    (st : state) : outcome state :=
  match daemon_startup env st with
  | inl (code, st') => Exited code st'
  | inr st1 =>
      match event_loop inputs st1 with
      | (st2, true) =>
          Exited 0
            {| running := running st2; seq_counter := seq_counter st2;
               cache := unlink_cache_files (cache st2) |}
      | (st2, false) => Blocked st2
      end
  end.

(** The daemon with its working directory.  [daemon_startup_in] and
    [run_daemon_in] are [run_daemon] as the source has it, the change of
    directory made by [daemon(0, 0)] included; next to the outcome they
    give the files left behind in the directory the daemon was started on,
    when the paths move.  [daemon_startup] and [run_daemon] above are the
    case in which the paths name the same files throughout. *)
Definition daemon_startup_in (w : workdir) (env : daemon_env) (st : state)
  : (Z * state + state) * option (gmap string (list byte)) :=
  if negb (cache_dir_ok env) then (inl (1%Z, st), None)
  else if negb (xfixes_ok env) then (inl (1%Z, st), None)
  else
    let seed := (now env mod ULONG_MODULUS)%Z in
    let st1 :=
      {| running := running st; seq_counter := seed;
         cache := write_primary (Some []) 0 seed (cache st) |} in
    if negb (daemonize_ok env) then (inl (1%Z, st1), None)
    else
      let st1' :=
        {| running := running st1; seq_counter := seq_counter st1;
           cache := chdir_root w (cache st1) |} in
      let st2 :=
        {| running := running st1'; seq_counter := seq_counter st1';
           cache := write_pid_file (pid env) (cache st1') |} in
      (inr (check_and_update_primary (startup_reply env) st2),
       left_behind w (cache st1)).

Definition run_daemon_in (w : workdir) (env : daemon_env)
    (inputs : list daemon_input) (st : state)
  : outcome state * option (gmap string (list byte)) :=
  match daemon_startup_in w env st with
  | (inl (code, st'), behind) => (Exited code st', behind)
  | (inr st1, behind) =>
      match event_loop inputs st1 with
      | (st2, true) =>
          (Exited 0
             {| running := running st2; seq_counter := seq_counter st2;
                cache := unlink_cache_files (cache st2) |},
           behind)
      | (st2, false) => (Blocked st2, behind)
      end
  end.

End Programs.

End X11.

(** * The XWayland sibling (zes-xwayland-monitor.c)

    Only the forked clipboard server is embedded, for comparison with the
    one of the X11 backend: here [selection_request_received] is cleared
    again on every pass, so the countdown starts afresh after each served
    request. *)
Module XWayland.

Record child := Child {
  c_running : bool;
  timeout_count : Z;
  selection_request_received : bool
}.

Definition child_start : child :=
  {| c_running := true; timeout_count := 0;
     selection_request_received := false |}.

(** The effect of [handle_selection_request] on the flag. *)
Definition handle_selection_request (target : X11.atom) (c : child) : child :=
  if decide (target = X11.XA_TARGETS) then c
  else if bool_decide (target = X11.XA_UTF8_STRING)
          || bool_decide (target = X11.XA_STRING)
  then {| c_running := c_running c; timeout_count := timeout_count c;
          selection_request_received := true |}
  else c.

Fixpoint drain_pending (evs : list X11.xevent) (c : child) : child :=
  match evs with
  | [] => c
  | X11.SelectionRequest target :: rest =>
      drain_pending rest (handle_selection_request target c)
  | X11.SelectionClear :: _ =>
      {| c_running := false; timeout_count := timeout_count c;
         selection_request_received := selection_request_received c |}
  | _ :: rest => drain_pending rest c
  end.

Fixpoint serve_loop (ticks : list X11.tick) (c : child) : outcome child :=
  if c_running c && (timeout_count c <? 500)%Z then
    match ticks with
    | [] => Blocked c
    | t :: rest =>
        let c1 := drain_pending (X11.tk_pending t) c in
        if negb (c_running c1) then Exited 0 c1
        else
          serve_loop rest
            {| c_running := negb (X11.tk_signal t);
               timeout_count :=
                 if selection_request_received c1 then 0%Z
                 else (timeout_count c1 + 1)%Z;
               selection_request_received := false |}
    end
  else Exited 0 c.

End XWayland.

(** * The Wayland backend (zes-wl-selection-monitor.c) *)
Module Wayland.

(** Protocol objects are identified by their object id. *)
Definition offer := N.

(** The transcript of the connection, as far as offers are concerned: the
    selection events the compositor delivers and the requests the client
    sends on offers. *)
Inductive message :=
| PsSelectionEvent (o : option offer)
| DataSelectionEvent (o : option offer)
| PsOfferDestroy (o : offer)
| PsOfferReceive (o : offer) (mime : string)
| DataOfferDestroy (o : offer)
| DataOfferReceive (o : offer) (mime : string).

Inductive event :=
| PsDataOffer (o : offer)
| PsOfferMime (o : offer) (mime : string)
| PsSelection (o : option offer) (pipe : option (list poll_result))
| DataOffer (o : offer)
| DataOfferMime (o : offer) (mime : string)
| DataSelection (o : option offer)
| ToplevelClose
| OtherEvent.

Record state := State {
  running : bool;
  seq_counter : Z;
  current_ps_offer : option offer;
  current_clipboard_offer : option offer;
  ps_has_text : bool;
  clip_has_text : bool;
  is_daemon_mode : bool;
  got_selection : bool;
  last_known_content : option (list byte);
  last_known_len : N;
  cache : disk;
  wire : list message
}.

Definition initial (d : disk) : state :=
  {| running := true; seq_counter := 0;
     current_ps_offer := None; current_clipboard_offer := None;
     ps_has_text := false; clip_has_text := false;
     is_daemon_mode := false; got_selection := false;
     last_known_content := None; last_known_len := 0;
     cache := d; wire := [] |}.

Definition set_running (b : bool) (st : state) : state :=
  {| running := b; seq_counter := seq_counter st;
     current_ps_offer := current_ps_offer st;
     current_clipboard_offer := current_clipboard_offer st;
     ps_has_text := ps_has_text st; clip_has_text := clip_has_text st;
     is_daemon_mode := is_daemon_mode st; got_selection := got_selection st;
     last_known_content := last_known_content st;
     last_known_len := last_known_len st;
     cache := cache st; wire := wire st |}.

Definition set_seq_counter (seq : Z) (st : state) : state :=
  {| running := running st; seq_counter := seq;
     current_ps_offer := current_ps_offer st;
     current_clipboard_offer := current_clipboard_offer st;
     ps_has_text := ps_has_text st; clip_has_text := clip_has_text st;
     is_daemon_mode := is_daemon_mode st; got_selection := got_selection st;
     last_known_content := last_known_content st;
     last_known_len := last_known_len st;
     cache := cache st; wire := wire st |}.

Definition set_ps_has_text (b : bool) (st : state) : state :=
  {| running := running st; seq_counter := seq_counter st;
     current_ps_offer := current_ps_offer st;
     current_clipboard_offer := current_clipboard_offer st;
     ps_has_text := b; clip_has_text := clip_has_text st;
     is_daemon_mode := is_daemon_mode st; got_selection := got_selection st;
     last_known_content := last_known_content st;
     last_known_len := last_known_len st;
     cache := cache st; wire := wire st |}.

Definition set_clip_has_text (b : bool) (st : state) : state :=
  {| running := running st; seq_counter := seq_counter st;
     current_ps_offer := current_ps_offer st;
     current_clipboard_offer := current_clipboard_offer st;
     ps_has_text := ps_has_text st; clip_has_text := b;
     is_daemon_mode := is_daemon_mode st; got_selection := got_selection st;
     last_known_content := last_known_content st;
     last_known_len := last_known_len st;
     cache := cache st; wire := wire st |}.

Definition set_is_daemon_mode (b : bool) (st : state) : state :=
  {| running := running st; seq_counter := seq_counter st;
     current_ps_offer := current_ps_offer st;
     current_clipboard_offer := current_clipboard_offer st;
     ps_has_text := ps_has_text st; clip_has_text := clip_has_text st;
     is_daemon_mode := b; got_selection := got_selection st;
     last_known_content := last_known_content st;
     last_known_len := last_known_len st;
     cache := cache st; wire := wire st |}.

Definition set_got_selection (b : bool) (st : state) : state :=
  {| running := running st; seq_counter := seq_counter st;
     current_ps_offer := current_ps_offer st;
     current_clipboard_offer := current_clipboard_offer st;
     ps_has_text := ps_has_text st; clip_has_text := clip_has_text st;
     is_daemon_mode := is_daemon_mode st; got_selection := b;
     last_known_content := last_known_content st;
     last_known_len := last_known_len st;
     cache := cache st; wire := wire st |}.

Definition set_current_ps_offer (o : option offer) (st : state) : state :=
  {| running := running st; seq_counter := seq_counter st;
     current_ps_offer := o;
     current_clipboard_offer := current_clipboard_offer st;
     ps_has_text := ps_has_text st; clip_has_text := clip_has_text st;
     is_daemon_mode := is_daemon_mode st; got_selection := got_selection st;
     last_known_content := last_known_content st;
     last_known_len := last_known_len st;
     cache := cache st; wire := wire st |}.

Definition set_current_clipboard_offer (o : option offer) (st : state)
  : state :=
  {| running := running st; seq_counter := seq_counter st;
     current_ps_offer := current_ps_offer st;
     current_clipboard_offer := o;
     ps_has_text := ps_has_text st; clip_has_text := clip_has_text st;
     is_daemon_mode := is_daemon_mode st; got_selection := got_selection st;
     last_known_content := last_known_content st;
     last_known_len := last_known_len st;
     cache := cache st; wire := wire st |}.

Definition set_last_known (c : option (list byte) * N) (st : state) : state :=
  {| running := running st; seq_counter := seq_counter st;
     current_ps_offer := current_ps_offer st;
     current_clipboard_offer := current_clipboard_offer st;
     ps_has_text := ps_has_text st; clip_has_text := clip_has_text st;
     is_daemon_mode := is_daemon_mode st; got_selection := got_selection st;
     last_known_content := fst c;
     last_known_len := snd c;
     cache := cache st; wire := wire st |}.

Definition set_cache (d : disk) (st : state) : state :=
  {| running := running st; seq_counter := seq_counter st;
     current_ps_offer := current_ps_offer st;
     current_clipboard_offer := current_clipboard_offer st;
     ps_has_text := ps_has_text st; clip_has_text := clip_has_text st;
     is_daemon_mode := is_daemon_mode st; got_selection := got_selection st;
     last_known_content := last_known_content st;
     last_known_len := last_known_len st;
     cache := d; wire := wire st |}.

Definition send (r : message) (st : state) : state :=
  {| running := running st; seq_counter := seq_counter st;
     current_ps_offer := current_ps_offer st;
     current_clipboard_offer := current_clipboard_offer st;
     ps_has_text := ps_has_text st; clip_has_text := clip_has_text st;
     is_daemon_mode := is_daemon_mode st; got_selection := got_selection st;
     last_known_content := last_known_content st;
     last_known_len := last_known_len st;
     cache := cache st; wire := wire st ++ [r] |}.

(** [seq_counter++;] *)
Definition bump_seq (st : state) : state :=
  set_seq_counter (ulong_incr (seq_counter st)) st.

(** [seq_counter++; write_primary(data, len, seq_counter);] *)
Definition publish_next (data : option (list byte)) (len : N) (st : state)
  : state :=
  let st1 := bump_seq st in
  set_cache (write_primary data len (seq_counter st1) (cache st1)) st1.

Definition TEXT_UTF8 : string := "text/plain;charset=utf-8".

Section Programs.

Variable alloc_ok : N → bool.

Definition read_ps_offer (o : offer) (pipe : option (list poll_result))
    (len0 : N) (st : state) : option (list byte) * N * state :=
  match pipe with
  | None => (None, len0, st)
  | Some polls =>
      (read_fd_with_timeout alloc_ok polls MAX_SELECTION_SIZE,
       send (PsOfferReceive o TEXT_UTF8) st)
  end.

Definition read_clip_offer (o : offer) (pipe : option (list poll_result))
    (len0 : N) (st : state) : option (list byte) * N * state :=
  match pipe with
  | None => (None, len0, st)
  | Some polls =>
      (read_fd_with_timeout alloc_ok polls MAX_CLIPBOARD_SIZE,
       send (DataOfferReceive o TEXT_UTF8) st)
  end.

(** The comparison of a fresh read with [last_known_content]. *)
Definition content_changed (sel : option (list byte)) (len : N)
    (last : option (list byte)) (last_len : N) : bool :=
  match sel, last with
  | None, Some _ => true
  | Some _, None => true
  | Some s, Some l =>
      negb (len =? last_len)%N
      || negb (bool_decide (take (N.to_nat len) s = take (N.to_nat len) l))
  | None, None => false
  end.

(** The copy kept in [last_known_content] / [last_known_len]. *)
Definition remember (sel : option (list byte)) (len : N)
  : option (list byte) * N :=
  match sel with
  | Some s =>
      if (0 <? len)%N then
        if alloc_ok len then (Some (take (N.to_nat len) s), len)
        else (None, 0%N)
      else (None, 0%N)
  | None => (None, 0%N)
  end.

(** [sel ? len : 0] *)
Definition len_or_zero (sel : option (list byte)) (len : N) : N :=
  match sel with Some _ => len | None => 0%N end.

Definition check_and_update_primary (pipe : option (list poll_result))
    (st : state) : bool * state :=
  match current_ps_offer st, ps_has_text st with
  | Some o, true =>
      let '(sel, len, st1) := read_ps_offer o pipe 0 st in
      let st2 := publish_next (Some (default [] sel)) (len_or_zero sel len) st1 in
      let changed :=
        content_changed sel len (last_known_content st) (last_known_len st) in
      (changed, set_last_known (remember sel len) st2)
  | _, _ =>
      match last_known_content st with
      | Some _ =>
          (true, set_last_known (None, 0%N) (publish_next (Some []) 0 st))
      | None => (false, st)
      end
  end.

Definition ps_offer_handle_offer (mime : string) (st : state) : state :=
  if bool_decide (mime = "text/plain;charset=utf-8")
     || bool_decide (mime = "text/plain")
     || bool_decide (mime = "UTF8_STRING")
     || bool_decide (mime = "TEXT")
     || bool_decide (mime = "STRING")
  then set_ps_has_text true st else st.

Definition ps_device_handle_data_offer (o : offer) (st : state) : state :=
  set_ps_has_text false st.

Definition ps_device_handle_selection (o : option offer)
    (pipe : option (list poll_result)) (st : state) : state :=
  let st1 :=
    match current_ps_offer st with
    | Some cur =>
        if bool_decide (Some cur ≠ o) then send (PsOfferDestroy cur) st else st
    | None => st
    end in
  let st2 := set_got_selection true (bump_seq (set_current_ps_offer o st1)) in
  if negb (is_daemon_mode st2) then st2
  else
    match o, ps_has_text st2 with
    | Some off, true =>
        let '(sel, len, st3) := read_ps_offer off pipe 0 st2 in
        let changed :=
          content_changed sel len
            (last_known_content st3) (last_known_len st3) in
        if changed then
          set_last_known (remember sel len)
            (publish_next (Some (default [] sel)) (len_or_zero sel len) st3)
        else st3
    | _, _ =>
        match last_known_content st2 with
        | Some _ => set_last_known (None, 0%N) (publish_next (Some []) 0 st2)
        | None => st2
        end
    end.

Definition clip_offer_handle_offer (mime : string) (st : state) : state :=
  if bool_decide (mime = "text/plain;charset=utf-8")
     || bool_decide (mime = "text/plain")
  then set_clip_has_text true st else st.

Definition dd_handle_data_offer (o : offer) (st : state) : state :=
  set_clip_has_text false st.

Definition dd_handle_selection (o : option offer) (st : state) : state :=
  let st1 :=
    match current_clipboard_offer st with
    | Some cur =>
        if bool_decide (Some cur ≠ o) then send (DataOfferDestroy cur) st
        else st
    | None => st
    end in
  set_current_clipboard_offer o st1.

Definition xdg_toplevel_handle_close (st : state) : state :=
  set_running false st.

(** The listener tables: which handler an event runs.  A selection event
    is entered in the transcript before its handler runs. *)
Definition handle_event (ev : event) (st : state) : state :=
  match ev with
  | PsDataOffer o => ps_device_handle_data_offer o st
  | PsOfferMime _ mime => ps_offer_handle_offer mime st
  | PsSelection o pipe =>
      ps_device_handle_selection o pipe (send (PsSelectionEvent o) st)
  | DataOffer o => dd_handle_data_offer o st
  | DataOfferMime _ mime => clip_offer_handle_offer mime st
  | DataSelection o => dd_handle_selection o (send (DataSelectionEvent o) st)
  | ToplevelClose => xdg_toplevel_handle_close st
  | OtherEvent => st
  end.

(** [wl_display_dispatch_pending] and the dispatching part of
    [wl_display_roundtrip]. *)
Definition dispatch (evs : list event) (st : state) : state :=
  foldl (fun acc ev => handle_event ev acc) st evs.

(** The part of [wayland_disconnect] that concerns offers. *)
Definition wayland_disconnect (st : state) : state :=
  let st1 :=
    match current_ps_offer st with
    | Some cur => set_current_ps_offer None (send (PsOfferDestroy cur) st)
    | None => st
    end in
  match current_clipboard_offer st1 with
  | Some cur =>
      set_current_clipboard_offer None (send (DataOfferDestroy cur) st1)
  | None => st1
  end.

(** *** The daemon *)

(** One pass of the daemon's [while (running)] loop: the events that
    [wl_display_dispatch_pending] finds queued before polling, whether a
    termination signal is delivered during the pass, and how the flush and
    the [poll] turn out. *)
Inductive poll_outcome :=
| FlushError
| PollEintr
| PollError
| PollTimeout (pipe : option (list poll_result))
| PollReadable (evs : option (list event)) (display_error : bool)
| PollNotReadable (display_error : bool).

Record tick := Tick {
  tk_queued : list event;
  tk_signal : bool;
  tk_poll : poll_outcome
}.

(** The body of the loop; [true] stands for [break]. *)
Definition daemon_pass (t : tick) (st : state) : state * bool :=
  let st1 := dispatch (tk_queued t) st in
  let st2 := if tk_signal t then set_running false st1 else st1 in
  match tk_poll t with
  | FlushError => (st2, true)
  | PollEintr => (st2, false)
  | PollError => (st2, true)
  | PollTimeout pipe =>
      match current_ps_offer st2, ps_has_text st2 with
      | Some _, true => (snd (check_and_update_primary pipe st2), false)
      | _, _ => (st2, false)
      end
  | PollReadable None _ => (st2, true)
  | PollReadable (Some evs) display_error => (dispatch evs st2, display_error)
  | PollNotReadable display_error => (st2, display_error)
  end.

Fixpoint event_loop (ticks : list tick) (st : state) : state * bool :=
  if running st then
    match ticks with
    | [] => (st, false)
    | t :: rest =>
        match daemon_pass t st with
        | (st', true) => (st', true)
        | (st', false) => event_loop rest st'
        end
    end
  else (st, true).

Record daemon_env := DaemonEnv {
  connect_ok : bool;
  has_ps_manager : bool;
  has_seat : bool;
  cache_dir_ok : bool;
  now : Z;
  daemonize_ok : bool;
  pid : Z;
  startup_events : list event;
  surface_events : option (list event)
}.

(** The daemon's state when it reaches its event loop, or the exit code of
    a failed start.  [surface_events] is [None] when
    [create_daemon_surface] fails, and otherwise the events its round trips
    dispatch.  Of [daemon(0, 0)] this keeps whether it succeeds: the three
    paths are taken to name the same files before and after it.  The change
    of directory it makes is in [daemon_startup_in] below. *)
Definition daemon_startup (env : daemon_env) (st : state) : Z * state + state :=
  if negb (connect_ok env) then inl (1%Z, st)
  else if negb (has_ps_manager env) then inl (1%Z, wayland_disconnect st)
  else if negb (has_seat env) then inl (1%Z, wayland_disconnect st)
  else if negb (cache_dir_ok env) then inl (1%Z, wayland_disconnect st)
  else
    let seed := (now env mod ULONG_MODULUS)%Z in
    let st1 :=
      set_cache (write_primary (Some []) 0 seed (cache st))
        (set_seq_counter seed (set_is_daemon_mode true st)) in
    if negb (daemonize_ok env) then inl (1%Z, wayland_disconnect st1)
    else
      let st2 := set_cache (write_pid_file (pid env) (cache st1)) st1 in
      let st3 := dispatch (startup_events env) st2 in
      match surface_events env with
      | None => inl (1%Z, wayland_disconnect st3)
      | Some evs => inr (dispatch evs st3)
      end.

Definition run_daemon (env : daemon_env) (ticks : list tick) (st : state)
  : outcome state :=
  match daemon_startup env st with
  | inl (code, st') => Exited code st'
  | inr st1 =>
      match event_loop ticks st1 with
      | (st2, true) =>
          let st3 := wayland_disconnect st2 in
          Exited 0 (set_cache (unlink_cache_files (cache st3)) st3)
      | (st2, false) => Blocked st2
      end
  end.

(** The daemon with its working directory: [run_daemon] as the source has
    it, the change of directory made by [daemon(0, 0)] included.  Next to
    the outcome comes what is left behind in the directory the daemon was
    started on, when the paths move.  [daemon_startup] and [run_daemon]
    above are the case in which the paths name the same files
    throughout. *)
Definition daemon_startup_in (w : workdir) (env : daemon_env) (st : state)
  : (Z * state + state) * option (gmap string (list byte)) :=
  if negb (connect_ok env) then (inl (1%Z, st), None)
  else if negb (has_ps_manager env)
  then (inl (1%Z, wayland_disconnect st), None)
  else if negb (has_seat env) then (inl (1%Z, wayland_disconnect st), None)
  else if negb (cache_dir_ok env)
  then (inl (1%Z, wayland_disconnect st), None)
  else
    let seed := (now env mod ULONG_MODULUS)%Z in
    let st1 :=
      set_cache (write_primary (Some []) 0 seed (cache st))
        (set_seq_counter seed (set_is_daemon_mode true st)) in
    if negb (daemonize_ok env) then (inl (1%Z, wayland_disconnect st1), None)
    else
      let st1' := set_cache (chdir_root w (cache st1)) st1 in
      let st2 := set_cache (write_pid_file (pid env) (cache st1')) st1' in
      let st3 := dispatch (startup_events env) st2 in
      match surface_events env with
      | None => (inl (1%Z, wayland_disconnect st3), left_behind w (cache st1))
      | Some evs => (inr (dispatch evs st3), left_behind w (cache st1))
      end.

Definition run_daemon_in (w : workdir) (env : daemon_env)
    (ticks : list tick) (st : state)
  : outcome state * option (gmap string (list byte)) :=
  match daemon_startup_in w env st with
  | (inl (code, st'), behind) => (Exited code st', behind)
  | (inr st1, behind) =>
      match event_loop ticks st1 with
      | (st2, true) =>
          let st3 := wayland_disconnect st2 in
          (Exited 0 (set_cache (unlink_cache_files (cache st3)) st3), behind)
      | (st2, false) => (Blocked st2, behind)
      end
  end.

(** *** One-shot PRIMARY read *)

Record oneshot_env := OneshotEnv {
  os_connect_ok : bool;
  os_has_ps_manager : bool;
  os_has_seat : bool;
  os_roundtrip : list event;
  os_can_map : bool;
  os_surface_events : list event;
  os_attempts : list (list event);
  os_have_cache : bool;
  os_pipe : option (list poll_result)
}.

(** The [while (!got_selection && attempts < 50)] loop: each entry of
    [polls] is what one readable [poll] dispatches; once they are used up
    every further [poll] times out. *)
Fixpoint oneshot_wait (attempts_left : nat) (polls : list (list event))
    (st : state) : state :=
  match attempts_left with
  | O => st
  | S n =>
      if got_selection st then st
      else
        match polls with
        | [] => st
        | evs :: rest => oneshot_wait n rest (dispatch evs st)
        end
  end.

(** Exit code, bytes written to standard output, final state. *)
Definition run_oneshot (env : oneshot_env) (st : state)
  : Z * list byte * state :=
  if negb (os_connect_ok env) then (1%Z, [], st)
  else if negb (os_has_ps_manager env && os_has_seat env)
  then (1%Z, [], wayland_disconnect st)
  else
    let st1 := dispatch (os_roundtrip env) (set_got_selection false st) in
    let st2 :=
      if negb (got_selection st1) && os_can_map env
      then oneshot_wait 50 (os_attempts env)
             (dispatch (os_surface_events env) st1)
      else st1 in
    match current_ps_offer st2, ps_has_text st2 with
    | Some o, true =>
        let '(data, len, st3) := read_ps_offer o (os_pipe env) 0 st2 in
        match data with
        | Some bytes =>
            if (0 <? len)%N then
              let out := take (N.to_nat len) bytes in
              let st4 :=
                if os_have_cache env then publish_next data len st3 else st3 in
              (0%Z, out, wayland_disconnect st4)
            else (0%Z, [], wayland_disconnect st3)
        | None => (0%Z, [], wayland_disconnect st3)
        end
    | _, _ =>
        let st3 :=
          if os_have_cache env then publish_next (Some []) 0 st2 else st2 in
        (0%Z, [], wayland_disconnect st3)
    end.

(** *** Clipboard helpers *)

Definition run_get_clipboard (connected has_ddm has_seat : bool)
    (roundtrip : list event) (pipe : option (list poll_result)) (st : state)
  : Z * list byte * state :=
  if negb connected then (1%Z, [], st)
  else if negb (has_ddm && has_seat) then (1%Z, [], wayland_disconnect st)
  else
    let st1 := dispatch roundtrip st in
    match current_clipboard_offer st1, clip_has_text st1 with
    | Some o, true =>
        let '(data, len, st2) := read_clip_offer o pipe 0 st1 in
        match data with
        | Some bytes =>
            if (0 <? len)%N
            then (0%Z, take (N.to_nat len) bytes, wayland_disconnect st2)
            else (0%Z, [], wayland_disconnect st2)
        | None => (0%Z, [], wayland_disconnect st2)
        end
    | _, _ => (0%Z, [], wayland_disconnect st1)
    end.

Definition read_all_stdin (reads : list read_result) : option (list byte) * N :=
  read_all_stdin_with alloc_ok MAX_CLIPBOARD_SIZE true reads.

(** [run_copy_clipboard] up to the [fork]. *)
Definition run_copy_clipboard (stdin : list read_result)
    (connected has_ddm has_seat : bool) (fork : fork_result) : copy_result :=
  match read_all_stdin stdin with
  | (None, _) => CopyReturn 1
  | (Some copy_data, copy_data_len) =>
      if (copy_data_len =? 0)%N then CopyReturn 1
      else if negb connected then CopyReturn 1
      else if negb (has_ddm && has_seat) then CopyReturn 1
      else
        match fork with
        | ForkFailed => CopyReturn 1
        | ForkOk => CopyForked 0 (take (N.to_nat copy_data_len) copy_data)
        end
  end.

End Programs.

End Wayland.

(** * The cache directory path ([ensure_cache_dir], the same in both sources)

    Paths are C strings, kept as the bytes before the terminating NUL. *)
Module CacheDir.

(** [snprintf(buf, size, ...)] stores at most [size - 1] bytes of the text. *)
Definition snprintf (size : nat) (text : list byte) : list byte :=
  take (size - 1) text.

(** [(int)getuid()]: a [uid_t] is an unsigned 32-bit integer. *)
Definition int_of_uid (uid : Z) : Z :=
  if (uid <? 2 ^ 31)%Z then uid else (uid - 2 ^ 32)%Z.

Inductive mkdir_result := MkdirOk | MkdirExists | MkdirError.

(** The process environment and the file system, as far as the function
    looks at them: the two variables, the user id, whether [stat] finds
    something at a path and what [mkdir] of a path answers. *)
Record env := Env {
  xdg_runtime_dir : option (list byte);
  home : option (list byte);
  uid : Z;
  stat_ok : list byte → bool;
  mkdir : list byte → mkdir_result
}.

(** The four path buffers of the source. *)
Record paths := Paths {
  cache_dir : list byte;
  primary_path : list byte;
  seq_path : list byte;
  pid_path : list byte
}.

(** What a call leaves behind: the value returned, the path buffers
    ([None] when they were not written), and the directory [mkdir] was
    called on, if it was. *)
Record result := Result {
  ret : Z;
  buffers : option paths;
  mkdir_called : option (list byte)
}.

Definition path_in (dir : list byte) (name : string) : list byte :=
  snprintf 560 (dir ++ list_byte_of_string "/" ++ list_byte_of_string name).

Definition ensure_cache_dir (dir : option (list byte)) (e : env) : result :=
  let chosen :=
    match dir with
    | Some (c :: rest) => Some (snprintf 512 (c :: rest))
    | _ =>
        match xdg_runtime_dir e with
        | None =>
            match home e with
            | None => None
            | Some h =>
                Some (snprintf 512
                        (h ++ list_byte_of_string "/.cache/zsh-edit-select"))
            end
        | Some runtime =>
            Some (snprintf 512
                    (runtime ++ list_byte_of_string "/zsh-edit-select-"
                     ++ fmt_d (int_of_uid (uid e))))
        end
    end in
  match chosen with
  | None => {| ret := -1; buffers := None; mkdir_called := None |}
  | Some cd =>
      let p :=
        {| cache_dir := cd;
           primary_path := path_in cd PRIMARY_FILE;
           seq_path := path_in cd SEQ_FILE;
           pid_path := path_in cd PID_FILE |} in
      if stat_ok e cd
      then {| ret := 0; buffers := Some p; mkdir_called := None |}
      else
        match mkdir e cd with
        | MkdirError =>
            {| ret := -1; buffers := Some p; mkdir_called := Some cd |}
        | _ => {| ret := 0; buffers := Some p; mkdir_called := Some cd |}
        end
  end.

End CacheDir.

(** * The two [main] functions

    [args] is [argv[1]], [argv[2]], ...; a [main] is followed up to the
    [run_...] function it calls, whose return value it returns. *)
Module X11Main.

Record flags := Flags {
  cache_dir_arg : option string;
  oneshot : bool;
  get_clipboard : bool;
  copy_clipboard : bool;
  clear_primary : bool
}.

Definition no_flags : flags :=
  {| cache_dir_arg := None; oneshot := false; get_clipboard := false;
     copy_clipboard := false; clear_primary := false |}.

(** The [for] loop over the arguments; [None] when it meets [--help] or
    [-h], on which [main] prints the usage and returns 0. *)
Fixpoint parse_args (args : list string) (f : flags) : option flags :=
  match args with
  | [] => Some f
  | a :: rest =>
      if bool_decide (a = "--oneshot") then
        parse_args rest
          {| cache_dir_arg := cache_dir_arg f; oneshot := true;
             get_clipboard := get_clipboard f;
             copy_clipboard := copy_clipboard f;
             clear_primary := clear_primary f |}
      else if bool_decide (a = "--get-clipboard") then
        parse_args rest
          {| cache_dir_arg := cache_dir_arg f; oneshot := oneshot f;
             get_clipboard := true;
             copy_clipboard := copy_clipboard f;
             clear_primary := clear_primary f |}
      else if bool_decide (a = "--copy-clipboard") then
        parse_args rest
          {| cache_dir_arg := cache_dir_arg f; oneshot := oneshot f;
             get_clipboard := get_clipboard f;
             copy_clipboard := true;
             clear_primary := clear_primary f |}
      else if bool_decide (a = "--clear-primary") then
        parse_args rest
          {| cache_dir_arg := cache_dir_arg f; oneshot := oneshot f;
             get_clipboard := get_clipboard f;
             copy_clipboard := copy_clipboard f;
             clear_primary := true |}
      else if bool_decide (a = "--help") || bool_decide (a = "-h") then None
      else
        parse_args rest
          {| cache_dir_arg := Some a; oneshot := oneshot f;
             get_clipboard := get_clipboard f;
             copy_clipboard := copy_clipboard f;
             clear_primary := clear_primary f |}
  end.

Inductive call :=
| Return (code : Z)
| RunOneshot
| RunGetClipboard
| RunCopyClipboard
| RunClearPrimary
| RunDaemon (cache_dir_arg : option string).

(** [display_set]: [getenv("DISPLAY")] is not [NULL]; [display_opens]:
    [XOpenDisplay] succeeds. *)
Definition main (display_set display_opens : bool) (args : list string)
  : call :=
  if negb display_set then Return 1
  else
    match parse_args args no_flags with
    | None => Return 0
    | Some f =>
        if negb display_opens then Return 1
        else if oneshot f then RunOneshot
        else if get_clipboard f then RunGetClipboard
        else if copy_clipboard f then RunCopyClipboard
        else if clear_primary f then RunClearPrimary
        else RunDaemon (cache_dir_arg f)
    end.

End X11Main.

Module WaylandMain.

Inductive mode :=
| MODE_DAEMON | MODE_ONESHOT | MODE_GET_CLIP | MODE_COPY_CLIP
| MODE_CLEAR_PRIMARY.

Fixpoint parse_args (args : list string) (cache_dir_arg : option string)
    (m : mode) : option (option string * mode) :=
  match args with
  | [] => Some (cache_dir_arg, m)
  | a :: rest =>
      if bool_decide (a = "--oneshot") then
        parse_args rest cache_dir_arg MODE_ONESHOT
      else if bool_decide (a = "--get-clipboard") then
        parse_args rest cache_dir_arg MODE_GET_CLIP
      else if bool_decide (a = "--copy-clipboard") then
        parse_args rest cache_dir_arg MODE_COPY_CLIP
      else if bool_decide (a = "--clear-primary") then
        parse_args rest cache_dir_arg MODE_CLEAR_PRIMARY
      else if bool_decide (a = "--help") || bool_decide (a = "-h") then None
      else parse_args rest (Some a) m
  end.

Inductive call :=
| Return (code : Z)
| RunOneshot (cache_dir_arg : option string)
| RunGetClipboard
| RunCopyClipboard
| RunClearPrimary
| RunDaemon (cache_dir_arg : option string).

Definition main (args : list string) : call :=
  match parse_args args None MODE_DAEMON with
  | None => Return 0
  | Some (cache_dir_arg, m) =>
      match m with
      | MODE_ONESHOT => RunOneshot cache_dir_arg
      | MODE_GET_CLIP => RunGetClipboard
      | MODE_COPY_CLIP => RunCopyClipboard
      | MODE_CLEAR_PRIMARY => RunClearPrimary
      | MODE_DAEMON => RunDaemon cache_dir_arg
      end
  end.

End WaylandMain.

(** * The Wayland registry and [run_clear_primary] *)
Module Registry.

(** The globals bound from the registry: [None] for [NULL], and otherwise
    the version the object was bound at. *)
Record globals := Globals {
  wl_seat_obj : option N;
  ps_manager : option N;
  wl_ddm : option N;
  wl_comp : option N;
  xdg_wmbase : option N;
  wl_shm_obj : option N
}.

Definition no_globals : globals :=
  {| wl_seat_obj := None; ps_manager := None; wl_ddm := None;
     wl_comp := None; xdg_wmbase := None; wl_shm_obj := None |}.

Definition registry_handle_global (interface : string) (version : N)
    (g : globals) : globals :=
  if bool_decide (interface = "wl_seat") then
    {| wl_seat_obj := Some 2%N; ps_manager := ps_manager g;
       wl_ddm := wl_ddm g; wl_comp := wl_comp g;
       xdg_wmbase := xdg_wmbase g; wl_shm_obj := wl_shm_obj g |}
  else if bool_decide
            (interface = "zwp_primary_selection_device_manager_v1") then
    {| wl_seat_obj := wl_seat_obj g; ps_manager := Some 1%N;
       wl_ddm := wl_ddm g; wl_comp := wl_comp g;
       xdg_wmbase := xdg_wmbase g; wl_shm_obj := wl_shm_obj g |}
  else if bool_decide (interface = "wl_data_device_manager") then
    {| wl_seat_obj := wl_seat_obj g; ps_manager := ps_manager g;
       wl_ddm := Some (if (version <? 3)%N then version else 3%N);
       wl_comp := wl_comp g;
       xdg_wmbase := xdg_wmbase g; wl_shm_obj := wl_shm_obj g |}
  else if bool_decide (interface = "wl_compositor") then
    {| wl_seat_obj := wl_seat_obj g; ps_manager := ps_manager g;
       wl_ddm := wl_ddm g;
       wl_comp := Some (if (version <? 4)%N then version else 4%N);
       xdg_wmbase := xdg_wmbase g; wl_shm_obj := wl_shm_obj g |}
  else if bool_decide (interface = "xdg_wm_base") then
    {| wl_seat_obj := wl_seat_obj g; ps_manager := ps_manager g;
       wl_ddm := wl_ddm g; wl_comp := wl_comp g;
       xdg_wmbase := Some 1%N; wl_shm_obj := wl_shm_obj g |}
  else if bool_decide (interface = "wl_shm") then
    {| wl_seat_obj := wl_seat_obj g; ps_manager := ps_manager g;
       wl_ddm := wl_ddm g; wl_comp := wl_comp g;
       xdg_wmbase := xdg_wmbase g; wl_shm_obj := Some 1%N |}
  else g.

(** [wayland_connect]: [display] is [None] when [wl_display_connect]
    fails, and otherwise the globals (interface, version) that the round
    trip announces, in order. *)
Definition wayland_connect (display : option (list (string * N)))
  : option globals :=
  match display with
  | None => None
  | Some announced =>
      Some (foldl (fun g a => registry_handle_global (fst a) (snd a) g)
              no_globals announced)
  end.

(** [run_clear_primary]: the value returned and whether the request
    [set_selection(NULL)] was made. *)
Definition run_clear_primary (display : option (list (string * N)))
  : Z * bool :=
  match wayland_connect display with
  | None => (1%Z, false)
  | Some g =>
      match ps_manager g, wl_seat_obj g with
      | Some _, Some _ => (0%Z, true)
      | _, _ => (1%Z, false)
      end
  end.

End Registry.

(** * The Wayland clipboard server (the child of [run_copy_clipboard]) *)
Module WaylandCopy.

(** [write(fd, buf, count)]: [r] is what the call would return were
    [count] unbounded; the kernel takes at most [count] bytes.  A failed
    call is given as the kernel returns it, minus the error number. *)
Definition sys_write_ret (count : N) (r : Z) : Z := Z.min r (Z.of_N count).

(** The error number of a [write] to a pipe whose reading end is closed.
    With that error the kernel raises SIGPIPE in the writing process. *)
Definition EPIPE : Z := 32.

(** The [while (written < copy_data_len)] loop of [ds_handle_send]: the
    bytes put on the descriptor from offset [written] on.  [writes] is
    what the successive [write] calls return; when it is used up the next
    call fails.  A call that fails ends the loop; whether it also raises
    SIGPIPE is [write_loop_epipe] below. *)
Fixpoint write_loop (writes : list Z) (copy_data : list byte)
    (copy_data_len written : N) : list byte :=
  if (written <? copy_data_len)%N then
    match writes with
    | [] => []
    | r :: rest =>
        let n := sys_write_ret (copy_data_len - written) r in
        if (n <=? 0)%Z then []
        else
          take (Z.to_nat n) (drop (N.to_nat written) copy_data)
          ++ write_loop rest copy_data copy_data_len (written + Z.to_N n)
    end
  else [].

(** [ds_handle_send]: what the receiver finds on the descriptor, which is
    closed in every case. *)
Definition ds_handle_send (copy_data : option (list byte))
    (copy_data_len : N) (writes : list Z) : list byte :=
  match copy_data with
  | Some data =>
      if (0 <? copy_data_len)%N then write_loop writes data copy_data_len 0
      else []
  | None => []
  end.

(** Whether the loop of [ds_handle_send] makes a [write] that fails with
    [EPIPE]; it is then the last call of the loop. *)
Fixpoint write_loop_epipe (writes : list Z) (copy_data_len written : N)
  : bool :=
  if (written <? copy_data_len)%N then
    match writes with
    | [] => false
    | r :: rest =>
        let n := sys_write_ret (copy_data_len - written) r in
        if (n <=? 0)%Z then (r =? - EPIPE)%Z
        else write_loop_epipe rest copy_data_len (written + Z.to_N n)
    end
  else false.

Definition ds_handle_send_epipe (copy_data : option (list byte))
    (copy_data_len : N) (writes : list Z) : bool :=
  match copy_data with
  | Some _ =>
      if (0 <? copy_data_len)%N then write_loop_epipe writes copy_data_len 0
      else false
  | None => false
  end.

(** The events of the server: those of its data source, and those of the
    data device and its offers, which run the handlers of
    [Wayland.handle_event]. *)
Inductive event :=
| DsTarget
| DsSend (mime : string) (writes : list Z)
| DsCancelled
| Device (ev : Wayland.event).

(** The globals the server uses next to those of [Wayland.state], and what
    each [send] request was answered with, oldest first. *)
Record child := Child {
  base : Wayland.state;
  copy_source : bool;
  copy_done : bool;
  sent : list (string * list byte)
}.

Definition child_start (st : Wayland.state) : child :=
  {| base := st; copy_source := true; copy_done := false; sent := [] |}.

Inductive poll_outcome :=
| FlushError
| PollEintr
| PollError
| PollTimeout
| PollReadable (evs : option (list event)) (display_error : bool)
| PollNotReadable (display_error : bool).

Record tick := Tick {
  tk_queued : list event;
  tk_signal : bool;
  tk_poll : poll_outcome
}.

(** How a pass of the loop ends, and how the server ends: by leaving its
    loop and calling [_exit], or killed by SIGPIPE inside a handler. *)
Inductive pass_end := Continue | Break | Killed.

Inductive child_end :=
| Ended (o : outcome child)
| KilledBySigpipe (c : child).

Section Programs.

Variable alloc_ok : N → bool.
Variable copy_data : option (list byte).
Variable copy_data_len : N.

Definition ds_handle_cancelled (c : child) : child :=
  {| base := base c; copy_source := false; copy_done := true;
     sent := sent c |}.

Definition handle_event (ev : event) (c : child) : child :=
  match ev with
  | DsTarget => c
  | DsSend mime writes =>
      {| base := base c; copy_source := copy_source c;
         copy_done := copy_done c;
         sent :=
           sent c ++ [(mime, ds_handle_send copy_data copy_data_len writes)] |}
  | DsCancelled => ds_handle_cancelled c
  | Device ev' =>
      {| base := Wayland.handle_event alloc_ok ev' (base c);
         copy_source := copy_source c; copy_done := copy_done c;
         sent := sent c |}
  end.

Definition dispatch (evs : list event) (c : child) : child :=
  foldl (fun acc ev => handle_event ev acc) c evs.

Definition signalled (c : child) : child :=
  {| base := Wayland.set_running false (base c);
     copy_source := copy_source c; copy_done := copy_done c;
     sent := sent c |}.

(** The body of the loop; [true] stands for [break]. *)
Definition child_pass (t : tick) (c : child) : child * bool :=
  let c1 := dispatch (tk_queued t) c in
  let c2 := if tk_signal t then signalled c1 else c1 in
  match tk_poll t with
  | FlushError => (c2, true)
  | PollEintr => (c2, false)
  | PollError => (c2, true)
  | PollTimeout => (c2, false)
  | PollReadable None _ => (c2, true)
  | PollReadable (Some evs) display_error => (dispatch evs c2, display_error)
  | PollNotReadable display_error => (c2, display_error)
  end.

(** The [while (running && !copy_done)] loop; [true] when it was left. *)
Fixpoint serve_loop (ticks : list tick) (c : child) : child * bool :=
  if Wayland.running (base c) && negb (copy_done c) then
    match ticks with
    | [] => (c, false)
    | t :: rest =>
        match child_pass t c with
        | (c', true) => (c', true)
        | (c', false) => serve_loop rest c'
        end
    end
  else (c, true).

(** The child from the [fork] on: it disconnects and calls [_exit(0)] once
    the loop is left. *)
Definition run_child (ticks : list tick) (st : Wayland.state)
  : outcome child :=
  match serve_loop ticks (child_start st) with
  | (c, true) =>
      Exited 0
        {| base := Wayland.wayland_disconnect (base c);
           copy_source := copy_source c; copy_done := copy_done c;
           sent := sent c |}
  | (c, false) => Blocked c
  end.

(** *** SIGPIPE

    The server installs handlers for SIGTERM and SIGINT and ignores
    SIGHUP; SIGPIPE keeps the disposition the process inherits.
    [sigpipe_kills] says that this is the default one, under which a
    [write] to a pipe that its reader has closed ends the process there
    and then: the handler does not return, nothing more is dispatched and
    [_exit(0)] is not reached.  [serve_loop] and [run_child] above are the
    server as long as no [write] meets a closed pipe. *)
Definition raises_sigpipe (ev : event) : bool :=
  match ev with
  | DsSend _ writes => ds_handle_send_epipe copy_data copy_data_len writes
  | _ => false
  end.

(** Dispatching up to the event whose handler is killed; [true] when there
    is one. *)
Fixpoint dispatch_sig (sigpipe_kills : bool) (evs : list event) (c : child)
  : child * bool :=
  match evs with
  | [] => (c, false)
  | ev :: rest =>
      let c' := handle_event ev c in
      if sigpipe_kills && raises_sigpipe ev then (c', true)
      else dispatch_sig sigpipe_kills rest c'
  end.

Definition child_pass_sig (sigpipe_kills : bool) (t : tick) (c : child)
  : child * pass_end :=
  match dispatch_sig sigpipe_kills (tk_queued t) c with
  | (c1, true) => (c1, Killed)
  | (c1, false) =>
      let c2 := if tk_signal t then signalled c1 else c1 in
      match tk_poll t with
      | FlushError => (c2, Break)
      | PollEintr => (c2, Continue)
      | PollError => (c2, Break)
      | PollTimeout => (c2, Continue)
      | PollReadable None _ => (c2, Break)
      | PollReadable (Some evs) display_error =>
          match dispatch_sig sigpipe_kills evs c2 with
          | (c3, true) => (c3, Killed)
          | (c3, false) => (c3, if display_error then Break else Continue)
          end
      | PollNotReadable display_error =>
          (c2, if display_error then Break else Continue)
      end
  end.

(** The loop: [Break] when it was left, [Continue] when the environment
    has nothing more to deliver, [Killed] when the process was killed. *)
Fixpoint serve_loop_sig (sigpipe_kills : bool) (ticks : list tick)
    (c : child) : child * pass_end :=
  if Wayland.running (base c) && negb (copy_done c) then
    match ticks with
    | [] => (c, Continue)
    | t :: rest =>
        match child_pass_sig sigpipe_kills t c with
        | (c', Continue) => serve_loop_sig sigpipe_kills rest c'
        | (c', e) => (c', e)
        end
    end
  else (c, Break).

Definition run_child_sig (sigpipe_kills : bool) (ticks : list tick)
    (st : Wayland.state) : child_end :=
  match serve_loop_sig sigpipe_kills ticks (child_start st) with
  | (c, Break) =>
      Ended
        (Exited 0
           {| base := Wayland.wayland_disconnect (base c);
              copy_source := copy_source c; copy_done := copy_done c;
              sent := sent c |})
  | (c, Continue) => Ended (Blocked c)
  | (c, Killed) => KilledBySigpipe c
  end.

End Programs.

End WaylandCopy.

(** * Notions used to state the properties *)

(** [cut_of source cap data len]: the pair ([data], [len]) handed back by a
    reader is a prefix of what the source delivers, of [len <= cap] bytes
    ([NULL] comes with [len = 0]). *)
Definition cut_of (source : list byte) (cap : N)
    (data : option (list byte)) (len : N) : Prop :=
  (len ≤ cap)%N
  ∧ match data with
    | Some bytes => len = N.of_nat (length bytes) ∧ bytes `prefix_of` source
    | None => len = 0%N
    end.

(** The exit status of the process that called [run_copy_clipboard]. *)
Definition copy_exit_code (r : copy_result) : Z :=
  match r with
  | CopyReturn code => code
  | CopyForked parent_code _ => parent_code
  end.

(** What a pipe delivers: nothing when [pipe()] itself fails. *)
Definition pipe_bytes (pipe : option (list poll_result)) : list byte :=
  match pipe with
  | Some polls => delivered_polls polls
  | None => []
  end.

(** A call that hands back a full block of 4096 bytes. *)
Definition full_block (r : read_result) : bool :=
  match r with
  | ReadData bs => 4096 <=? length bs
  | _ => false
  end.

Definition full_poll (p : poll_result) : bool :=
  match p with
  | PollIn r => full_block r
  | _ => false
  end.

(** A pass of the clipboard server's loop that brings no selection
    request, and one that brings nothing at all. *)
Definition no_request (t : X11.tick) : Prop :=
  Forall (fun ev => ∀ target, ev ≠ X11.SelectionRequest target)
    (X11.tk_pending t).

Definition idle (t : X11.tick) : Prop :=
  X11.tk_pending t = [] ∧ X11.tk_signal t = false.

(** The offers the client holds according to the transcript: an offer is
    taken when a selection event delivers it and given up when the client
    destroys it. *)
Definition held_ps_step (held : gset Wayland.offer) (m : Wayland.message)
  : gset Wayland.offer :=
  match m with
  | Wayland.PsSelectionEvent (Some o) => held ∪ {[o]}
  | Wayland.PsOfferDestroy o => held ∖ {[o]}
  | _ => held
  end.

Definition held_clip_step (held : gset Wayland.offer) (m : Wayland.message)
  : gset Wayland.offer :=
  match m with
  | Wayland.DataSelectionEvent (Some o) => held ∪ {[o]}
  | Wayland.DataOfferDestroy o => held ∖ {[o]}
  | _ => held
  end.

Definition held_ps (wire : list Wayland.message) : gset Wayland.offer :=
  foldl held_ps_step ∅ wire.

Definition held_clip (wire : list Wayland.message) : gset Wayland.offer :=
  foldl held_clip_step ∅ wire.

Definition current_set (o : option Wayland.offer) : gset Wayland.offer :=
  match o with
  | Some x => {[x]}
  | None => ∅
  end.

(** The offers held are exactly the tracked ones, one per device at most. *)
Definition offers_tracked (st : Wayland.state) : Prop :=
  held_ps (Wayland.wire st) = current_set (Wayland.current_ps_offer st)
  ∧ held_clip (Wayland.wire st)
    = current_set (Wayland.current_clipboard_offer st).

Definition is_receive (m : Wayland.message) : Prop :=
  match m with
  | Wayland.PsOfferReceive _ _ | Wayland.DataOfferReceive _ _ => True
  | _ => False
  end.

(** The final state of a run, however it ended. *)
Definition final_state {S : Type} (r : outcome S) : S :=
  match r with
  | Exited _ st => st
  | Blocked st => st
  end.

(** The MIME types that set [ps_has_text]. *)
Definition accepted_mime (mime : string) : Prop :=
  In mime ["text/plain;charset=utf-8"; "text/plain"; "UTF8_STRING"; "TEXT";
           "STRING"]%string.

(** The requests the inner loop of the X11 clipboard server answers in one
    pass: those queued ahead of the first [SelectionClear]. *)
Fixpoint requests_before_clear (evs : list X11.xevent) : list X11.atom :=
  match evs with
  | [] => []
  | X11.SelectionRequest target :: rest => target :: requests_before_clear rest
  | X11.SelectionClear :: _ => []
  | _ :: rest => requests_before_clear rest
  end.

(** What a reply of the X11 server can be, for the bytes [data] it holds. *)
Definition reply_for (data : list byte) (r : X11.reply) : Prop :=
  ∃ target, r = X11.handle_selection_request target data.

(** The bytes the receiver of a [send] request takes in all, when each
    [write] would take what [writes] says. *)
Definition total_accepted (writes : list Z) : Z := foldr Z.add 0%Z writes.

(** A pass of the Wayland clipboard server in which nothing happens: no
    event, no signal, and a [poll] that times out or is interrupted. *)
Definition quiet_pass (t : WaylandCopy.tick) : Prop :=
  WaylandCopy.tk_queued t = []
  ∧ WaylandCopy.tk_signal t = false
  ∧ (WaylandCopy.tk_poll t = WaylandCopy.PollTimeout
     ∨ WaylandCopy.tk_poll t = WaylandCopy.PollEintr).

(** A pass that dispatches the [cancelled] event of the data source. *)
Definition cancelling_pass (t : WaylandCopy.tick) : Prop :=
  In WaylandCopy.DsCancelled (WaylandCopy.tk_queued t)
  ∨ ∃ evs display_error,
      WaylandCopy.tk_poll t
      = WaylandCopy.PollReadable (Some evs) display_error
      ∧ In WaylandCopy.DsCancelled evs.

(** Everything the Wayland clipboard server has put on a descriptor so far
    is a prefix of the bytes it holds. *)
Definition sent_ok (data : list byte) (c : WaylandCopy.child) : Prop :=
  Forall (fun e => e.2 `prefix_of` data) (WaylandCopy.sent c).

(** The text of a sequence value in the [seq] file, and the texts that a
    trace of system calls has written to that file, oldest first. *)
Definition seq_text (seq : Z) : list byte := fmt_lu seq ++ [newline].

Definition seq_written (c : syscall) : option (list byte) :=
  match c with
  | SysWrite p bs => if bool_decide (p = SEQ_FILE) then Some bs else None
  | _ => None
  end.

Definition seq_writes (tr : list syscall) : list (list byte) :=
  omap seq_written tr.

(** A strictly increasing list of numbers. *)
Fixpoint increasing (vs : list Z) : Prop :=
  match vs with
  | [] => True
  | v :: rest => Forall (fun w => (v < w)%Z) rest ∧ increasing rest
  end.

(** What a daemon does to its counter and its cache directory, in at most
    [n] increments of the counter: [seq_counter++], alone or followed by a
    publish under the new value, and the writing of the pid file. *)
Inductive counter_steps : nat → Z * disk → Z * disk → Prop :=
| steps_done n x : counter_steps n x x
| steps_bump n s d y :
    counter_steps n (ulong_incr s, d) y → counter_steps (S n) (s, d) y
| steps_publish n s d data len y :
    counter_steps n (ulong_incr s, write_primary data len (ulong_incr s) d) y →
    counter_steps (S n) (s, d) y
| steps_pid n s d pid y :
    counter_steps n (s, write_pid_file pid d) y → counter_steps n (s, d) y.

(** The counter and the cache directory of a daemon. *)
Definition x11_counter (st : X11.state) : Z * disk :=
  (X11.seq_counter st, X11.cache st).

Definition wl_counter (st : Wayland.state) : Z * disk :=
  (Wayland.seq_counter st, Wayland.cache st).

(** How many increments a pass of the Wayland daemon's loop can make at
    most: two for each event it dispatches and one for a poll timeout. *)
Definition pass_weight (t : Wayland.tick) : nat :=
  2 * length (Wayland.tk_queued t)
  + match Wayland.tk_poll t with
    | Wayland.PollTimeout _ => 1
    | Wayland.PollReadable (Some evs) _ => 2 * length evs
    | _ => 0
    end.

Definition passes_weight (ticks : list Wayland.tick) : nat :=
  foldr (fun t acc => pass_weight t + acc) 0 ticks.

Definition wl_run_weight (env : Wayland.daemon_env)
    (ticks : list Wayland.tick) : nat :=
  2 * length (Wayland.startup_events env)
  + 2 * length (default [] (Wayland.surface_events env))
  + passes_weight ticks.

(** The cache directory never shows a [seq] file without a [primary]
    file. *)
Definition seq_has_primary (d : disk) : Prop :=
  is_Some (files d !! SEQ_FILE) → is_Some (files d !! PRIMARY_FILE).

(** The Wayland daemon's copy of the selection agrees with the [primary]
    file, in a cache directory whose two files can be written. *)
Definition mirrors_primary (st : Wayland.state) : Prop :=
  files (Wayland.cache st) !! PRIMARY_FILE
  = Some (default [] (Wayland.last_known_content st))
  ∧ Wayland.last_known_len st
    = N.of_nat (length (default [] (Wayland.last_known_content st)))
  ∧ (PRIMARY_FILE ∉ denied (Wayland.cache st))
  ∧ (SEQ_FILE ∉ denied (Wayland.cache st))
  ∧ Wayland.is_daemon_mode st = true.

(** X11 daemon: the inputs that are a change of PRIMARY, and the answer to
    the selection read of the last of them ([x0] when there is none). *)
Definition is_primary_event (i : X11.daemon_input) : bool :=
  match i with
  | X11.Event (X11.XFixesSelectionNotify selection) _ =>
      bool_decide (selection = X11.XA_PRIMARY)
  | _ => false
  end.

Definition primary_events (inputs : list X11.daemon_input) : nat :=
  length (List.filter is_primary_event inputs).

Fixpoint last_primary_reply (inputs : list X11.daemon_input)
    (x0 : X11.xsel_reply) : X11.xsel_reply :=
  match inputs with
  | [] => x0
  | i :: rest =>
      last_primary_reply rest
        (match i with
         | X11.Event _ x => if is_primary_event i then x else x0
         | X11.Signal => x0
         end)
  end.

(** The state of the X11 daemon after [k] publishes on top of the seed,
    the last of them of what the read answered by [x] obtained. *)
Definition x11_published (alloc_ok : N → bool) (seed : Z) (k : nat)
    (x : X11.xsel_reply) (st : X11.state) : Prop :=
  X11.seq_counter st = ((seed + Z.of_nat k) mod ULONG_MODULUS)%Z
  ∧ files (X11.cache st) !! SEQ_FILE = Some (seq_text (X11.seq_counter st))
  ∧ files (X11.cache st) !! PRIMARY_FILE
    = Some (default [] (X11.get_primary_selection alloc_ok x).1)
  ∧ (PRIMARY_FILE ∉ denied (X11.cache st))
  ∧ (SEQ_FILE ∉ denied (X11.cache st)).

(** The PRIMARY selection events among the events of a Wayland
    connection. *)
Definition is_ps_selection (ev : Wayland.event) : bool :=
  match ev with
  | Wayland.PsSelection _ _ => true
  | _ => false
  end.

Definition ps_selections (evs : list Wayland.event) : nat :=
  length (List.filter is_ps_selection evs).

(** The state in which the one-shot read looks for an offer: after the
    round trip and, when that brought no selection event and a surface can
    be mapped, after the wait for one. *)
Definition oneshot_offer_state (alloc_ok : N → bool)
    (env : Wayland.oneshot_env) (st : Wayland.state) : Wayland.state :=
  let st1 :=
    Wayland.dispatch alloc_ok (Wayland.os_roundtrip env)
      (Wayland.set_got_selection false st) in
  if negb (Wayland.got_selection st1) && Wayland.os_can_map env
  then Wayland.oneshot_wait alloc_ok 50 (Wayland.os_attempts env)
         (Wayland.dispatch alloc_ok (Wayland.os_surface_events env) st1)
  else st1.

(** Every event a one-shot run can be sent. *)
Definition oneshot_events (env : Wayland.oneshot_env) : list Wayland.event :=
  Wayland.os_roundtrip env ++ Wayland.os_surface_events env
  ++ concat (Wayland.os_attempts env).

(** A process that is not the daemon, [k] selection events after its
    start on the cache directory [d]. *)
Definition counted (d : disk) (k : nat) (st : Wayland.state) : Prop :=
  Wayland.cache st = d
  ∧ Wayland.is_daemon_mode st = false
  ∧ Wayland.seq_counter st = (Z.of_nat k mod ULONG_MODULUS)%Z.

(** The MIME types that set [clip_has_text], and the events by which a
    compositor announces a clipboard offer advertising [mimes]. *)
Definition plain_text_mime (mime : string) : bool :=
  bool_decide (mime = "text/plain;charset=utf-8")
  || bool_decide (mime = "text/plain").

Definition clipboard_offer (o : Wayland.offer) (mimes : list string)
  : list Wayland.event :=
  Wayland.DataOffer o :: map (Wayland.DataOfferMime o) mimes
  ++ [Wayland.DataSelection (Some o)].

(** Command lines.  An argument is a help flag, one of the four mode
    flags, or anything else, which is taken as the cache directory. *)
Definition is_help (a : string) : bool :=
  bool_decide (a = "--help") || bool_decide (a = "-h").

Definition has_flag (flag : string) (args : list string) : bool :=
  existsb (fun a => bool_decide (a = flag)) args.

Definition is_cache_dir_arg (a : string) : bool :=
  negb (bool_decide (a = "--oneshot"))
  && negb (bool_decide (a = "--get-clipboard"))
  && negb (bool_decide (a = "--copy-clipboard"))
  && negb (bool_decide (a = "--clear-primary"))
  && negb (is_help a).

Definition last_cache_dir_arg (args : list string) : option string :=
  last (List.filter is_cache_dir_arg args).

Definition mode_of_flag (a : string) : option WaylandMain.mode :=
  if bool_decide (a = "--oneshot") then Some WaylandMain.MODE_ONESHOT
  else if bool_decide (a = "--get-clipboard")
  then Some WaylandMain.MODE_GET_CLIP
  else if bool_decide (a = "--copy-clipboard")
  then Some WaylandMain.MODE_COPY_CLIP
  else if bool_decide (a = "--clear-primary")
  then Some WaylandMain.MODE_CLEAR_PRIMARY
  else None.

Definition last_mode_flag (args : list string) : option WaylandMain.mode :=
  last (omap mode_of_flag args).

(** The function [main] calls, without the argument it passes. *)
Definition x11_function (c : X11Main.call) : X11Main.call :=
  match c with
  | X11Main.RunDaemon _ => X11Main.RunDaemon None
  | other => other
  end.

(** The function the Wayland [main] calls in a given mode. *)
Definition wl_call (m : WaylandMain.mode) (cache_dir_arg : option string)
  : WaylandMain.call :=
  match m with
  | WaylandMain.MODE_ONESHOT => WaylandMain.RunOneshot cache_dir_arg
  | WaylandMain.MODE_GET_CLIP => WaylandMain.RunGetClipboard
  | WaylandMain.MODE_COPY_CLIP => WaylandMain.RunCopyClipboard
  | WaylandMain.MODE_CLEAR_PRIMARY => WaylandMain.RunClearPrimary
  | WaylandMain.MODE_DAEMON => WaylandMain.RunDaemon cache_dir_arg
  end.

(** A compositor announces a global of the given interface. *)
Definition announces (interface : string) (announced : list (string * N))
  : Prop :=
  ∃ version, (interface, version) ∈ announced.

(** The same answers and the same environment, with the polling cut after
    the [n] first tries. *)
Definition first_checks (n : nat) (x : X11.xsel_reply) : X11.xsel_reply :=
  {| X11.xs_owner := X11.xs_owner x;
     X11.xs_checks := take n (X11.xs_checks x);
     X11.xs_property := X11.xs_property x;
     X11.xs_value := X11.xs_value x |}.

Definition first_attempts (n : nat) (env : Wayland.oneshot_env)
  : Wayland.oneshot_env :=
  {| Wayland.os_connect_ok := Wayland.os_connect_ok env;
     Wayland.os_has_ps_manager := Wayland.os_has_ps_manager env;
     Wayland.os_has_seat := Wayland.os_has_seat env;
     Wayland.os_roundtrip := Wayland.os_roundtrip env;
     Wayland.os_can_map := Wayland.os_can_map env;
     Wayland.os_surface_events := Wayland.os_surface_events env;
     Wayland.os_attempts := take n (Wayland.os_attempts env);
     Wayland.os_have_cache := Wayland.os_have_cache env;
     Wayland.os_pipe := Wayland.os_pipe env |}.

(** A cache directory reached from another by publishes only. *)
Inductive publishes : disk → disk → Prop :=
| publishes_refl d : publishes d d
| publishes_step d data len seq d' :
    publishes (write_primary data len seq d) d' → publishes d d'.

(** The trace of [d'] continues that of [d] without any [unlink]. *)
Definition no_unlink_since (d d' : disk) : Prop :=
  ∃ calls,
    trace d' = trace d ++ calls
    ∧ Forall (fun c => ∀ p, c ≠ SysUnlink p) calls.

(** A pass of the Wayland daemon's loop in which the connection fails:
    the flush, the [poll] or the reading of events fails, or the display
    reports an error afterwards. *)
Definition breaking_pass (t : Wayland.tick) : Prop :=
  match Wayland.tk_poll t with
  | Wayland.FlushError | Wayland.PollError => True
  | Wayland.PollReadable None _ => True
  | Wayland.PollReadable (Some _) display_error => display_error = true
  | Wayland.PollNotReadable display_error => display_error = true
  | _ => False
  end.

(** System calls in which every file opened is written, if at all, and
    closed before anything else is done: no descriptor is left open and
    no two are open at once. *)
Inductive closed_calls : list syscall → Prop :=
| closed_nil : closed_calls []
| closed_failed p calls :
    closed_calls calls → closed_calls (SysOpen p false :: calls)
| closed_session p writes calls :
    closed_calls calls →
    closed_calls
      (SysOpen p true :: map (SysWrite p) writes ++ SysClose p :: calls)
| closed_unlink p calls :
    closed_calls calls → closed_calls (SysUnlink p :: calls).

Definition cache_file (p : string) : Prop :=
  p = PRIMARY_FILE ∨ p = SEQ_FILE ∨ p = PID_FILE.

(** The trace of [d'] continues that of [d] by such calls, made on the
    three cache files only. *)
Definition orderly_since (d d' : disk) : Prop :=
  ∃ calls,
    trace d' = trace d ++ calls
    ∧ closed_calls calls
    ∧ Forall (fun c => cache_file (syscall_path c)) calls.

(** A transcript in which every request made on an offer, [receive] or
    [destroy], is made on an offer held at that point: none on an offer
    that was destroyed before or never delivered.  [ps] and [clip] are the
    offers held at the start. *)
Definition request_on_held (ps clip : gset Wayland.offer)
    (m : Wayland.message) : Prop :=
  match m with
  | Wayland.PsOfferDestroy o | Wayland.PsOfferReceive o _ => o ∈ ps
  | Wayland.DataOfferDestroy o | Wayland.DataOfferReceive o _ => o ∈ clip
  | _ => True
  end.

Fixpoint wire_safe_from (ps clip : gset Wayland.offer)
    (w : list Wayland.message) : Prop :=
  match w with
  | [] => True
  | m :: rest =>
      request_on_held ps clip m
      ∧ wire_safe_from (held_ps_step ps m) (held_clip_step clip m) rest
  end.

Definition wire_safe (w : list Wayland.message) : Prop :=
  wire_safe_from ∅ ∅ w.

(** The invariant of a Wayland connection: the offers held are the tracked
    ones and the transcript so far is safe. *)
Definition offers_safe (st : Wayland.state) : Prop :=
  offers_tracked st ∧ wire_safe (Wayland.wire st).

(** The files of the cache directory, the one the daemon was started on
    and made its initial publish in, at the end of a run: what the change
    of directory left behind when the paths moved, and otherwise what the
    paths name. *)
Definition cache_directory_after {S : Type} (cache : S → disk)
    (r : outcome S * option (gmap string (list byte)))
  : gmap string (list byte) :=
  match r.2 with
  | Some fs => fs
  | None => files (cache (final_state r.1))
  end.

(** None of the three rendezvous files is there. *)
Definition cache_files_gone (fs : gmap string (list byte)) : Prop :=
  fs !! PRIMARY_FILE = None ∧ fs !! SEQ_FILE = None ∧ fs !! PID_FILE = None.

(** A pass of the Wayland clipboard server in which no [send] request
    meets a pipe that its receiver has closed. *)
Definition no_sigpipe (copy_data : option (list byte)) (copy_data_len : N)
    (t : WaylandCopy.tick) : Prop :=
  Forall (fun ev => WaylandCopy.raises_sigpipe copy_data copy_data_len ev
                    = false)
    (WaylandCopy.tk_queued t)
  ∧ ∀ evs display_error,
      WaylandCopy.tk_poll t
      = WaylandCopy.PollReadable (Some evs) display_error →
      Forall (fun ev => WaylandCopy.raises_sigpipe copy_data copy_data_len ev
                        = false) evs.

(** Whether the signal can do harm in a run: it is at its default
    disposition and some pass raises it. *)
Definition sigpipe_free (sigpipe_kills : bool)
    (copy_data : option (list byte)) (copy_data_len : N)
    (ticks : list WaylandCopy.tick) : Prop :=
  sigpipe_kills = false ∨ Forall (no_sigpipe copy_data copy_data_len) ticks.

(** * Concrete inputs *)

Definition always_alloc : N → bool := fun _ => true.

Definition hello : list byte := list_byte_of_string "hello".

Definition empty_disk : disk := {| files := ∅; denied := ∅; trace := [] |}.

(** A cache directory whose [primary] cannot be opened for writing. *)
Definition locked_disk : disk :=
  {| files := <[PRIMARY_FILE := list_byte_of_string "old"]>
                (<[SEQ_FILE := list_byte_of_string "41"]> ∅);
     denied := {[PRIMARY_FILE]};
     trace := [] |}.

(** 1025 full blocks: 4 MiB and 4 KiB of input. *)
Definition block : list byte := replicate 4096 "a"%byte.
Definition big_stdin : list read_result := replicate 1025 (ReadData block).

(** X11: a selection owner that answers with "hello", and no owner. *)
Definition x_hello : X11.xsel_reply :=
  {| X11.xs_owner := true; X11.xs_checks := [false; true];
     X11.xs_property := true; X11.xs_value := Some hello |}.

Definition x_none : X11.xsel_reply :=
  {| X11.xs_owner := false; X11.xs_checks := [];
     X11.xs_property := false; X11.xs_value := None |}.

Definition x_env : X11.daemon_env :=
  {| X11.cache_dir_ok := true; X11.xfixes_ok := true;
     X11.now := 1700000000; X11.daemonize_ok := true; X11.pid := 4242;
     X11.startup_reply := x_none |}.

Definition primary_changed : X11.daemon_input :=
  X11.Event (X11.XFixesSelectionNotify X11.XA_PRIMARY) x_hello.

Definition idle_tick : X11.tick :=
  {| X11.tk_pending := []; X11.tk_signal := false |}.

Definition request_tick : X11.tick :=
  {| X11.tk_pending := [X11.SelectionRequest X11.XA_UTF8_STRING];
     X11.tk_signal := false |}.

(** Wayland: a client that offers "hello" as text under a given offer. *)
Definition hello_pipe : list poll_result :=
  [PollIn (ReadData hello); PollIn ReadEof].

Definition selection_of (o : Wayland.offer) : list Wayland.event :=
  [Wayland.PsDataOffer o;
   Wayland.PsOfferMime o "text/plain;charset=utf-8";
   Wayland.PsSelection (Some o) (Some hello_pipe)].

Definition readable (evs : list Wayland.event) : Wayland.tick :=
  {| Wayland.tk_queued := []; Wayland.tk_signal := false;
     Wayland.tk_poll := Wayland.PollReadable (Some evs) false |}.

Definition wl_env : Wayland.daemon_env :=
  {| Wayland.connect_ok := true; Wayland.has_ps_manager := true;
     Wayland.has_seat := true; Wayland.cache_dir_ok := true;
     Wayland.now := 1700000000; Wayland.daemonize_ok := true;
     Wayland.pid := 4242; Wayland.startup_events := [];
     Wayland.surface_events := Some [] |}.

(** A one-shot run right after clear-primary: the compositor reports a
    null selection. *)
Definition cleared_env : Wayland.oneshot_env :=
  {| Wayland.os_connect_ok := true; Wayland.os_has_ps_manager := true;
     Wayland.os_has_seat := true;
     Wayland.os_roundtrip := [Wayland.PsSelection None None];
     Wayland.os_can_map := true; Wayland.os_surface_events := [];
     Wayland.os_attempts := []; Wayland.os_have_cache := false;
     Wayland.os_pipe := None |}.

(** One megabyte of input that arrives as one byte, 255 full blocks and a
    last read of 4095 bytes. *)
Definition ragged_stdin : list read_result :=
  ReadData ["a"%byte] :: replicate 255 (ReadData block)
  ++ [ReadData (replicate 4095 "a"%byte)].

(** Wayland clipboard server: a pass in which the [poll] times out, and one
    in which the compositor cancels the data source. *)
Definition quiet_tick : WaylandCopy.tick :=
  {| WaylandCopy.tk_queued := []; WaylandCopy.tk_signal := false;
     WaylandCopy.tk_poll := WaylandCopy.PollTimeout |}.

Definition cancel_tick : WaylandCopy.tick :=
  {| WaylandCopy.tk_queued := []; WaylandCopy.tk_signal := false;
     WaylandCopy.tk_poll :=
       WaylandCopy.PollReadable (Some [WaylandCopy.DsCancelled]) false |}.

(** A cache directory, empty so far, in which [seq] cannot be opened for
    writing. *)
Definition seq_locked_disk : disk :=
  {| files := ∅; denied := {[SEQ_FILE]}; trace := [] |}.

(** X11: a change of the CLIPBOARD selection. *)
Definition clipboard_changed : X11.daemon_input :=
  X11.Event (X11.XFixesSelectionNotify X11.XA_CLIPBOARD) x_hello.

(** [ensure_cache_dir]: an environment with neither [XDG_RUNTIME_DIR] nor
    [HOME], in which no path exists and [mkdir] succeeds; and the path
    buffers after a call with the argument [/tmp/zes]. *)
Definition bare_env : CacheDir.env :=
  {| CacheDir.xdg_runtime_dir := None; CacheDir.home := None;
     CacheDir.uid := 1000; CacheDir.stat_ok := fun _ => false;
     CacheDir.mkdir := fun _ => CacheDir.MkdirOk |}.

Definition tmp_paths : CacheDir.paths :=
  default (CacheDir.Paths [] [] [] [])
    (CacheDir.buffers
       (CacheDir.ensure_cache_dir (Some (list_byte_of_string "/tmp/zes"))
          bare_env)).

(** X11: an owner that answers with "hello", but only at the 101st check
    for the notification. *)
Definition x_slow : X11.xsel_reply :=
  {| X11.xs_owner := true; X11.xs_checks := replicate 100 false ++ [true];
     X11.xs_property := true; X11.xs_value := Some hello |}.

(** The usual environment of a session: both variables set. *)
Definition runtime_env : CacheDir.env :=
  {| CacheDir.xdg_runtime_dir := Some (list_byte_of_string "/run/user/1000");
     CacheDir.home := Some (list_byte_of_string "/home/u");
     CacheDir.uid := 1000; CacheDir.stat_ok := fun _ => true;
     CacheDir.mkdir := fun _ => CacheDir.MkdirExists |}.

(** Wayland: a start in which everything succeeds but the creation of the
    daemon's surface. *)
Definition no_surface_env : Wayland.daemon_env :=
  {| Wayland.connect_ok := true; Wayland.has_ps_manager := true;
     Wayland.has_seat := true; Wayland.cache_dir_ok := true;
     Wayland.now := 1700000000; Wayland.daemonize_ok := true;
     Wayland.pid := 4242; Wayland.startup_events := selection_of 5%N;
     Wayland.surface_events := None |}.

(** Wayland: a pass in which [poll] fails with an error other than
    [EINTR]. *)
Definition poll_error_tick : Wayland.tick :=
  {| Wayland.tk_queued := []; Wayland.tk_signal := false;
     Wayland.tk_poll := Wayland.PollError |}.

(** A daemon started in [/home/u] with the relative cache directory
    [cache]; there is no directory [/cache], so that no file can be opened
    under the paths once the working directory is the root directory. *)
Definition relative_dir : workdir :=
  {| wd_cache_dir := list_byte_of_string "cache";
     wd_cwd := list_byte_of_string "/home/u";
     root_files := ∅;
     root_denied := {[PRIMARY_FILE; SEQ_FILE; PID_FILE]} |}.

(** The same daemon given the absolute path of that directory. *)
Definition absolute_dir : workdir :=
  {| wd_cache_dir := list_byte_of_string "/home/u/cache";
     wd_cwd := list_byte_of_string "/home/u";
     root_files := ∅;
     root_denied := {[PRIMARY_FILE; SEQ_FILE; PID_FILE]} |}.

(** A pass that dispatches one [send] request whose receiver takes two
    bytes and closes the pipe. *)
Definition closed_pipe_tick : WaylandCopy.tick :=
  {| WaylandCopy.tk_queued :=
       [WaylandCopy.DsSend "text/plain" [2; - WaylandCopy.EPIPE]%Z];
     WaylandCopy.tk_signal := false;
     WaylandCopy.tk_poll := WaylandCopy.PollTimeout |}.

(** A one-shot run to which the compositor hands a selection holding
    "hello" during the round trip, and one to which it hands it at the
    50th poll of the wait. *)
Definition hello_oneshot_env : Wayland.oneshot_env :=
  {| Wayland.os_connect_ok := true; Wayland.os_has_ps_manager := true;
     Wayland.os_has_seat := true;
     Wayland.os_roundtrip := selection_of 5%N;
     Wayland.os_can_map := true; Wayland.os_surface_events := [];
     Wayland.os_attempts := []; Wayland.os_have_cache := false;
     Wayland.os_pipe := Some hello_pipe |}.

Definition late_oneshot_env : Wayland.oneshot_env :=
  {| Wayland.os_connect_ok := true; Wayland.os_has_ps_manager := true;
     Wayland.os_has_seat := true;
     Wayland.os_roundtrip := [];
     Wayland.os_can_map := true; Wayland.os_surface_events := [];
     Wayland.os_attempts := replicate 49 [] ++ [selection_of 5%N];
     Wayland.os_have_cache := false;
     Wayland.os_pipe := Some hello_pipe |}.

(** X11: an owner that answers with "hello" at the 100th check for the
    notification. *)
Definition x_last_check : X11.xsel_reply :=
  {| X11.xs_owner := true; X11.xs_checks := replicate 99 false ++ [true];
     X11.xs_property := true; X11.xs_value := Some hello |}.

(** * Theorems *)

Lemma replay_app cs1 cs2 (fs : gmap string (list byte)) :
  replay (cs1 ++ cs2) fs = replay cs2 (replay cs1 fs).
Proof. unfold replay. apply foldl_app. Qed.

Lemma emit_files c d : files (emit c d) = apply_syscall c (files d).
Proof. reflexivity. Qed.

Lemma emit_trace c d : trace (emit c d) = trace d ++ [c].
Proof. reflexivity. Qed.

Lemma emit_denied c d : denied (emit c d) = denied d.
Proof. reflexivity. Qed.

(** ** The cache rendezvous *)

(** The text written to [seq] for the largest [unsigned long]. *)
Lemma fmt_lu_ulong_max :
  length (fmt_lu (ULONG_MODULUS - 1) ++ [newline]) = 21.
Proof. reflexivity. Qed.


Lemma replay_untouched (p : string) cs (fs : gmap string (list byte)) :
  Forall (fun c => syscall_path c ≠ p) cs → replay cs fs !! p = fs !! p.
Proof.
  revert fs. induction cs as [|c cs IH]; intros fs Hall; [reflexivity|].
  inversion Hall as [|? ? Hc Hcs]; subst.
  change (replay (c :: cs) fs) with (replay cs (apply_syscall c fs)).
  rewrite IH by assumption.
  destruct c as [q [] | q bs | q | q]; simpl in *;
    rewrite ?lookup_insert_ne, ?lookup_delete_ne by assumption; reflexivity.
Qed.

Lemma write_primary_denied data len seq d :
  PRIMARY_FILE ∈ denied d →
  write_primary data len seq d = emit (SysOpen PRIMARY_FILE false) d.
Proof.
  intros Hin. unfold write_primary, sys_open.
  destruct (decide (PRIMARY_FILE ∈ denied d)); [reflexivity | contradiction].
Qed.

Lemma write_primary_trace data len seq d :
  trace (write_primary data len seq d) =
  trace d ++
    (if decide (PRIMARY_FILE ∈ denied d) then [SysOpen PRIMARY_FILE false]
     else primary_spec_calls data len ++
          (if decide (SEQ_FILE ∈ denied d) then [SysOpen SEQ_FILE false]
           else seq_spec_calls seq)).
Proof.
  unfold write_primary, sys_open, primary_spec_calls, seq_spec_calls.
  destruct (decide (PRIMARY_FILE ∈ denied d)); [reflexivity|].
  destruct data as [buf|]; [destruct (0 <? len)%N|]; simpl;
    destruct (decide (SEQ_FILE ∈ denied d)); simpl;
    rewrite <- ?app_assoc; reflexivity.
Qed.

Lemma write_primary_files data len seq d :
  files (write_primary data len seq d) =
  replay
    (if decide (PRIMARY_FILE ∈ denied d) then [SysOpen PRIMARY_FILE false]
     else primary_spec_calls data len ++
          (if decide (SEQ_FILE ∈ denied d) then [SysOpen SEQ_FILE false]
           else seq_spec_calls seq))
    (files d).
Proof.
  unfold write_primary, sys_open, primary_spec_calls, seq_spec_calls.
  destruct (decide (PRIMARY_FILE ∈ denied d)); [reflexivity|].
  destruct data as [buf|]; [destruct (0 <? len)%N|]; simpl;
    destruct (decide (SEQ_FILE ∈ denied d)); reflexivity.
Qed.

Lemma write_primary_keeps_denied data len seq d :
  denied (write_primary data len seq d) = denied d.
Proof.
  unfold write_primary, sys_open.
  destruct (decide (PRIMARY_FILE ∈ denied d)); [reflexivity|].
  destruct data as [buf|]; [destruct (0 <? len)%N|]; simpl;
    destruct (decide (SEQ_FILE ∈ denied d)); reflexivity.
Qed.

Lemma primary_spec_calls_path data len :
  Forall (fun c => syscall_path c = PRIMARY_FILE) (primary_spec_calls data len).
Proof.
  unfold primary_spec_calls.
  destruct data as [buf|]; [destruct (0 <? len)%N|]; repeat constructor.
Qed.

Lemma primary_spec_calls_closed data len :
  In (SysClose PRIMARY_FILE) (primary_spec_calls data len).
Proof.
  unfold primary_spec_calls. apply in_or_app. right.
  apply in_or_app. right. left. reflexivity.
Qed.

Lemma primary_spec_calls_content data len (fs : gmap string (list byte)) :
  replay (primary_spec_calls data len) fs !! PRIMARY_FILE
  = Some (payload data len).
Proof.
  unfold primary_spec_calls, payload.
  destruct data as [buf|]; [destruct (0 <? len)%N|]; simpl;
    rewrite ?lookup_insert_eq; reflexivity.
Qed.

Lemma seq_spec_calls_content seq (fs : gmap string (list byte)) :
  replay (seq_spec_calls seq) fs !! SEQ_FILE = Some (fmt_lu seq ++ [newline]).
Proof. simpl. rewrite !lookup_insert_eq. reflexivity. Qed.

Lemma primary_is_not_seq : PRIMARY_FILE ≠ SEQ_FILE.
Proof. discriminate. Qed.

(** A publish that can open both files. *)
Lemma write_primary_ok data len seq d :
  PRIMARY_FILE ∉ denied d → SEQ_FILE ∉ denied d →
  trace (write_primary data len seq d)
  = trace d ++ publish_spec_calls data len seq
  ∧ files (write_primary data len seq d) !! PRIMARY_FILE
    = Some (payload data len)
  ∧ files (write_primary data len seq d) !! SEQ_FILE
    = Some (fmt_lu seq ++ [newline]).
Proof.
  intros HP HS.
  rewrite write_primary_trace, write_primary_files.
  destruct (decide (PRIMARY_FILE ∈ denied d)); [contradiction|].
  destruct (decide (SEQ_FILE ∈ denied d)); [contradiction|].
  split; [reflexivity|].
  rewrite replay_app. split.
  - rewrite replay_untouched by (repeat constructor; discriminate).
    apply primary_spec_calls_content.
  - apply seq_spec_calls_content.
Qed.

Lemma write_primary_returning_trace r_primary r_seq data len seq d :
  trace (write_primary_returning r_primary r_seq data len seq d) =
  trace d ++
    (if decide (PRIMARY_FILE ∈ denied d) then [SysOpen PRIMARY_FILE false]
     else primary_calls_returning r_primary data len ++
          (if decide (SEQ_FILE ∈ denied d) then [SysOpen SEQ_FILE false]
           else seq_calls_returning r_seq seq)).
Proof.
  unfold write_primary_returning, sys_open, primary_calls_returning,
    seq_calls_returning.
  destruct (decide (PRIMARY_FILE ∈ denied d)); [reflexivity|].
  destruct data as [buf|]; [destruct (0 <? len)%N|]; simpl;
    destruct (decide (SEQ_FILE ∈ denied d)); simpl;
    rewrite <- ?app_assoc; reflexivity.
Qed.

Lemma write_primary_returning_files r_primary r_seq data len seq d :
  files (write_primary_returning r_primary r_seq data len seq d) =
  replay
    (if decide (PRIMARY_FILE ∈ denied d) then [SysOpen PRIMARY_FILE false]
     else primary_calls_returning r_primary data len ++
          (if decide (SEQ_FILE ∈ denied d) then [SysOpen SEQ_FILE false]
           else seq_calls_returning r_seq seq))
    (files d).
Proof.
  unfold write_primary_returning, sys_open, primary_calls_returning,
    seq_calls_returning.
  destruct (decide (PRIMARY_FILE ∈ denied d)); [reflexivity|].
  destruct data as [buf|]; [destruct (0 <? len)%N|]; simpl;
    destruct (decide (SEQ_FILE ∈ denied d)); reflexivity.
Qed.

Lemma primary_calls_returning_path r data len :
  Forall (fun c => syscall_path c = PRIMARY_FILE)
    (primary_calls_returning r data len).
Proof.
  unfold primary_calls_returning.
  destruct data as [buf|]; [destruct (0 <? len)%N|]; repeat constructor.
Qed.

Lemma primary_calls_returning_closed r data len :
  In (SysClose PRIMARY_FILE) (primary_calls_returning r data len).
Proof.
  unfold primary_calls_returning. apply in_or_app. right.
  apply in_or_app. right. left. reflexivity.
Qed.

Lemma primary_calls_returning_content r data len
    (fs : gmap string (list byte)) :
  replay (primary_calls_returning r data len) fs !! PRIMARY_FILE
  = Some (take (Z.to_nat r) (payload data len)).
Proof.
  unfold primary_calls_returning, payload.
  destruct data as [buf|]; [destruct (0 <? len)%N|]; simpl;
    rewrite ?lookup_insert_eq, ?take_nil; reflexivity.
Qed.

(** A write that returns at least the length of its buffer is a complete
    one. *)
Lemma sys_write_returning_whole r fd bs d :
  (Z.of_nat (length bs) ≤ r)%Z →
  sys_write_returning r fd bs d = sys_write fd bs d.
Proof.
  intros Hr. unfold sys_write_returning, sys_write.
  rewrite take_ge by lia. reflexivity.
Qed.

Lemma write_primary_returning_whole r_primary r_seq data len seq d :
  (Z.of_nat (length (payload data len)) ≤ r_primary)%Z →
  (Z.of_nat (length (fmt_lu seq ++ [newline])) ≤ r_seq)%Z →
  write_primary_returning r_primary r_seq data len seq d
  = write_primary data len seq d.
Proof.
  intros Hp Hs. unfold write_primary_returning, write_primary.
  destruct (sys_open PRIMARY_FILE d) as [[fd|] d1]; [|reflexivity].
  assert (Hd2 : match data with
                | Some buf =>
                    if (0 <? len)%N
                    then sys_write_returning r_primary fd
                           (take (N.to_nat len) buf) d1
                    else d1
                | None => d1
                end
                = match data with
                  | Some buf =>
                      if (0 <? len)%N
                      then sys_write fd (take (N.to_nat len) buf) d1
                      else d1
                  | None => d1
                  end).
  { unfold payload in Hp. destruct data as [buf|]; [|reflexivity].
    destruct (0 <? len)%N; [|reflexivity].
    now apply sys_write_returning_whole. }
  rewrite Hd2. cbn zeta.
  destruct (sys_open SEQ_FILE _) as [[fd'|] d4]; [|reflexivity].
  now rewrite sys_write_returning_whole.
Qed.

(** C2 (amended).  Every publish issues its system calls in the contractual
    order, whatever its two [write] calls return and whatever the outcome
    of the two [open]s: no call on [seq] is issued before [primary] has
    been written and closed, and at every point of the call sequence where
    [seq] has been touched, [primary] already holds what its one [write]
    call stored.  That is a prefix of the payload: the whole payload when
    the call is not short, and then, the write to [seq] being complete as
    well, the calls are exactly those of the specification and the publish
    is [write_primary]. *)
Theorem write_primary_primary_before_seq r_primary r_seq data len seq d :
  let d' := write_primary_returning r_primary r_seq data len seq d in
  let stored := take (Z.to_nat r_primary) (payload data len) in
  (exists ops,
    trace d' = trace d ++ ops
    ∧ files d' = replay ops (files d)
    ∧ (PRIMARY_FILE ∉ denied d → SEQ_FILE ∉ denied d →
       ops = primary_calls_returning r_primary data len
             ++ seq_calls_returning r_seq seq
       ∧ files d' !! PRIMARY_FILE = Some stored
       ∧ files d' !! SEQ_FILE
         = Some (take (Z.to_nat r_seq) (fmt_lu seq ++ [newline])))
    ∧ (∀ pre post,
         ops = pre ++ post →
         Exists (fun c => syscall_path c = SEQ_FILE) pre →
         In (SysClose PRIMARY_FILE) pre
         ∧ replay pre (files d) !! PRIMARY_FILE = Some stored))
  ∧ stored `prefix_of` payload data len
  ∧ ((Z.of_nat (length (payload data len)) ≤ r_primary)%Z →
     stored = payload data len
     ∧ ((Z.of_nat (length (fmt_lu seq ++ [newline])) ≤ r_seq)%Z →
        d' = write_primary data len seq d
        ∧ primary_calls_returning r_primary data len
          ++ seq_calls_returning r_seq seq
          = publish_spec_calls data len seq)).
Proof.
  intros d' stored. subst d' stored. split; [|split].
  - eexists. split; [apply write_primary_returning_trace|].
    split; [apply write_primary_returning_files|].
    split.
    + intros HP HS.
      destruct (decide (PRIMARY_FILE ∈ denied d)); [contradiction|].
      destruct (decide (SEQ_FILE ∈ denied d)); [contradiction|].
      split; [reflexivity|].
      rewrite write_primary_returning_files.
      destruct (decide (PRIMARY_FILE ∈ denied d)); [contradiction|].
      destruct (decide (SEQ_FILE ∈ denied d)); [contradiction|].
      rewrite replay_app. split.
      * rewrite replay_untouched by (repeat constructor; discriminate).
        apply primary_calls_returning_content.
      * simpl. rewrite !lookup_insert_eq. reflexivity.
    + intros pre post Hsplit Hseq.
      destruct (decide (PRIMARY_FILE ∈ denied d)).
      { destruct pre as [|c pre]; [inversion Hseq|].
        destruct pre; [|destruct pre; discriminate].
        injection Hsplit as <- _.
        inversion Hseq as [? ? Hc | ? ? Hc]; [discriminate | inversion Hc]. }
      set (tl := if decide (SEQ_FILE ∈ denied d)
                 then [SysOpen SEQ_FILE false]
                 else seq_calls_returning r_seq seq) in *.
      assert (Htl : Forall (fun c => syscall_path c ≠ PRIMARY_FILE) tl).
      { subst tl. destruct (decide (SEQ_FILE ∈ denied d));
          repeat constructor; discriminate. }
      symmetry in Hsplit.
      apply app_eq_app in Hsplit as [k [[Hpre Hk] | [Hpre Hk]]].
      * subst pre. split.
        -- apply in_or_app. left. apply primary_calls_returning_closed.
        -- rewrite replay_app.
           rewrite replay_untouched;
             [apply primary_calls_returning_content|].
           rewrite Hk in Htl. apply Forall_app in Htl as [Htl _]. exact Htl.
      * exfalso.
        pose proof (primary_calls_returning_path r_primary data len) as Hall.
        rewrite Hpre in Hall. apply Forall_app in Hall as [Hall _].
        apply Exists_exists in Hseq as [c [Hin Hc]].
        rewrite Forall_forall in Hall. specialize (Hall c).
        specialize (Hall Hin).
        rewrite Hall in Hc. discriminate.
  - apply prefix_take.
  - intros Hp. split; [apply take_ge; lia|].
    intros Hs. split; [now apply write_primary_returning_whole|].
    unfold primary_calls_returning, seq_calls_returning, publish_spec_calls,
      primary_spec_calls, seq_spec_calls.
    rewrite (take_ge (fmt_lu seq ++ [newline])) by lia.
    unfold payload in Hp.
    destruct data as [buf|]; [|reflexivity].
    destruct (0 <? len)%N; [|reflexivity].
    rewrite take_ge by lia. reflexivity.
Qed.

(** C10.  When [primary] cannot be opened the publish leaves the cache
    directory as it was: neither file is written, and the only system call
    issued is the failed [open]. *)
Theorem write_primary_open_failure_is_noop data len seq d :
  PRIMARY_FILE ∈ denied d →
  files (write_primary data len seq d) = files d
  ∧ trace (write_primary data len seq d) = trace d ++ [SysOpen PRIMARY_FILE false]
  ∧ Forall (fun c => syscall_path c ≠ SEQ_FILE)
      (drop (length (trace d)) (trace (write_primary data len seq d))).
Proof.
  intros Hin. rewrite write_primary_denied by assumption.
  split; [reflexivity|]. split; [reflexivity|].
  rewrite emit_trace, drop_app_length. repeat constructor. discriminate.
Qed.

(** ** The bounded readers *)

Lemma sys_read_length count r bs :
  sys_read count r = inl bs → length bs ≤ count.
Proof.
  destruct r; unfold sys_read; intros H; inversion H; subst.
  - rewrite length_take. lia.
  - simpl. lia.
Qed.

Section ReaderFacts.

Variable alloc_ok : N → bool.

(** What the loop of [read_fd_with_timeout] guarantees from any state in
    which [total <= capacity] and [capacity] is [0] or between 4096 and
    [max_size]. *)
Lemma read_fd_loop_spec max_size polls :
  ∀ capacity total have_buf b t bytes,
    (total ≤ capacity)%N →
    (capacity = 0 ∨ 4096 ≤ capacity ∧ capacity ≤ max_size)%N →
    (have_buf = true ∨ capacity = 0%N) →
    read_fd_loop alloc_ok max_size polls capacity total have_buf
      = (b, t, bytes) →
    t = (total + N.of_nat (length bytes))%N
    ∧ (t ≤ max_size)%N
    ∧ (have_buf = true → b = true)
    ∧ (b = true ∨ bytes = [])
    ∧ bytes `prefix_of` delivered_polls polls.
Proof.
  induction polls as [|p polls IH]; intros capacity total have_buf b t bytes
    Htot Hcap Hbuf Hrun.
  - simpl in Hrun. inversion Hrun; subst. simpl.
    repeat split; [lia | lia | tauto | now right | apply prefix_nil].
  - assert (Hstop : ∀ hb, (have_buf = true → hb = true) →
              (hb, total, @nil byte) = (b, t, bytes) →
              t = (total + N.of_nat (length bytes))%N
              ∧ (t ≤ max_size)%N
              ∧ (have_buf = true → b = true)
              ∧ (b = true ∨ bytes = [])
              ∧ bytes `prefix_of` delivered_polls (p :: polls)).
    { intros hb Hhb Heq. inversion Heq; subst. simpl length.
      repeat split; [lia | lia | exact Hhb | now right | apply prefix_nil]. }
    destruct p as [| | | r]; simpl in Hrun.
    + apply (Hstop have_buf); [tauto | exact Hrun].
    + apply (Hstop have_buf); [tauto | exact Hrun].
    + simpl. eapply IH; eauto.
    + set (grow := (capacity <? total + 4096)%N) in *.
      set (capacity' :=
             if grow then (if (capacity =? 0)%N then 4096 else capacity * 2)%N
             else capacity) in *.
      destruct (grow && (max_size <? capacity')%N) eqn:Hbig.
      { apply (Hstop have_buf); [tauto | exact Hrun]. }
      destruct (grow && negb (alloc_ok (capacity' + 1))) eqn:Hmem.
      { apply (Hstop have_buf); [tauto | exact Hrun]. }
      assert (Hcap' : (total + 4096 ≤ capacity' ∧ 4096 ≤ capacity'
                       ∧ capacity' ≤ max_size)%N).
      { subst capacity'. destruct grow eqn:Hgrow.
        - simpl in Hbig. apply N.ltb_ge in Hbig.
          destruct (capacity =? 0)%N eqn:Hz.
          + apply N.eqb_eq in Hz. lia.
          + apply N.eqb_neq in Hz. lia.
        - subst grow. apply N.ltb_ge in Hgrow. lia. }
      assert (Hbuf' : have_buf || grow = true).
      { destruct Hbuf as [-> | Hz]; [reflexivity|].
        subst grow. rewrite Hz.
        replace (0 <? total + 4096)%N with true
          by (symmetry; apply N.ltb_lt; lia).
        apply orb_true_r. }
      destruct (sys_read 4096 r) as [[|c bs] | []] eqn:Hread.
      * apply (Hstop (have_buf || grow)); [tauto | exact Hrun].
      * simpl delivered_polls. rewrite Hread.
        destruct (read_fd_loop alloc_ok max_size polls capacity'
                    (total + N.of_nat (length (c :: bs))) (have_buf || grow))
          as [[b' t'] tl] eqn:Hrec.
        inversion Hrun; subst b' t' bytes.
        pose proof (sys_read_length _ _ _ Hread) as Hlen.
        eapply IH in Hrec as (Ht & Hmax & Hkeep & Hb & Hpre);
          [ | lia | right; lia | left; exact Hbuf'].
        pose proof (length_app (c :: bs) tl) as Happ.
        cbn [length app] in Happ, Ht, Hlen |- *.
        repeat split.
        -- lia.
        -- exact Hmax.
        -- intros _. apply Hkeep, Hbuf'.
        -- left. apply Hkeep, Hbuf'.
        -- apply (prefix_app (c :: bs)). exact Hpre.
      * simpl delivered_polls. rewrite Hread.
        eapply IH in Hrun as (Ht & Hmax & Hkeep & Hb & Hpre);
          [ | lia | right; lia | left; exact Hbuf'].
        repeat split; try assumption. intros _. apply Hkeep, Hbuf'.
      * apply (Hstop (have_buf || grow)); [tauto | exact Hrun].
Qed.

Lemma read_fd_with_timeout_spec polls max_size data len :
  read_fd_with_timeout alloc_ok polls max_size = (data, len) →
  (len ≤ max_size)%N
  ∧ match data with
    | Some bytes =>
        len = N.of_nat (length bytes) ∧ bytes `prefix_of` delivered_polls polls
    | None => len = 0%N
    end.
Proof.
  unfold read_fd_with_timeout.
  destruct (read_fd_loop alloc_ok max_size polls 0 0 false)
    as [[b t] bytes] eqn:Hrun.
  intros Heq. inversion Heq; subst. clear Heq.
  apply read_fd_loop_spec in Hrun as (Ht & Hmax & _ & Hb & Hpre);
    [ | lia | now left | now right].
  split; [exact Hmax|].
  destruct b.
  - split; [lia | exact Hpre].
  - destruct Hb as [Hb | ->]; [discriminate | simpl in Ht; lia].
Qed.

(** The loop of [read_all_stdin], for a cap of at least one block. *)
Lemma stdin_loop_spec cap keep reads :
  ∀ capacity total t bytes,
    (total ≤ capacity)%N →
    (4096 ≤ capacity ∧ capacity ≤ cap)%N →
    stdin_loop alloc_ok cap keep reads capacity total = Some (t, bytes) →
    t = (total + N.of_nat (length bytes))%N
    ∧ (t ≤ cap)%N
    ∧ bytes `prefix_of` delivered_reads reads.
Proof.
  induction reads as [|r reads IH]; intros capacity total t bytes
    Htot Hcap Hrun.
  - simpl in Hrun.
    repeat match type of Hrun with
           | (if ?c then _ else _) = _ => destruct c
           end; inversion Hrun; subst; simpl;
      repeat split; try lia; apply prefix_nil.
  - simpl in Hrun.
    set (grow := (capacity <? total + 4096)%N) in *.
    set (capacity' := if grow then (capacity * 2)%N else capacity) in *.
    assert (Hstop : Some (total, @nil byte) = Some (t, bytes) →
              t = (total + N.of_nat (length bytes))%N
              ∧ (t ≤ cap)%N
              ∧ bytes `prefix_of` delivered_reads (r :: reads)).
    { intros Heq. inversion Heq; subst. simpl length.
      repeat split; [lia | lia | apply prefix_nil]. }
    destruct (grow && (cap <? capacity')%N) eqn:Hbig; [now apply Hstop|].
    destruct (grow && negb (alloc_ok capacity')) eqn:Hmem.
    { destruct keep; [now apply Hstop | discriminate]. }
    assert (Hcap' : (total + 4096 ≤ capacity' ∧ 4096 ≤ capacity'
                     ∧ capacity' ≤ cap)%N).
    { subst capacity'. destruct grow eqn:Hgrow.
      - simpl in Hbig. apply N.ltb_ge in Hbig. lia.
      - subst grow. apply N.ltb_ge in Hgrow. lia. }
    destruct (sys_read 4096 r) as [[|c bs] | bad] eqn:Hread;
      [now apply Hstop | | now apply Hstop].
    simpl delivered_reads. rewrite Hread.
    destruct (stdin_loop alloc_ok cap keep reads capacity'
                (total + N.of_nat (length (c :: bs))))
      as [[t' tl]|] eqn:Hrec; [|discriminate].
    inversion Hrun; subst t' bytes.
    pose proof (sys_read_length _ _ _ Hread) as Hlen.
    eapply IH in Hrec as (Ht & Hmax & Hpre); [ | lia | lia].
    pose proof (length_app (c :: bs) tl) as Happ.
    cbn [length app] in Happ, Ht, Hlen |- *.
    repeat split; [lia | exact Hmax | apply (prefix_app (c :: bs)); exact Hpre].
Qed.

Lemma read_all_stdin_with_spec cap keep reads data len :
  (4096 ≤ cap)%N →
  read_all_stdin_with alloc_ok cap keep reads = (data, len) →
  (len ≤ cap)%N
  ∧ match data with
    | Some bytes =>
        len = N.of_nat (length bytes) ∧ bytes `prefix_of` delivered_reads reads
    | None => len = 0%N
    end.
Proof.
  intros Hcap. unfold read_all_stdin_with.
  destruct (alloc_ok 4096); [|intros H; inversion H; subst; split; [lia|reflexivity]].
  destruct (stdin_loop alloc_ok cap keep reads 4096 0) as [[t bytes]|] eqn:Hrun;
    intros H; inversion H; subst; clear H.
  - apply stdin_loop_spec in Hrun as (Ht & Hmax & Hpre); [ | lia | lia].
    split; [exact Hmax|]. split; [lia | exact Hpre].
  - split; [lia | reflexivity].
Qed.

Lemma read_fd_with_timeout_cut polls max_size data len :
  read_fd_with_timeout alloc_ok polls max_size = (data, len) →
  cut_of (delivered_polls polls) max_size data len.
Proof. apply read_fd_with_timeout_spec. Qed.

Lemma read_all_stdin_with_cut cap keep reads data len :
  (4096 ≤ cap)%N →
  read_all_stdin_with alloc_ok cap keep reads = (data, len) →
  cut_of (delivered_reads reads) cap data len.
Proof. apply read_all_stdin_with_spec. Qed.

Lemma get_selection_cut x data len :
  X11.get_selection alloc_ok x = (data, len) →
  cut_of (default [] (X11.xs_value x)) MAX_SELECTION_SIZE data len
  ∧ (data = None ∨ (0 < len)%N).
Proof.
  unfold X11.get_selection, X11.XGetWindowProperty, cut_of.
  assert (Hnone : ∀ src : list byte,
            ((0 ≤ MAX_SELECTION_SIZE)%N ∧ 0%N = 0%N)
            ∧ (@None (list byte) = None ∨ (0 < 0)%N)).
  { intros _. split; [split; [apply N.le_0_l | reflexivity] | now left]. }
  destruct (negb (X11.xs_owner x));
    [intros H; inversion H; subst; apply (Hnone [])|].
  destruct (X11.wait_notify 100 (X11.xs_checks x) && X11.xs_property x);
    [|intros H; inversion H; subst; apply (Hnone [])].
  destruct (X11.xs_value x) as [v|];
    [|intros H; inversion H; subst; apply (Hnone [])].
  set (xdata := take (N.to_nat (4 * (MAX_SELECTION_SIZE / 4))) v).
  destruct (0 <? N.of_nat (length xdata))%N eqn:Hpos;
    [|intros H; inversion H; subst; apply (Hnone [])].
  destruct (alloc_ok (N.of_nat (length xdata) + 1));
    intros H; inversion H; subst; [|apply (Hnone [])].
  apply N.ltb_lt in Hpos.
  split; [split; [|split; [reflexivity|]] | right; exact Hpos].
  - subst xdata. rewrite length_take.
    change (4 * (MAX_SELECTION_SIZE / 4))%N with MAX_SELECTION_SIZE.
    lia.
  - simpl. subst xdata. apply prefix_take.
Qed.

(** With enough memory [read_all_stdin] always hands back a buffer. *)
Lemma stdin_loop_total cap keep reads :
  (∀ n, alloc_ok n = true) →
  ∀ capacity total,
    ∃ t bytes, stdin_loop alloc_ok cap keep reads capacity total
               = Some (t, bytes).
Proof.
  intros Hmem. induction reads as [|r reads IH]; intros capacity total;
    simpl; rewrite Hmem; simpl; rewrite andb_false_r.
  - destruct ((capacity <? total + 4096)%N && _); eauto.
  - destruct ((capacity <? total + 4096)%N && _); eauto.
    destruct (sys_read 4096 r) as [[|c bs]|]; eauto.
    edestruct IH as (t & tl & ->). eauto.
Qed.

Lemma read_all_stdin_with_empty cap keep reads :
  delivered_reads reads = [] →
  snd (read_all_stdin_with alloc_ok cap keep reads) = 0%N.
Proof.
  intros Hnil. unfold read_all_stdin_with.
  destruct (alloc_ok 4096); [|reflexivity].
  change (4096 <? 0 + 4096)%N with false.
  destruct reads as [|r reads]; simpl.
  - reflexivity.
  - simpl in Hnil.
    destruct (sys_read 4096 r) as [[|c bs]|]; try reflexivity.
    discriminate.
Qed.

Lemma read_all_stdin_with_nonempty cap keep reads :
  (∀ n, alloc_ok n = true) →
  (4096 ≤ cap)%N →
  delivered_reads reads ≠ [] →
  ∃ bytes len,
    read_all_stdin_with alloc_ok cap keep reads = (Some bytes, len)
    ∧ (0 < len)%N.
Proof.
  intros Hmem Hcap Hne. unfold read_all_stdin_with. rewrite Hmem.
  destruct reads as [|r reads]; [contradiction|].
  simpl in *.
  destruct (sys_read 4096 r) as [[|c bs]|] eqn:Hread; try contradiction.
  apply sys_read_length in Hread.
  destruct (stdin_loop_total cap keep reads Hmem 4096%N
              (0 + N.of_nat (length (c :: bs)))%N) as (t & tl & Hrun).
  rewrite Hrun. do 2 eexists. split; [reflexivity|].
  apply stdin_loop_spec in Hrun as (Ht & _ & _); [ | lia | lia].
  cbn [length] in Ht. lia.
Qed.

(** *** Input that arrives in full blocks is cut at exactly the cap *)

Lemma full_block_read r :
  full_block r = true →
  ∃ c bs, sys_read 4096 r = inl (c :: bs) ∧ length (c :: bs) = 4096.
Proof.
  destruct r as [bs| | |]; try discriminate. unfold full_block, sys_read.
  intros Hlen. apply Nat.leb_le in Hlen.
  assert (Htake : length (take 4096 bs) = 4096) by (rewrite length_take; lia).
  destruct (take 4096 bs) as [|c tl] eqn:Ht; [discriminate|]. eauto.
Qed.

Lemma pow2_succ (j : N) : (2 ^ (j + 1) = 2 * 2 ^ j)%N.
Proof. rewrite N.add_1_r. apply N.pow_succ_r'. Qed.

Lemma pow2_pos (j : N) : (1 ≤ 2 ^ j)%N.
Proof. pose proof (N.pow_nonzero 2 j). lia. Qed.

Lemma pow2_step (j J : N) :
  (j ≤ J)%N →
  (j = J ∨ (j + 1 ≤ J ∧ 2 * 2 ^ j ≤ 2 ^ J))%N.
Proof.
  intros Hle. destruct (N.eq_dec j J) as [->|Hne]; [now left|]. right.
  split; [lia|]. rewrite <- pow2_succ.
  apply N.pow_le_mono_r; lia.
Qed.

Lemma stdin_loop_full (J : N) keep reads :
  (∀ n, alloc_ok n = true) →
  Forall (fun r => full_block r = true) reads →
  ∀ j m,
    (j ≤ J)%N → (m ≤ 2 ^ j)%N →
    ∃ bytes,
      stdin_loop alloc_ok (4096 * 2 ^ J) keep reads (4096 * 2 ^ j) (4096 * m)
      = Some (N.min (4096 * 2 ^ J)
                (4096 * m + 4096 * N.of_nat (length reads)), bytes)%N.
Proof.
  intros Hmem Hfull. induction Hfull as [|r reads Hr Hrest IH]; intros j m Hj Hm.
  - assert (Hpow : (2 ^ j ≤ 2 ^ J)%N) by (apply N.pow_le_mono_r; lia).
    cbn [stdin_loop length]. rewrite Hmem. cbn [negb]. rewrite andb_false_r.
    replace (N.min (4096 * 2 ^ J) (4096 * m + 4096 * N.of_nat 0))%N
      with (4096 * m)%N by lia.
    destruct (_ && _); eauto.
  - cbn [stdin_loop]. rewrite Hmem. cbn [negb]. rewrite andb_false_r.
    destruct (full_block_read r Hr) as (c & bs & -> & Hlen).
    destruct (4096 * 2 ^ j <? 4096 * m + 4096)%N eqn:Hgrow.
    + apply N.ltb_lt in Hgrow. assert (m = (2 ^ j)%N) by lia. subst m.
      destruct (pow2_step j J Hj) as [-> | [Hj' Hpow]].
      * replace (4096 * 2 ^ J <? 4096 * 2 ^ J * 2)%N with true
          by (symmetry; apply N.ltb_lt; pose proof (pow2_pos J); lia).
        cbn [andb]. eexists. f_equal. f_equal. lia.
      * replace (4096 * 2 ^ J <? 4096 * 2 ^ j * 2)%N with false
          by (symmetry; apply N.ltb_ge; lia).
        cbn [andb].
        replace (4096 * 2 ^ j * 2)%N with (4096 * 2 ^ (j + 1))%N
          by (rewrite pow2_succ; lia).
        rewrite Hlen.
        replace (4096 * 2 ^ j + N.of_nat 4096)%N
          with (4096 * (2 ^ j + 1))%N by lia.
        destruct (IH (j + 1)%N (2 ^ j + 1)%N) as (tl & ->).
        { lia. }
        { rewrite pow2_succ. pose proof (pow2_pos j). lia. }
        eexists. f_equal. f_equal. cbn [length]. lia.
    + apply N.ltb_ge in Hgrow. cbn [andb].
      rewrite Hlen.
      replace (4096 * m + N.of_nat 4096)%N with (4096 * (m + 1))%N by lia.
      destruct (IH j (m + 1)%N) as (tl & ->); [lia | lia |].
      eexists. f_equal. f_equal. cbn [length]. lia.
Qed.

Lemma full_poll_inv p :
  full_poll p = true → ∃ r, p = PollIn r ∧ full_block r = true.
Proof. destruct p; try discriminate. eauto. Qed.

Lemma read_fd_loop_full (J : N) polls :
  (∀ n, alloc_ok n = true) →
  Forall (fun p => full_poll p = true) polls →
  ∀ j m have_buf,
    (j ≤ J)%N → (m ≤ 2 ^ j)%N →
    ∃ b bytes,
      read_fd_loop alloc_ok (4096 * 2 ^ J) polls (4096 * 2 ^ j) (4096 * m)
        have_buf
      = (b, N.min (4096 * 2 ^ J)
              (4096 * m + 4096 * N.of_nat (length polls)), bytes)%N.
Proof.
  intros Hmem Hfull.
  induction Hfull as [|p polls Hp Hrest IH]; intros j m have_buf Hj Hm.
  - assert (Hpow : (2 ^ j ≤ 2 ^ J)%N) by (apply N.pow_le_mono_r; lia).
    cbn [read_fd_loop length].
    replace (N.min (4096 * 2 ^ J) (4096 * m + 4096 * N.of_nat 0))%N
      with (4096 * m)%N by lia.
    eauto.
  - destruct (full_poll_inv p Hp) as (r & -> & Hr).
    cbn [read_fd_loop]. rewrite Hmem. cbn [negb]. rewrite andb_false_r.
    destruct (full_block_read r Hr) as (c & bs & -> & Hlen).
    replace (4096 * 2 ^ j =? 0)%N with false
      by (symmetry; apply N.eqb_neq; pose proof (pow2_pos j); lia).
    destruct (4096 * 2 ^ j <? 4096 * m + 4096)%N eqn:Hgrow.
    + apply N.ltb_lt in Hgrow. assert (m = (2 ^ j)%N) by lia. subst m.
      destruct (pow2_step j J Hj) as [-> | [Hj' Hpow]].
      * replace (4096 * 2 ^ J <? 4096 * 2 ^ J * 2)%N with true
          by (symmetry; apply N.ltb_lt; pose proof (pow2_pos J); lia).
        cbn [andb]. do 2 eexists. f_equal. f_equal. lia.
      * replace (4096 * 2 ^ J <? 4096 * 2 ^ j * 2)%N with false
          by (symmetry; apply N.ltb_ge; lia).
        cbn [andb].
        replace (4096 * 2 ^ j * 2)%N with (4096 * 2 ^ (j + 1))%N
          by (rewrite pow2_succ; lia).
        rewrite Hlen.
        replace (4096 * 2 ^ j + N.of_nat 4096)%N
          with (4096 * (2 ^ j + 1))%N by lia.
        destruct (IH (j + 1)%N (2 ^ j + 1)%N (have_buf || true))
          as (b & tl & ->).
        { lia. }
        { rewrite pow2_succ. pose proof (pow2_pos j). lia. }
        do 2 eexists. f_equal. f_equal. cbn [length]. lia.
    + apply N.ltb_ge in Hgrow. cbn [andb].
      rewrite Hlen.
      replace (4096 * m + N.of_nat 4096)%N with (4096 * (m + 1))%N by lia.
      destruct (IH j (m + 1)%N (have_buf || false)) as (b & tl & ->);
        [lia | lia |].
      do 2 eexists. f_equal. f_equal. cbn [length]. lia.
Qed.

Lemma prefix_is_take (l1 l2 : list byte) :
  l1 `prefix_of` l2 → l1 = take (length l1) l2.
Proof. intros [k ->]. symmetry. apply take_app_length. Qed.

(** Full blocks, more of them than the cap holds: the bytes handed back
    are exactly the first [cap] bytes. *)
Lemma read_all_stdin_with_full (J : N) keep reads :
  (∀ n, alloc_ok n = true) →
  Forall (fun r => full_block r = true) reads →
  (2 ^ J ≤ N.of_nat (length reads))%N →
  read_all_stdin_with alloc_ok (4096 * 2 ^ J) keep reads
  = (Some (take (N.to_nat (4096 * 2 ^ J)) (delivered_reads reads)),
     4096 * 2 ^ J)%N.
Proof.
  intros Hmem Hfull Hmany.
  destruct (read_all_stdin_with alloc_ok (4096 * 2 ^ J) keep reads)
    as [data len] eqn:Hrun.
  pose proof (pow2_pos J) as HJ.
  pose proof Hrun as Hcut.
  apply read_all_stdin_with_spec in Hcut as [_ Hcut]; [|lia].
  unfold read_all_stdin_with in Hrun. rewrite Hmem in Hrun.
  destruct (stdin_loop_full J keep reads Hmem Hfull 0%N 0%N) as (bytes & Hloop);
    [lia | lia |].
  change (4096 * 2 ^ 0)%N with 4096%N in Hloop.
  change (4096 * 0)%N with 0%N in Hloop.
  rewrite Hloop in Hrun. inversion Hrun; subst data len. clear Hrun.
  destruct Hcut as [Hlen Hpre].
  replace (N.min (4096 * 2 ^ J) (0 + 4096 * N.of_nat (length reads)))%N
    with (4096 * 2 ^ J)%N in * by lia.
  f_equal. f_equal.
  rewrite (prefix_is_take _ _ Hpre) at 1. f_equal. lia.
Qed.

Lemma read_fd_with_timeout_full (J : N) polls :
  (∀ n, alloc_ok n = true) →
  Forall (fun p => full_poll p = true) polls →
  (2 ^ J ≤ N.of_nat (length polls))%N →
  read_fd_with_timeout alloc_ok polls (4096 * 2 ^ J)
  = (Some (take (N.to_nat (4096 * 2 ^ J)) (delivered_polls polls)),
     4096 * 2 ^ J)%N.
Proof.
  intros Hmem Hfull Hmany.
  destruct (read_fd_with_timeout alloc_ok polls (4096 * 2 ^ J))
    as [data len] eqn:Hrun.
  pose proof (pow2_pos J) as HJ.
  pose proof Hrun as Hcut.
  apply read_fd_with_timeout_spec in Hcut as [_ Hcut].
  assert (Hlen : len = (4096 * 2 ^ J)%N).
  { unfold read_fd_with_timeout in Hrun.
    destruct polls as [|p polls]; [simpl in Hmany; lia|].
    inversion Hfull as [|? ? Hp Hrest]; subst.
    destruct (full_poll_inv p Hp) as (r & -> & Hr).
    cbn [read_fd_loop] in Hrun. rewrite Hmem in Hrun.
    cbn [negb] in Hrun. rewrite andb_false_r in Hrun.
    destruct (full_block_read r Hr) as (c & bs & Hread & Hlen).
    rewrite Hread, Hlen in Hrun.
    change (0 <? 0 + 4096)%N with true in Hrun.
    change (0 =? 0)%N with true in Hrun.
    replace (4096 * 2 ^ J <? 4096)%N with false in Hrun
      by (symmetry; apply N.ltb_ge; lia).
    cbn [andb orb] in Hrun.
    destruct (read_fd_loop_full J polls Hmem Hrest 0%N 1%N true)
      as (b & tl & Hloop); [lia | simpl; lia |].
    change (4096 * 2 ^ 0)%N with 4096%N in Hloop.
    change (4096 * 1)%N with (0 + N.of_nat 4096)%N in Hloop.
    rewrite Hloop in Hrun.
    replace (4096 * 2 ^ J <? 4096)%N with false in Hrun
      by (symmetry; apply N.ltb_ge; lia).
    inversion Hrun; subst.
    cbn [length] in Hmany. lia. }
  subst len.
  destruct data as [bytes|]; [|lia].
  destruct Hcut as [Hlen Hpre].
  f_equal. f_equal.
  rewrite (prefix_is_take _ _ Hpre) at 1. f_equal. lia.
Qed.

End ReaderFacts.

Lemma take_whole (l : list byte) : take (N.to_nat (N.of_nat (length l))) l = l.
Proof. rewrite Nat2N.id. apply firstn_all. Qed.

(** A notification found by one of the first 100 checks is used: the read
    hands back the property value, cut at 1 MiB. *)
Lemma wait_notify_found k rest :
  ∀ n, k < n →
       X11.wait_notify n (replicate k false ++ true :: rest) = true.
Proof.
  induction k as [|k IH]; intros n Hlt; (destruct n as [|n]; [lia|]).
  - reflexivity.
  - cbn [replicate app X11.wait_notify]. apply IH. lia.
Qed.

Lemma x11_get_selection_obtained (alloc_ok : N → bool) x v :
  X11.xs_owner x = true →
  X11.wait_notify 100 (X11.xs_checks x) = true →
  X11.xs_property x = true →
  X11.xs_value x = Some v →
  v ≠ [] →
  alloc_ok (N.min (N.of_nat (length v)) MAX_SELECTION_SIZE + 1)%N = true →
  X11.get_selection alloc_ok x
  = (Some (take (N.to_nat MAX_SELECTION_SIZE) v),
     N.min (N.of_nat (length v)) MAX_SELECTION_SIZE).
Proof.
  intros Hown Hwait Hprop Hval Hne Hmem.
  unfold X11.get_selection, X11.XGetWindowProperty.
  rewrite Hown, Hwait, Hprop, Hval. cbn [negb andb].
  change (4 * (MAX_SELECTION_SIZE / 4))%N with MAX_SELECTION_SIZE.
  assert (Hlen : N.of_nat (length (take (N.to_nat MAX_SELECTION_SIZE) v))
                 = N.min (N.of_nat (length v)) MAX_SELECTION_SIZE).
  { rewrite length_take. lia. }
  rewrite Hlen, Hmem.
  replace (0 <? N.min (N.of_nat (length v)) MAX_SELECTION_SIZE)%N with true;
    [reflexivity|].
  symmetry. apply N.ltb_lt.
  destruct v; [contradiction|]. cbn [length].
  assert (0 < MAX_SELECTION_SIZE)%N by reflexivity. lia.
Qed.

Lemma read_ps_offer_cut alloc_ok o pipe st data len st' :
  Wayland.read_ps_offer alloc_ok o pipe 0 st = (data, len, st') →
  cut_of (pipe_bytes pipe) MAX_SELECTION_SIZE data len.
Proof.
  unfold Wayland.read_ps_offer. destruct pipe as [polls|]; intros H.
  - destruct (read_fd_with_timeout alloc_ok polls MAX_SELECTION_SIZE)
      as [d l] eqn:Hr.
    inversion H; subst. apply (read_fd_with_timeout_cut _ _ _ _ _ Hr).
  - inversion H; subst. split; [apply N.le_0_l | reflexivity].
Qed.

Lemma read_clip_offer_cut alloc_ok o pipe st data len st' :
  Wayland.read_clip_offer alloc_ok o pipe 0 st = (data, len, st') →
  cut_of (pipe_bytes pipe) MAX_CLIPBOARD_SIZE data len.
Proof.
  unfold Wayland.read_clip_offer. destruct pipe as [polls|]; intros H.
  - destruct (read_fd_with_timeout alloc_ok polls MAX_CLIPBOARD_SIZE)
      as [d l] eqn:Hr.
    inversion H; subst. apply (read_fd_with_timeout_cut _ _ _ _ _ Hr).
  - inversion H; subst. split; [apply N.le_0_l | reflexivity].
Qed.

Lemma max_selection_size_blocks : MAX_SELECTION_SIZE = (4096 * 2 ^ 8)%N.
Proof. reflexivity. Qed.

Lemma max_clipboard_size_blocks : MAX_CLIPBOARD_SIZE = (4096 * 2 ^ 10)%N.
Proof. reflexivity. Qed.


(** C7 (amended).  [run_copy_clipboard] answers 1 when standard input is
    empty.  Input of any other size, over-long input included, is not an
    error: once the selection is taken and the [fork] has succeeded the
    calling process exits with 0 and the child serves the bytes read, cut
    at the cap of the backend. *)
Theorem copy_clipboard_exit_codes (alloc_ok : N → bool) :
  (∀ stdin owner_granted fork,
     delivered_reads stdin = [] →
     X11.run_copy_clipboard alloc_ok stdin owner_granted fork = CopyReturn 1)
  ∧ (∀ stdin connected has_ddm has_seat fork,
       delivered_reads stdin = [] →
       Wayland.run_copy_clipboard alloc_ok stdin connected has_ddm has_seat fork
       = CopyReturn 1)
  ∧ ((∀ n, alloc_ok n = true) →
     ∀ stdin,
       delivered_reads stdin ≠ [] →
       (∃ data,
          X11.run_copy_clipboard alloc_ok stdin true ForkOk = CopyForked 0 data
          ∧ data ≠ []
          ∧ cut_of (delivered_reads stdin) MAX_SELECTION_SIZE
              (Some data) (N.of_nat (length data)))
       ∧ (∃ data,
            Wayland.run_copy_clipboard alloc_ok stdin true true true ForkOk
            = CopyForked 0 data
            ∧ data ≠ []
            ∧ cut_of (delivered_reads stdin) MAX_CLIPBOARD_SIZE
                (Some data) (N.of_nat (length data)))).
Proof.
  split; [|split].
  - intros stdin og fk Hnil. unfold X11.run_copy_clipboard.
    pose proof (read_all_stdin_with_empty alloc_ok MAX_SELECTION_SIZE false
                  stdin Hnil) as Hlen.
    unfold X11.read_all_stdin.
    destruct (read_all_stdin_with alloc_ok MAX_SELECTION_SIZE false stdin)
      as [[data|] len]; [|reflexivity].
    simpl in Hlen. subst len. reflexivity.
  - intros stdin c d se fk Hnil. unfold Wayland.run_copy_clipboard.
    pose proof (read_all_stdin_with_empty alloc_ok MAX_CLIPBOARD_SIZE true
                  stdin Hnil) as Hlen.
    unfold Wayland.read_all_stdin.
    destruct (read_all_stdin_with alloc_ok MAX_CLIPBOARD_SIZE true stdin)
      as [[data|] len]; [|reflexivity].
    simpl in Hlen. subst len. reflexivity.
  - intros Hmem stdin Hne. split.
    + destruct (read_all_stdin_with_nonempty alloc_ok MAX_SELECTION_SIZE false
                  stdin Hmem) as (bytes & len & Hrun & Hpos);
        [discriminate | exact Hne |].
      pose proof Hrun as Hcut.
      apply read_all_stdin_with_cut in Hcut as [Hcap [Hlen Hpre]];
        [|discriminate].
      unfold X11.run_copy_clipboard, X11.read_all_stdin. rewrite Hrun.
      replace (len =? 0)%N with false by (symmetry; apply N.eqb_neq; lia).
      simpl. subst len. rewrite take_whole.
      exists bytes. split; [reflexivity|]. split.
      * intros ->. simpl in Hpos. lia.
      * repeat split; assumption.
    + destruct (read_all_stdin_with_nonempty alloc_ok MAX_CLIPBOARD_SIZE true
                  stdin Hmem) as (bytes & len & Hrun & Hpos);
        [discriminate | exact Hne |].
      pose proof Hrun as Hcut.
      apply read_all_stdin_with_cut in Hcut as [Hcap [Hlen Hpre]];
        [|discriminate].
      unfold Wayland.run_copy_clipboard, Wayland.read_all_stdin. rewrite Hrun.
      replace (len =? 0)%N with false by (symmetry; apply N.eqb_neq; lia).
      simpl. subst len. rewrite take_whole.
      exists bytes. split; [reflexivity|]. split.
      * intros ->. simpl in Hpos. lia.
      * repeat split; assumption.
Qed.

(** ** One-shot PRIMARY read *)

Section OneshotOutput.

Variable alloc_ok : N → bool.

Lemma wl_handle_event_mode ev st :
  Wayland.is_daemon_mode (Wayland.handle_event alloc_ok ev st)
  = Wayland.is_daemon_mode st.
Proof.
  destruct ev as [o | o mime | o pipe | o | o mime | o | | ];
    cbn [Wayland.handle_event]; try reflexivity.
  - unfold Wayland.ps_offer_handle_offer. destruct (_ || _); reflexivity.
  - unfold Wayland.ps_device_handle_selection, Wayland.read_ps_offer.
    repeat case_match; simplify_eq; reflexivity.
  - unfold Wayland.clip_offer_handle_offer. destruct (_ || _); reflexivity.
  - unfold Wayland.dd_handle_selection. repeat case_match; reflexivity.
Qed.

Lemma wl_dispatch_mode evs :
  ∀ st, Wayland.is_daemon_mode (Wayland.dispatch alloc_ok evs st)
        = Wayland.is_daemon_mode st.
Proof.
  induction evs as [|ev evs IH]; intros st; [reflexivity|].
  rewrite <- (wl_handle_event_mode ev st). apply IH.
Qed.

(** Outside daemon mode the three events by which a compositor hands over
    a selection with a text type leave that offer current, marked as
    text, and the selection as received. *)
Lemma dispatch_offer_with_text o mime p st :
  Wayland.is_daemon_mode st = false →
  accepted_mime mime →
  let st' :=
    Wayland.dispatch alloc_ok
      [Wayland.PsDataOffer o; Wayland.PsOfferMime o mime;
       Wayland.PsSelection (Some o) p] st in
  Wayland.current_ps_offer st' = Some o
  ∧ Wayland.ps_has_text st' = true
  ∧ Wayland.got_selection st' = true.
Proof.
  intros Hmode Hmime.
  assert (Htext : ∀ s, Wayland.ps_offer_handle_offer mime s
                       = Wayland.set_ps_has_text true s).
  { intros s. unfold Wayland.ps_offer_handle_offer, accepted_mime in *.
    cbn in Hmime.
    destruct Hmime as [<-|[<-|[<-|[<-|[<-|[]]]]]]; reflexivity. }
  cbn [Wayland.dispatch foldl Wayland.handle_event].
  rewrite Htext. unfold Wayland.ps_device_handle_selection.
  cbn [Wayland.is_daemon_mode Wayland.set_got_selection Wayland.bump_seq
       Wayland.set_seq_counter Wayland.set_current_ps_offer
       Wayland.send Wayland.set_ps_has_text
       Wayland.ps_device_handle_data_offer Wayland.current_ps_offer].
  destruct (Wayland.current_ps_offer st) as [cur|]; [case_bool_decide|];
    cbn; rewrite Hmode; cbn; auto.
Qed.

Lemma oneshot_wait_found k evs rest :
  ∀ n st,
    k < n →
    Wayland.got_selection st = false →
    Wayland.got_selection (Wayland.dispatch alloc_ok evs st) = true →
    Wayland.oneshot_wait alloc_ok n (replicate k [] ++ evs :: rest) st
    = Wayland.dispatch alloc_ok evs st.
Proof.
  induction k as [|k IH]; intros n st Hlt Hnot Hgot;
    (destruct n as [|n]; [lia|]);
    cbn [replicate app Wayland.oneshot_wait]; rewrite Hnot.
  - destruct n; cbn [Wayland.oneshot_wait]; [reflexivity|].
    now rewrite Hgot.
  - cbn [Wayland.dispatch foldl]. apply IH; [lia | exact Hnot | exact Hgot].
Qed.

(** What the one-shot read prints, in terms of the state in which it looks
    for an offer. *)
Lemma run_oneshot_output env st :
  Wayland.os_connect_ok env && Wayland.os_has_ps_manager env
    && Wayland.os_has_seat env = true →
  let st2 := oneshot_offer_state alloc_ok env st in
  fst (Wayland.run_oneshot alloc_ok env st)
  = (0%Z,
     match Wayland.current_ps_offer st2, Wayland.ps_has_text st2,
           Wayland.os_pipe env with
     | Some _, true, Some polls =>
         default []
           (fst (read_fd_with_timeout alloc_ok polls MAX_SELECTION_SIZE))
     | _, _, _ => []
     end).
Proof.
  intros Hok st2. apply andb_prop in Hok as [Hok Hseat].
  apply andb_prop in Hok as [Hconn Hps].
  unfold Wayland.run_oneshot. rewrite Hconn, Hps, Hseat. cbn [negb andb].
  fold (oneshot_offer_state alloc_ok env st). fold st2.
  destruct (Wayland.current_ps_offer st2) as [o|]; [|reflexivity].
  destruct (Wayland.ps_has_text st2); [|reflexivity].
  unfold Wayland.read_ps_offer.
  destruct (Wayland.os_pipe env) as [polls|]; [|reflexivity].
  destruct (read_fd_with_timeout alloc_ok polls MAX_SELECTION_SIZE)
    as [data len] eqn:Hread.
  apply read_fd_with_timeout_cut in Hread as (_ & Hdata).
  destruct data as [bytes|]; [|reflexivity].
  destruct Hdata as (-> & _). cbn [fst default from_option id].
  destruct (0 <? N.of_nat (length bytes))%N eqn:Hpos; cbn [fst].
  - now rewrite take_whole.
  - apply N.ltb_ge in Hpos. destruct bytes; [reflexivity|].
    cbn [length] in Hpos. lia.
Qed.

End OneshotOutput.

(** C4 (amended).  On X11 the one-shot read exits with 1 and prints nothing
    when it obtains no bytes (in particular when PRIMARY has no owner, as
    after clear-primary) and exits with 0 after printing the bytes when it
    does.  On Wayland its exit code is 0 whenever the connection and the
    two globals are there, and 1 is kept for a failed connection or a
    missing global.  What it prints is what it reads: when an offer with a
    text type is current after the round trip and the wait, the bytes read
    from that offer, all of them; and nothing when there is no such offer,
    no pipe, or the read hands back [NULL].  A selection delivered during
    the round trip is printed. *)
Theorem oneshot_exit_codes (alloc_ok : N → bool) :
  (∀ x,
     match X11.get_primary_selection alloc_ok x with
     | (Some data, _) => data ≠ [] ∧ X11.run_oneshot alloc_ok x = (0%Z, data)
     | (None, _) => X11.run_oneshot alloc_ok x = (1%Z, [])
     end)
  ∧ (∀ x, X11.xs_owner x = false → X11.run_oneshot alloc_ok x = (1%Z, []))
  ∧ (∀ env st,
       Wayland.os_connect_ok env && Wayland.os_has_ps_manager env
         && Wayland.os_has_seat env = true →
       fst (fst (Wayland.run_oneshot alloc_ok env st)) = 0%Z)
  ∧ (∀ env st,
       Wayland.os_connect_ok env && Wayland.os_has_ps_manager env
         && Wayland.os_has_seat env = false →
       fst (Wayland.run_oneshot alloc_ok env st) = (1%Z, []))
  ∧ (∀ env d pipe,
       Wayland.os_connect_ok env && Wayland.os_has_ps_manager env
         && Wayland.os_has_seat env = true →
       Wayland.os_roundtrip env = [Wayland.PsSelection None pipe] →
       fst (Wayland.run_oneshot alloc_ok env (Wayland.initial d)) = (0%Z, []))
  ∧ (∀ env st o polls data len,
       Wayland.os_connect_ok env && Wayland.os_has_ps_manager env
         && Wayland.os_has_seat env = true →
       Wayland.current_ps_offer (oneshot_offer_state alloc_ok env st)
       = Some o →
       Wayland.ps_has_text (oneshot_offer_state alloc_ok env st) = true →
       Wayland.os_pipe env = Some polls →
       read_fd_with_timeout alloc_ok polls MAX_SELECTION_SIZE
       = (Some data, len) →
       fst (Wayland.run_oneshot alloc_ok env st) = (0%Z, data))
  ∧ (∀ env st,
       Wayland.os_connect_ok env && Wayland.os_has_ps_manager env
         && Wayland.os_has_seat env = true →
       Wayland.current_ps_offer (oneshot_offer_state alloc_ok env st) = None
       ∨ Wayland.ps_has_text (oneshot_offer_state alloc_ok env st) = false
       ∨ Wayland.os_pipe env = None
       ∨ (∃ polls,
            Wayland.os_pipe env = Some polls
            ∧ fst (read_fd_with_timeout alloc_ok polls MAX_SELECTION_SIZE)
              = None) →
       fst (Wayland.run_oneshot alloc_ok env st) = (0%Z, []))
  ∧ (∀ env d pre o mime p polls data len,
       Wayland.os_connect_ok env && Wayland.os_has_ps_manager env
         && Wayland.os_has_seat env = true →
       Wayland.os_roundtrip env
       = pre ++ [Wayland.PsDataOffer o; Wayland.PsOfferMime o mime;
                 Wayland.PsSelection (Some o) p] →
       accepted_mime mime →
       Wayland.os_pipe env = Some polls →
       read_fd_with_timeout alloc_ok polls MAX_SELECTION_SIZE
       = (Some data, len) →
       fst (Wayland.run_oneshot alloc_ok env (Wayland.initial d))
       = (0%Z, data)).
Proof.
  split; [|split; [|split; [|split; [|split; [|split; [|split]]]]]].
  - intros x. unfold X11.run_oneshot.
    destruct (X11.get_primary_selection alloc_ok x) as [[data|] len] eqn:Hsel;
      [|reflexivity].
    apply get_selection_cut in Hsel as [[_ [Hlen _]] [Hnone | Hpos]];
      [discriminate|].
    replace (0 <? len)%N with true by (symmetry; apply N.ltb_lt; exact Hpos).
    subst len. rewrite take_whole. split; [|reflexivity].
    intros ->. simpl in Hpos. lia.
  - intros x Hown. unfold X11.run_oneshot, X11.get_primary_selection,
      X11.get_selection. rewrite Hown. reflexivity.
  - intros env st Hok. now rewrite (run_oneshot_output alloc_ok env st Hok).
  - intros env st Hbad. unfold Wayland.run_oneshot.
    destruct (Wayland.os_connect_ok env); [|reflexivity].
    simpl in Hbad. rewrite Hbad. reflexivity.
  - intros env d pipe Hok Hrt. apply andb_prop in Hok as [Hok Hseat].
    apply andb_prop in Hok as [Hconn Hps].
    unfold Wayland.run_oneshot. rewrite Hconn, Hps, Hseat, Hrt.
    cbn. destruct (Wayland.os_have_cache env); reflexivity.
  - intros env st o polls data len Hok Hcur Htext Hpipe Hread.
    rewrite (run_oneshot_output alloc_ok env st Hok).
    cbn zeta. now rewrite Hcur, Htext, Hpipe, Hread.
  - intros env st Hok Hnone.
    rewrite (run_oneshot_output alloc_ok env st Hok). cbn zeta.
    destruct Hnone as [-> | [Htext | [Hpipe | (polls & Hpipe & Hread)]]];
      [reflexivity | | |].
    + rewrite Htext. now destruct (Wayland.current_ps_offer _).
    + rewrite Hpipe. destruct (Wayland.current_ps_offer _); [|reflexivity].
      now destruct (Wayland.ps_has_text _).
    + rewrite Hpipe, Hread. destruct (Wayland.current_ps_offer _);
        [|reflexivity].
      now destruct (Wayland.ps_has_text _).
  - intros env d pre o mime p polls data len Hok Hrt Hmime Hpipe Hread.
    rewrite (run_oneshot_output alloc_ok env _ Hok). cbn zeta.
    unfold oneshot_offer_state. rewrite Hrt.
    set (st00 := Wayland.set_got_selection false (Wayland.initial d)).
    set (tail := [Wayland.PsDataOffer o; Wayland.PsOfferMime o mime;
                  Wayland.PsSelection (Some o) p]).
    replace (Wayland.dispatch alloc_ok (pre ++ tail) st00)
      with (Wayland.dispatch alloc_ok tail (Wayland.dispatch alloc_ok pre st00))
      by (symmetry; apply foldl_app).
    set (st0 := Wayland.dispatch alloc_ok pre st00).
    assert (Hmode : Wayland.is_daemon_mode st0 = false)
      by (subst st0; now rewrite wl_dispatch_mode).
    subst tail.
    destruct (dispatch_offer_with_text alloc_ok o mime p st0 Hmode Hmime)
      as (Hcur & Htext & Hgot).
    rewrite Hgot. cbn [negb andb]. now rewrite Hcur, Htext, Hpipe, Hread.
Qed.

(** ** The forked clipboard server of the X11 backend *)

Lemma drain_pending_no_request data evs c :
  Forall (fun ev => ∀ target, ev ≠ X11.SelectionRequest target) evs →
  X11.selection_served (X11.drain_pending data evs c) = X11.selection_served c
  ∧ X11.timeout_count (X11.drain_pending data evs c) = X11.timeout_count c.
Proof.
  intros Hall. revert c. induction Hall as [|ev evs Hev Hrest IH]; intros c.
  - split; reflexivity.
  - destruct ev as [sel | target | | ]; simpl.
    + apply IH.
    + exfalso. apply (Hev target). reflexivity.
    + split; reflexivity.
    + apply IH.
Qed.

Lemma serve_loop_unserved_exits data ticks :
  ∀ c,
    X11.selection_served c = false →
    Forall no_request ticks →
    (500 - X11.timeout_count c ≤ Z.of_nat (length ticks))%Z →
    ∃ c', X11.serve_loop data ticks c = Exited 0 c'
          ∧ X11.selection_served c' = false.
Proof.
  induction ticks as [|t ticks IH]; intros c Hserved Hquiet Hlen.
  - simpl in *.
    destruct (X11.c_running c && (X11.timeout_count c <? 500)%Z) eqn:Hcond;
      [|eauto].
    apply andb_prop in Hcond as [_ Hlt]. apply Z.ltb_lt in Hlt. lia.
  - inversion Hquiet as [|? ? Ht Hrest]; subst.
    cbn [X11.serve_loop].
    destruct (X11.c_running c && (X11.timeout_count c <? 500)%Z) eqn:Hcond;
      [|eauto].
    destruct (drain_pending_no_request data (X11.tk_pending t) c Ht)
      as [Hs Hc].
    destruct (negb (X11.c_running
                      (X11.drain_pending data (X11.tk_pending t) c))).
    { eexists. split; [reflexivity|]. congruence. }
    apply IH.
    + simpl. congruence.
    + exact Hrest.
    + cbn [X11.timeout_count]. rewrite Hs, Hserved. cbn [negb].
      rewrite Hc. cbn [length] in Hlen. lia.
Qed.

Lemma serve_loop_served_idles data ticks c :
  X11.selection_served c = true →
  X11.c_running c = true →
  (X11.timeout_count c < 500)%Z →
  Forall idle ticks →
  X11.serve_loop data ticks c = Blocked c.
Proof.
  intros Hserved Hrun Hlt Hidle.
  induction Hidle as [|t ticks [Hpend Hsig] Hrest IH].
  - simpl. rewrite Hrun. apply Z.ltb_lt in Hlt. rewrite Hlt. reflexivity.
  - cbn [X11.serve_loop]. rewrite Hrun.
    pose proof Hlt as Hlt'. apply Z.ltb_lt in Hlt'. rewrite Hlt'. cbn [andb].
    rewrite Hpend, Hsig. cbn [X11.drain_pending]. rewrite Hrun, Hserved.
    cbn [negb].
    replace {| X11.c_running := true;
               X11.timeout_count := X11.timeout_count c;
               X11.selection_served := true;
               X11.replies := X11.replies c |} with c
      by (destruct c; simpl in *; congruence).
    exact IH.
Qed.

Lemma classic_request evs :
  (∃ target, In (X11.SelectionRequest target) evs)
  ∨ Forall (fun ev => ∀ target, ev ≠ X11.SelectionRequest target) evs.
Proof.
  induction evs as [|ev evs [[target Hin] | Hnone]].
  - right. constructor.
  - left. exists target. now right.
  - destruct ev as [sel | target | | ].
    + right. constructor; [discriminate | exact Hnone].
    + left. exists target. now left.
    + right. constructor; [discriminate | exact Hnone].
    + right. constructor; [discriminate | exact Hnone].
Qed.

(** The XWayland sibling, for comparison: passes that bring no request
    always run its countdown out, whatever was served before. *)
Lemma xwayland_drain_no_request evs c :
  Forall (fun ev => ∀ target, ev ≠ X11.SelectionRequest target) evs →
  XWayland.selection_request_received (XWayland.drain_pending evs c)
  = XWayland.selection_request_received c
  ∧ XWayland.timeout_count (XWayland.drain_pending evs c)
    = XWayland.timeout_count c.
Proof.
  intros Hall. revert c. induction Hall as [|ev evs Hev Hrest IH]; intros c.
  - split; reflexivity.
  - destruct ev as [sel | target | | ]; simpl.
    + apply IH.
    + exfalso. apply (Hev target). reflexivity.
    + split; reflexivity.
    + apply IH.
Qed.

Lemma xwayland_child_times_out ticks :
  ∀ c,
    XWayland.selection_request_received c = false →
    Forall no_request ticks →
    (500 - XWayland.timeout_count c ≤ Z.of_nat (length ticks))%Z →
    ∃ c', XWayland.serve_loop ticks c = Exited 0 c'.
Proof.
  induction ticks as [|t ticks IH]; intros c Hflag Hquiet Hlen.
  - simpl in *.
    destruct (XWayland.c_running c && (XWayland.timeout_count c <? 500)%Z)
      eqn:Hcond; [|eauto].
    apply andb_prop in Hcond as [_ Hlt]. apply Z.ltb_lt in Hlt. lia.
  - inversion Hquiet as [|? ? Ht Hrest]; subst.
    cbn [XWayland.serve_loop].
    destruct (XWayland.c_running c && (XWayland.timeout_count c <? 500)%Z)
      eqn:Hcond; [|eauto].
    destruct (xwayland_drain_no_request (X11.tk_pending t) c Ht) as [Hs Hc].
    destruct (negb (XWayland.c_running
                      (XWayland.drain_pending (X11.tk_pending t) c)));
      [eauto|].
    apply IH.
    + reflexivity.
    + exact Hrest.
    + cbn [XWayland.timeout_count]. rewrite Hs, Hflag, Hc.
      cbn [length] in Hlen. lia.
Qed.

(** Before its 500th idle pass a child that has served no request is still
    in its loop, its counter at the number of passes made. *)
Lemma serve_loop_unserved_waits data ticks :
  ∀ c,
    X11.selection_served c = false →
    X11.c_running c = true →
    Forall idle ticks →
    (X11.timeout_count c + Z.of_nat (length ticks) < 500)%Z →
    X11.serve_loop data ticks c
    = Blocked
        {| X11.c_running := true;
           X11.timeout_count :=
             (X11.timeout_count c + Z.of_nat (length ticks))%Z;
           X11.selection_served := false;
           X11.replies := X11.replies c |}.
Proof.
  induction ticks as [|t ticks IH]; intros c Hserved Hrun Hidle Hlt.
  - cbn [X11.serve_loop length Z.of_nat] in *. rewrite Hrun.
    replace (X11.timeout_count c <? 500)%Z with true
      by (symmetry; apply Z.ltb_lt; lia).
    cbn [andb]. rewrite Z.add_0_r. f_equal.
    destruct c; simpl in *; congruence.
  - inversion Hidle as [|? ? [Hpend Hsig] Hrest]; subst.
    cbn [X11.serve_loop]. rewrite Hrun.
    replace (X11.timeout_count c <? 500)%Z with true
      by (symmetry; apply Z.ltb_lt; cbn [length] in Hlt; lia).
    cbn [andb]. rewrite Hpend, Hsig. cbn [X11.drain_pending].
    rewrite Hrun, Hserved. cbn [negb].
    rewrite IH; cbn [X11.selection_served X11.c_running X11.timeout_count
                     X11.replies]; try reflexivity; try assumption.
    + f_equal. f_equal. cbn [length]. lia.
    + cbn [length] in Hlt. lia.
Qed.

(** What the loop of the X11 child does.  The child leaves its loop within
    500 passes of 100 ms when no selection request at all has been served.
    A served request sets the counter back to 0 and the counter does not
    advance any more: from then on idle passes, however many, never end the
    child, which still leaves on [SelectionClear] or on a termination
    signal.  Before the 500th idle pass a child that has served nothing is
    still in its loop. *)
Lemma copy_child_timeout (data : list byte) :
  (∀ ticks,
     Forall no_request ticks →
     500 ≤ length ticks →
     ∃ c, X11.serve_loop data ticks X11.child_start = Exited 0 c
          ∧ X11.selection_served c = false)
  ∧ (∀ evs c,
       (∃ target, In (X11.SelectionRequest target) evs) →
       Forall (fun ev => ev ≠ X11.SelectionClear) evs →
       X11.selection_served (X11.drain_pending data evs c) = true
       ∧ X11.timeout_count (X11.drain_pending data evs c) = 0%Z)
  ∧ (∀ ticks c,
       X11.selection_served c = true →
       X11.c_running c = true →
       (X11.timeout_count c < 500)%Z →
       Forall idle ticks →
       X11.serve_loop data ticks c = Blocked c)
  ∧ (∀ ticks c,
       X11.selection_served c = true →
       X11.c_running c = true →
       (X11.timeout_count c < 500)%Z →
       (∃ c', X11.serve_loop data
                ({| X11.tk_pending := [X11.SelectionClear];
                    X11.tk_signal := false |} :: ticks) c = Exited 0 c')
       ∧ (∃ c', X11.serve_loop data
                  ({| X11.tk_pending := []; X11.tk_signal := true |} :: ticks) c
                = Exited 0 c'))
  ∧ (∀ ticks,
       Forall idle ticks →
       length ticks < 500 →
       X11.serve_loop data ticks X11.child_start
       = Blocked
           {| X11.c_running := true;
              X11.timeout_count := Z.of_nat (length ticks);
              X11.selection_served := false; X11.replies := [] |}).
Proof.
  split; [|split; [|split; [|split]]].
  - intros ticks Hquiet Hlen.
    apply serve_loop_unserved_exits; [reflexivity | exact Hquiet |].
    simpl. lia.
  - intros evs. induction evs as [|ev evs IH]; intros c [target Hin] Hclear.
    + destruct Hin.
    + inversion Hclear as [|? ? Hev Hrest]; subst.
      destruct ev as [sel | tg | | ]; cbn [X11.drain_pending].
      * destruct Hin as [Hin|Hin]; [discriminate|]. apply IH; eauto.
      * destruct (classic_request evs) as [Hmore | Hnone].
        -- apply IH; [exact Hmore | exact Hrest].
        -- destruct (drain_pending_no_request data evs
                       {| X11.c_running := X11.c_running c;
                          X11.timeout_count := 0;
                          X11.selection_served := true;
                          X11.replies :=
                            X11.replies c
                            ++ [X11.handle_selection_request tg data] |}
                       Hnone) as [-> ->].
           split; reflexivity.
      * contradiction.
      * destruct Hin as [Hin|Hin]; [discriminate|]. apply IH; eauto.
  - intros ticks c. apply serve_loop_served_idles.
  - intros ticks c Hserved Hrun Hlt. apply Z.ltb_lt in Hlt.
    split; cbn [X11.serve_loop X11.drain_pending X11.tk_pending X11.tk_signal];
      rewrite Hrun, Hlt; cbn [andb negb X11.c_running].
    + eexists. reflexivity.
    + destruct ticks; cbn [X11.serve_loop X11.c_running andb];
        eexists; reflexivity.
  - intros ticks Hidle Hlen.
    rewrite (serve_loop_unserved_waits data ticks X11.child_start);
      [reflexivity | reflexivity | reflexivity | exact Hidle |].
    cbn [X11.timeout_count X11.child_start]. lia.
Qed.

(** ** Offer bookkeeping of the Wayland backend *)

Lemma held_ps_app w1 w2 :
  held_ps (w1 ++ w2) = foldl held_ps_step (held_ps w1) w2.
Proof. unfold held_ps. apply foldl_app. Qed.

Lemma held_clip_app w1 w2 :
  held_clip (w1 ++ w2) = foldl held_clip_step (held_clip w1) w2.
Proof. unfold held_clip. apply foldl_app. Qed.

Lemma current_set_size o : size (current_set o) ≤ 1.
Proof.
  destruct o as [x|]; unfold current_set.
  - pose proof (size_singleton (C := gset Wayland.offer) x). lia.
  - pose proof (size_empty (C := gset Wayland.offer)). lia.
Qed.

Section WaylandFacts.

Variable alloc_ok : N → bool.

(** A read of an offer changes nothing but the transcript, to which it
    adds at most the [receive] request. *)
Lemma read_ps_offer_state o pipe len0 st :
  let st' := snd (Wayland.read_ps_offer alloc_ok o pipe len0 st) in
  st' = st ∨ st' = Wayland.send (Wayland.PsOfferReceive o Wayland.TEXT_UTF8) st.
Proof. destruct pipe; simpl; auto. Qed.

Lemma offers_tracked_receive_ps o mime st :
  offers_tracked st →
  offers_tracked (Wayland.send (Wayland.PsOfferReceive o mime) st).
Proof.
  intros [Hps Hclip]. split; simpl.
  - rewrite held_ps_app. exact Hps.
  - rewrite held_clip_app. exact Hclip.
Qed.

Lemma offers_tracked_receive_clip o mime st :
  offers_tracked st →
  offers_tracked (Wayland.send (Wayland.DataOfferReceive o mime) st).
Proof.
  intros [Hps Hclip]. split; simpl.
  - rewrite held_ps_app. exact Hps.
  - rewrite held_clip_app. exact Hclip.
Qed.

(** Operations that touch neither the transcript nor the two pointers. *)
Lemma offers_tracked_same st st' :
  Wayland.wire st' = Wayland.wire st →
  Wayland.current_ps_offer st' = Wayland.current_ps_offer st →
  Wayland.current_clipboard_offer st' = Wayland.current_clipboard_offer st →
  offers_tracked st → offers_tracked st'.
Proof. unfold offers_tracked. intros -> -> ->. tauto. Qed.

Lemma offers_tracked_read_ps o pipe len0 st :
  offers_tracked st →
  offers_tracked (snd (Wayland.read_ps_offer alloc_ok o pipe len0 st)).
Proof.
  intros H. destruct (read_ps_offer_state o pipe len0 st) as [-> | ->];
    [exact H | now apply offers_tracked_receive_ps].
Qed.

Lemma check_and_update_primary_tracked pipe st :
  offers_tracked st →
  offers_tracked (snd (Wayland.check_and_update_primary alloc_ok pipe st)).
Proof.
  intros H. unfold Wayland.check_and_update_primary.
  destruct (Wayland.current_ps_offer st) as [o|] eqn:Hcur.
  - destruct (Wayland.ps_has_text st).
    + pose proof (offers_tracked_read_ps o pipe 0 st H) as Hread.
      destruct (Wayland.read_ps_offer alloc_ok o pipe 0 st)
        as [[sel len] st1].
      simpl in Hread |- *.
      eapply offers_tracked_same; [ | | | exact Hread]; reflexivity.
    + destruct (Wayland.last_known_content st); [|exact H].
      eapply offers_tracked_same; [ | | | exact H]; reflexivity.
  - destruct (Wayland.last_known_content st); [|exact H].
    eapply offers_tracked_same; [ | | | exact H]; reflexivity.
Qed.

Lemma ps_selection_tracked o pipe st :
  offers_tracked st →
  offers_tracked (Wayland.handle_event alloc_ok (Wayland.PsSelection o pipe) st).
Proof.
  intros [Hps Hclip]. cbn [Wayland.handle_event].
  unfold Wayland.ps_device_handle_selection.
  set (st0 := Wayland.send (Wayland.PsSelectionEvent o) st).
  set (st1 := match Wayland.current_ps_offer st0 with
              | Some cur =>
                  if bool_decide (Some cur ≠ o)
                  then Wayland.send (Wayland.PsOfferDestroy cur) st0 else st0
              | None => st0
              end).
  set (st2 := Wayland.set_got_selection true
                (Wayland.bump_seq (Wayland.set_current_ps_offer o st1))).
  assert (H2 : offers_tracked st2).
  { subst st2 st1 st0. split.
    - cbn. destruct (Wayland.current_ps_offer st) as [cur|] eqn:Hcur.
      + case_bool_decide as Hne.
        * cbn. rewrite !held_ps_app, Hps. cbn.
          destruct o as [o|]; cbn; [|set_solver].
          assert (cur ≠ o) by congruence. set_solver.
        * cbn. rewrite held_ps_app, Hps. cbn.
          assert (o = Some cur) as -> by
            (destruct (decide (Some cur = o)); [auto | contradiction]).
          cbn. set_solver.
      + cbn. rewrite held_ps_app, Hps. cbn. destruct o; cbn; set_solver.
    - cbn. destruct (Wayland.current_ps_offer st) as [cur|].
      + case_bool_decide; cbn; rewrite !held_clip_app, Hclip;
          destruct o; reflexivity.
      + cbn. rewrite held_clip_app, Hclip. destruct o; reflexivity. }
  clearbody st2.
  destruct (negb (Wayland.is_daemon_mode st2)); [exact H2|].
  destruct o as [off|].
  - destruct (Wayland.ps_has_text st2).
    + pose proof (offers_tracked_read_ps off pipe 0 st2 H2) as Hread.
      destruct (Wayland.read_ps_offer alloc_ok off pipe 0 st2)
        as [[sel len] st3].
      simpl in Hread.
      destruct (Wayland.content_changed sel len _ _); [|exact Hread].
      eapply offers_tracked_same; [ | | | exact Hread]; reflexivity.
    + destruct (Wayland.last_known_content st2); [|exact H2].
      eapply offers_tracked_same; [ | | | exact H2]; reflexivity.
  - destruct (Wayland.last_known_content st2); [|exact H2].
    eapply offers_tracked_same; [ | | | exact H2]; reflexivity.
Qed.

Lemma data_selection_tracked o st :
  offers_tracked st →
  offers_tracked (Wayland.handle_event alloc_ok (Wayland.DataSelection o) st).
Proof.
  intros [Hps Hclip]. cbn [Wayland.handle_event].
  unfold Wayland.dd_handle_selection. split.
  - cbn. destruct (Wayland.current_clipboard_offer st) as [cur|].
    + case_bool_decide; cbn; rewrite !held_ps_app, Hps;
        destruct o; reflexivity.
    + cbn. rewrite held_ps_app, Hps. destruct o; reflexivity.
  - cbn. destruct (Wayland.current_clipboard_offer st) as [cur|] eqn:Hcur.
    + case_bool_decide as Hne.
      * cbn. rewrite !held_clip_app, Hclip. cbn.
        destruct o as [o|]; cbn; [|set_solver].
        assert (cur ≠ o) by congruence. set_solver.
      * cbn. rewrite held_clip_app, Hclip. cbn.
        assert (o = Some cur) as -> by
          (destruct (decide (Some cur = o)); [auto | contradiction]).
        cbn. set_solver.
    + cbn. rewrite held_clip_app, Hclip. cbn. destruct o; cbn; set_solver.
Qed.

Lemma handle_event_tracked ev st :
  offers_tracked st → offers_tracked (Wayland.handle_event alloc_ok ev st).
Proof.
  intros H. destruct ev as [o | o mime | o pipe | o | o mime | o | | ].
  - exact H.
  - cbn. unfold Wayland.ps_offer_handle_offer.
    destruct (_ || _); [|exact H].
    eapply offers_tracked_same; [ | | | exact H]; reflexivity.
  - now apply ps_selection_tracked.
  - exact H.
  - cbn. unfold Wayland.clip_offer_handle_offer.
    destruct (_ || _); [|exact H].
    eapply offers_tracked_same; [ | | | exact H]; reflexivity.
  - now apply data_selection_tracked.
  - exact H.
  - exact H.
Qed.

Lemma dispatch_tracked evs st :
  offers_tracked st → offers_tracked (Wayland.dispatch alloc_ok evs st).
Proof.
  revert st. induction evs as [|ev evs IH]; intros st H; [exact H|].
  apply IH. now apply handle_event_tracked.
Qed.

Lemma wayland_disconnect_tracked st :
  offers_tracked st → offers_tracked (Wayland.wayland_disconnect st).
Proof.
  intros [Hps Hclip]. unfold Wayland.wayland_disconnect.
  destruct (Wayland.current_ps_offer st) as [p|] eqn:Hp;
    destruct (Wayland.current_clipboard_offer st) as [c|] eqn:Hc;
    cbn; rewrite ?Hc; cbn; split; cbn;
    rewrite ?held_ps_app, ?held_clip_app, ?Hps, ?Hclip; cbn;
    rewrite ?Hp, ?Hc; cbn; set_solver.
Qed.

Lemma daemon_pass_tracked t st :
  offers_tracked st →
  offers_tracked (fst (Wayland.daemon_pass alloc_ok t st)).
Proof.
  intros H. unfold Wayland.daemon_pass.
  set (st1 := Wayland.dispatch alloc_ok (Wayland.tk_queued t) st).
  assert (H1 : offers_tracked st1) by now apply dispatch_tracked.
  set (st2 := if Wayland.tk_signal t then Wayland.set_running false st1
              else st1).
  assert (H2 : offers_tracked st2).
  { subst st2. destruct (Wayland.tk_signal t); [|exact H1].
    eapply offers_tracked_same; [ | | | exact H1]; reflexivity. }
  clearbody st2. clear st1 H1 H.
  destruct (Wayland.tk_poll t) as [ | | | pipe | [evs|] err | err]; cbn;
    try exact H2.
  - destruct (Wayland.current_ps_offer st2) eqn:Hcur; [|exact H2].
    destruct (Wayland.ps_has_text st2); [|exact H2].
    cbn. now apply check_and_update_primary_tracked.
  - now apply dispatch_tracked.
Qed.

Lemma event_loop_tracked ticks :
  ∀ st, offers_tracked st →
        offers_tracked (fst (Wayland.event_loop alloc_ok ticks st)).
Proof.
  induction ticks as [|t ticks IH]; intros st H; cbn [Wayland.event_loop].
  - destruct (Wayland.running st); exact H.
  - destruct (Wayland.running st); [|exact H].
    pose proof (daemon_pass_tracked t st H) as Hpass.
    destruct (Wayland.daemon_pass alloc_ok t st) as [st' []]; cbn in Hpass.
    + exact Hpass.
    + now apply IH.
Qed.

Lemma daemon_startup_tracked env st :
  offers_tracked st →
  match Wayland.daemon_startup alloc_ok env st with
  | inl (_, st') => offers_tracked st'
  | inr st' => offers_tracked st'
  end.
Proof.
  intros H. unfold Wayland.daemon_startup.
  destruct (negb (Wayland.connect_ok env)); [exact H|].
  destruct (negb (Wayland.has_ps_manager env));
    [now apply wayland_disconnect_tracked|].
  destruct (negb (Wayland.has_seat env));
    [now apply wayland_disconnect_tracked|].
  destruct (negb (Wayland.cache_dir_ok env));
    [now apply wayland_disconnect_tracked|].
  match goal with
  | |- context [Wayland.set_cache ?d ?s] =>
      assert (H1 : offers_tracked (Wayland.set_cache d s))
        by (eapply offers_tracked_same; [ | | | exact H]; reflexivity);
      generalize dependent (Wayland.set_cache d s)
  end.
  intros st1 H1.
  destruct (negb (Wayland.daemonize_ok env));
    [now apply wayland_disconnect_tracked|].
  assert (H2 : offers_tracked
                 (Wayland.set_cache
                    (write_pid_file (Wayland.pid env) (Wayland.cache st1)) st1))
    by (eapply offers_tracked_same; [ | | | exact H1]; reflexivity).
  destruct (Wayland.surface_events env) as [evs|].
  - now apply dispatch_tracked, dispatch_tracked.
  - now apply wayland_disconnect_tracked, dispatch_tracked.
Qed.

Lemma run_daemon_tracked env ticks st :
  offers_tracked st →
  offers_tracked (final_state (Wayland.run_daemon alloc_ok env ticks st)).
Proof.
  intros H. unfold Wayland.run_daemon.
  pose proof (daemon_startup_tracked env st H) as Hstart.
  destruct (Wayland.daemon_startup alloc_ok env st) as [[code st']|st1];
    [exact Hstart|].
  pose proof (event_loop_tracked ticks st1 Hstart) as Hloop.
  destruct (Wayland.event_loop alloc_ok ticks st1) as [st2 []]; cbn in Hloop.
  - cbn. eapply offers_tracked_same;
      [ | | | apply wayland_disconnect_tracked; exact Hloop]; reflexivity.
  - exact Hloop.
Qed.

Lemma initial_tracked d : offers_tracked (Wayland.initial d).
Proof. split; reflexivity. Qed.

End WaylandFacts.

(** C8.  At every point of a run of the Wayland daemon, whatever the
    compositor delivers and however the run ends, the offers the client
    holds on each device are exactly the tracked one, so at most one per
    device; every event handler keeps it so.  When a selection event
    delivers an offer other than the tracked one, the tracked offer is
    destroyed first: the [destroy] request is the first thing sent, ahead
    of any request made on the new offer, and the new offer is current when
    the handler returns. *)
Theorem one_offer_per_device (alloc_ok : N → bool) :
  (∀ env ticks d,
     let st :=
       final_state (Wayland.run_daemon alloc_ok env ticks (Wayland.initial d)) in
     offers_tracked st
     ∧ size (held_ps (Wayland.wire st)) ≤ 1
     ∧ size (held_clip (Wayland.wire st)) ≤ 1)
  ∧ (∀ ev st,
       offers_tracked st →
       offers_tracked (Wayland.handle_event alloc_ok ev st))
  ∧ (∀ o pipe st cur,
       Wayland.current_ps_offer st = Some cur →
       o ≠ Some cur →
       let st' := Wayland.handle_event alloc_ok (Wayland.PsSelection o pipe) st in
       Wayland.current_ps_offer st' = o
       ∧ ∃ more,
           Wayland.wire st'
           = Wayland.wire st
             ++ [Wayland.PsSelectionEvent o; Wayland.PsOfferDestroy cur] ++ more
           ∧ Forall is_receive more)
  ∧ (∀ o st cur,
       Wayland.current_clipboard_offer st = Some cur →
       o ≠ Some cur →
       let st' := Wayland.handle_event alloc_ok (Wayland.DataSelection o) st in
       Wayland.current_clipboard_offer st' = o
       ∧ Wayland.wire st'
         = Wayland.wire st
           ++ [Wayland.DataSelectionEvent o; Wayland.DataOfferDestroy cur]).
Proof.
  split; [|split; [|split]].
  - intros env ticks d st.
    assert (H : offers_tracked st)
      by (apply run_daemon_tracked, initial_tracked).
    split; [exact H|]. destruct H as [-> ->].
    split; apply current_set_size.
  - intros ev st. apply handle_event_tracked.
  - intros o pipe st cur Hcur Hne st'. subst st'.
    cbn [Wayland.handle_event]. unfold Wayland.ps_device_handle_selection.
    cbn [Wayland.send Wayland.current_ps_offer]. rewrite Hcur.
    rewrite bool_decide_eq_true_2 by congruence.
    cbn [Wayland.is_daemon_mode Wayland.set_got_selection Wayland.bump_seq
         Wayland.set_current_ps_offer Wayland.send Wayland.ps_has_text
         Wayland.last_known_content Wayland.last_known_len].
    unfold Wayland.read_ps_offer.
    repeat case_match; simplify_eq; cbn;
      (split; [reflexivity|]); eexists;
      (split; [rewrite <- ?app_assoc; cbn; reflexivity | repeat constructor]).
  - intros o st cur Hcur Hne st'. subst st'.
    cbn [Wayland.handle_event]. unfold Wayland.dd_handle_selection.
    cbn [Wayland.send Wayland.current_clipboard_offer]. rewrite Hcur.
    rewrite bool_decide_eq_true_2 by congruence.
    cbn. split; [reflexivity|]. rewrite <- app_assoc. reflexivity.
Qed.

(** ** Shutdown *)

Lemma unlink_cache_files_gone d :
  files (unlink_cache_files d) !! PRIMARY_FILE = None
  ∧ files (unlink_cache_files d) !! SEQ_FILE = None
  ∧ files (unlink_cache_files d) !! PID_FILE = None
  ∧ trace (unlink_cache_files d)
    = trace d ++ [SysUnlink PRIMARY_FILE; SysUnlink SEQ_FILE; SysUnlink PID_FILE].
Proof.
  unfold unlink_cache_files, sys_unlink. cbn.
  repeat split.
  - rewrite lookup_delete_ne by discriminate.
    rewrite lookup_delete_ne by discriminate.
    apply lookup_delete_eq.
  - rewrite lookup_delete_ne by discriminate. apply lookup_delete_eq.
  - apply lookup_delete_eq.
  - rewrite <- !app_assoc. reflexivity.
Qed.

Section ShutdownFacts.

Variable alloc_ok : N → bool.

Lemma x11_handle_event_running ev x st :
  X11.running (X11.handle_event alloc_ok ev x st) = X11.running st.
Proof.
  destruct ev as [sel| | |]; cbn; try reflexivity.
  case_decide; [|reflexivity].
  unfold X11.check_and_update_primary.
  destruct (X11.get_primary_selection alloc_ok x). reflexivity.
Qed.

Lemma x11_next_event_loop_stopped inputs :
  ∀ st,
    X11.running st = false →
    (∃ ev x, In (X11.Event ev x) inputs) →
    snd (X11.next_event_loop alloc_ok inputs st) = true.
Proof.
  induction inputs as [|i inputs IH]; intros st Hstop (ev & x & Hin).
  - destruct Hin.
  - destruct i as [|ev' x']; cbn [X11.next_event_loop].
    + destruct Hin as [Hin|Hin]; [discriminate|]. apply IH; eauto.
    + rewrite x11_handle_event_running, Hstop. reflexivity.
Qed.

Lemma x11_next_event_loop_signalled pre post :
  (∃ ev x, In (X11.Event ev x) post) →
  ∀ st, snd (X11.next_event_loop alloc_ok (pre ++ X11.Signal :: post) st) = true.
Proof.
  intros Hev. induction pre as [|i pre IH]; intros st.
  - cbn. apply x11_next_event_loop_stopped; [reflexivity | exact Hev].
  - destruct i as [|ev x]; cbn [app X11.next_event_loop].
    + apply IH.
    + destruct (X11.running (X11.handle_event alloc_ok ev x st));
        [apply IH | reflexivity].
Qed.

Lemma wl_handle_event_stopped ev st :
  Wayland.running st = false →
  Wayland.running (Wayland.handle_event alloc_ok ev st) = false.
Proof.
  intros Hstop.
  destruct ev as [o | o mime | o pipe | o | o mime | o | | ];
    cbn [Wayland.handle_event]; try exact Hstop; try reflexivity.
  - unfold Wayland.ps_offer_handle_offer. destruct (_ || _); exact Hstop.
  - unfold Wayland.ps_device_handle_selection, Wayland.read_ps_offer.
    repeat case_match; simplify_eq; cbn; exact Hstop.
  - unfold Wayland.clip_offer_handle_offer. destruct (_ || _); exact Hstop.
  - unfold Wayland.dd_handle_selection.
    repeat case_match; cbn; exact Hstop.
Qed.

Lemma wl_dispatch_stopped evs :
  ∀ st, Wayland.running st = false →
        Wayland.running (Wayland.dispatch alloc_ok evs st) = false.
Proof.
  induction evs as [|ev evs IH]; intros st Hstop; [exact Hstop|].
  apply IH. now apply wl_handle_event_stopped.
Qed.

Lemma wl_check_and_update_stopped pipe st :
  Wayland.running st = false →
  Wayland.running (snd (Wayland.check_and_update_primary alloc_ok pipe st))
  = false.
Proof.
  intros Hstop. unfold Wayland.check_and_update_primary, Wayland.read_ps_offer.
  repeat case_match; simplify_eq; cbn; exact Hstop.
Qed.

Lemma wl_daemon_pass_signalled t st :
  Wayland.tk_signal t = true →
  Wayland.running (fst (Wayland.daemon_pass alloc_ok t st)) = false
  ∨ snd (Wayland.daemon_pass alloc_ok t st) = true.
Proof.
  intros Hsig. unfold Wayland.daemon_pass. rewrite Hsig.
  set (st2 := Wayland.set_running false _).
  assert (H2 : Wayland.running st2 = false) by reflexivity.
  clearbody st2.
  destruct (Wayland.tk_poll t) as [ | | | pipe | [evs|] err | err]; cbn;
    auto.
  - left. repeat case_match; cbn; auto.
    now apply wl_check_and_update_stopped.
  - left. now apply wl_dispatch_stopped.
Qed.

Lemma wl_event_loop_signalled ticks :
  Exists (fun t => Wayland.tk_signal t = true) ticks →
  ∀ st, snd (Wayland.event_loop alloc_ok ticks st) = true.
Proof.
  induction 1 as [t ticks Hsig | t ticks Hlater IH]; intros st;
    cbn [Wayland.event_loop].
  - destruct (Wayland.running st); [|reflexivity].
    destruct (wl_daemon_pass_signalled t st Hsig) as [Hstop | Hbreak];
      destruct (Wayland.daemon_pass alloc_ok t st) as [st' b];
      cbn in *; subst.
    + destruct b; [reflexivity|].
      destruct ticks; cbn [Wayland.event_loop]; rewrite Hstop; reflexivity.
    + reflexivity.
  - destruct (Wayland.running st); [|reflexivity].
    destruct (Wayland.daemon_pass alloc_ok t st) as [st' []];
      [reflexivity | apply IH].
Qed.

End ShutdownFacts.

Lemma chdir_root_stays w d :
  paths_move w = false → chdir_root w d = d ∧ left_behind w d = None.
Proof. unfold chdir_root, left_behind. now intros ->. Qed.

Lemma left_behind_moved w d :
  paths_move w = true → left_behind w d = Some (files d).
Proof. unfold left_behind. now intros ->. Qed.

Lemma left_behind_cases w d :
  left_behind w d = None ∧ paths_move w = false
  ∨ left_behind w d = Some (files d) ∧ paths_move w = true.
Proof. unfold left_behind. destruct (paths_move w); auto. Qed.

Section WorkdirFacts.

Variable alloc_ok : N → bool.

Lemma x11_daemon_startup_in_stays w env st :
  paths_move w = false →
  X11.daemon_startup_in alloc_ok w env st
  = (X11.daemon_startup alloc_ok env st, None).
Proof.
  intros Hstay. unfold X11.daemon_startup_in, X11.daemon_startup.
  destruct (negb (X11.cache_dir_ok env)); [reflexivity|].
  destruct (negb (X11.xfixes_ok env)); [reflexivity|].
  destruct (negb (X11.daemonize_ok env)); [reflexivity|].
  cbn [X11.running X11.seq_counter X11.cache].
  destruct (chdir_root_stays w
              (write_primary (Some []) 0 (X11.now env mod ULONG_MODULUS)
                 (X11.cache st)) Hstay) as (-> & ->).
  reflexivity.
Qed.

Lemma x11_run_daemon_in_stays w env inputs st :
  paths_move w = false →
  X11.run_daemon_in alloc_ok w env inputs st
  = (X11.run_daemon alloc_ok env inputs st, None).
Proof.
  intros Hstay. unfold X11.run_daemon_in, X11.run_daemon.
  rewrite (x11_daemon_startup_in_stays w env st Hstay).
  destruct (X11.daemon_startup alloc_ok env st) as [[code st']|st1];
    [reflexivity|].
  destruct (X11.event_loop alloc_ok inputs st1) as [st2 []]; reflexivity.
Qed.

Lemma wl_daemon_startup_in_stays w env st :
  paths_move w = false →
  Wayland.daemon_startup_in alloc_ok w env st
  = (Wayland.daemon_startup alloc_ok env st, None).
Proof.
  intros Hstay. unfold Wayland.daemon_startup_in, Wayland.daemon_startup.
  destruct (negb (Wayland.connect_ok env)); [reflexivity|].
  destruct (negb (Wayland.has_ps_manager env)); [reflexivity|].
  destruct (negb (Wayland.has_seat env)); [reflexivity|].
  destruct (negb (Wayland.cache_dir_ok env)); [reflexivity|].
  destruct (negb (Wayland.daemonize_ok env)); [reflexivity|].
  cbn [Wayland.cache Wayland.set_cache].
  destruct (chdir_root_stays w
              (write_primary (Some []) 0 (Wayland.now env mod ULONG_MODULUS)
                 (Wayland.cache st)) Hstay) as (-> & ->).
  destruct (Wayland.surface_events env); reflexivity.
Qed.

Lemma wl_run_daemon_in_stays w env ticks st :
  paths_move w = false →
  Wayland.run_daemon_in alloc_ok w env ticks st
  = (Wayland.run_daemon alloc_ok env ticks st, None).
Proof.
  intros Hstay. unfold Wayland.run_daemon_in, Wayland.run_daemon.
  rewrite (wl_daemon_startup_in_stays w env st Hstay).
  destruct (Wayland.daemon_startup alloc_ok env st) as [[code st']|st1];
    [reflexivity|].
  destruct (Wayland.event_loop alloc_ok ticks st1) as [st2 []]; reflexivity.
Qed.

(** What a start that reaches the loop leaves behind: nothing when the
    paths stay, and the files of the initial publish when they move. *)
Lemma x11_daemon_startup_in_behind w env st st1 behind :
  X11.daemon_startup_in alloc_ok w env st = (inr st1, behind) →
  behind
  = left_behind w
      (write_primary (Some []) 0 (X11.now env mod ULONG_MODULUS)
         (X11.cache st)).
Proof.
  unfold X11.daemon_startup_in.
  destruct (negb (X11.cache_dir_ok env)); [discriminate|].
  destruct (negb (X11.xfixes_ok env)); [discriminate|].
  destruct (negb (X11.daemonize_ok env)); [discriminate|].
  intros H. now injection H as _ <-.
Qed.

Lemma wl_daemon_startup_in_behind w env st st1 behind :
  Wayland.daemon_startup_in alloc_ok w env st = (inr st1, behind) →
  behind
  = left_behind w
      (write_primary (Some []) 0 (Wayland.now env mod ULONG_MODULUS)
         (Wayland.cache st)).
Proof.
  unfold Wayland.daemon_startup_in.
  destruct (negb (Wayland.connect_ok env)); [discriminate|].
  destruct (negb (Wayland.has_ps_manager env)); [discriminate|].
  destruct (negb (Wayland.has_seat env)); [discriminate|].
  destruct (negb (Wayland.cache_dir_ok env)); [discriminate|].
  destruct (negb (Wayland.daemonize_ok env)); [discriminate|].
  destruct (Wayland.surface_events env); [|discriminate].
  intros H. now injection H as _ <-.
Qed.

End WorkdirFacts.

Lemma unlink_cache_files_all_gone d :
  cache_files_gone (files (unlink_cache_files d)).
Proof.
  destruct (unlink_cache_files_gone d) as (H1 & H2 & H3 & _).
  repeat split; assumption.
Qed.

(** The initial publish, when its files can be opened. *)
Lemma seed_publish_files seed d :
  PRIMARY_FILE ∉ denied d → SEQ_FILE ∉ denied d →
  files (write_primary (Some []) 0 seed d) !! PRIMARY_FILE = Some []
  ∧ files (write_primary (Some []) 0 seed d) !! SEQ_FILE
    = Some (fmt_lu seed ++ [newline]).
Proof.
  intros HP HS.
  destruct (write_primary_ok (Some []) 0 seed d HP HS) as (_ & Hp & Hs).
  split; [exact Hp | exact Hs].
Qed.


(** ** Publishing on selection events *)

Lemma payload_whole (c : list byte) :
  payload (Some c) (N.of_nat (length c)) = c.
Proof.
  unfold payload. destruct (0 <? N.of_nat (length c))%N eqn:Hpos.
  - apply take_whole.
  - apply N.ltb_ge in Hpos. destruct c; [reflexivity | simpl in Hpos; lia].
Qed.

Lemma write_pid_file_keeps_denied pid d :
  denied (write_pid_file pid d) = denied d.
Proof.
  unfold write_pid_file, sys_open.
  destruct (decide (PID_FILE ∈ denied d)); reflexivity.
Qed.

Lemma ulong_incr_small (x : Z) :
  (0 ≤ x)%Z → (x + 1 < ULONG_MODULUS)%Z → ulong_incr x = (x + 1)%Z.
Proof. intros H0 H1. unfold ulong_incr. apply Z.mod_small. lia. Qed.

Section PublishFacts.

Variable alloc_ok : N → bool.

Lemma x11_selection_content x :
  let content := default [] (fst (X11.get_primary_selection alloc_ok x)) in
  ∃ sel len,
    X11.get_primary_selection alloc_ok x = (sel, len)
    ∧ default [] sel = content
    ∧ match sel with Some _ => len | None => 0%N end
      = N.of_nat (length content).
Proof.
  destruct (X11.get_primary_selection alloc_ok x) as [sel len] eqn:Hsel.
  exists sel, len. split; [reflexivity|]. split; [reflexivity|].
  apply get_selection_cut in Hsel as [[_ Hcut] _].
  destruct sel as [data|]; [apply Hcut | reflexivity].
Qed.

Lemma x11_check_and_update_primary_eq x st :
  let content := default [] (fst (X11.get_primary_selection alloc_ok x)) in
  X11.check_and_update_primary alloc_ok x st
  = {| X11.running := X11.running st;
       X11.seq_counter := ulong_incr (X11.seq_counter st);
       X11.cache :=
         write_primary (Some content) (N.of_nat (length content))
           (ulong_incr (X11.seq_counter st)) (X11.cache st) |}.
Proof.
  intros content. subst content.
  destruct (x11_selection_content x) as (sel & len & Hsel & Hc & Hl).
  unfold X11.check_and_update_primary. rewrite Hsel in *. cbn [fst] in *.
  rewrite Hl. reflexivity.
Qed.

End PublishFacts.

(** C1 (amended).  On X11 every PRIMARY selection event increments the
    counter and publishes, [primary] first and [seq] after it, whatever the
    bytes.  On Wayland the selection handler increments the counter on
    every event, whatever the event delivers and in every mode, but
    publishes, under a second increment, only in daemon mode and only when
    the bytes it reads differ from the last known content, or when the
    event delivers no offer with a text type while a content is known, in
    which case it publishes the empty content and forgets the known one.
    In every other case, bytes identical to the last known content
    included, the cache files stay as they are.  Identical bytes are
    published again, with a new sequence value, by the re-read made on a
    poll timeout, which increments and publishes every time. *)
Theorem selection_events_and_publishing (alloc_ok : N → bool) :
  (∀ x st,
     let st' :=
       X11.handle_event alloc_ok
         (X11.XFixesSelectionNotify X11.XA_PRIMARY) x st in
     let content := default [] (fst (X11.get_primary_selection alloc_ok x)) in
     let seq := ulong_incr (X11.seq_counter st) in
     X11.seq_counter st' = seq
     ∧ (PRIMARY_FILE ∉ denied (X11.cache st) →
        SEQ_FILE ∉ denied (X11.cache st) →
        trace (X11.cache st')
        = trace (X11.cache st)
          ++ publish_spec_calls (Some content) (N.of_nat (length content)) seq
        ∧ files (X11.cache st') !! PRIMARY_FILE = Some content
        ∧ files (X11.cache st') !! SEQ_FILE = Some (fmt_lu seq ++ [newline])))
  ∧ (∀ o pipe st,
       let st' := Wayland.ps_device_handle_selection alloc_ok o pipe st in
       let seq := ulong_incr (Wayland.seq_counter st) in
       if negb (Wayland.is_daemon_mode st)
       then Wayland.seq_counter st' = seq ∧ Wayland.cache st' = Wayland.cache st
       else
         match o, Wayland.ps_has_text st with
         | Some off, true =>
             let read := fst (Wayland.read_ps_offer alloc_ok off pipe 0 st) in
             let sel := fst read in
             let len := snd read in
             if Wayland.content_changed sel len
                  (Wayland.last_known_content st) (Wayland.last_known_len st)
             then Wayland.seq_counter st' = ulong_incr seq
                  ∧ Wayland.cache st'
                    = write_primary (Some (default [] sel))
                        (Wayland.len_or_zero sel len) (ulong_incr seq)
                        (Wayland.cache st)
             else Wayland.seq_counter st' = seq
                  ∧ Wayland.cache st' = Wayland.cache st
         | _, _ =>
             match Wayland.last_known_content st with
             | Some _ =>
                 Wayland.seq_counter st' = ulong_incr seq
                 ∧ Wayland.cache st'
                   = write_primary (Some []) 0 (ulong_incr seq)
                       (Wayland.cache st)
                 ∧ Wayland.last_known_content st' = None
             | None =>
                 Wayland.seq_counter st' = seq
                 ∧ Wayland.cache st' = Wayland.cache st
             end
         end)
  ∧ (∀ bytes, Wayland.content_changed (Some bytes) (N.of_nat (length bytes))
                (Some bytes) (N.of_nat (length bytes)) = false)
  ∧ (∀ off pipe st,
       Wayland.current_ps_offer st = Some off →
       Wayland.ps_has_text st = true →
       let st' := snd (Wayland.check_and_update_primary alloc_ok pipe st) in
       let sel := fst (fst (Wayland.read_ps_offer alloc_ok off pipe 0 st)) in
       let len := snd (fst (Wayland.read_ps_offer alloc_ok off pipe 0 st)) in
       let seq := ulong_incr (Wayland.seq_counter st) in
       Wayland.seq_counter st' = seq
       ∧ Wayland.cache st'
         = write_primary (Some (default [] sel)) (Wayland.len_or_zero sel len)
             seq (Wayland.cache st)).
Proof.
  split; [|split; [|split]].
  - intros x st st' content seq. subst st' content seq.
    cbn [X11.handle_event]. rewrite decide_True by reflexivity.
    rewrite x11_check_and_update_primary_eq. cbn [X11.seq_counter X11.cache].
    split; [reflexivity|]. intros HP HS.
    destruct (write_primary_ok
                (Some (default [] (fst (X11.get_primary_selection alloc_ok x))))
                (N.of_nat (length
                   (default [] (fst (X11.get_primary_selection alloc_ok x)))))
                (ulong_incr (X11.seq_counter st)) (X11.cache st) HP HS)
      as (Ht & Hp & Hs).
    rewrite payload_whole in Hp. auto.
  - intros o pipe st st' seq. subst st' seq.
    unfold Wayland.ps_device_handle_selection.
    destruct (Wayland.is_daemon_mode st) eqn:Hmode; cbn [negb].
    + destruct o as [off|]; [destruct (Wayland.ps_has_text st) eqn:Htext|].
      * destruct (Wayland.current_ps_offer st) as [cur|];
          [case_bool_decide|]; cbn; rewrite Hmode, Htext; cbn;
          unfold Wayland.read_ps_offer; destruct pipe as [polls|]; cbn;
          try (destruct (read_fd_with_timeout alloc_ok polls MAX_SELECTION_SIZE)
                 as [sel len]; cbn);
          repeat case_match; simplify_eq; cbn; split; reflexivity.
      * destruct (Wayland.current_ps_offer st) as [cur|];
          [case_bool_decide|]; cbn; rewrite Hmode, Htext; cbn;
          destruct (Wayland.last_known_content st); cbn; auto.
      * destruct (Wayland.current_ps_offer st) as [cur|];
          [case_bool_decide|]; cbn; rewrite Hmode; cbn;
          destruct (Wayland.last_known_content st); cbn; auto.
    + destruct (Wayland.current_ps_offer st) as [cur|];
        [case_bool_decide|]; cbn; rewrite Hmode; cbn; auto.
  - intros bytes. unfold Wayland.content_changed.
    rewrite N.eqb_refl. rewrite bool_decide_eq_true_2 by reflexivity.
    reflexivity.
  - intros off pipe st Hcur Htext st' sel len seq. subst st' sel len seq.
    unfold Wayland.check_and_update_primary. rewrite Hcur, Htext.
    unfold Wayland.read_ps_offer; destruct pipe as [polls|]; cbn;
      try (destruct (read_fd_with_timeout alloc_ok polls MAX_SELECTION_SIZE)
             as [sel len]; cbn);
      split; reflexivity.
Qed.

(** C6 (amended).  A daemon that starts, its counter seeded with the time
    and an empty publish made, and then receives exactly one PRIMARY
    selection event delivering some content, ends up with [primary] holding
    exactly that content and [seq] holding the seed plus two: on X11 the
    start-up read of the selection takes the first increment and the event
    the second; on Wayland the handler increments once on arrival and once
    more before it publishes. *)
Theorem first_selection_is_seed_plus_two (alloc_ok : N → bool) :
  (∀ env x d content,
     X11.cache_dir_ok env = true →
     X11.xfixes_ok env = true →
     X11.daemonize_ok env = true →
     (0 ≤ X11.now env)%Z →
     (X11.now env + 2 < ULONG_MODULUS)%Z →
     PRIMARY_FILE ∉ denied d →
     SEQ_FILE ∉ denied d →
     X11.get_primary_selection alloc_ok x
     = (Some content, N.of_nat (length content)) →
     ∃ st,
       X11.run_daemon alloc_ok env
         [X11.Event (X11.XFixesSelectionNotify X11.XA_PRIMARY) x]
         (X11.initial d)
       = Blocked st
       ∧ files (X11.cache st) !! PRIMARY_FILE = Some content
       ∧ files (X11.cache st) !! SEQ_FILE
         = Some (fmt_lu (X11.now env + 2) ++ [newline]))
  ∧ (∀ env o mime polls d content,
       Wayland.connect_ok env = true →
       Wayland.has_ps_manager env = true →
       Wayland.has_seat env = true →
       Wayland.cache_dir_ok env = true →
       Wayland.daemonize_ok env = true →
       Wayland.startup_events env = [] →
       Wayland.surface_events env = Some [] →
       (0 ≤ Wayland.now env)%Z →
       (Wayland.now env + 2 < ULONG_MODULUS)%Z →
       PRIMARY_FILE ∉ denied d →
       SEQ_FILE ∉ denied d →
       accepted_mime mime →
       read_fd_with_timeout alloc_ok polls MAX_SELECTION_SIZE
       = (Some content, N.of_nat (length content)) →
       ∃ st,
         Wayland.run_daemon alloc_ok env
           [{| Wayland.tk_queued := [];
               Wayland.tk_signal := false;
               Wayland.tk_poll :=
                 Wayland.PollReadable
                   (Some [Wayland.PsDataOffer o;
                          Wayland.PsOfferMime o mime;
                          Wayland.PsSelection (Some o) (Some polls)])
                   false |}]
           (Wayland.initial d)
         = Blocked st
         ∧ files (Wayland.cache st) !! PRIMARY_FILE = Some content
         ∧ files (Wayland.cache st) !! SEQ_FILE
           = Some (fmt_lu (Wayland.now env + 2) ++ [newline])).
Proof.
  split.
  - intros env x d content Hdir Hfix Hdaemon Hnow0 Hnow HP HS Hsel.
    unfold X11.run_daemon, X11.daemon_startup.
    rewrite Hdir, Hfix, Hdaemon. cbn [negb].
    rewrite x11_check_and_update_primary_eq.
    unfold X11.event_loop. cbn [X11.running X11.initial X11.next_event_loop
                                 X11.handle_event].
    rewrite decide_True by reflexivity.
    rewrite x11_check_and_update_primary_eq.
    cbn [X11.running X11.seq_counter X11.cache].
    eexists. split; [reflexivity|]. cbn [X11.cache].
    rewrite Hsel. cbn [fst default from_option id].
    match goal with
    | |- context [write_primary (Some content) ?len ?seq ?dsk] =>
        destruct (write_primary_ok (Some content) len seq dsk)
          as (_ & Hp & Hs)
    end.
    { rewrite write_primary_keeps_denied, write_pid_file_keeps_denied,
        write_primary_keeps_denied. exact HP. }
    { rewrite write_primary_keeps_denied, write_pid_file_keeps_denied,
        write_primary_keeps_denied. exact HS. }
    rewrite payload_whole in Hp. split; [exact Hp|].
    rewrite Hs. do 3 f_equal.
    rewrite (Z.mod_small (X11.now env)) by (unfold ULONG_MODULUS in *; lia).
    rewrite (ulong_incr_small (X11.now env)) by lia.
    rewrite ulong_incr_small by lia. lia.
  - intros env o mime polls d content Hconn Hps Hseat Hdir Hdaemon Hev Hsurf
      Hnow0 Hnow HP HS Hmime Hread.
    assert (Htext : ∀ st,
              Wayland.ps_offer_handle_offer mime st
              = Wayland.set_ps_has_text true st).
    { intros st. unfold Wayland.ps_offer_handle_offer, accepted_mime in *.
      cbn in Hmime.
      destruct Hmime as [<-|[<-|[<-|[<-|[<-|[]]]]]]; reflexivity. }
    unfold Wayland.run_daemon, Wayland.daemon_startup.
    rewrite Hconn, Hps, Hseat, Hdir, Hdaemon, Hev, Hsurf. cbn [negb].
    cbn -[write_primary write_pid_file ulong_incr Z.modulo
          Wayland.ps_offer_handle_offer Wayland.ps_device_handle_selection].
    rewrite Htext.
    unfold Wayland.ps_device_handle_selection, Wayland.read_ps_offer.
    cbn -[write_primary write_pid_file ulong_incr Z.modulo
          read_fd_with_timeout MAX_SELECTION_SIZE].
    rewrite Hread.
    cbn -[write_primary write_pid_file ulong_incr Z.modulo N.of_nat length].
    eexists. split; [reflexivity|].
    cbn -[write_primary write_pid_file ulong_incr Z.modulo N.of_nat length].
    match goal with
    | |- context [write_primary (Some content) ?len ?seq ?dsk] =>
        destruct (write_primary_ok (Some content) len seq dsk)
          as (_ & Hp & Hs)
    end.
    { rewrite write_pid_file_keeps_denied, write_primary_keeps_denied.
      exact HP. }
    { rewrite write_pid_file_keeps_denied, write_primary_keeps_denied.
      exact HS. }
    rewrite payload_whole in Hp. split; [exact Hp|].
    rewrite Hs. do 3 f_equal.
    rewrite (Z.mod_small (Wayland.now env))
      by (unfold ULONG_MODULUS in *; lia).
    rewrite (ulong_incr_small (Wayland.now env)) by lia.
    rewrite ulong_incr_small by lia. lia.
Qed.

(** * Concrete runs *)

(** C1, counterexample.  A Wayland daemon that has published "hello" and
    then receives a second selection event, for a new offer delivering the
    same bytes, writes nothing: the cache directory and its system-call
    trace are those of the run without the second event, although the
    counter in memory has moved on. *)
Lemma wayland_reselection_writes_nothing :
  let once :=
    final_state (Wayland.run_daemon always_alloc wl_env
                   [readable (selection_of 5%N)] (Wayland.initial empty_disk)) in
  let twice :=
    final_state (Wayland.run_daemon always_alloc wl_env
                   [readable (selection_of 5%N); readable (selection_of 6%N)]
                   (Wayland.initial empty_disk)) in
  files (Wayland.cache once) !! PRIMARY_FILE = Some hello
  ∧ Wayland.current_ps_offer twice = Some 6%N
  ∧ Wayland.cache twice = Wayland.cache once
  ∧ files (Wayland.cache twice) !! SEQ_FILE
    = Some (fmt_lu 1700000002 ++ [newline])
  ∧ Wayland.seq_counter twice = 1700000003%Z.
Proof. vm_compute. repeat split; reflexivity. Qed.

(** C2, counterexample.  A publish of "hello" under sequence value 42 whose
    [write] to [primary] stores three bytes: [seq] holds the new value
    while [primary] holds "hel", not the payload. *)
Lemma short_write_leaves_seq_ahead :
  let d' := write_primary_returning 3 3 (Some hello) 5 42 empty_disk in
  files d' !! PRIMARY_FILE = Some (list_byte_of_string "hel")
  ∧ files d' !! SEQ_FILE = Some (list_byte_of_string "42" ++ [newline])
  ∧ files d' !! PRIMARY_FILE ≠ Some (payload (Some hello) 5).
Proof.
  vm_compute. split; [reflexivity|]. split; [reflexivity|]. discriminate.
Qed.



(** C4, counterexample.  On Wayland a one-shot read made right after
    clear-primary prints nothing and exits with 0. *)
Lemma wayland_oneshot_cleared_exits_zero :
  fst (Wayland.run_oneshot always_alloc cleared_env (Wayland.initial empty_disk))
  = (0%Z, []).
Proof. vm_compute. reflexivity. Qed.

(** C5.  The timeout of the X11 child does not run after a served request:
    a child that served one request is still in its loop after 1000 idle
    passes of 100 ms, twice the 50 s of the timeout, with its counter at 0.
    The XWayland sibling, given the same events, has left its loop and
    exited with its counter at 500. *)
Lemma served_child_outlives_timeout :
  X11.serve_loop hello (request_tick :: replicate 1000 idle_tick)
    X11.child_start
  = Blocked
      {| X11.c_running := true; X11.timeout_count := 0;
         X11.selection_served := true;
         X11.replies := [X11.ReplyData X11.XA_UTF8_STRING hello] |}
  ∧ XWayland.serve_loop (request_tick :: replicate 1000 idle_tick)
      XWayland.child_start
    = Exited 0
        {| XWayland.c_running := true; XWayland.timeout_count := 500;
           XWayland.selection_request_received := false |}.
Proof. vm_compute. split; reflexivity. Qed.

(** C6, counterexample.  An X11 daemon seeded with 1700000000 that receives
    one selection event delivering "hello" leaves 1700000002 in [seq]. *)
Lemma x11_first_selection_is_not_seed_plus_one :
  let st :=
    final_state (X11.run_daemon always_alloc x_env [primary_changed]
                   (X11.initial empty_disk)) in
  files (X11.cache st) !! PRIMARY_FILE = Some hello
  ∧ files (X11.cache st) !! SEQ_FILE
    = Some (fmt_lu (X11.now x_env + 2) ++ [newline])
  ∧ files (X11.cache st) !! SEQ_FILE
    ≠ Some (fmt_lu (X11.now x_env + 1) ++ [newline]).
Proof.
  vm_compute. split; [reflexivity|]. split; [reflexivity|]. discriminate.
Qed.

(** C7, counterexample.  On Wayland standard input of 4 MiB and 4 KiB is
    accepted: the calling process exits with 0. *)
Lemma wayland_oversized_copy_exits_zero :
  (MAX_CLIPBOARD_SIZE <? N.of_nat (length (delivered_reads big_stdin)))%N = true
  ∧ copy_exit_code
      (Wayland.run_copy_clipboard always_alloc big_stdin true true true ForkOk)
    = 0%Z.
Proof. vm_compute. split; reflexivity. Qed.

(** A publish on X11 for a selection event delivering "hello". *)
Lemma selection_events_and_publishing_witness :
  let st := X11.initial empty_disk in
  let st' :=
    X11.handle_event always_alloc
      (X11.XFixesSelectionNotify X11.XA_PRIMARY) x_hello st in
  files (X11.cache st') !! PRIMARY_FILE = Some hello
  ∧ files (X11.cache st') !! SEQ_FILE = Some (fmt_lu 1 ++ [newline]).
Proof.
  intros st st'.
  destruct (selection_events_and_publishing always_alloc) as [Hx11 _].
  destruct (Hx11 x_hello st) as [_ Hpub].
  destruct Hpub as (_ & Hp & Hs);
    [apply not_elem_of_empty | apply not_elem_of_empty |].
  split; [exact Hp | exact Hs].
Defined.


(** No owner, as after clear-primary: the X11 one-shot read fails.  A
    selection holding "hello" handed over during the round trip: the
    Wayland one-shot read prints it. *)
Lemma oneshot_exit_codes_witness :
  X11.run_oneshot always_alloc x_none = (1%Z, [])
  ∧ fst (Wayland.run_oneshot always_alloc hello_oneshot_env
           (Wayland.initial empty_disk))
    = (0%Z, hello).
Proof.
  destruct (oneshot_exit_codes always_alloc)
    as (_ & Hnone & _ & _ & _ & _ & _ & Hprint).
  split.
  - apply (Hnone x_none). reflexivity.
  - apply (Hprint hello_oneshot_env empty_disk [] 5%N
             "text/plain;charset=utf-8"%string (Some hello_pipe) hello_pipe
             hello 5%N); try reflexivity.
    left. reflexivity.
Defined.

(** 500 idle passes end a child that never served a request. *)
Lemma copy_child_timeout_witness :
  ∃ c, X11.serve_loop hello (replicate 500 idle_tick) X11.child_start
       = Exited 0 c
       ∧ X11.selection_served c = false.
Proof.
  destruct (copy_child_timeout hello) as (Hquiet & _).
  apply (Hquiet (replicate 500 idle_tick)).
  - apply Forall_replicate. constructor.
  - rewrite length_replicate. lia.
Defined.

(** The X11 daemon of the scenario: seed 1700000000, "hello". *)
Lemma first_selection_is_seed_plus_two_witness :
  ∃ st,
    X11.run_daemon always_alloc x_env [primary_changed] (X11.initial empty_disk)
    = Blocked st
    ∧ files (X11.cache st) !! PRIMARY_FILE = Some hello
    ∧ files (X11.cache st) !! SEQ_FILE
      = Some (fmt_lu (X11.now x_env + 2) ++ [newline]).
Proof.
  destruct (first_selection_is_seed_plus_two always_alloc) as (Hx11 & _).
  apply (Hx11 x_env x_hello empty_disk hello).
  - reflexivity.
  - reflexivity.
  - reflexivity.
  - vm_compute. discriminate.
  - vm_compute. reflexivity.
  - apply not_elem_of_empty.
  - apply not_elem_of_empty.
  - vm_compute. reflexivity.
Defined.

(** Empty standard input: copy-clipboard answers 1. *)
Lemma copy_clipboard_exit_codes_witness :
  X11.run_copy_clipboard always_alloc [] true ForkOk = CopyReturn 1.
Proof.
  destruct (copy_clipboard_exit_codes always_alloc) as (Hempty & _).
  apply (Hempty [] true ForkOk). reflexivity.
Defined.

(** Offer 6 replaces the tracked offer 5. *)
Lemma one_offer_per_device_witness :
  let st := Wayland.set_current_ps_offer (Some 5%N) (Wayland.initial empty_disk) in
  let st' :=
    Wayland.handle_event always_alloc (Wayland.PsSelection (Some 6%N) None) st in
  Wayland.current_ps_offer st' = Some 6%N
  ∧ ∃ more,
      Wayland.wire st'
      = Wayland.wire st
        ++ [Wayland.PsSelectionEvent (Some 6%N); Wayland.PsOfferDestroy 5%N]
        ++ more
      ∧ Forall is_receive more.
Proof.
  intros st st'.
  destruct (one_offer_per_device always_alloc) as (_ & _ & Hreplace & _).
  apply (Hreplace (Some 6%N) None st 5%N).
  - reflexivity.
  - discriminate.
Defined.


(** A publish into the locked cache directory changes no file. *)
Lemma write_primary_open_failure_is_noop_witness :
  files (write_primary (Some hello) 5 42 locked_disk) = files locked_disk
  ∧ trace (write_primary (Some hello) 5 42 locked_disk)
    = trace locked_disk ++ [SysOpen PRIMARY_FILE false]
  ∧ Forall (fun c => syscall_path c ≠ SEQ_FILE)
      (drop (length (trace locked_disk))
         (trace (write_primary (Some hello) 5 42 locked_disk))).
Proof.
  apply (write_primary_open_failure_is_noop (Some hello) 5 42 locked_disk).
  vm_compute. reflexivity.
Defined.

(** A publish of "hello" under sequence value 42 into an empty directory,
    both writes complete. *)
Lemma write_primary_primary_before_seq_witness :
  files (write_primary_returning 5 3 (Some hello) 5 42 empty_disk)
    !! PRIMARY_FILE
  = Some hello
  ∧ files (write_primary_returning 5 3 (Some hello) 5 42 empty_disk)
      !! SEQ_FILE
    = Some (fmt_lu 42 ++ [newline])
  ∧ write_primary_returning 5 3 (Some hello) 5 42 empty_disk
    = write_primary (Some hello) 5 42 empty_disk.
Proof.
  destruct (write_primary_primary_before_seq 5 3 (Some hello) 5 42 empty_disk)
    as ((ops & _ & _ & Hok & _) & _ & Hwhole).
  destruct Hok as (_ & Hp & Hs);
    [apply not_elem_of_empty | apply not_elem_of_empty |].
  split; [exact Hp|]. split; [exact Hs|].
  destruct Hwhole as (_ & Hall); [vm_compute; discriminate|].
  destruct Hall as (Heq & _); [vm_compute; discriminate | exact Heq].
Defined.

(** * Inputs that fit are read whole *)

Section WholeReads.

Variable alloc_ok : N → bool.
Hypothesis alloc_always : ∀ n, alloc_ok n = true.

Lemma stdin_loop_whole (J : N) keep reads :
  ∀ j total,
    (j ≤ J)%N → (total ≤ 4096 * 2 ^ j)%N →
    (total + N.of_nat (length (delivered_reads reads)) + 4096
     ≤ 4096 * 2 ^ J)%N →
    stdin_loop alloc_ok (4096 * 2 ^ J) keep reads (4096 * 2 ^ j) total
    = Some ((total + N.of_nat (length (delivered_reads reads)))%N,
            delivered_reads reads).
Proof.
  induction reads as [|r reads IH]; intros j total Hj Htot Hfit.
  - cbn [stdin_loop delivered_reads length] in *.
    rewrite alloc_always. cbn [negb]. rewrite andb_false_r.
    destruct (4096 * 2 ^ j <? total + 4096)%N eqn:Hgrow; cbn [andb].
    + apply N.ltb_lt in Hgrow.
      destruct (pow2_step j J Hj) as [-> | [Hj' Hpow]]; [lia|].
      replace (4096 * 2 ^ J <? 4096 * 2 ^ j * 2)%N with false
        by (symmetry; apply N.ltb_ge; lia).
      f_equal. f_equal. lia.
    + f_equal. f_equal. lia.
  - cbn [stdin_loop]. rewrite alloc_always. cbn [negb]. rewrite andb_false_r.
    assert (Hstop : delivered_reads (r :: reads) = [] →
              Some (total, @nil byte)
              = Some ((total + N.of_nat (length (delivered_reads (r :: reads))))%N,
                      delivered_reads (r :: reads))).
    { intros ->. cbn [length]. f_equal. f_equal. lia. }
    destruct (4096 * 2 ^ j <? total + 4096)%N eqn:Hgrow; cbn [andb].
    + apply N.ltb_lt in Hgrow.
      destruct (pow2_step j J Hj) as [-> | [Hj' Hpow]]; [lia|].
      replace (4096 * 2 ^ J <? 4096 * 2 ^ j * 2)%N with false
        by (symmetry; apply N.ltb_ge; lia).
      destruct (sys_read 4096 r) as [[|c bs] | b] eqn:Hread.
      * apply Hstop. cbn [delivered_reads]. now rewrite Hread.
      * cbn [delivered_reads] in Hfit |- *. rewrite Hread in Hfit |- *.
        pose proof (sys_read_length _ _ _ Hread) as Hlen.
        pose proof (length_app (c :: bs) (delivered_reads reads)) as Happ.
        replace (4096 * 2 ^ j * 2)%N with (4096 * 2 ^ (j + 1))%N
          by (rewrite pow2_succ; lia).
        rewrite (IH (j + 1)%N).
        -- f_equal. f_equal. cbn [length app] in Happ |- *. lia.
        -- lia.
        -- rewrite pow2_succ. cbn [length] in Hlen |- *.
           pose proof (pow2_pos j). lia.
        -- cbn [length app] in Happ, Hfit |- *. lia.
      * apply Hstop. cbn [delivered_reads]. now rewrite Hread.
    + apply N.ltb_ge in Hgrow.
      destruct (sys_read 4096 r) as [[|c bs] | b] eqn:Hread.
      * apply Hstop. cbn [delivered_reads]. now rewrite Hread.
      * cbn [delivered_reads] in Hfit |- *. rewrite Hread in Hfit |- *.
        pose proof (sys_read_length _ _ _ Hread) as Hlen.
        pose proof (length_app (c :: bs) (delivered_reads reads)) as Happ.
        rewrite (IH j).
        -- f_equal. f_equal. cbn [length app] in Happ |- *. lia.
        -- lia.
        -- cbn [length] in Hlen |- *. lia.
        -- cbn [length app] in Happ, Hfit |- *. lia.
      * apply Hstop. cbn [delivered_reads]. now rewrite Hread.
Qed.

Lemma read_all_stdin_with_whole (J : N) keep reads :
  (N.of_nat (length (delivered_reads reads)) + 4096 ≤ 4096 * 2 ^ J)%N →
  read_all_stdin_with alloc_ok (4096 * 2 ^ J) keep reads
  = (Some (delivered_reads reads),
     N.of_nat (length (delivered_reads reads))).
Proof.
  intros Hfit. unfold read_all_stdin_with. rewrite alloc_always.
  pose proof (stdin_loop_whole J keep reads 0 0) as H.
  change (4096 * 2 ^ 0)%N with 4096%N in H.
  rewrite H; [reflexivity | lia | lia | lia].
Qed.

Lemma read_fd_loop_whole (J : N) polls :
  ∀ capacity total have_buf,
    (capacity = 0 ∧ total = 0
     ∨ ∃ j, j ≤ J ∧ capacity = 4096 * 2 ^ j ∧ total ≤ capacity)%N →
    (total + N.of_nat (length (delivered_polls polls)) + 4096
     ≤ 4096 * 2 ^ J)%N →
    ∃ b,
      read_fd_loop alloc_ok (4096 * 2 ^ J) polls capacity total have_buf
      = (b, (total + N.of_nat (length (delivered_polls polls)))%N,
         delivered_polls polls).
Proof.
  induction polls as [|p polls IH]; intros capacity total have_buf Hcap Hfit.
  - exists have_buf. cbn [read_fd_loop delivered_polls length].
    f_equal; f_equal; lia.
  - assert (Hstop : ∀ hb : bool, delivered_polls (p :: polls) = [] →
              ∃ b,
                (hb, total, @nil byte)
                = (b, (total + N.of_nat (length (delivered_polls (p :: polls))))%N,
                   delivered_polls (p :: polls))).
    { intros hb Hnil. exists hb. rewrite Hnil. cbn [length].
      f_equal; f_equal; lia. }
    destruct p as [| | | r].
    + apply Hstop. reflexivity.
    + apply Hstop. reflexivity.
    + cbn [read_fd_loop delivered_polls] in *. apply IH; assumption.
    + cbn [read_fd_loop]. rewrite alloc_always. cbn [negb].
      rewrite andb_false_r.
      set (grow := (capacity <? total + 4096)%N).
      set (capacity' :=
             if grow then (if (capacity =? 0)%N then 4096 else capacity * 2)%N
             else capacity).
      assert (Hcap' : (∃ j, j ≤ J ∧ capacity' = 4096 * 2 ^ j
                            ∧ total + 4096 ≤ capacity')%N
                      ∧ grow && (4096 * 2 ^ J <? capacity')%N = false).
      { subst capacity' grow.
        destruct Hcap as [[-> ->] | (j & Hj & -> & Htot)].
        - change (0 <? 0 + 4096)%N with true. change (0 =? 0)%N with true.
          cbn [andb]. split.
          + exists 0%N. rewrite N.pow_0_r. repeat split; lia.
          + apply N.ltb_ge. pose proof (pow2_pos J). lia.
        - destruct (4096 * 2 ^ j <? total + 4096)%N eqn:Hgrow.
          + apply N.ltb_lt in Hgrow.
            replace (4096 * 2 ^ j =? 0)%N with false
              by (symmetry; apply N.eqb_neq; pose proof (pow2_pos j); lia).
            destruct (pow2_step j J Hj) as [-> | [Hj' Hpow]]; [lia|].
            split.
            * exists (j + 1)%N. rewrite pow2_succ.
              pose proof (pow2_pos j). repeat split; lia.
            * cbn [andb]. apply N.ltb_ge. lia.
          + apply N.ltb_ge in Hgrow. split; [|reflexivity].
            exists j. repeat split; lia. }
      destruct Hcap' as ((j' & Hj' & Hc' & Htot') & ->).
      destruct (sys_read 4096 r) as [[|c bs] | []] eqn:Hread.
      * apply Hstop. cbn [delivered_polls]. now rewrite Hread.
      * cbn [delivered_polls] in Hfit |- *. rewrite Hread in Hfit |- *.
        pose proof (sys_read_length _ _ _ Hread) as Hlen.
        pose proof (length_app (c :: bs) (delivered_polls polls)) as Happ.
        destruct (IH capacity' (total + N.of_nat (length (c :: bs)))%N
                    (have_buf || grow)) as (b & ->).
        { right. exists j'. cbn [length] in Hlen |- *. repeat split; lia. }
        { cbn [length app] in Happ, Hfit |- *. lia. }
        exists b. f_equal. f_equal. cbn [length app] in Happ |- *. lia.
      * cbn [delivered_polls] in Hfit |- *. rewrite Hread in Hfit |- *.
        apply IH; [|exact Hfit].
        right. exists j'. repeat split; lia.
      * apply Hstop. cbn [delivered_polls]. now rewrite Hread.
Qed.

Lemma read_fd_with_timeout_whole (J : N) polls :
  (N.of_nat (length (delivered_polls polls)) + 4096 ≤ 4096 * 2 ^ J)%N →
  ∃ data,
    read_fd_with_timeout alloc_ok polls (4096 * 2 ^ J)
    = (data, N.of_nat (length (delivered_polls polls)))
    ∧ default [] data = delivered_polls polls.
Proof.
  intros Hfit.
  destruct (read_fd_loop_whole J polls 0 0 false) as (b & Hrun);
    [left; split; reflexivity | lia |].
  pose proof (read_fd_loop_spec alloc_ok _ _ _ _ _ _ _ _
                (N.le_refl 0) (or_introl eq_refl) (or_intror eq_refl) Hrun)
    as (_ & _ & _ & Hb & _).
  unfold read_fd_with_timeout. rewrite Hrun.
  exists (if b then Some (delivered_polls polls) else None).
  split; [f_equal; lia|].
  destruct b; [reflexivity|]. destruct Hb as [? | ->]; [discriminate|].
  reflexivity.
Qed.

End WholeReads.

(** X1.  An input that leaves one block of 4096 bytes of room under the
    cap is handed back whole and with its exact length, however the reads
    that deliver it are sized: by both [read_all_stdin], and by the reads of
    a PRIMARY and of a clipboard offer. *)
Theorem inputs_below_the_cap_are_read_whole (alloc_ok : N → bool) :
  (∀ n, alloc_ok n = true) →
  (∀ stdin,
     (N.of_nat (length (delivered_reads stdin)) + 4096
      ≤ MAX_SELECTION_SIZE)%N →
     X11.read_all_stdin alloc_ok stdin
     = (Some (delivered_reads stdin),
        N.of_nat (length (delivered_reads stdin))))
  ∧ (∀ stdin,
       (N.of_nat (length (delivered_reads stdin)) + 4096
        ≤ MAX_CLIPBOARD_SIZE)%N →
       Wayland.read_all_stdin alloc_ok stdin
       = (Some (delivered_reads stdin),
          N.of_nat (length (delivered_reads stdin))))
  ∧ (∀ o polls st,
       (N.of_nat (length (delivered_polls polls)) + 4096
        ≤ MAX_SELECTION_SIZE)%N →
       ∃ data,
         fst (Wayland.read_ps_offer alloc_ok o (Some polls) 0 st)
         = (data, N.of_nat (length (delivered_polls polls)))
         ∧ default [] data = delivered_polls polls)
  ∧ (∀ o polls st,
       (N.of_nat (length (delivered_polls polls)) + 4096
        ≤ MAX_CLIPBOARD_SIZE)%N →
       ∃ data,
         fst (Wayland.read_clip_offer alloc_ok o (Some polls) 0 st)
         = (data, N.of_nat (length (delivered_polls polls)))
         ∧ default [] data = delivered_polls polls).
Proof.
  intros Hmem. repeat split.
  - intros stdin Hfit. unfold X11.read_all_stdin.
    rewrite max_selection_size_blocks in *.
    now apply read_all_stdin_with_whole.
  - intros stdin Hfit. unfold Wayland.read_all_stdin.
    rewrite max_clipboard_size_blocks in *.
    now apply read_all_stdin_with_whole.
  - intros o polls st Hfit. unfold Wayland.read_ps_offer. cbn [fst].
    rewrite max_selection_size_blocks in *.
    now apply read_fd_with_timeout_whole.
  - intros o polls st Hfit. unfold Wayland.read_clip_offer. cbn [fst].
    rewrite max_clipboard_size_blocks in *.
    now apply read_fd_with_timeout_whole.
Qed.

(** The room asked for is needed: one megabyte delivered as a single byte
    followed by full blocks does not go over the cap of
    [X11.read_all_stdin], and yet its last 4095 bytes are not read. *)
Lemma ragged_megabyte_loses_its_tail :
  N.of_nat (length (delivered_reads ragged_stdin)) = MAX_SELECTION_SIZE
  ∧ snd (X11.read_all_stdin always_alloc ragged_stdin)
    = (MAX_SELECTION_SIZE - 4095)%N.
Proof. vm_compute. split; reflexivity. Qed.

Lemma inputs_below_the_cap_are_read_whole_witness :
  X11.read_all_stdin always_alloc [ReadData hello; ReadEof]
  = (Some hello, 5%N).
Proof.
  destruct (inputs_below_the_cap_are_read_whole always_alloc
              (fun _ => eq_refl)) as (H & _).
  apply (H [ReadData hello; ReadEof]). vm_compute. discriminate.
Defined.

(** * Copy, then paste *)

Lemma drain_pending_replies data evs :
  ∀ c,
    X11.replies (X11.drain_pending data evs c)
    = X11.replies c
      ++ map (fun target => X11.handle_selection_request target data)
           (requests_before_clear evs).
Proof.
  induction evs as [|ev evs IH]; intros c.
  - cbn. now rewrite app_nil_r.
  - destruct ev as [sel | target | |];
      cbn [X11.drain_pending requests_before_clear map].
    + apply IH.
    + rewrite IH. cbn [X11.replies]. now rewrite <- app_assoc.
    + cbn. now rewrite app_nil_r.
    + apply IH.
Qed.

Lemma serve_loop_replies data ticks :
  ∀ c,
    Forall (reply_for data) (X11.replies c) →
    Forall (reply_for data)
      (X11.replies (final_state (X11.serve_loop data ticks c))).
Proof.
  induction ticks as [|t ticks IH]; intros c Hc.
  - cbn [X11.serve_loop]. destruct (_ && _); exact Hc.
  - cbn [X11.serve_loop]. destruct (_ && _); [|exact Hc].
    assert (Hd : Forall (reply_for data)
                   (X11.replies (X11.drain_pending data (X11.tk_pending t) c))).
    { rewrite drain_pending_replies. apply Forall_app. split; [exact Hc|].
      apply Forall_forall. intros r Hr.
      apply list_elem_of_fmap in Hr as (target & -> & _).
      now exists target. }
    destruct (negb _); [exact Hd|]. apply IH. exact Hd.
Qed.

(** X2.  X11 round trip.  Non-empty input that leaves a block of room
    under the cap becomes the clipboard: the caller exits with 0 and the
    child holds exactly the bytes of standard input.  In every pass the
    child answers the requests queued ahead of the first [SelectionClear],
    all of them and in order; a request for [UTF8_STRING] or [STRING] is
    answered with exactly those bytes, and nothing the child ever sends is
    anything but the answer to some target for those bytes. *)
Theorem x11_copy_then_paste (alloc_ok : N → bool) (stdin : list read_result) :
  (∀ n, alloc_ok n = true) →
  delivered_reads stdin ≠ [] →
  (N.of_nat (length (delivered_reads stdin)) + 4096 ≤ MAX_SELECTION_SIZE)%N →
  let data := delivered_reads stdin in
  X11.run_copy_clipboard alloc_ok stdin true ForkOk = CopyForked 0 data
  ∧ (∀ evs c,
       X11.replies (X11.drain_pending data evs c)
       = X11.replies c
         ++ map (fun target => X11.handle_selection_request target data)
              (requests_before_clear evs))
  ∧ X11.handle_selection_request X11.XA_UTF8_STRING data
    = X11.ReplyData X11.XA_UTF8_STRING data
  ∧ X11.handle_selection_request X11.XA_STRING data
    = X11.ReplyData X11.XA_STRING data
  ∧ (∀ ticks,
       Forall (reply_for data)
         (X11.replies
            (final_state (X11.serve_loop data ticks X11.child_start)))).
Proof.
  intros Hmem Hne Hfit data. repeat split.
  - unfold X11.run_copy_clipboard, X11.read_all_stdin.
    rewrite max_selection_size_blocks in *.
    rewrite (read_all_stdin_with_whole alloc_ok Hmem 8 false stdin Hfit).
    fold data.
    destruct (N.of_nat (length data) =? 0)%N eqn:Hz.
    + apply N.eqb_eq in Hz. exfalso. apply Hne. subst data.
      destruct (delivered_reads stdin); [reflexivity | discriminate].
    + cbn [negb]. now rewrite take_whole.
  - intros evs c. apply drain_pending_replies.
  - intros ticks. apply serve_loop_replies. constructor.
Qed.

Lemma x11_copy_then_paste_witness :
  X11.run_copy_clipboard always_alloc [ReadData hello; ReadEof] true ForkOk
  = CopyForked 0 hello
  ∧ X11.replies
      (X11.drain_pending hello
         [X11.SelectionRequest X11.XA_TARGETS;
          X11.SelectionRequest X11.XA_UTF8_STRING;
          X11.SelectionClear;
          X11.SelectionRequest X11.XA_STRING]
         X11.child_start)
    = [X11.ReplyTargets; X11.ReplyData X11.XA_UTF8_STRING hello].
Proof.
  destruct (x11_copy_then_paste always_alloc [ReadData hello; ReadEof])
    as (Hrun & Hdrain & _).
  - reflexivity.
  - vm_compute. discriminate.
  - vm_compute. discriminate.
  - split; [exact Hrun|]. apply Hdrain.
Defined.

(** * The Wayland clipboard server *)

Lemma write_loop_prefix writes (data : list byte) :
  ∀ written,
    ∃ k, WaylandCopy.write_loop writes data (N.of_nat (length data)) written
         = take k (drop (N.to_nat written) data).
Proof.
  induction writes as [|r writes IH]; intros written.
  - exists 0. cbn. destruct (_ <? _)%N; now rewrite take_0.
  - cbn [WaylandCopy.write_loop].
    destruct (written <? N.of_nat (length data))%N;
      [|exists 0; now rewrite take_0].
    set (n := WaylandCopy.sys_write_ret (N.of_nat (length data) - written) r).
    destruct (n <=? 0)%Z eqn:Hn; [exists 0; now rewrite take_0|].
    apply Z.leb_gt in Hn.
    destruct (IH (written + Z.to_N n)%N) as (k & ->).
    exists (Z.to_nat n + k).
    replace (N.to_nat (written + Z.to_N n)) with (N.to_nat written + Z.to_nat n)
      by lia.
    rewrite <- drop_drop. apply take_take_drop.
Qed.

Lemma total_accepted_nonneg writes :
  Forall (fun r => (0 < r)%Z) writes → (0 ≤ total_accepted writes)%Z.
Proof.
  induction 1 as [|r writes Hr _ IH]; cbn; [lia|].
  unfold total_accepted in IH. lia.
Qed.

Lemma write_loop_complete writes (data : list byte) :
  Forall (fun r => (0 < r)%Z) writes →
  ∀ written,
    (Z.of_N (N.of_nat (length data) - written) ≤ total_accepted writes)%Z →
    WaylandCopy.write_loop writes data (N.of_nat (length data)) written
    = drop (N.to_nat written) data.
Proof.
  induction 1 as [|r writes Hr Hrest IH]; intros written Hsum.
  - cbn in Hsum. cbn [WaylandCopy.write_loop].
    destruct (written <? N.of_nat (length data))%N eqn:Hlt.
    + apply N.ltb_lt in Hlt. lia.
    + apply N.ltb_ge in Hlt. symmetry. apply drop_ge. lia.
  - cbn [WaylandCopy.write_loop].
    destruct (written <? N.of_nat (length data))%N eqn:Hlt.
    + apply N.ltb_lt in Hlt.
      set (n := WaylandCopy.sys_write_ret (N.of_nat (length data) - written) r).
      assert (Hn : (0 < n ∧ n ≤ r
                    ∧ n ≤ Z.of_N (N.of_nat (length data) - written)
                    ∧ (n = r ∨ n = Z.of_N (N.of_nat (length data) - written)))%Z).
      { subst n. unfold WaylandCopy.sys_write_ret. lia. }
      replace (n <=? 0)%Z with false by (symmetry; apply Z.leb_gt; lia).
      pose proof (total_accepted_nonneg writes Hrest) as Hpos.
      change (total_accepted (r :: writes))
        with (r + total_accepted writes)%Z in Hsum.
      rewrite IH by lia.
      replace (N.to_nat (written + Z.to_N n))
        with (N.to_nat written + Z.to_nat n) by lia.
      rewrite <- drop_drop. apply take_drop.
    + apply N.ltb_ge in Hlt. symmetry. apply drop_ge. lia.
Qed.

Lemma ds_handle_send_prefix (data : list byte) writes :
  WaylandCopy.ds_handle_send (Some data) (N.of_nat (length data)) writes
  `prefix_of` data.
Proof.
  unfold WaylandCopy.ds_handle_send. destruct (0 <? _)%N; [|apply prefix_nil].
  destruct (write_loop_prefix writes data 0) as (k & ->).
  change (N.to_nat 0) with 0. rewrite drop_0.
  exists (drop k data). symmetry. apply take_drop.
Qed.

Lemma ds_handle_send_complete (data : list byte) writes :
  Forall (fun r => (0 < r)%Z) writes →
  (Z.of_nat (length data) ≤ total_accepted writes)%Z →
  WaylandCopy.ds_handle_send (Some data) (N.of_nat (length data)) writes = data.
Proof.
  intros Hpos Hsum. unfold WaylandCopy.ds_handle_send.
  destruct (0 <? N.of_nat (length data))%N eqn:Hlen.
  - rewrite write_loop_complete; [apply drop_0 | exact Hpos | lia].
  - apply N.ltb_ge in Hlen. destruct data; [reflexivity | cbn in Hlen; lia].
Qed.

Section WaylandCopyFacts.

Variable alloc_ok : N → bool.
Variable data : list byte.

Lemma wl_copy_handle_sent ev c :
  sent_ok data c →
  sent_ok data
    (WaylandCopy.handle_event alloc_ok (Some data) (N.of_nat (length data))
       ev c).
Proof.
  intros Hc. destruct ev; cbn; try exact Hc.
  apply Forall_app. split; [exact Hc|]. constructor; [|constructor].
  apply ds_handle_send_prefix.
Qed.

Lemma wl_copy_dispatch_sent evs :
  ∀ c,
    sent_ok data c →
    sent_ok data
      (WaylandCopy.dispatch alloc_ok (Some data) (N.of_nat (length data))
         evs c).
Proof.
  induction evs as [|ev evs IH]; intros c Hc; [exact Hc|].
  apply IH, wl_copy_handle_sent, Hc.
Qed.

Lemma wl_copy_pass_sent t c :
  sent_ok data c →
  sent_ok data
    (WaylandCopy.child_pass alloc_ok (Some data) (N.of_nat (length data))
       t c).1.
Proof.
  intros Hc. unfold WaylandCopy.child_pass.
  pose proof (wl_copy_dispatch_sent (WaylandCopy.tk_queued t) c Hc) as H1.
  destruct (WaylandCopy.tk_signal t);
    destruct (WaylandCopy.tk_poll t) as [| | | | [evs|] err | err]; cbn [fst];
    try exact H1; apply wl_copy_dispatch_sent; exact H1.
Qed.

Lemma wl_copy_loop_sent ticks :
  ∀ c,
    sent_ok data c →
    sent_ok data
      (WaylandCopy.serve_loop alloc_ok (Some data) (N.of_nat (length data))
         ticks c).1.
Proof.
  induction ticks as [|t ticks IH]; intros c Hc; cbn [WaylandCopy.serve_loop].
  - destruct (_ && _); exact Hc.
  - destruct (_ && _); [|exact Hc].
    pose proof (wl_copy_pass_sent t c Hc) as Hp.
    destruct (WaylandCopy.child_pass _ _ _ t c) as [c' []]; [exact Hp|].
    apply IH, Hp.
Qed.

Lemma wl_copy_run_sent ticks st :
  sent_ok data
    (final_state
       (WaylandCopy.run_child alloc_ok (Some data) (N.of_nat (length data))
          ticks st)).
Proof.
  unfold WaylandCopy.run_child.
  pose proof (wl_copy_loop_sent ticks (WaylandCopy.child_start st)) as H.
  destruct (WaylandCopy.serve_loop _ _ _ ticks _) as [c []]; apply H;
    constructor.
Qed.

Variable copy_data : option (list byte).
Variable copy_data_len : N.

(** [copy_done] is never taken back. *)
Lemma wl_copy_handle_done ev c :
  WaylandCopy.copy_done c = true ∨ ev = WaylandCopy.DsCancelled →
  WaylandCopy.copy_done
    (WaylandCopy.handle_event alloc_ok copy_data copy_data_len ev c) = true.
Proof. intros [H | ->]; [destruct ev; cbn; auto | reflexivity]. Qed.

Lemma wl_copy_dispatch_done evs :
  ∀ c,
    WaylandCopy.copy_done c = true ∨ In WaylandCopy.DsCancelled evs →
    WaylandCopy.copy_done
      (WaylandCopy.dispatch alloc_ok copy_data copy_data_len evs c) = true.
Proof.
  induction evs as [|ev evs IH]; intros c H.
  - destruct H as [H | []]. exact H.
  - cbn [WaylandCopy.dispatch foldl]. apply IH.
    destruct H as [H | [-> | H]].
    + left. apply wl_copy_handle_done. now left.
    + left. apply wl_copy_handle_done. now right.
    + now right.
Qed.

Lemma wl_copy_pass_done t c :
  WaylandCopy.copy_done c = true ∨ cancelling_pass t →
  WaylandCopy.copy_done
    (WaylandCopy.child_pass alloc_ok copy_data copy_data_len t c).1 = true.
Proof.
  intros H. unfold WaylandCopy.child_pass.
  set (c1 := WaylandCopy.dispatch alloc_ok copy_data copy_data_len
               (WaylandCopy.tk_queued t) c).
  set (c2 := if WaylandCopy.tk_signal t then WaylandCopy.signalled c1 else c1).
  assert (H2 : WaylandCopy.copy_done c2 = true
               ∨ ∃ evs err,
                   WaylandCopy.tk_poll t
                   = WaylandCopy.PollReadable (Some evs) err
                   ∧ In WaylandCopy.DsCancelled evs).
  { destruct H as [H | [H | H]].
    - left. subst c2. assert (WaylandCopy.copy_done c1 = true)
        by (apply wl_copy_dispatch_done; now left).
      destruct (WaylandCopy.tk_signal t); assumption.
    - left. subst c2. assert (WaylandCopy.copy_done c1 = true)
        by (apply wl_copy_dispatch_done; now right).
      destruct (WaylandCopy.tk_signal t); assumption.
    - now right. }
  clearbody c2. clear c1 H.
  destruct H2 as [H2 | (evs & err & -> & Hin)].
  - destruct (WaylandCopy.tk_poll t) as [| | | | [evs|] err | err]; cbn [fst];
      try exact H2.
    apply wl_copy_dispatch_done. now left.
  - cbn [fst]. apply wl_copy_dispatch_done. now right.
Qed.

Lemma wl_copy_loop_done c ticks :
  WaylandCopy.copy_done c = true →
  WaylandCopy.serve_loop alloc_ok copy_data copy_data_len ticks c = (c, true).
Proof.
  intros H. destruct ticks; cbn [WaylandCopy.serve_loop]; rewrite H;
    now rewrite andb_false_r.
Qed.

Lemma wl_copy_loop_cancelled ticks :
  ∀ c,
    Exists cancelling_pass ticks →
    (WaylandCopy.serve_loop alloc_ok copy_data copy_data_len ticks c).2 = true.
Proof.
  induction ticks as [|t ticks IH]; intros c Hex; [inversion Hex|].
  cbn [WaylandCopy.serve_loop].
  destruct (_ && _); [|reflexivity].
  destruct (WaylandCopy.child_pass alloc_ok copy_data copy_data_len t c)
    as [c' left_loop] eqn:Hpass.
  destruct left_loop; [reflexivity|].
  inversion Hex as [? ? Hc | ? ? Hrest]; subst.
  - pose proof (wl_copy_pass_done t c (or_intror Hc)) as Hd.
    rewrite Hpass in Hd. cbn [fst] in Hd.
    now rewrite wl_copy_loop_done.
  - apply IH, Hrest.
Qed.

Lemma wl_copy_dispatch_stopped evs :
  ∀ c,
    Wayland.running (WaylandCopy.base c) = false →
    Wayland.running
      (WaylandCopy.base
         (WaylandCopy.dispatch alloc_ok copy_data copy_data_len evs c))
    = false.
Proof.
  induction evs as [|ev evs IH]; intros c Hc; [exact Hc|].
  cbn [WaylandCopy.dispatch foldl]. apply IH.
  destruct ev; try exact Hc. cbn. now apply wl_handle_event_stopped.
Qed.

Lemma wl_copy_pass_signalled t c :
  WaylandCopy.tk_signal t = true →
  Wayland.running
    (WaylandCopy.base
       (WaylandCopy.child_pass alloc_ok copy_data copy_data_len t c).1)
  = false.
Proof.
  intros Hsig. unfold WaylandCopy.child_pass. rewrite Hsig.
  set (c2 := WaylandCopy.signalled _).
  assert (H2 : Wayland.running (WaylandCopy.base c2) = false) by reflexivity.
  clearbody c2.
  destruct (WaylandCopy.tk_poll t) as [| | | | [evs|] err | err]; cbn [fst];
    try exact H2.
  now apply wl_copy_dispatch_stopped.
Qed.

Lemma wl_copy_loop_signalled ticks :
  ∀ c,
    Exists (fun t => WaylandCopy.tk_signal t = true) ticks →
    (WaylandCopy.serve_loop alloc_ok copy_data copy_data_len ticks c).2 = true.
Proof.
  induction ticks as [|t ticks IH]; intros c Hex; [inversion Hex|].
  cbn [WaylandCopy.serve_loop].
  destruct (_ && _); [|reflexivity].
  destruct (WaylandCopy.child_pass alloc_ok copy_data copy_data_len t c)
    as [c' left_loop] eqn:Hpass.
  destruct left_loop; [reflexivity|].
  inversion Hex as [? ? Hsig | ? ? Hrest]; subst.
  - pose proof (wl_copy_pass_signalled t c Hsig) as Hstop.
    rewrite Hpass in Hstop. cbn [fst] in Hstop.
    destruct ticks; cbn [WaylandCopy.serve_loop]; now rewrite Hstop.
  - apply IH, Hrest.
Qed.

Lemma wl_copy_loop_quiet ticks :
  ∀ c,
    Wayland.running (WaylandCopy.base c) = true →
    WaylandCopy.copy_done c = false →
    Forall quiet_pass ticks →
    WaylandCopy.serve_loop alloc_ok copy_data copy_data_len ticks c
    = (c, false).
Proof.
  induction ticks as [|t ticks IH]; intros c Hrun Hdone Hall;
    cbn [WaylandCopy.serve_loop]; rewrite Hrun, Hdone; cbn [andb negb];
    [reflexivity|].
  inversion Hall as [|? ? (Hq & Hs & Hp) Hrest]; subst.
  unfold WaylandCopy.child_pass. rewrite Hq, Hs.
  cbn [WaylandCopy.dispatch foldl].
  destruct Hp as [-> | ->]; now apply IH.
Qed.

End WaylandCopyFacts.

Section SigpipeFacts.

Variable alloc_ok : N → bool.
Variable copy_data : option (list byte).
Variable copy_data_len : N.

Lemma wl_copy_dispatch_sig_free k evs :
  ∀ c,
    k = false
    ∨ Forall (fun ev => WaylandCopy.raises_sigpipe copy_data copy_data_len ev
                        = false) evs →
    WaylandCopy.dispatch_sig alloc_ok copy_data copy_data_len k evs c
    = (WaylandCopy.dispatch alloc_ok copy_data copy_data_len evs c, false).
Proof.
  induction evs as [|ev evs IH]; intros c Hfree; [reflexivity|].
  cbn [WaylandCopy.dispatch_sig].
  assert (Hev : k && WaylandCopy.raises_sigpipe copy_data copy_data_len ev
                = false).
  { destruct Hfree as [-> | Hall]; [reflexivity|].
    inversion Hall as [|? ? Hev _]; subst. rewrite Hev. apply andb_false_r. }
  rewrite Hev. apply IH.
  destruct Hfree as [-> | Hall]; [now left | right].
  now inversion Hall.
Qed.

Lemma wl_copy_pass_sig_free k t c :
  k = false ∨ no_sigpipe copy_data copy_data_len t →
  WaylandCopy.child_pass_sig alloc_ok copy_data copy_data_len k t c
  = ((WaylandCopy.child_pass alloc_ok copy_data copy_data_len t c).1,
     if (WaylandCopy.child_pass alloc_ok copy_data copy_data_len t c).2
     then WaylandCopy.Break else WaylandCopy.Continue).
Proof.
  intros Hfree. unfold WaylandCopy.child_pass_sig, WaylandCopy.child_pass.
  rewrite wl_copy_dispatch_sig_free
    by (destruct Hfree as [-> | [Hq _]]; [now left | now right]).
  destruct (WaylandCopy.tk_poll t) as [ | | | | [evs|] err | err] eqn:Hpoll;
    try reflexivity.
  rewrite wl_copy_dispatch_sig_free; [reflexivity|].
  destruct Hfree as [-> | [_ Hp]]; [now left | right].
  now apply (Hp evs err).
Qed.

Lemma wl_copy_loop_sig_free k ticks :
  ∀ c,
    sigpipe_free k copy_data copy_data_len ticks →
    WaylandCopy.serve_loop_sig alloc_ok copy_data copy_data_len k ticks c
    = ((WaylandCopy.serve_loop alloc_ok copy_data copy_data_len ticks c).1,
       if (WaylandCopy.serve_loop alloc_ok copy_data copy_data_len ticks c).2
       then WaylandCopy.Break else WaylandCopy.Continue).
Proof.
  induction ticks as [|t ticks IH]; intros c Hfree;
    cbn [WaylandCopy.serve_loop_sig WaylandCopy.serve_loop];
    destruct (_ && _); try reflexivity.
  rewrite wl_copy_pass_sig_free
    by (destruct Hfree as [-> | Hall]; [now left | right; now inversion Hall]).
  destruct (WaylandCopy.child_pass alloc_ok copy_data copy_data_len t c)
    as [c' []]; cbn [fst snd]; [reflexivity|].
  apply IH. destruct Hfree as [-> | Hall]; [now left | right].
  now inversion Hall.
Qed.

Lemma wl_copy_run_sig_free k ticks st :
  sigpipe_free k copy_data copy_data_len ticks →
  WaylandCopy.run_child_sig alloc_ok copy_data copy_data_len k ticks st
  = WaylandCopy.Ended
      (WaylandCopy.run_child alloc_ok copy_data copy_data_len ticks st).
Proof.
  intros Hfree. unfold WaylandCopy.run_child_sig, WaylandCopy.run_child.
  rewrite (wl_copy_loop_sig_free k ticks _ Hfree).
  destruct (WaylandCopy.serve_loop alloc_ok copy_data copy_data_len ticks _)
    as [c []]; reflexivity.
Qed.

Lemma quiet_pass_no_sigpipe t :
  quiet_pass t → no_sigpipe copy_data copy_data_len t.
Proof.
  intros (Hq & _ & Hpoll). split.
  - rewrite Hq. constructor.
  - intros evs err H. destruct Hpoll as [Hp | Hp]; rewrite Hp in H;
      discriminate.
Qed.

Lemma wl_copy_loop_sig_quiet k pre rest :
  ∀ c,
    Wayland.running (WaylandCopy.base c) = true →
    WaylandCopy.copy_done c = false →
    Forall quiet_pass pre →
    WaylandCopy.serve_loop_sig alloc_ok copy_data copy_data_len k
      (pre ++ rest) c
    = WaylandCopy.serve_loop_sig alloc_ok copy_data copy_data_len k rest c.
Proof.
  induction pre as [|t pre IH]; intros c Hrun Hdone Hall; [reflexivity|].
  inversion Hall as [|? ? Ht Hrest]; subst.
  cbn [app WaylandCopy.serve_loop_sig]. rewrite Hrun, Hdone. cbn [negb andb].
  destruct Ht as (Hq & Hs & Hp).
  unfold WaylandCopy.child_pass_sig. rewrite Hq, Hs.
  cbn [WaylandCopy.dispatch_sig].
  destruct Hp as [-> | ->]; now apply IH.
Qed.

End SigpipeFacts.

(** X3.  Wayland round trip.  Non-empty input that leaves a block of room
    under the cap becomes the clipboard: the caller exits with 0 and the
    child holds exactly the bytes of standard input.  A [send] request
    whose receiver keeps taking bytes, in writes of whatever sizes, finds
    exactly those bytes on its descriptor, for any MIME type asked; and
    whatever the receiver does, what the child has put on a descriptor is
    never anything but a prefix of them. *)
Theorem wayland_copy_then_paste (alloc_ok : N → bool)
    (stdin : list read_result) :
  (∀ n, alloc_ok n = true) →
  delivered_reads stdin ≠ [] →
  (N.of_nat (length (delivered_reads stdin)) + 4096 ≤ MAX_CLIPBOARD_SIZE)%N →
  let data := delivered_reads stdin in
  let len := N.of_nat (length data) in
  Wayland.run_copy_clipboard alloc_ok stdin true true true ForkOk
  = CopyForked 0 data
  ∧ (∀ mime writes c,
       Forall (fun r => (0 < r)%Z) writes →
       (Z.of_nat (length data) ≤ total_accepted writes)%Z →
       WaylandCopy.sent
         (WaylandCopy.handle_event alloc_ok (Some data) len
            (WaylandCopy.DsSend mime writes) c)
       = WaylandCopy.sent c ++ [(mime, data)])
  ∧ (∀ ticks st,
       sent_ok data
         (final_state
            (WaylandCopy.run_child alloc_ok (Some data) len ticks st))).
Proof.
  intros Hmem Hne Hfit data len. repeat split.
  - unfold Wayland.run_copy_clipboard, Wayland.read_all_stdin.
    rewrite max_clipboard_size_blocks in *.
    rewrite (read_all_stdin_with_whole alloc_ok Hmem 10 true stdin Hfit).
    fold data.
    destruct (N.of_nat (length data) =? 0)%N eqn:Hz.
    + apply N.eqb_eq in Hz. exfalso. apply Hne. subst data.
      destruct (delivered_reads stdin); [reflexivity | discriminate].
    + cbn [negb andb]. now rewrite take_whole.
  - intros mime writes c Hpos Hsum.
    cbn [WaylandCopy.handle_event WaylandCopy.sent].
    subst len. now rewrite ds_handle_send_complete.
  - intros ticks st. apply wl_copy_run_sent.
Qed.


Lemma wayland_copy_then_paste_witness :
  Wayland.run_copy_clipboard always_alloc [ReadData hello; ReadEof]
    true true true ForkOk
  = CopyForked 0 hello
  ∧ WaylandCopy.sent
      (WaylandCopy.handle_event always_alloc (Some hello) 5
         (WaylandCopy.DsSend "text/plain" [2; 1; 4096]%Z)
         (WaylandCopy.child_start (Wayland.initial empty_disk)))
    = [("text/plain"%string, hello)].
Proof.
  destruct (wayland_copy_then_paste always_alloc [ReadData hello; ReadEof])
    as (Hrun & Hsend & _).
  - reflexivity.
  - vm_compute. discriminate.
  - vm_compute. discriminate.
  - split; [exact Hrun|].
    apply (Hsend "text/plain"%string [2; 1; 4096]%Z
             (WaylandCopy.child_start (Wayland.initial empty_disk))).
    + repeat constructor.
    + vm_compute. discriminate.
Defined.


(** * The sequence values a daemon publishes *)

Lemma seq_text_inj (a b : Z) :
  (0 ≤ a)%Z → (0 ≤ b)%Z → seq_text a = seq_text b → a = b.
Proof.
  intros Ha Hb H. unfold seq_text, fmt_lu in H.
  apply app_inv_tail in H.
  apply (f_equal string_of_list_byte) in H.
  rewrite !string_of_list_byte_of_string in H.
  assert (Hnn : ∀ n, N.to_uint n ≠ Decimal.Nil).
  { intros n Hn. pose proof (DecimalN.Unsigned.of_to n) as Hof.
    rewrite Hn in Hof. destruct n; [discriminate|].
    cbn in Hof. discriminate. }
  apply (f_equal NilZero.uint_of_string) in H.
  rewrite !NilZero.usu in H by apply Hnn.
  injection H as H. apply DecimalN.Unsigned.to_uint_inj in H. lia.
Qed.

Lemma seq_writes_app tr1 tr2 :
  seq_writes (tr1 ++ tr2) = seq_writes tr1 ++ seq_writes tr2.
Proof. apply omap_app. Qed.

Lemma write_primary_seq_writes data len seq d :
  seq_writes (trace (write_primary data len seq d))
  = seq_writes (trace d)
    ++ (if bool_decide ((PRIMARY_FILE ∉ denied d) ∧ (SEQ_FILE ∉ denied d))
        then [seq_text seq] else []).
Proof.
  rewrite write_primary_trace, seq_writes_app. f_equal.
  unfold primary_spec_calls, seq_spec_calls.
  destruct (decide (PRIMARY_FILE ∈ denied d)) as [Hp|Hp].
  - rewrite bool_decide_eq_false_2 by tauto. reflexivity.
  - destruct (decide (SEQ_FILE ∈ denied d)) as [Hs|Hs].
    + rewrite bool_decide_eq_false_2 by tauto.
      destruct data as [buf|]; [destruct (0 <? len)%N|]; reflexivity.
    + rewrite bool_decide_eq_true_2 by tauto.
      destruct data as [buf|]; [destruct (0 <? len)%N|]; reflexivity.
Qed.

Lemma write_pid_file_seq_writes pid d :
  seq_writes (trace (write_pid_file pid d)) = seq_writes (trace d).
Proof.
  unfold write_pid_file, sys_open.
  destruct (decide (PID_FILE ∈ denied d)); cbn;
    rewrite ?seq_writes_app; cbn; now rewrite ?app_nil_r.
Qed.

Lemma unlink_cache_files_seq_writes d :
  seq_writes (trace (unlink_cache_files d)) = seq_writes (trace d).
Proof.
  unfold unlink_cache_files, sys_unlink. cbn.
  rewrite !seq_writes_app. cbn. now rewrite !app_nil_r.
Qed.

Lemma counter_steps_weaken n m x y :
  n ≤ m → counter_steps n x y → counter_steps m x y.
Proof.
  intros Hle H. revert m Hle.
  induction H as [n x | n s d y H IH | n s d data len y H IH
                  | n s d pid y H IH]; intros m Hle.
  - constructor.
  - destruct m as [|m]; [lia|]. apply steps_bump, IH. lia.
  - destruct m as [|m]; [lia|]. eapply steps_publish, IH. lia.
  - eapply steps_pid, IH. lia.
Qed.

Lemma counter_steps_trans n m x y z :
  counter_steps n x y → counter_steps m y z → counter_steps (n + m) x z.
Proof.
  intros H. revert m z.
  induction H as [n x | n s d y H IH | n s d data len y H IH
                  | n s d pid y H IH]; intros m z Hyz.
  - eapply counter_steps_weaken; [|exact Hyz]. lia.
  - cbn. apply steps_bump, IH, Hyz.
  - cbn. eapply steps_publish, IH, Hyz.
  - eapply steps_pid, IH, Hyz.
Qed.

(** The values published along a run of increments that does not wrap
    around: each is above everything published before it. *)
Lemma counter_steps_increasing n x y :
  counter_steps n x y →
  (0 ≤ x.1)%Z → (x.1 + Z.of_nat n < ULONG_MODULUS)%Z →
  ∃ vs,
    seq_writes (trace y.2) = seq_writes (trace x.2) ++ map seq_text vs
    ∧ increasing vs
    ∧ Forall (fun v => (x.1 < v ≤ y.1)%Z) vs
    ∧ (x.1 ≤ y.1 ≤ x.1 + Z.of_nat n)%Z.
Proof.
  induction 1 as [n x | n s d y H IH | n s d data len y H IH
                  | n s d pid y H IH]; cbn [fst snd] in *; intros H0 Hn.
  - exists []. cbn. rewrite app_nil_r. repeat split; [constructor | lia | lia].
  - rewrite ulong_incr_small in IH by lia.
    destruct IH as (vs & Hw & Hinc & Hall & Hb); [lia | lia |].
    exists vs. repeat split; try assumption; try lia.
    eapply Forall_impl; [exact Hall|]. cbn. lia.
  - rewrite ulong_incr_small in IH by lia.
    destruct IH as (vs & Hw & Hinc & Hall & Hb); [lia | lia |].
    rewrite write_primary_seq_writes in Hw.
    case_bool_decide.
    + exists ((s + 1)%Z :: vs). cbn [map increasing]. rewrite Hw, <- app_assoc.
      repeat split; try assumption; try lia.
      * eapply Forall_impl; [exact Hall|]. cbn. lia.
      * constructor; [lia|]. eapply Forall_impl; [exact Hall|]. cbn. lia.
    + exists vs. rewrite app_nil_r in Hw. repeat split; try assumption; try lia.
      eapply Forall_impl; [exact Hall|]. cbn. lia.
  - destruct IH as (vs & Hw & Hinc & Hall & Hb); [lia | lia |].
    rewrite write_pid_file_seq_writes in Hw. exists vs. auto.
Qed.

Lemma increasing_nodup vs :
  Forall (fun v => (0 ≤ v)%Z) vs → increasing vs → NoDup (map seq_text vs).
Proof.
  induction vs as [|v vs IH]; intros Hpos Hinc; cbn; [constructor|].
  inversion Hpos as [|? ? Hv Hvs]; subst. destruct Hinc as [Hlt Hinc].
  constructor; [|now apply IH].
  intros Hin. apply list_elem_of_fmap in Hin as (w & Heq & Hw).
  rewrite Forall_forall in Hlt, Hvs.
  apply seq_text_inj in Heq; [|lia|now apply Hvs].
  specialize (Hlt w Hw). lia.
Qed.

(** A run that starts with the publish of the seed. *)
Lemma seeded_run_increasing (seed : Z) n d y :
  (0 ≤ seed)%Z → (seed + Z.of_nat n < ULONG_MODULUS)%Z →
  counter_steps n (seed, write_primary (Some []) 0 seed d) y →
  ∃ vs,
    seq_writes (trace y.2) = seq_writes (trace d) ++ map seq_text vs
    ∧ increasing vs
    ∧ Forall (fun v => (seed ≤ v ≤ seed + Z.of_nat n)%Z) vs
    ∧ NoDup (map seq_text vs).
Proof.
  intros H0 Hn Hsteps.
  apply counter_steps_increasing in Hsteps as (vs & Hw & Hinc & Hall & Hb);
    cbn [fst snd] in *; [ | exact H0 | exact Hn].
  rewrite write_primary_seq_writes in Hw.
  assert (Hvs : ∃ ws, seq_writes (trace y.2)
                      = seq_writes (trace d) ++ map seq_text ws
                      ∧ increasing ws
                      ∧ Forall (fun v => (seed ≤ v ≤ seed + Z.of_nat n)%Z) ws).
  { case_bool_decide.
    - exists (seed :: vs). cbn [map increasing]. rewrite Hw, <- app_assoc.
      repeat split; try assumption.
      + eapply Forall_impl; [exact Hall|]. cbn. lia.
      + constructor; [lia|]. eapply Forall_impl; [exact Hall|]. cbn. lia.
    - exists vs. rewrite app_nil_r in Hw. repeat split; try assumption.
      eapply Forall_impl; [exact Hall|]. cbn. lia. }
  destruct Hvs as (ws & Hws & Hwinc & Hwall). exists ws.
  repeat split; try assumption.
  apply increasing_nodup; [|exact Hwinc].
  eapply Forall_impl; [exact Hwall|]. cbn. lia.
Qed.

Section SeqFacts.

Variable alloc_ok : N → bool.

Lemma x11_check_and_update_steps x st :
  counter_steps 1 (x11_counter st)
    (x11_counter (X11.check_and_update_primary alloc_ok x st)).
Proof.
  rewrite x11_check_and_update_primary_eq. unfold x11_counter. cbn.
  eapply steps_publish. apply steps_done.
Qed.

Lemma x11_handle_event_steps ev x st :
  counter_steps 1 (x11_counter st)
    (x11_counter (X11.handle_event alloc_ok ev x st)).
Proof.
  destruct ev as [sel| | |]; cbn [X11.handle_event]; try apply steps_done.
  case_decide; [apply x11_check_and_update_steps | apply steps_done].
Qed.

Lemma x11_next_event_loop_steps inputs :
  ∀ st,
    counter_steps (length inputs) (x11_counter st)
      (x11_counter (X11.next_event_loop alloc_ok inputs st).1).
Proof.
  induction inputs as [|i inputs IH]; intros st; [apply steps_done|].
  destruct i as [|ev x]; cbn [X11.next_event_loop length].
  - eapply counter_steps_weaken; [|apply (IH (X11.set_running false st))]. lia.
  - pose proof (x11_handle_event_steps ev x st) as H1.
    destruct (X11.running (X11.handle_event alloc_ok ev x st)).
    + change (S (length inputs)) with (1 + length inputs).
      eapply counter_steps_trans; [exact H1 | apply IH].
    + eapply counter_steps_weaken; [|exact H1]. lia.
Qed.

Lemma x11_event_loop_steps inputs st :
  counter_steps (length inputs) (x11_counter st)
    (x11_counter (X11.event_loop alloc_ok inputs st).1).
Proof.
  unfold X11.event_loop. destruct (X11.running st);
    [apply x11_next_event_loop_steps | apply steps_done].
Qed.

Lemma x11_run_daemon_steps env inputs d :
  let st := final_state (X11.run_daemon alloc_ok env inputs (X11.initial d)) in
  let seed := (X11.now env mod ULONG_MODULUS)%Z in
  X11.cache st = d
  ∨ ∃ y, counter_steps (1 + length inputs)
           (seed, write_primary (Some []) 0 seed d) y
         ∧ (X11.cache st = y.2 ∨ X11.cache st = unlink_cache_files y.2).
Proof.
  cbn zeta. unfold X11.run_daemon, X11.daemon_startup.
  destruct (X11.cache_dir_ok env); [|now left].
  destruct (X11.xfixes_ok env); [|now left].
  cbn [negb X11.initial X11.running X11.seq_counter X11.cache].
  destruct (X11.daemonize_ok env); cbn [negb].
  - set (st2 := {| X11.running := true; X11.seq_counter := _;
                   X11.cache := write_pid_file _ _ |}).
    set (st3 := X11.check_and_update_primary alloc_ok _ st2).
    pose proof (x11_event_loop_steps inputs st3) as Hloop.
    pose proof (x11_check_and_update_steps (X11.startup_reply env) st2) as H3.
    fold st3 in H3.
    assert (Hall : counter_steps (1 + length inputs)
                     ((X11.now env mod ULONG_MODULUS)%Z,
                      write_primary (Some []) 0
                        (X11.now env mod ULONG_MODULUS) d)
                     (x11_counter (X11.event_loop alloc_ok inputs st3).1)).
    { eapply steps_pid. eapply counter_steps_trans; [exact H3 | exact Hloop]. }
    right. eexists. split; [exact Hall|].
    destruct (X11.event_loop alloc_ok inputs st3) as [st4 []];
      cbn [final_state X11.cache fst snd x11_counter]; auto.
  - right. eexists. split; [apply steps_done | left; reflexivity].
Qed.

Lemma wl_handle_event_steps ev st :
  counter_steps 2 (wl_counter st)
    (wl_counter (Wayland.handle_event alloc_ok ev st)).
Proof.
  destruct ev as [o | o mime | o pipe | o | o mime | o | | ];
    cbn [Wayland.handle_event]; try apply steps_done.
  - unfold Wayland.ps_offer_handle_offer. destruct (_ || _); apply steps_done.
  - unfold Wayland.ps_device_handle_selection, Wayland.read_ps_offer,
      Wayland.publish_next, wl_counter.
    repeat case_match; simplify_eq;
      cbn -[write_primary ulong_incr];
      first [ apply steps_bump, steps_done
            | apply steps_bump; eapply steps_publish; apply steps_done ].
  - unfold Wayland.clip_offer_handle_offer. destruct (_ || _); apply steps_done.
  - unfold Wayland.dd_handle_selection.
    repeat case_match; apply steps_done.
Qed.

Lemma wl_dispatch_steps evs :
  ∀ st,
    counter_steps (2 * length evs) (wl_counter st)
      (wl_counter (Wayland.dispatch alloc_ok evs st)).
Proof.
  induction evs as [|ev evs IH]; intros st; [apply steps_done|].
  cbn [Wayland.dispatch foldl length].
  replace (2 * S (length evs)) with (2 + 2 * length evs) by lia.
  eapply counter_steps_trans; [apply wl_handle_event_steps | apply IH].
Qed.

Lemma wl_check_and_update_steps pipe st :
  counter_steps 1 (wl_counter st)
    (wl_counter (Wayland.check_and_update_primary alloc_ok pipe st).2).
Proof.
  unfold Wayland.check_and_update_primary, Wayland.read_ps_offer,
    Wayland.publish_next, wl_counter.
  repeat case_match; simplify_eq; cbn -[write_primary ulong_incr];
    first [ apply steps_done | eapply steps_publish; apply steps_done ].
Qed.

Lemma wl_daemon_pass_steps t st :
  counter_steps (pass_weight t) (wl_counter st)
    (wl_counter (Wayland.daemon_pass alloc_ok t st).1).
Proof.
  unfold Wayland.daemon_pass, pass_weight.
  pose proof (wl_dispatch_steps (Wayland.tk_queued t) st) as H1.
  set (st1 := Wayland.dispatch alloc_ok (Wayland.tk_queued t) st) in *.
  set (st2 := if Wayland.tk_signal t then Wayland.set_running false st1
              else st1).
  assert (H2 : wl_counter st2 = wl_counter st1)
    by (subst st2; destruct (Wayland.tk_signal t); reflexivity).
  rewrite <- H2 in H1. clearbody st2. clear H2.
  destruct (Wayland.tk_poll t) as [ | | | pipe | [evs|] err | err];
    cbn [fst];
    try (eapply counter_steps_weaken; [|exact H1]; lia).
  - destruct (Wayland.current_ps_offer st2) as [o|];
      [destruct (Wayland.ps_has_text st2)|]; cbn [fst];
      try (eapply counter_steps_weaken; [|exact H1]; lia).
    eapply counter_steps_trans; [exact H1 | apply wl_check_and_update_steps].
  - eapply counter_steps_trans; [exact H1 | apply wl_dispatch_steps].
Qed.

Lemma wl_event_loop_steps ticks :
  ∀ st,
    counter_steps (passes_weight ticks) (wl_counter st)
      (wl_counter (Wayland.event_loop alloc_ok ticks st).1).
Proof.
  induction ticks as [|t ticks IH]; intros st; cbn [Wayland.event_loop].
  - destruct (Wayland.running st); apply steps_done.
  - destruct (Wayland.running st); [|apply steps_done].
    pose proof (wl_daemon_pass_steps t st) as Hp.
    destruct (Wayland.daemon_pass alloc_ok t st) as [st' []]; cbn [fst] in *.
    + eapply counter_steps_weaken; [|exact Hp]. cbn [passes_weight foldr]. lia.
    + cbn [passes_weight foldr]. eapply counter_steps_trans; [exact Hp|apply IH].
Qed.

Lemma wl_disconnect_counter st :
  wl_counter (Wayland.wayland_disconnect st) = wl_counter st.
Proof.
  unfold Wayland.wayland_disconnect. repeat case_match; reflexivity.
Qed.

Lemma wl_run_daemon_steps env ticks d :
  let st :=
    final_state (Wayland.run_daemon alloc_ok env ticks (Wayland.initial d)) in
  let seed := (Wayland.now env mod ULONG_MODULUS)%Z in
  Wayland.cache st = d
  ∨ ∃ y, counter_steps (wl_run_weight env ticks)
           (seed, write_primary (Some []) 0 seed d) y
         ∧ (Wayland.cache st = y.2
            ∨ Wayland.cache st = unlink_cache_files y.2).
Proof.
  cbn zeta. unfold Wayland.run_daemon, Wayland.daemon_startup.
  destruct (Wayland.connect_ok env); [|now left].
  destruct (Wayland.has_ps_manager env); [|now left].
  destruct (Wayland.has_seat env); [|now left].
  destruct (Wayland.cache_dir_ok env); [|now left].
  cbn [negb].
  set (st1 := Wayland.set_cache _ _).
  assert (H1 : wl_counter st1
               = ((Wayland.now env mod ULONG_MODULUS)%Z,
                  write_primary (Some []) 0
                    (Wayland.now env mod ULONG_MODULUS) d)) by reflexivity.
  clearbody st1.
  assert (Hdisc : ∀ st, Wayland.cache (Wayland.wayland_disconnect st)
                        = (wl_counter st).2).
  { intros st. pose proof (wl_disconnect_counter st) as Hd.
    unfold wl_counter in Hd |- *. cbn [snd]. now injection Hd as _ ->. }
  destruct (Wayland.daemonize_ok env); cbn [negb].
  - set (st2 := Wayland.set_cache _ st1).
    assert (H2 : counter_steps 0 (wl_counter st1) (wl_counter st2))
      by (eapply steps_pid; apply steps_done).
    pose proof (wl_dispatch_steps (Wayland.startup_events env) st2) as H3.
    set (st3 := Wayland.dispatch alloc_ok (Wayland.startup_events env) st2)
      in *.
    unfold wl_run_weight.
    destruct (Wayland.surface_events env) as [evs|]; cbn [default].
    + pose proof (wl_dispatch_steps evs st3) as H4.
      set (st4 := Wayland.dispatch alloc_ok evs st3) in *.
      pose proof (wl_event_loop_steps ticks st4) as H5.
      right. rewrite <- H1.
      exists (wl_counter (Wayland.event_loop alloc_ok ticks st4).1). split.
      * eapply (counter_steps_trans 0); [exact H2|].
        rewrite <- Nat.add_assoc.
        eapply counter_steps_trans; [exact H3|].
        eapply counter_steps_trans; [exact H4 | exact H5].
      * destruct (Wayland.event_loop alloc_ok ticks st4) as [st5 []];
          cbn [final_state fst snd Wayland.cache Wayland.set_cache].
        -- right. now rewrite Hdisc.
        -- left. reflexivity.
    + right. rewrite <- H1. exists (wl_counter st3). split.
      * eapply counter_steps_weaken;
          [|eapply (counter_steps_trans 0); [exact H2 | exact H3]].
        cbn [length]. lia.
      * left. apply Hdisc.
  - right. rewrite <- H1. exists (wl_counter st1). split; [apply steps_done|].
    left. apply Hdisc.
Qed.

End SeqFacts.

(** X5.  X11 daemon.  As long as the counter does not wrap around, the
    texts written to [seq] during a run are the decimals of a strictly
    increasing list of numbers, none below the seed: every publish puts a
    text into [seq] that was never there before. *)
Theorem x11_daemon_seq_increases (alloc_ok : N → bool) (env : X11.daemon_env)
    (inputs : list X11.daemon_input) (d : disk) :
  (0 ≤ X11.now env)%Z →
  (X11.now env + 1 + Z.of_nat (length inputs) < ULONG_MODULUS)%Z →
  let st := final_state (X11.run_daemon alloc_ok env inputs (X11.initial d)) in
  ∃ vs,
    seq_writes (trace (X11.cache st)) = seq_writes (trace d) ++ map seq_text vs
    ∧ increasing vs
    ∧ Forall (fun v => (X11.now env ≤ v
                        ≤ X11.now env + 1 + Z.of_nat (length inputs))%Z) vs
    ∧ NoDup (map seq_text vs).
Proof.
  intros H0 Hn. cbn zeta.
  destruct (x11_run_daemon_steps alloc_ok env inputs d)
    as [Hsame | (y & Hsteps & Hy)].
  - rewrite Hsame. exists []. cbn. rewrite app_nil_r. repeat split; constructor.
  - rewrite Z.mod_small in Hsteps by lia.
    apply seeded_run_increasing in Hsteps as (vs & Hw & Hinc & Hall & Hnd);
      [ | lia | lia].
    exists vs. repeat split; try assumption.
    + destruct Hy as [-> | ->]; [|rewrite unlink_cache_files_seq_writes];
        exact Hw.
    + eapply Forall_impl; [exact Hall|]. cbn. lia.
Qed.

(** X6.  Wayland daemon.  Each event dispatched can increment the counter
    twice and each poll timeout once; as long as that does not make the
    counter wrap around, the texts written to [seq] during a run are the
    decimals of a strictly increasing list of numbers, none below the
    seed: every publish puts a text into [seq] that was never there
    before. *)
Theorem wayland_daemon_seq_increases (alloc_ok : N → bool)
    (env : Wayland.daemon_env) (ticks : list Wayland.tick) (d : disk) :
  (0 ≤ Wayland.now env)%Z →
  (Wayland.now env + Z.of_nat (wl_run_weight env ticks) < ULONG_MODULUS)%Z →
  let st :=
    final_state (Wayland.run_daemon alloc_ok env ticks (Wayland.initial d)) in
  ∃ vs,
    seq_writes (trace (Wayland.cache st))
    = seq_writes (trace d) ++ map seq_text vs
    ∧ increasing vs
    ∧ Forall (fun v => (Wayland.now env ≤ v
                        ≤ Wayland.now env
                          + Z.of_nat (wl_run_weight env ticks))%Z) vs
    ∧ NoDup (map seq_text vs).
Proof.
  intros H0 Hn. cbn zeta.
  destruct (wl_run_daemon_steps alloc_ok env ticks d)
    as [Hsame | (y & Hsteps & Hy)].
  - rewrite Hsame. exists []. cbn.
    rewrite app_nil_r. repeat split; constructor.
  - rewrite Z.mod_small in Hsteps by lia.
    apply seeded_run_increasing in Hsteps as (vs & Hw & Hinc & Hall & Hnd);
      [ | lia | lia].
    exists vs. repeat split; try assumption.
    destruct Hy as [-> | ->]; [|rewrite unlink_cache_files_seq_writes];
      exact Hw.
Qed.

Lemma x11_daemon_seq_increases_witness :
  ∃ vs,
    seq_writes
      (trace
         (X11.cache
            (final_state
               (X11.run_daemon always_alloc x_env
                  [primary_changed; primary_changed]
                  (X11.initial empty_disk)))))
    = seq_writes (trace empty_disk) ++ map seq_text vs
    ∧ increasing vs
    ∧ Forall (fun v => (X11.now x_env ≤ v
                        ≤ X11.now x_env + 1 + Z.of_nat 2)%Z) vs
    ∧ NoDup (map seq_text vs).
Proof.
  apply (x11_daemon_seq_increases always_alloc x_env
           [primary_changed; primary_changed] empty_disk).
  - vm_compute. discriminate.
  - vm_compute. reflexivity.
Defined.

Lemma wayland_daemon_seq_increases_witness :
  ∃ vs,
    seq_writes
      (trace
         (Wayland.cache
            (final_state
               (Wayland.run_daemon always_alloc wl_env
                  [readable (selection_of 5%N); readable (selection_of 6%N)]
                  (Wayland.initial empty_disk)))))
    = seq_writes (trace empty_disk) ++ map seq_text vs
    ∧ increasing vs
    ∧ Forall (fun v => (Wayland.now wl_env ≤ v
                        ≤ Wayland.now wl_env
                          + Z.of_nat
                              (wl_run_weight wl_env
                                 [readable (selection_of 5%N);
                                  readable (selection_of 6%N)]))%Z) vs
    ∧ NoDup (map seq_text vs).
Proof.
  apply (wayland_daemon_seq_increases always_alloc wl_env
           [readable (selection_of 5%N); readable (selection_of 6%N)] empty_disk).
  - vm_compute. discriminate.
  - vm_compute. reflexivity.
Defined.

(** * [seq] is never there without [primary] *)

Lemma write_primary_seq_has_primary data len seq d :
  seq_has_primary d → seq_has_primary (write_primary data len seq d).
Proof.
  unfold seq_has_primary. intros Hinv.
  destruct (decide (PRIMARY_FILE ∈ denied d)) as [Hp|Hp].
  - rewrite write_primary_denied by exact Hp. exact Hinv.
  - intros _. rewrite write_primary_files.
    destruct (decide (PRIMARY_FILE ∈ denied d)); [contradiction|].
    rewrite replay_app.
    rewrite replay_untouched.
    + unfold primary_spec_calls.
      destruct data as [buf|]; [destruct (0 <? len)%N|]; cbn;
        rewrite ?lookup_insert; eauto.
    + destruct (decide (SEQ_FILE ∈ denied d)); unfold seq_spec_calls;
        repeat constructor; cbn; discriminate.
Qed.

Lemma write_pid_file_files pid d (p : string) :
  p ≠ PID_FILE → files (write_pid_file pid d) !! p = files d !! p.
Proof.
  intros Hp. unfold write_pid_file, sys_open.
  destruct (decide (PID_FILE ∈ denied d)); cbn; [reflexivity|].
  rewrite lookup_insert_ne by congruence.
  rewrite lookup_insert_ne by congruence. reflexivity.
Qed.

Lemma write_pid_file_seq_has_primary pid d :
  seq_has_primary d → seq_has_primary (write_pid_file pid d).
Proof.
  unfold seq_has_primary.
  rewrite !write_pid_file_files by discriminate. auto.
Qed.

Lemma unlink_cache_files_seq_has_primary d :
  seq_has_primary (unlink_cache_files d).
Proof.
  unfold seq_has_primary.
  destruct (unlink_cache_files_gone d) as (_ & -> & _).
  intros [? ?]. discriminate.
Qed.

Lemma counter_steps_seq_has_primary n x y :
  counter_steps n x y → seq_has_primary x.2 → seq_has_primary y.2.
Proof.
  induction 1 as [n x | n s d y H IH | n s d data len y H IH
                  | n s d pid y H IH]; cbn [snd] in *; intros Hinv.
  - exact Hinv.
  - apply IH, Hinv.
  - apply IH, write_primary_seq_has_primary, Hinv.
  - apply IH, write_pid_file_seq_has_primary, Hinv.
Qed.

(** X7.  Both daemons keep the cache directory such that [seq] is never
    there without [primary]: if that holds of the directory a daemon is
    started on, it holds wherever a run stops, whatever the run brings and
    whichever files can be opened. *)
Theorem seq_never_without_primary (alloc_ok : N → bool) (d : disk) :
  seq_has_primary d →
  (∀ env inputs,
     seq_has_primary
       (X11.cache
          (final_state (X11.run_daemon alloc_ok env inputs (X11.initial d)))))
  ∧ (∀ env ticks,
       seq_has_primary
         (Wayland.cache
            (final_state
               (Wayland.run_daemon alloc_ok env ticks (Wayland.initial d))))).
Proof.
  intros Hinv. split.
  - intros env inputs.
    destruct (x11_run_daemon_steps alloc_ok env inputs d)
      as [-> | (y & Hsteps & [-> | ->])].
    + exact Hinv.
    + apply counter_steps_seq_has_primary in Hsteps; [exact Hsteps|].
      apply write_primary_seq_has_primary, Hinv.
    + apply unlink_cache_files_seq_has_primary.
  - intros env ticks.
    destruct (wl_run_daemon_steps alloc_ok env ticks d)
      as [-> | (y & Hsteps & [-> | ->])].
    + exact Hinv.
    + apply counter_steps_seq_has_primary in Hsteps; [exact Hsteps|].
      apply write_primary_seq_has_primary, Hinv.
    + apply unlink_cache_files_seq_has_primary.
Qed.

Lemma seq_never_without_primary_witness :
  seq_has_primary
    (X11.cache
       (final_state
          (X11.run_daemon always_alloc x_env [primary_changed]
             (X11.initial seq_locked_disk))))
  ∧ seq_has_primary
      (Wayland.cache
         (final_state
            (Wayland.run_daemon always_alloc wl_env
               [readable (selection_of 5%N)]
               (Wayland.initial seq_locked_disk)))).
Proof.
  destruct (seq_never_without_primary always_alloc seq_locked_disk)
    as (Hx & Hw).
  - intros [bs Hbs]. vm_compute in Hbs. discriminate.
  - split; [apply Hx | apply Hw].
Defined.

(** * The Wayland daemon's copy of the selection and the [primary] file *)

Section MirrorFacts.

Variable alloc_ok : N → bool.
Hypothesis alloc_always : ∀ n, alloc_ok n = true.

Lemma mirrors_primary_ext st st' :
  Wayland.cache st' = Wayland.cache st →
  Wayland.last_known_content st' = Wayland.last_known_content st →
  Wayland.last_known_len st' = Wayland.last_known_len st →
  Wayland.is_daemon_mode st' = Wayland.is_daemon_mode st →
  mirrors_primary st → mirrors_primary st'.
Proof.
  unfold mirrors_primary. intros -> -> -> ->. auto.
Qed.

Lemma remember_whole (sel : option (list byte)) len :
  (∀ bytes, sel = Some bytes → len = N.of_nat (length bytes)) →
  default [] (Wayland.remember alloc_ok sel len).1 = default [] sel
  ∧ (Wayland.remember alloc_ok sel len).2 = N.of_nat (length (default [] sel)).
Proof.
  intros Hlen. unfold Wayland.remember. destruct sel as [bytes|]; [|auto].
  rewrite (Hlen bytes eq_refl), alloc_always.
  destruct (0 <? N.of_nat (length bytes))%N eqn:Hpos; cbn.
  - now rewrite take_whole.
  - apply N.ltb_ge in Hpos. destruct bytes; [auto | cbn in Hpos; lia].
Qed.

Lemma payload_of_read (sel : option (list byte)) len :
  (∀ bytes, sel = Some bytes → len = N.of_nat (length bytes)) →
  payload (Some (default [] sel)) (Wayland.len_or_zero sel len)
  = default [] sel.
Proof.
  intros Hlen. destruct sel as [bytes|]; cbn; [|reflexivity].
  rewrite (Hlen bytes eq_refl). apply payload_whole.
Qed.

(** Publishing a fresh read and remembering it. *)
Lemma mirrors_primary_publish sel len st :
  (∀ bytes, sel = Some bytes → len = N.of_nat (length bytes)) →
  mirrors_primary st →
  let st' :=
    Wayland.set_last_known (Wayland.remember alloc_ok sel len)
      (Wayland.publish_next (Some (default [] sel))
         (Wayland.len_or_zero sel len) st) in
  mirrors_primary st'
  ∧ files (Wayland.cache st') !! PRIMARY_FILE = Some (default [] sel).
Proof.
  intros Hlen (Hfile & Hlkl & Hp & Hs & Hmode). cbn zeta.
  destruct (remember_whole sel len Hlen) as (Hrc & Hrl).
  destruct (write_primary_ok (Some (default [] sel))
              (Wayland.len_or_zero sel len)
              (ulong_incr (Wayland.seq_counter st)) (Wayland.cache st) Hp Hs)
    as (_ & Hprim & _).
  rewrite payload_of_read in Hprim by exact Hlen.
  unfold mirrors_primary.
  cbn [Wayland.set_last_known Wayland.publish_next Wayland.bump_seq
       Wayland.set_cache Wayland.set_seq_counter Wayland.cache
       Wayland.last_known_content Wayland.last_known_len
       Wayland.is_daemon_mode Wayland.seq_counter].
  rewrite Hrc, Hrl, write_primary_keeps_denied. repeat split; assumption.
Qed.

(** What is skipped as unchanged is what the file holds already. *)
Lemma unchanged_is_mirrored sel len st :
  (∀ bytes, sel = Some bytes → len = N.of_nat (length bytes)) →
  mirrors_primary st →
  Wayland.content_changed sel len
    (Wayland.last_known_content st) (Wayland.last_known_len st) = false →
  default [] sel = default [] (Wayland.last_known_content st).
Proof.
  intros Hlen (_ & Hlkl & _) Hsame. unfold Wayland.content_changed in Hsame.
  destruct sel as [s|], (Wayland.last_known_content st) as [l|];
    try discriminate; [|reflexivity].
  cbn [default from_option id] in *.
  apply orb_false_elim in Hsame as [H1 H2].
  apply negb_false_iff in H1, H2.
  apply N.eqb_eq in H1. apply bool_decide_eq_true in H2.
  rewrite (Hlen s eq_refl) in H1, H2. rewrite Nat2N.id in H2.
  assert (Hl : length s = length l) by lia.
  rewrite firstn_all in H2. rewrite Hl, firstn_all in H2. exact H2.
Qed.

Lemma read_ps_offer_len o pipe st sel len st' :
  Wayland.read_ps_offer alloc_ok o pipe 0 st = (sel, len, st') →
  ∀ bytes, sel = Some bytes → len = N.of_nat (length bytes).
Proof.
  intros Hread bytes ->.
  apply read_ps_offer_cut in Hread as (_ & Hlen & _). exact Hlen.
Qed.

Lemma read_ps_offer_mirrors o pipe st :
  mirrors_primary st →
  mirrors_primary (Wayland.read_ps_offer alloc_ok o pipe 0 st).2.
Proof.
  intros H. destruct (read_ps_offer_state alloc_ok o pipe 0 st) as [-> | ->];
    [exact H|]. eapply mirrors_primary_ext; [..|exact H]; reflexivity.
Qed.

Lemma read_ps_offer_result o pipe st st0 :
  (Wayland.read_ps_offer alloc_ok o pipe 0 st).1
  = (Wayland.read_ps_offer alloc_ok o pipe 0 st0).1.
Proof. destruct pipe; reflexivity. Qed.

Lemma mirrors_primary_cleared st :
  mirrors_primary st →
  mirrors_primary
    (match Wayland.last_known_content st with
     | Some _ =>
         Wayland.set_last_known (None, 0%N)
           (Wayland.publish_next (Some []) 0 st)
     | None => st
     end).
Proof.
  intros H. destruct (Wayland.last_known_content st) eqn:Hl; [|exact H].
  destruct (mirrors_primary_publish None 0 st) as (Hm & _);
    [discriminate | exact H |]. exact Hm.
Qed.

Lemma ps_device_handle_selection_mirrors o pipe st :
  mirrors_primary st →
  let st' := Wayland.ps_device_handle_selection alloc_ok o pipe st in
  mirrors_primary st'
  ∧ (∀ off, o = Some off → Wayland.ps_has_text st = true →
       files (Wayland.cache st') !! PRIMARY_FILE
       = Some (default []
                 (Wayland.read_ps_offer alloc_ok off pipe 0 st).1.1)).
Proof.
  intros Hm. cbn zeta. unfold Wayland.ps_device_handle_selection.
  set (st1 := match Wayland.current_ps_offer st with
              | Some cur => _ | None => st end).
  set (st2 := Wayland.set_got_selection true _).
  assert (H2 : mirrors_primary st2).
  { eapply mirrors_primary_ext; [..|exact Hm]; subst st2 st1;
      repeat case_match; reflexivity. }
  assert (Htext : Wayland.ps_has_text st2 = Wayland.ps_has_text st).
  { subst st2 st1. repeat case_match; reflexivity. }
  assert (Hmode : Wayland.is_daemon_mode st2 = true) by apply H2.
  rewrite Hmode. cbn [negb]. rewrite Htext. clearbody st2. clear st1.
  destruct o as [off|].
  - destruct (Wayland.ps_has_text st) eqn:Ht.
    + destruct (Wayland.read_ps_offer alloc_ok off pipe 0 st2)
        as [[sel len] st3] eqn:Hread.
      pose proof (read_ps_offer_len _ _ _ _ _ _ Hread) as Hlen.
      pose proof (read_ps_offer_mirrors off pipe st2 H2) as H3.
      rewrite Hread in H3. cbn [snd] in H3.
      assert (Hsel : (Wayland.read_ps_offer alloc_ok off pipe 0 st).1.1 = sel).
      { rewrite (read_ps_offer_result off pipe st st2), Hread. reflexivity. }
      destruct (Wayland.content_changed sel len _ _) eqn:Hch.
      * destruct (mirrors_primary_publish sel len st3 Hlen H3) as (Hm' & Hf).
        split; [exact Hm'|]. intros off' Heq _. injection Heq as <-.
        rewrite Hsel. exact Hf.
      * split; [exact H3|]. intros off' Heq _. injection Heq as <-.
        rewrite Hsel, (unchanged_is_mirrored sel len st3 Hlen H3 Hch).
        apply H3.
    + split; [now apply mirrors_primary_cleared | discriminate].
  - split; [now apply mirrors_primary_cleared | discriminate].
Qed.

Lemma check_and_update_primary_mirrors pipe st :
  mirrors_primary st →
  let st' := (Wayland.check_and_update_primary alloc_ok pipe st).2 in
  mirrors_primary st'
  ∧ (∀ off, Wayland.current_ps_offer st = Some off →
       Wayland.ps_has_text st = true →
       files (Wayland.cache st') !! PRIMARY_FILE
       = Some (default []
                 (Wayland.read_ps_offer alloc_ok off pipe 0 st).1.1)).
Proof.
  intros Hm. cbn zeta. unfold Wayland.check_and_update_primary.
  destruct (Wayland.current_ps_offer st) as [off|].
  - destruct (Wayland.ps_has_text st) eqn:Ht.
    + destruct (Wayland.read_ps_offer alloc_ok off pipe 0 st)
        as [[sel len] st1] eqn:Hread.
      pose proof (read_ps_offer_len _ _ _ _ _ _ Hread) as Hlen.
      pose proof (read_ps_offer_mirrors off pipe st Hm) as H1.
      rewrite Hread in H1. cbn [snd] in *.
      destruct (mirrors_primary_publish sel len st1 Hlen H1) as (Hm' & Hf).
      split; [exact Hm'|]. intros off' Heq _. injection Heq as <-.
      rewrite Hread. exact Hf.
    + split; [|discriminate]. pose proof (mirrors_primary_cleared st Hm) as H.
      destruct (Wayland.last_known_content st); exact H.
  - split; [|discriminate]. pose proof (mirrors_primary_cleared st Hm) as H.
    destruct (Wayland.last_known_content st); exact H.
Qed.

Lemma handle_event_mirrors ev st :
  mirrors_primary st → mirrors_primary (Wayland.handle_event alloc_ok ev st).
Proof.
  intros Hm.
  destruct ev as [o | o mime | o pipe | o | o mime | o | | ];
    cbn [Wayland.handle_event];
    try (eapply mirrors_primary_ext; [..|exact Hm]; reflexivity).
  - unfold Wayland.ps_offer_handle_offer. destruct (_ || _); exact Hm.
  - apply ps_device_handle_selection_mirrors.
    eapply mirrors_primary_ext; [..|exact Hm]; reflexivity.
  - unfold Wayland.clip_offer_handle_offer. destruct (_ || _); exact Hm.
  - eapply mirrors_primary_ext; [..|exact Hm];
      unfold Wayland.dd_handle_selection; repeat case_match; reflexivity.
Qed.

Lemma dispatch_mirrors evs :
  ∀ st, mirrors_primary st → mirrors_primary (Wayland.dispatch alloc_ok evs st).
Proof.
  induction evs as [|ev evs IH]; intros st Hm; [exact Hm|].
  apply IH, handle_event_mirrors, Hm.
Qed.

Lemma daemon_pass_mirrors t st :
  mirrors_primary st → mirrors_primary (Wayland.daemon_pass alloc_ok t st).1.
Proof.
  intros Hm. unfold Wayland.daemon_pass.
  pose proof (dispatch_mirrors (Wayland.tk_queued t) st Hm) as H1.
  set (st1 := Wayland.dispatch alloc_ok (Wayland.tk_queued t) st) in *.
  set (st2 := if Wayland.tk_signal t then Wayland.set_running false st1
              else st1).
  assert (H2 : mirrors_primary st2).
  { subst st2. destruct (Wayland.tk_signal t); [|exact H1].
    eapply mirrors_primary_ext; [..|exact H1]; reflexivity. }
  clearbody st2.
  destruct (Wayland.tk_poll t) as [ | | | pipe | [evs|] err | err];
    cbn [fst]; try exact H2.
  - destruct (Wayland.current_ps_offer st2) as [o|];
      [destruct (Wayland.ps_has_text st2)|]; cbn [fst]; try exact H2.
    apply check_and_update_primary_mirrors, H2.
  - apply dispatch_mirrors, H2.
Qed.

Lemma event_loop_mirrors ticks :
  ∀ st,
    mirrors_primary st →
    mirrors_primary (Wayland.event_loop alloc_ok ticks st).1.
Proof.
  induction ticks as [|t ticks IH]; intros st Hm; cbn [Wayland.event_loop].
  - destruct (Wayland.running st); exact Hm.
  - destruct (Wayland.running st); [|exact Hm].
    pose proof (daemon_pass_mirrors t st Hm) as Hp.
    destruct (Wayland.daemon_pass alloc_ok t st) as [st' []]; cbn [fst] in *;
      [exact Hp | apply IH, Hp].
Qed.

Lemma daemon_startup_mirrors env d st :
  PRIMARY_FILE ∉ denied d → SEQ_FILE ∉ denied d →
  Wayland.daemon_startup alloc_ok env (Wayland.initial d) = inr st →
  mirrors_primary st.
Proof.
  intros Hp Hs. unfold Wayland.daemon_startup.
  destruct (Wayland.connect_ok env); [|discriminate].
  destruct (Wayland.has_ps_manager env); [|discriminate].
  destruct (Wayland.has_seat env); [|discriminate].
  destruct (Wayland.cache_dir_ok env); [|discriminate].
  destruct (Wayland.daemonize_ok env); [|discriminate].
  cbn [negb].
  set (st2 := Wayland.set_cache (write_pid_file _ _) _).
  assert (H2 : mirrors_primary st2).
  { subst st2. unfold mirrors_primary.
    cbn [Wayland.set_cache Wayland.set_seq_counter Wayland.set_is_daemon_mode
         Wayland.initial Wayland.cache Wayland.last_known_content
         Wayland.last_known_len Wayland.is_daemon_mode default].
    rewrite write_pid_file_files by discriminate.
    rewrite write_pid_file_keeps_denied, write_primary_keeps_denied.
    destruct (write_primary_ok (Some []) 0
                (Wayland.now env mod ULONG_MODULUS) d Hp Hs)
      as (_ & Hprim & _).
    rewrite Hprim. auto. }
  clearbody st2.
  destruct (Wayland.surface_events env) as [evs|]; [|discriminate].
  intros Heq. injection Heq as <-.
  apply dispatch_mirrors, dispatch_mirrors, H2.
Qed.

End MirrorFacts.

(** X8.  Wayland daemon, with memory to be had and a cache directory whose
    files can be written.  While the daemon is in its loop, [primary]
    holds exactly the bytes of the daemon's own copy of the selection.
    After a selection event that brings a text offer, and after the
    re-read made on a poll timeout, [primary] holds exactly the bytes just
    read: when the handler does not publish because the bytes are those
    of its copy, they are in the file already. *)
Theorem wayland_primary_holds_the_last_read (alloc_ok : N → bool) :
  (∀ n, alloc_ok n = true) →
  (∀ env ticks d st,
     PRIMARY_FILE ∉ denied d → SEQ_FILE ∉ denied d →
     Wayland.run_daemon alloc_ok env ticks (Wayland.initial d) = Blocked st →
     mirrors_primary st)
  ∧ (∀ off pipe st,
       mirrors_primary st →
       Wayland.ps_has_text st = true →
       let st' :=
         Wayland.ps_device_handle_selection alloc_ok (Some off) pipe st in
       mirrors_primary st'
       ∧ files (Wayland.cache st') !! PRIMARY_FILE
         = Some (default []
                   (Wayland.read_ps_offer alloc_ok off pipe 0 st).1.1))
  ∧ (∀ off pipe st,
       mirrors_primary st →
       Wayland.current_ps_offer st = Some off →
       Wayland.ps_has_text st = true →
       let st' := (Wayland.check_and_update_primary alloc_ok pipe st).2 in
       mirrors_primary st'
       ∧ files (Wayland.cache st') !! PRIMARY_FILE
         = Some (default []
                   (Wayland.read_ps_offer alloc_ok off pipe 0 st).1.1)).
Proof.
  intros Hmem. split; [|split].
  - intros env ticks d st Hp Hs. unfold Wayland.run_daemon.
    destruct (Wayland.daemon_startup alloc_ok env (Wayland.initial d))
      as [[code st0] | st1] eqn:Hstart; [discriminate|].
    pose proof (daemon_startup_mirrors alloc_ok Hmem env d st1 Hp Hs Hstart)
      as H1.
    pose proof (event_loop_mirrors alloc_ok Hmem ticks st1 H1) as H2.
    destruct (Wayland.event_loop alloc_ok ticks st1) as [st2 []];
      [discriminate|].
    intros Heq. injection Heq as <-. exact H2.
  - intros off pipe st Hm Ht.
    destruct (ps_device_handle_selection_mirrors alloc_ok Hmem (Some off)
                pipe st Hm) as (Hm' & Hf).
    split; [exact Hm' | now apply Hf].
  - intros off pipe st Hm Hcur Ht.
    destruct (check_and_update_primary_mirrors alloc_ok Hmem pipe st Hm)
      as (Hm' & Hf).
    split; [exact Hm' | now apply Hf].
Qed.

Lemma wayland_primary_holds_the_last_read_witness :
  mirrors_primary
    (final_state
       (Wayland.run_daemon always_alloc wl_env
          [readable (selection_of 5%N); readable (selection_of 6%N)]
          (Wayland.initial empty_disk))).
Proof.
  destruct (wayland_primary_holds_the_last_read always_alloc
              (fun _ => eq_refl)) as (Hrun & _).
  apply (Hrun wl_env [readable (selection_of 5%N); readable (selection_of 6%N)]
           empty_disk).
  - apply not_elem_of_empty.
  - apply not_elem_of_empty.
  - vm_compute. reflexivity.
Defined.

(** * The X11 daemon's counter and its cache files *)

Lemma ulong_incr_mod (a : Z) :
  ulong_incr (a mod ULONG_MODULUS) = ((a + 1) mod ULONG_MODULUS)%Z.
Proof. unfold ulong_incr. apply Z.add_mod_idemp_l. discriminate. Qed.

Section X11CounterFacts.

Variable alloc_ok : N → bool.

Lemma x11_check_and_update_published seed k x0 x st :
  x11_published alloc_ok seed k x0 st →
  x11_published alloc_ok seed (S k) x
    (X11.check_and_update_primary alloc_ok x st).
Proof.
  intros (Hc & _ & _ & Hp & Hs).
  rewrite x11_check_and_update_primary_eq. unfold x11_published.
  cbn [X11.seq_counter X11.cache].
  destruct (write_primary_ok
              (Some (default [] (X11.get_primary_selection alloc_ok x).1))
              (N.of_nat
                 (length (default [] (X11.get_primary_selection alloc_ok x).1)))
              (ulong_incr (X11.seq_counter st)) (X11.cache st) Hp Hs)
    as (_ & Hprim & Hseq).
  rewrite payload_whole in Hprim.
  rewrite write_primary_keeps_denied.
  repeat split; try assumption.
  rewrite Hc, ulong_incr_mod. f_equal. lia.
Qed.

Lemma x11_next_event_loop_published seed inputs :
  ∀ k x0 st st',
    x11_published alloc_ok seed k x0 st →
    X11.next_event_loop alloc_ok inputs st = (st', false) →
    x11_published alloc_ok seed (k + primary_events inputs)
      (last_primary_reply inputs x0) st'.
Proof.
  induction inputs as [|i inputs IH]; intros k x0 st st' Hinv Hrun.
  - cbn in Hrun. injection Hrun as <-.
    unfold primary_events. cbn. now rewrite Nat.add_0_r.
  - destruct i as [|ev x]; cbn [X11.next_event_loop] in Hrun.
    + apply (IH k x0) in Hrun; [exact Hrun | exact Hinv].
    + destruct (X11.running (X11.handle_event alloc_ok ev x st)) eqn:Hr;
        [|discriminate].
      destruct ev as [sel| | |]; cbn [X11.handle_event] in Hrun;
        try (apply (IH k x0) in Hrun; [exact Hrun | exact Hinv]).
      unfold primary_events.
      cbn [last_primary_reply is_primary_event List.filter].
      destruct (decide (sel = X11.XA_PRIMARY)) as [->|Hne].
      * rewrite bool_decide_eq_true_2 by reflexivity. cbn [length].
        replace (k + S (length (List.filter is_primary_event inputs)))
          with (S k + primary_events inputs) by (unfold primary_events; lia).
        eapply IH; [|exact Hrun].
        eapply x11_check_and_update_published, Hinv.
      * rewrite bool_decide_eq_false_2 by exact Hne.
        apply (IH k x0) in Hrun; [exact Hrun | exact Hinv].
Qed.

End X11CounterFacts.

(** X9.  X11 daemon, in a cache directory whose files can be written.
    While the daemon is in its loop its counter is the seed plus one, for
    the read made at start-up, plus the number of PRIMARY change events
    received; [seq] holds the decimal of the counter, and [primary] holds
    what the read made on the last of those events obtained.  Events of
    any other kind, and changes of other selections, have no effect. *)
Theorem x11_daemon_counts_primary_events (alloc_ok : N → bool)
    (env : X11.daemon_env) (inputs : list X11.daemon_input) (d : disk)
    (st : X11.state) :
  PRIMARY_FILE ∉ denied d →
  SEQ_FILE ∉ denied d →
  X11.run_daemon alloc_ok env inputs (X11.initial d) = Blocked st →
  X11.seq_counter st
  = ((X11.now env + 1 + Z.of_nat (primary_events inputs))
     mod ULONG_MODULUS)%Z
  ∧ files (X11.cache st) !! SEQ_FILE = Some (seq_text (X11.seq_counter st))
  ∧ files (X11.cache st) !! PRIMARY_FILE
    = Some (default []
              (X11.get_primary_selection alloc_ok
                 (last_primary_reply inputs (X11.startup_reply env))).1).
Proof.
  intros Hp Hs. unfold X11.run_daemon, X11.daemon_startup.
  destruct (X11.cache_dir_ok env); [|discriminate].
  destruct (X11.xfixes_ok env); [|discriminate].
  destruct (X11.daemonize_ok env); [|discriminate].
  cbn [negb X11.initial X11.running X11.seq_counter X11.cache].
  set (st2 := {| X11.running := true; X11.seq_counter := _;
                 X11.cache := write_pid_file _ _ |}).
  assert (H2 : x11_published alloc_ok (X11.now env) 0 x_none st2).
  { unfold x11_published. subst st2. cbn [X11.seq_counter X11.cache].
    rewrite !write_pid_file_files by discriminate.
    rewrite write_pid_file_keeps_denied, write_primary_keeps_denied.
    destruct (write_primary_ok (Some []) 0
                (X11.now env mod ULONG_MODULUS) d Hp Hs)
      as (_ & Hprim & Hseq).
    rewrite Hprim, Hseq, Z.add_0_r. repeat split; assumption. }
  pose proof (x11_check_and_update_published alloc_ok _ _ _
                (X11.startup_reply env) _ H2) as H3.
  set (st3 := X11.check_and_update_primary alloc_ok _ st2) in *.
  assert (Hrun3 : X11.running st3 = true).
  { subst st3. rewrite x11_check_and_update_primary_eq. reflexivity. }
  clearbody st3. unfold X11.event_loop. rewrite Hrun3.
  destruct (X11.next_event_loop alloc_ok inputs st3) as [st4 []] eqn:Hloop;
    [discriminate|].
  intros Heq. injection Heq as <-.
  apply (x11_next_event_loop_published alloc_ok (X11.now env) inputs 1
           (X11.startup_reply env)) in Hloop; [|exact H3].
  destruct Hloop as (Hc & Hseq & Hprim & _).
  repeat split; try assumption.
  rewrite Hc. f_equal. lia.
Qed.

Lemma x11_daemon_counts_primary_events_witness :
  let st :=
    final_state
      (X11.run_daemon always_alloc x_env
         [primary_changed; clipboard_changed; primary_changed]
         (X11.initial empty_disk)) in
  X11.seq_counter st = 1700000003%Z
  ∧ files (X11.cache st) !! SEQ_FILE = Some (seq_text 1700000003)
  ∧ files (X11.cache st) !! PRIMARY_FILE = Some hello.
Proof.
  cbn zeta.
  destruct (x11_daemon_counts_primary_events always_alloc x_env
              [primary_changed; clipboard_changed; primary_changed] empty_disk
              (final_state
                 (X11.run_daemon always_alloc x_env
                    [primary_changed; clipboard_changed; primary_changed]
                    (X11.initial empty_disk))))
    as (Hc & Hseq & Hprim).
  - apply not_elem_of_empty.
  - apply not_elem_of_empty.
  - vm_compute. reflexivity.
  - split; [|split].
    + rewrite Hc. vm_compute. reflexivity.
    + rewrite Hseq, Hc. vm_compute. reflexivity.
    + rewrite Hprim. vm_compute. reflexivity.
Defined.

(** * The one-shot read and the cache *)

Lemma ps_selections_app evs1 evs2 :
  ps_selections (evs1 ++ evs2) = ps_selections evs1 + ps_selections evs2.
Proof. unfold ps_selections. now rewrite List.filter_app, length_app. Qed.

Section OneshotFacts.

Variable alloc_ok : N → bool.

Lemma counted_ext d k st st' :
  Wayland.cache st' = Wayland.cache st →
  Wayland.is_daemon_mode st' = Wayland.is_daemon_mode st →
  Wayland.seq_counter st' = Wayland.seq_counter st →
  counted d k st → counted d k st'.
Proof. unfold counted. intros -> -> ->. auto. Qed.

Lemma handle_event_counted d k ev st :
  counted d k st →
  counted d (k + (if is_ps_selection ev then 1 else 0))
    (Wayland.handle_event alloc_ok ev st).
Proof.
  intros Hc.
  destruct ev as [o | o mime | o pipe | o | o mime | o | | ];
    cbn [Wayland.handle_event is_ps_selection]; rewrite ?Nat.add_0_r;
    try (eapply counted_ext; [..|exact Hc]; reflexivity).
  - unfold Wayland.ps_offer_handle_offer. destruct (_ || _); exact Hc.
  - destruct Hc as (Hd & Hm & Hs). unfold counted.
    unfold Wayland.ps_device_handle_selection.
    set (st1 := match Wayland.current_ps_offer _ with
                | Some cur => _ | None => _ end).
    assert (H1 : Wayland.cache st1 = d ∧ Wayland.is_daemon_mode st1 = false
                 ∧ Wayland.seq_counter st1 = Wayland.seq_counter st).
    { subst st1. repeat case_match; cbn; auto. }
    destruct H1 as (H1d & H1m & H1s). clearbody st1.
    cbn [Wayland.set_got_selection Wayland.bump_seq Wayland.set_seq_counter
         Wayland.set_current_ps_offer Wayland.is_daemon_mode
         Wayland.seq_counter Wayland.cache].
    rewrite H1m. cbn [negb].
    cbn [Wayland.set_got_selection Wayland.bump_seq Wayland.set_seq_counter
         Wayland.set_current_ps_offer Wayland.is_daemon_mode
         Wayland.seq_counter Wayland.cache].
    rewrite H1s, Hs, ulong_incr_mod. repeat split; try assumption.
    f_equal. lia.
  - unfold Wayland.clip_offer_handle_offer. destruct (_ || _); exact Hc.
  - eapply counted_ext; [..|exact Hc];
      unfold Wayland.dd_handle_selection; repeat case_match; reflexivity.
Qed.

Lemma dispatch_counted d evs :
  ∀ k st,
    counted d k st →
    counted d (k + ps_selections evs) (Wayland.dispatch alloc_ok evs st).
Proof.
  induction evs as [|ev evs IH]; intros k st Hc.
  - unfold ps_selections. cbn. now rewrite Nat.add_0_r.
  - cbn [Wayland.dispatch foldl].
    apply (handle_event_counted d k ev) in Hc. apply IH in Hc.
    replace (k + ps_selections (ev :: evs))
      with (k + (if is_ps_selection ev then 1 else 0) + ps_selections evs);
      [exact Hc|].
    unfold ps_selections. cbn [List.filter].
    destruct (is_ps_selection ev); cbn [length]; lia.
Qed.

Lemma oneshot_wait_counted d n :
  ∀ polls k st,
    counted d k st →
    ∃ k', k ≤ k' ≤ k + ps_selections (concat polls)
          ∧ counted d k' (Wayland.oneshot_wait alloc_ok n polls st).
Proof.
  induction n as [|n IH]; intros polls k st Hc; cbn [Wayland.oneshot_wait].
  - exists k. split; [lia | exact Hc].
  - destruct (Wayland.got_selection st); [exists k; split; [lia | exact Hc]|].
    destruct polls as [|evs rest]; [exists k; split; [lia | exact Hc]|].
    apply (dispatch_counted d evs) in Hc.
    destruct (IH rest _ _ Hc) as (k' & Hk' & Hc').
    exists k'. split; [|exact Hc'].
    cbn [concat]. rewrite ps_selections_app. lia.
Qed.

Lemma wayland_disconnect_cache st :
  Wayland.cache (Wayland.wayland_disconnect st) = Wayland.cache st.
Proof.
  unfold Wayland.wayland_disconnect. repeat case_match; reflexivity.
Qed.

Lemma read_ps_offer_counted d k o pipe st :
  counted d k st →
  counted d k (Wayland.read_ps_offer alloc_ok o pipe 0 st).2.
Proof.
  intros Hc. destruct (read_ps_offer_state alloc_ok o pipe 0 st) as [-> | ->];
    [exact Hc|]. eapply counted_ext; [..|exact Hc]; reflexivity.
Qed.

Lemma publish_next_counted d k data len st :
  counted d k st →
  Wayland.cache (Wayland.publish_next data len st)
  = write_primary data len ((Z.of_nat k + 1) mod ULONG_MODULUS) d.
Proof.
  intros (Hd & _ & Hs). unfold Wayland.publish_next.
  cbn [Wayland.set_cache Wayland.bump_seq Wayland.set_seq_counter
       Wayland.cache Wayland.seq_counter].
  now rewrite Hd, Hs, ulong_incr_mod.
Qed.

End OneshotFacts.

(** X10.  Wayland one-shot read.  Whatever the compositor sends, the run
    changes nothing in the cache directory, or makes one publish and that
    only when it was given a cache directory.  The sequence value of that
    publish does not come from the clock: it is one more than a number of
    PRIMARY selection events the run has seen, counted from zero. *)
Theorem wayland_oneshot_counts_from_zero (alloc_ok : N → bool)
    (env : Wayland.oneshot_env) (d : disk) :
  let st := (Wayland.run_oneshot alloc_ok env (Wayland.initial d)).2 in
  ∃ k,
    k ≤ ps_selections (oneshot_events env)
    ∧ (Wayland.cache st = d
       ∨ Wayland.os_have_cache env = true
         ∧ ∃ data len,
             Wayland.cache st
             = write_primary data len ((Z.of_nat k + 1) mod ULONG_MODULUS) d).
Proof.
  cbn zeta. unfold Wayland.run_oneshot.
  destruct (Wayland.os_connect_ok env); cbn [negb];
    [|exists 0; split; [lia | now left]].
  destruct (Wayland.os_has_ps_manager env && Wayland.os_has_seat env);
    cbn [negb];
    [|exists 0; split; [lia | left; apply wayland_disconnect_cache]].
  assert (H0 : counted d 0 (Wayland.set_got_selection false (Wayland.initial d)))
    by (repeat split).
  apply (dispatch_counted alloc_ok d (Wayland.os_roundtrip env)) in H0.
  set (st1 := Wayland.dispatch alloc_ok (Wayland.os_roundtrip env) _) in *.
  cbn [Nat.add] in H0.
  set (st2 := if negb (Wayland.got_selection st1) && Wayland.os_can_map env
              then _ else st1).
  assert (H2 : ∃ k, k ≤ ps_selections (oneshot_events env) ∧ counted d k st2).
  { subst st2. unfold oneshot_events. rewrite !ps_selections_app.
    destruct (negb (Wayland.got_selection st1) && Wayland.os_can_map env).
    - apply (dispatch_counted alloc_ok d (Wayland.os_surface_events env)) in H0.
      destruct (oneshot_wait_counted alloc_ok d 50 (Wayland.os_attempts env)
                  _ _ H0)
        as (k' & Hk' & Hc').
      exists k'. split; [lia | exact Hc'].
    - eexists. split; [|exact H0]. lia. }
  clearbody st2. destruct H2 as (k & Hk & Hc). exists k. split; [exact Hk|].
  destruct (Wayland.current_ps_offer st2) as [o|];
    [destruct (Wayland.ps_has_text st2)|].
  - pose proof (read_ps_offer_counted alloc_ok d k o (Wayland.os_pipe env)
                  st2 Hc)
      as H3.
    destruct (Wayland.read_ps_offer alloc_ok o (Wayland.os_pipe env) 0 st2)
      as [[data len] st3]. cbn [snd] in H3.
    destruct data as [bytes|];
      [destruct (0 <? len)%N|]; cbn [snd]; rewrite wayland_disconnect_cache;
      try (left; apply H3).
    destruct (Wayland.os_have_cache env); [|left; apply H3].
    right. split; [reflexivity|]. do 2 eexists.
    now apply publish_next_counted.
  - cbn [snd]. rewrite wayland_disconnect_cache.
    destruct (Wayland.os_have_cache env); [|left; apply Hc].
    right. split; [reflexivity|]. do 2 eexists.
    now apply publish_next_counted.
  - cbn [snd]. rewrite wayland_disconnect_cache.
    destruct (Wayland.os_have_cache env); [|left; apply Hc].
    right. split; [reflexivity|]. do 2 eexists.
    now apply publish_next_counted.
Qed.

(** * Reading the clipboard *)

Section GetClipboardFacts.

Variable alloc_ok : N → bool.

Lemma wl_dispatch_cons ev evs st :
  Wayland.dispatch alloc_ok (ev :: evs) st
  = Wayland.dispatch alloc_ok evs (Wayland.handle_event alloc_ok ev st).
Proof. reflexivity. Qed.

Lemma wl_dispatch_app evs1 evs2 st :
  Wayland.dispatch alloc_ok (evs1 ++ evs2) st
  = Wayland.dispatch alloc_ok evs2 (Wayland.dispatch alloc_ok evs1 st).
Proof. apply foldl_app. Qed.

Lemma dispatch_clipboard_mimes o mimes :
  ∀ st,
    Wayland.clip_has_text
      (Wayland.dispatch alloc_ok (map (Wayland.DataOfferMime o) mimes) st)
    = Wayland.clip_has_text st || existsb plain_text_mime mimes
    ∧ Wayland.current_clipboard_offer
        (Wayland.dispatch alloc_ok (map (Wayland.DataOfferMime o) mimes) st)
      = Wayland.current_clipboard_offer st.
Proof.
  induction mimes as [|mime mimes IH]; intros st.
  - cbn. now rewrite orb_false_r.
  - cbn [map existsb]. rewrite wl_dispatch_cons.
    destruct (IH (Wayland.handle_event alloc_ok
                    (Wayland.DataOfferMime o mime) st)) as (-> & ->).
    cbn [Wayland.handle_event]. unfold Wayland.clip_offer_handle_offer.
    fold (plain_text_mime mime).
    destruct (plain_text_mime mime); cbn.
    + now rewrite orb_true_r.
    + split; reflexivity.
Qed.

Lemma dispatch_clipboard_offer o mimes d :
  let st := Wayland.dispatch alloc_ok (clipboard_offer o mimes)
              (Wayland.initial d) in
  Wayland.current_clipboard_offer st = Some o
  ∧ Wayland.clip_has_text st = existsb plain_text_mime mimes.
Proof.
  cbn zeta. unfold clipboard_offer.
  rewrite wl_dispatch_cons, wl_dispatch_app, wl_dispatch_cons.
  cbn [Wayland.dispatch foldl Wayland.handle_event].
  set (st1 := Wayland.dd_handle_data_offer o (Wayland.initial d)).
  destruct (dispatch_clipboard_mimes o mimes st1) as (Ht & Hc).
  set (st2 := Wayland.dispatch alloc_ok _ st1) in *. clearbody st2.
  unfold Wayland.dd_handle_selection.
  cbn [Wayland.send Wayland.current_clipboard_offer].
  rewrite Hc. cbn. rewrite Ht. split; reflexivity.
Qed.

End GetClipboardFacts.

(** X11.  Reading the clipboard.  The X11 helper prints the bytes it
    obtains and exits with 0, and exits with 1 printing nothing when it
    obtains none.  The Wayland helper exits with 0 whenever it is connected
    and has its globals, bytes or no bytes, and with 1 otherwise; what it
    prints is a prefix of what the owner sends, of at most 4 MiB.  It reads
    an offer only if the offer advertises [text/plain;charset=utf-8] or
    [text/plain]: for any other list of MIME types it prints nothing, and
    for a list with one of the two it prints all the bytes the owner sends
    when they leave a block of room under the cap. *)
Theorem get_clipboard_exit_codes (alloc_ok : N → bool) :
  (∀ x,
     match X11.get_selection alloc_ok x with
     | (Some data, _) =>
         data ≠ [] ∧ X11.run_get_clipboard alloc_ok x = (0%Z, data)
     | (None, _) => X11.run_get_clipboard alloc_ok x = (1%Z, [])
     end)
  ∧ (∀ connected has_ddm has_seat roundtrip pipe st,
       (Wayland.run_get_clipboard alloc_ok connected has_ddm has_seat
          roundtrip pipe st).1.1
       = (if connected && has_ddm && has_seat then 0 else 1)%Z)
  ∧ (∀ connected has_ddm has_seat roundtrip pipe st,
       let out :=
         (Wayland.run_get_clipboard alloc_ok connected has_ddm has_seat
            roundtrip pipe st).1.2 in
       out `prefix_of` pipe_bytes pipe
       ∧ (N.of_nat (length out) ≤ MAX_CLIPBOARD_SIZE)%N)
  ∧ (∀ o mimes pipe d,
       existsb plain_text_mime mimes = false →
       (Wayland.run_get_clipboard alloc_ok true true true
          (clipboard_offer o mimes) pipe (Wayland.initial d)).1.2 = [])
  ∧ ((∀ n, alloc_ok n = true) →
     ∀ o mimes polls d,
       existsb plain_text_mime mimes = true →
       (N.of_nat (length (delivered_polls polls)) + 4096
        ≤ MAX_CLIPBOARD_SIZE)%N →
       (Wayland.run_get_clipboard alloc_ok true true true
          (clipboard_offer o mimes) (Some polls) (Wayland.initial d)).1.2
       = delivered_polls polls).
Proof.
  split; [|split; [|split; [|split]]].
  - intros x. unfold X11.run_get_clipboard.
    destruct (X11.get_selection alloc_ok x) as [[data|] len] eqn:Hsel;
      [|reflexivity].
    apply get_selection_cut in Hsel as [[_ [Hlen _]] [Hnone | Hpos]];
      [discriminate|].
    replace (0 <? len)%N with true by (symmetry; apply N.ltb_lt; exact Hpos).
    subst len. rewrite take_whole. split; [|reflexivity].
    intros ->. simpl in Hpos. lia.
  - intros connected has_ddm has_seat roundtrip pipe st.
    unfold Wayland.run_get_clipboard.
    destruct connected; [|reflexivity]. cbn [negb andb].
    destruct (has_ddm && has_seat); [|reflexivity]. cbn [negb].
    repeat match goal with
           | |- context [match ?c with _ => _ end] =>
               lazymatch c with
               | Wayland.read_clip_offer _ _ _ _ _ =>
                   destruct c as [[? ?] ?]
               | _ => destruct c
               end
           end; reflexivity.
  - intros connected has_ddm has_seat roundtrip pipe st. cbn zeta.
    unfold Wayland.run_get_clipboard.
    assert (Hnil : @nil byte `prefix_of` pipe_bytes pipe
                   ∧ (N.of_nat (length (@nil byte)) ≤ MAX_CLIPBOARD_SIZE)%N)
      by (split; [apply prefix_nil | apply N.le_0_l]).
    destruct connected; [|exact Hnil]. cbn [negb].
    destruct (has_ddm && has_seat); [|exact Hnil]. cbn [negb].
    set (st1 := Wayland.dispatch alloc_ok roundtrip st). clearbody st1.
    destruct (Wayland.current_clipboard_offer st1) as [o|]; [|exact Hnil].
    destruct (Wayland.clip_has_text st1); [|exact Hnil].
    destruct (Wayland.read_clip_offer alloc_ok o pipe 0 st1)
      as [[data len] st2] eqn:Hread.
    apply read_clip_offer_cut in Hread as (Hcap & Hdata).
    destruct data as [bytes|]; [|exact Hnil].
    destruct Hdata as (-> & Hpre).
    destruct (0 <? _)%N; [|exact Hnil]. cbn [fst snd].
    rewrite take_whole. split; assumption.
  - intros o mimes pipe d Hno. unfold Wayland.run_get_clipboard.
    cbn [negb andb].
    destruct (dispatch_clipboard_offer alloc_ok o mimes d) as (-> & ->).
    rewrite Hno. reflexivity.
  - intros Hmem o mimes polls d Hyes Hfit. unfold Wayland.run_get_clipboard.
    cbn [negb andb].
    destruct (dispatch_clipboard_offer alloc_ok o mimes d) as (-> & ->).
    rewrite Hyes. unfold Wayland.read_clip_offer.
    rewrite max_clipboard_size_blocks in *.
    destruct (read_fd_with_timeout_whole alloc_ok Hmem 10 polls Hfit)
      as (data & -> & Hdata).
    destruct data as [bytes|]; cbn [default from_option id] in Hdata.
    + subst bytes.
      destruct (0 <? _)%N eqn:Hpos; cbn [fst snd].
      * apply take_whole.
      * apply N.ltb_ge in Hpos.
        destruct (delivered_polls polls); [reflexivity | cbn in Hpos; lia].
    + cbn [fst snd]. exact Hdata.
Qed.

Lemma get_clipboard_exit_codes_witness :
  (Wayland.run_get_clipboard always_alloc true true true
     (clipboard_offer 7%N ["UTF8_STRING"; "STRING"]%string) (Some hello_pipe)
     (Wayland.initial empty_disk)).1.2 = []
  ∧ (Wayland.run_get_clipboard always_alloc true true true
       (clipboard_offer 7%N ["UTF8_STRING"; "text/plain"]%string)
       (Some hello_pipe) (Wayland.initial empty_disk)).1.2 = hello.
Proof.
  destruct (get_clipboard_exit_codes always_alloc)
    as (_ & _ & _ & Hno & Hyes).
  split.
  - apply Hno. reflexivity.
  - apply (Hyes (fun _ => eq_refl) 7%N ["UTF8_STRING"; "text/plain"]%string
             hello_pipe empty_disk).
    + reflexivity.
    + vm_compute. discriminate.
Defined.

(** * Command lines *)

Lemma last_cons_or {A} (x : A) (l : list A) :
  last (x :: l) = match last l with Some y => Some y | None => Some x end.
Proof. rewrite last_cons. reflexivity. Qed.

Lemma x11_parse_args_spec args :
  ∀ f,
    X11Main.parse_args args f =
    if existsb is_help args then None
    else
      Some
        {| X11Main.cache_dir_arg :=
             match last_cache_dir_arg args with
             | Some a => Some a
             | None => X11Main.cache_dir_arg f
             end;
           X11Main.oneshot := X11Main.oneshot f || has_flag "--oneshot" args;
           X11Main.get_clipboard :=
             X11Main.get_clipboard f || has_flag "--get-clipboard" args;
           X11Main.copy_clipboard :=
             X11Main.copy_clipboard f || has_flag "--copy-clipboard" args;
           X11Main.clear_primary :=
             X11Main.clear_primary f || has_flag "--clear-primary" args |}.
Proof.
  induction args as [|a args IH]; intros f.
  - cbn. rewrite !orb_false_r. now destruct f.
  - cbn [X11Main.parse_args existsb has_flag].
    unfold last_cache_dir_arg. cbn [List.filter].
    unfold is_cache_dir_arg, is_help at 1.
    repeat case_bool_decide; subst; try discriminate;
      cbn [negb andb orb]; rewrite ?IH; try reflexivity;
      cbn [X11Main.cache_dir_arg X11Main.oneshot X11Main.get_clipboard
           X11Main.copy_clipboard X11Main.clear_primary];
      rewrite ?orb_true_r, ?orb_false_r, ?orb_true_l, ?orb_false_l;
      fold (has_flag "--oneshot" args) (has_flag "--get-clipboard" args)
        (has_flag "--copy-clipboard" args) (has_flag "--clear-primary" args);
      destruct (existsb is_help args); try reflexivity.
    replace (is_help a) with false
      by (unfold is_help; now rewrite !bool_decide_eq_false_2).
    cbn [negb]. rewrite last_cons_or. fold is_cache_dir_arg.
    unfold last_cache_dir_arg. destruct (last _); reflexivity.
Qed.

Lemma last_cache_dir_arg_cons a args :
  last_cache_dir_arg (a :: args)
  = match last_cache_dir_arg args with
    | Some x => Some x
    | None => if is_cache_dir_arg a then Some a else None
    end.
Proof.
  unfold last_cache_dir_arg. cbn [List.filter].
  destruct (is_cache_dir_arg a); [apply last_cons_or|].
  destruct (last _); reflexivity.
Qed.

Lemma last_mode_flag_cons a args :
  last_mode_flag (a :: args)
  = match last_mode_flag args with
    | Some m => Some m
    | None => mode_of_flag a
    end.
Proof.
  unfold last_mode_flag. cbn [omap list_omap].
  destruct (mode_of_flag a); [apply last_cons_or|].
  destruct (last _); reflexivity.
Qed.

Lemma last_mode_flag_app pre post :
  last_mode_flag (pre ++ post)
  = match last_mode_flag post with
    | Some m => Some m
    | None => last_mode_flag pre
    end.
Proof.
  induction pre as [|a pre IH]; cbn [app].
  - destruct (last_mode_flag post); reflexivity.
  - rewrite !last_mode_flag_cons, IH.
    destruct (last_mode_flag post); reflexivity.
Qed.

Lemma wl_parse_args_spec args :
  ∀ dir m,
    WaylandMain.parse_args args dir m =
    if existsb is_help args then None
    else
      Some (match last_cache_dir_arg args with
            | Some a => Some a
            | None => dir
            end,
            default m (last_mode_flag args)).
Proof.
  induction args as [|a args IH]; intros dir m.
  - reflexivity.
  - cbn [WaylandMain.parse_args existsb].
    rewrite last_cache_dir_arg_cons, last_mode_flag_cons.
    set (h := existsb is_help args) in *.
    unfold is_cache_dir_arg, mode_of_flag, is_help.
    repeat case_bool_decide; subst; try discriminate;
      cbn [negb andb orb]; rewrite ?IH; try reflexivity;
      destruct h; try reflexivity;
      destruct (last_cache_dir_arg args), (last_mode_flag args); reflexivity.
Qed.

Lemma has_flag_permutation flag args args' :
  args ≡ₚ args' → has_flag flag args = has_flag flag args'.
Proof.
  intros Hp. unfold has_flag.
  apply eq_true_iff_eq. rewrite !existsb_exists.
  split; intros (a & Hin & Ha); exists a; split; try exact Ha;
    [rewrite <- Hp | rewrite Hp]; exact Hin.
Qed.

Lemma is_help_permutation args args' :
  args ≡ₚ args' → existsb is_help args = existsb is_help args'.
Proof.
  intros Hp. apply eq_true_iff_eq. rewrite !existsb_exists.
  split; intros (a & Hin & Ha); exists a; split; try exact Ha;
    [rewrite <- Hp | rewrite Hp]; exact Hin.
Qed.

(** X12.  The X11 [main].  Without [DISPLAY] it returns 1 whatever the
    arguments, a help flag included.  Otherwise a help flag anywhere makes
    it return 0 before the display is opened.  Otherwise the mode depends
    only on which mode flags are present, in the fixed priority one-shot,
    get-clipboard, copy-clipboard, clear-primary, daemon: neither their
    order nor their repetition matters.  The daemon's cache directory is
    the last argument that is neither a mode flag nor a help flag, unknown
    options included. *)
Theorem x11_main_dispatch (display_set display_opens : bool)
    (args : list string) :
  X11Main.main display_set display_opens args
  = (if negb display_set then X11Main.Return 1
     else if existsb is_help args then X11Main.Return 0
     else if negb display_opens then X11Main.Return 1
     else if has_flag "--oneshot" args then X11Main.RunOneshot
     else if has_flag "--get-clipboard" args then X11Main.RunGetClipboard
     else if has_flag "--copy-clipboard" args then X11Main.RunCopyClipboard
     else if has_flag "--clear-primary" args then X11Main.RunClearPrimary
     else X11Main.RunDaemon (last_cache_dir_arg args))
  ∧ (∀ args',
       args ≡ₚ args' →
       x11_function (X11Main.main display_set display_opens args)
       = x11_function (X11Main.main display_set display_opens args')).
Proof.
  assert (Hmain : ∀ l,
            X11Main.main display_set display_opens l
            = (if negb display_set then X11Main.Return 1
               else if existsb is_help l then X11Main.Return 0
               else if negb display_opens then X11Main.Return 1
               else if has_flag "--oneshot" l then X11Main.RunOneshot
               else if has_flag "--get-clipboard" l
               then X11Main.RunGetClipboard
               else if has_flag "--copy-clipboard" l
               then X11Main.RunCopyClipboard
               else if has_flag "--clear-primary" l
               then X11Main.RunClearPrimary
               else X11Main.RunDaemon (last_cache_dir_arg l))).
  { intros l. unfold X11Main.main. rewrite x11_parse_args_spec.
    destruct (negb display_set); [reflexivity|].
    destruct (existsb is_help l); [reflexivity|].
    cbn [X11Main.no_flags X11Main.oneshot X11Main.get_clipboard
         X11Main.copy_clipboard X11Main.clear_primary X11Main.cache_dir_arg
         orb].
    destruct (last_cache_dir_arg l); reflexivity. }
  split; [apply Hmain|].
  intros args' Hp. rewrite !Hmain.
  rewrite (is_help_permutation _ _ Hp).
  rewrite !(has_flag_permutation _ _ _ Hp).
  repeat match goal with |- context [if ?b then _ else _] => destruct b end;
    reflexivity.
Qed.

(** X13.  The Wayland [main].  A help flag anywhere makes it return 0.
    Otherwise the mode is that of the last mode flag on the command line,
    the daemon when there is none, and the cache directory handed to the
    one-shot read and to the daemon is the last argument that is neither a
    mode flag nor a help flag, unknown options included. *)
Theorem wayland_main_dispatch (args : list string) :
  WaylandMain.main args
  = (if existsb is_help args then WaylandMain.Return 0
     else wl_call (default WaylandMain.MODE_DAEMON (last_mode_flag args))
            (last_cache_dir_arg args))
  ∧ (∀ pre flag m post,
       args = pre ++ flag :: post →
       mode_of_flag flag = Some m →
       last_mode_flag post = None →
       existsb is_help args = false →
       WaylandMain.main args = wl_call m (last_cache_dir_arg args)).
Proof.
  assert (Hmain : WaylandMain.main args
                  = (if existsb is_help args then WaylandMain.Return 0
                     else wl_call
                            (default WaylandMain.MODE_DAEMON
                               (last_mode_flag args))
                            (last_cache_dir_arg args))).
  { unfold WaylandMain.main. rewrite wl_parse_args_spec.
    destruct (existsb is_help args); [reflexivity|].
    destruct (last_cache_dir_arg args), (last_mode_flag args) as [[]|];
      reflexivity. }
  split; [exact Hmain|].
  intros pre flag m post -> Hm Hpost Hhelp. rewrite Hmain, Hhelp.
  rewrite last_mode_flag_app, last_mode_flag_cons, Hpost, Hm. reflexivity.
Qed.

Lemma x11_main_dispatch_witness :
  x11_function
    (X11Main.main true true ["--get-clipboard"; "dir"; "--oneshot"]%string)
  = x11_function
      (X11Main.main true true ["--oneshot"; "--get-clipboard"; "dir"]%string).
Proof.
  destruct (x11_main_dispatch true true
              ["--get-clipboard"; "dir"; "--oneshot"]%string) as (_ & Hperm).
  apply Hperm. symmetry.
  apply (Permutation_cons_append ["--get-clipboard"; "dir"]%string
           "--oneshot"%string).
Defined.

Lemma wayland_main_dispatch_witness :
  WaylandMain.main ["--oneshot"; "--get-clipboard"; "dir"]%string
  = WaylandMain.RunGetClipboard.
Proof.
  destruct (wayland_main_dispatch
              ["--oneshot"; "--get-clipboard"; "dir"]%string) as (_ & Hlast).
  apply (Hlast ["--oneshot"]%string "--get-clipboard"%string
           WaylandMain.MODE_GET_CLIP ["dir"]%string); reflexivity.
Defined.

(** * The paths of the cache files *)

Lemma snprintf_length size text :
  length (CacheDir.snprintf size text) ≤ size - 1.
Proof. unfold CacheDir.snprintf. rewrite length_take. lia. Qed.

Lemma snprintf_fits size (text : list byte) :
  length text < size → CacheDir.snprintf size text = text.
Proof. intros H. unfold CacheDir.snprintf. apply take_ge. lia. Qed.

Lemma path_in_whole (dir : list byte) (name : string) :
  length dir ≤ 511 → length (list_byte_of_string name) ≤ 11 →
  CacheDir.path_in dir name
  = dir ++ list_byte_of_string "/" ++ list_byte_of_string name.
Proof.
  intros Hdir Hname. unfold CacheDir.path_in. apply snprintf_fits.
  rewrite !length_app. change (length (list_byte_of_string "/")) with 1. lia.
Qed.

Lemma ensure_cache_dir_buffers dir e p :
  CacheDir.buffers (CacheDir.ensure_cache_dir dir e) = Some p →
  length (CacheDir.cache_dir p) ≤ 511
  ∧ CacheDir.primary_path p = CacheDir.path_in (CacheDir.cache_dir p) PRIMARY_FILE
  ∧ CacheDir.seq_path p = CacheDir.path_in (CacheDir.cache_dir p) SEQ_FILE
  ∧ CacheDir.pid_path p = CacheDir.path_in (CacheDir.cache_dir p) PID_FILE.
Proof.
  unfold CacheDir.ensure_cache_dir.
  set (chosen := match dir with Some (c :: rest) => _ | _ => _ end).
  assert (Hlen : ∀ cd, chosen = Some cd → length cd ≤ 511).
  { subst chosen. intros cd.
    destruct dir as [[|c rest]|];
      repeat (case_match; try discriminate);
      intros Heq; injection Heq as <-; apply (snprintf_length 512). }
  destruct chosen as [cd|]; [|discriminate].
  specialize (Hlen cd eq_refl).
  destruct (CacheDir.stat_ok e cd); [|destruct (CacheDir.mkdir e cd)];
    cbn [CacheDir.buffers]; intros Heq; injection Heq as <-;
    cbn [CacheDir.cache_dir CacheDir.primary_path CacheDir.seq_path
         CacheDir.pid_path]; auto.
Qed.

(** X14.  The paths of the cache files.  Whatever the argument and the
    environment, the directory path kept has at most 511 bytes, and the
    paths of [primary], [seq] and [monitor.pid] are that path followed by
    a slash and the file name: the 560-byte buffers never cut them, so the
    three files are distinct files of the one directory.  A non-empty
    argument of at most 511 bytes is the directory path as it stands, an
    empty argument is no argument, and a longer one is cut. *)
Theorem cache_paths_are_never_cut (dir : option (list byte))
    (e : CacheDir.env) (p : CacheDir.paths) :
  CacheDir.buffers (CacheDir.ensure_cache_dir dir e) = Some p →
  length (CacheDir.cache_dir p) ≤ 511
  ∧ CacheDir.primary_path p
    = CacheDir.cache_dir p ++ list_byte_of_string "/primary"
  ∧ CacheDir.seq_path p = CacheDir.cache_dir p ++ list_byte_of_string "/seq"
  ∧ CacheDir.pid_path p
    = CacheDir.cache_dir p ++ list_byte_of_string "/monitor.pid"
  ∧ CacheDir.primary_path p ≠ CacheDir.seq_path p
  ∧ CacheDir.primary_path p ≠ CacheDir.pid_path p
  ∧ CacheDir.seq_path p ≠ CacheDir.pid_path p
  ∧ (∀ c rest, dir = Some (c :: rest) →
       CacheDir.cache_dir p = take 511 (c :: rest))
  ∧ (dir = Some [] →
     CacheDir.ensure_cache_dir dir e = CacheDir.ensure_cache_dir None e).
Proof.
  intros Hbuf.
  destruct (ensure_cache_dir_buffers dir e p Hbuf) as (Hlen & Hp & Hs & Hpid).
  rewrite path_in_whole in Hp, Hs, Hpid by (cbn; lia).
  change (list_byte_of_string "/" ++ list_byte_of_string PRIMARY_FILE)
    with (list_byte_of_string "/primary") in Hp.
  change (list_byte_of_string "/" ++ list_byte_of_string SEQ_FILE)
    with (list_byte_of_string "/seq") in Hs.
  change (list_byte_of_string "/" ++ list_byte_of_string PID_FILE)
    with (list_byte_of_string "/monitor.pid") in Hpid.
  split; [exact Hlen|]. split; [exact Hp|]. split; [exact Hs|].
  split; [exact Hpid|].
  rewrite Hp, Hs, Hpid.
  split; [intros H; apply app_inv_head in H; discriminate|].
  split; [intros H; apply app_inv_head in H; discriminate|].
  split; [intros H; apply app_inv_head in H; discriminate|].
  split.
  - intros c rest ->. revert Hbuf. unfold CacheDir.ensure_cache_dir.
    destruct (CacheDir.stat_ok e _); [|destruct (CacheDir.mkdir e _)];
      cbn [CacheDir.buffers]; intros Heq; injection Heq as <-; reflexivity.
  - intros ->. reflexivity.
Qed.

Lemma cache_paths_are_never_cut_witness :
  CacheDir.primary_path tmp_paths
  = list_byte_of_string "/tmp/zes" ++ list_byte_of_string "/primary"
  ∧ CacheDir.seq_path tmp_paths ≠ CacheDir.pid_path tmp_paths.
Proof.
  destruct (cache_paths_are_never_cut
              (Some (list_byte_of_string "/tmp/zes")) bare_env tmp_paths)
    as (_ & Hp & _ & _ & _ & _ & Hne & _).
  - reflexivity.
  - split; [exact Hp | exact Hne].
Defined.

(** X19.  When [ensure_cache_dir] fails.  It returns 0 or -1.  It leaves
    the path buffers unwritten exactly when it has no directory to name:
    no argument or an empty one, no [XDG_RUNTIME_DIR] and no [HOME].
    Without an argument [XDG_RUNTIME_DIR] comes before [HOME].  It calls
    [mkdir] exactly when [stat] finds nothing at the directory path, and it
    returns -1 exactly when it has no directory to name or that [mkdir]
    fails for another reason than the directory being there already: what
    [stat] finds is taken for the directory whatever it is. *)
Theorem ensure_cache_dir_outcome (dir : option (list byte))
    (e : CacheDir.env) :
  let r := CacheDir.ensure_cache_dir dir e in
  (CacheDir.ret r = 0%Z ∨ CacheDir.ret r = (-1)%Z)
  ∧ (CacheDir.buffers r = None
     ↔ (dir = None ∨ dir = Some [])
       ∧ CacheDir.xdg_runtime_dir e = None ∧ CacheDir.home e = None)
  ∧ (∀ runtime,
       dir = None ∨ dir = Some [] →
       CacheDir.xdg_runtime_dir e = Some runtime →
       ∃ p, CacheDir.buffers r = Some p
            ∧ CacheDir.cache_dir p
              = take 511 (runtime ++ list_byte_of_string "/zsh-edit-select-"
                          ++ fmt_d (CacheDir.int_of_uid (CacheDir.uid e))))
  ∧ (∀ cd,
       CacheDir.mkdir_called r = Some cd
       ↔ ∃ p, CacheDir.buffers r = Some p ∧ CacheDir.cache_dir p = cd
              ∧ CacheDir.stat_ok e cd = false)
  ∧ (CacheDir.ret r = (-1)%Z
     ↔ CacheDir.buffers r = None
       ∨ ∃ p, CacheDir.buffers r = Some p
              ∧ CacheDir.stat_ok e (CacheDir.cache_dir p) = false
              ∧ CacheDir.mkdir e (CacheDir.cache_dir p) = CacheDir.MkdirError).
Proof.
  cbn zeta. unfold CacheDir.ensure_cache_dir.
  set (chosen := match dir with Some (c :: rest) => _ | _ => _ end).
  assert (Hnone : chosen = None
                  ↔ (dir = None ∨ dir = Some [])
                    ∧ CacheDir.xdg_runtime_dir e = None
                    ∧ CacheDir.home e = None).
  { subst chosen.
    destruct dir as [[|c rest]|], (CacheDir.xdg_runtime_dir e),
      (CacheDir.home e); split; try discriminate; try tauto;
      intros ([? | ?] & ? & ?); discriminate. }
  assert (Hxdg : ∀ runtime,
            dir = None ∨ dir = Some [] →
            CacheDir.xdg_runtime_dir e = Some runtime →
            chosen
            = Some (take 511
                      (runtime ++ list_byte_of_string "/zsh-edit-select-"
                       ++ fmt_d (CacheDir.int_of_uid (CacheDir.uid e))))).
  { subst chosen. intros runtime [-> | ->] ->; reflexivity. }
  clearbody chosen.
  destruct chosen as [cd|].
  - assert (Hno : ¬ ((dir = None ∨ dir = Some [])
                     ∧ CacheDir.xdg_runtime_dir e = None
                     ∧ CacheDir.home e = None))
      by (intros H; apply Hnone in H; discriminate).
    destruct (CacheDir.stat_ok e cd) eqn:Hstat;
      [|destruct (CacheDir.mkdir e cd) eqn:Hmk];
      cbn [CacheDir.ret CacheDir.buffers CacheDir.mkdir_called
           CacheDir.cache_dir];
      (split; [auto|]);
      (split; [split; [discriminate | intros H; now apply Hno in H]|]);
      (split; [intros runtime Hd Hx; eexists; split; [reflexivity|];
               cbn [CacheDir.cache_dir];
               specialize (Hxdg runtime Hd Hx); congruence|]);
      (split;
       [intros cd'; split;
        [ intros Heq; try discriminate; injection Heq as <-;
          eexists; repeat split; assumption
        | intros (p & Hp & Hcd & Hst); injection Hp as <-;
          cbn [CacheDir.cache_dir] in Hcd; subst cd'; congruence ]|]);
      (split;
       [ intros Hret; try discriminate; right; eexists;
         repeat split; assumption
       | intros [Hb | (p & Hp & Hst & Hmk')]; [discriminate|];
         injection Hp as <-; cbn [CacheDir.cache_dir] in *; congruence ]).
  - cbn [CacheDir.ret CacheDir.buffers CacheDir.mkdir_called].
    split; [auto|]. split; [split; [intros _; now apply Hnone | reflexivity]|].
    split; [intros runtime Hd Hx; specialize (Hxdg runtime Hd Hx);
            discriminate|].
    split; [intros cd; split; [discriminate | intros (p & Hp & _);
                                             discriminate]|].
    split; [intros _; now left | reflexivity].
Qed.

Lemma ensure_cache_dir_outcome_witness :
  ∃ p,
    CacheDir.buffers (CacheDir.ensure_cache_dir None runtime_env) = Some p
    ∧ CacheDir.cache_dir p
      = take 511 (list_byte_of_string "/run/user/1000"
                  ++ list_byte_of_string "/zsh-edit-select-"
                  ++ fmt_d (CacheDir.int_of_uid 1000)).
Proof.
  destruct (ensure_cache_dir_outcome None runtime_env)
    as (_ & _ & Hxdg & _).
  apply (Hxdg (list_byte_of_string "/run/user/1000")).
  - left. reflexivity.
  - reflexivity.
Defined.

(** * The registry *)

Lemma announces_snoc interface announced a :
  announces interface (announced ++ [a])
  ↔ announces interface announced ∨ a.1 = interface.
Proof.
  unfold announces. split.
  - intros (v & Hin). apply elem_of_app in Hin as [Hin | Hin]; [eauto|].
    apply list_elem_of_singleton in Hin. subst a. now right.
  - intros [(v & Hin) | <-].
    + exists v. apply elem_of_app. now left.
    + exists a.2. apply elem_of_app. right. destruct a.
      now apply list_elem_of_singleton.
Qed.

Lemma announces_nil interface : ¬ announces interface [].
Proof. intros (v & Hin). inversion Hin. Qed.

Lemma registry_bound announced :
  let g :=
    foldl (fun g a => Registry.registry_handle_global a.1 a.2 g)
      Registry.no_globals announced in
  (is_Some (Registry.wl_seat_obj g) ↔ announces "wl_seat" announced)
  ∧ (is_Some (Registry.ps_manager g)
     ↔ announces "zwp_primary_selection_device_manager_v1" announced)
  ∧ (is_Some (Registry.wl_ddm g)
     ↔ announces "wl_data_device_manager" announced)
  ∧ (is_Some (Registry.wl_comp g) ↔ announces "wl_compositor" announced)
  ∧ (is_Some (Registry.xdg_wmbase g) ↔ announces "xdg_wm_base" announced)
  ∧ (is_Some (Registry.wl_shm_obj g) ↔ announces "wl_shm" announced)
  ∧ (∀ v, Registry.wl_ddm g = Some v →
       ∃ w, ("wl_data_device_manager"%string, w) ∈ announced
            ∧ v = N.min w 3)
  ∧ (∀ v, Registry.wl_comp g = Some v →
       ∃ w, ("wl_compositor"%string, w) ∈ announced ∧ v = N.min w 4).
Proof.
  cbn zeta. induction announced as [|[i w] announced IH] using rev_ind.
  - cbn. repeat split; try (intros [? ?]; discriminate);
      try (intros H; now apply announces_nil in H); discriminate.
  - rewrite foldl_app. cbn [foldl fst snd].
    set (g := foldl _ Registry.no_globals announced) in *.
    destruct IH as (Hseat & Hps & Hddm & Hcomp & Hxdg & Hshm & Hv3 & Hv4).
    rewrite !announces_snoc. cbn [fst].
    assert (Hmin3 : (if (w <? 3)%N then w else 3%N) = N.min w 3).
    { destruct (w <? 3)%N eqn:H; [apply N.ltb_lt in H | apply N.ltb_ge in H];
        lia. }
    assert (Hmin4 : (if (w <? 4)%N then w else 4%N) = N.min w 4).
    { destruct (w <? 4)%N eqn:H; [apply N.ltb_lt in H | apply N.ltb_ge in H];
        lia. }
    assert (Hold3 : ∀ v, Registry.wl_ddm g = Some v →
              ∃ w0, ("wl_data_device_manager"%string, w0)
                    ∈ announced ++ [(i, w)] ∧ v = N.min w0 3).
    { intros v Hv. destruct (Hv3 v Hv) as (w0 & Hin & ->). exists w0.
      split; [apply elem_of_app; now left | reflexivity]. }
    assert (Hold4 : ∀ v, Registry.wl_comp g = Some v →
              ∃ w0, ("wl_compositor"%string, w0)
                    ∈ announced ++ [(i, w)] ∧ v = N.min w0 4).
    { intros v Hv. destruct (Hv4 v Hv) as (w0 & Hin & ->). exists w0.
      split; [apply elem_of_app; now left | reflexivity]. }
    unfold Registry.registry_handle_global.
    repeat case_bool_decide; subst; try discriminate;
      cbn [Registry.wl_seat_obj Registry.ps_manager Registry.wl_ddm
           Registry.wl_comp Registry.xdg_wmbase Registry.wl_shm_obj];
      rewrite ?Hseat, ?Hps, ?Hddm, ?Hcomp, ?Hxdg, ?Hshm;
      (repeat split;
       try (intros [? | ?]; [assumption | congruence]);
       try (intros ?; now left);
       try (intros _; now right);
       try (intros _; eexists; reflexivity);
       try assumption).
    + intros v Hv. injection Hv as <-. exists w.
      split; [apply elem_of_app; right; now apply list_elem_of_singleton|].
      now rewrite Hmin3.
    + intros v Hv. injection Hv as <-. exists w.
      split; [apply elem_of_app; right; now apply list_elem_of_singleton|].
      now rewrite Hmin4.
Qed.

(** X15.  The Wayland registry and clear-primary.  After the round trip of
    [wayland_connect] each of the six globals ([wl_seat], the primary
    selection manager, [wl_data_device_manager], [wl_compositor],
    [xdg_wm_base], [wl_shm]) is bound exactly if the compositor announced
    its interface.  The data device manager and the compositor
    are bound at the announced version cut at 3 and at 4, so never above
    what was announced.  [run_clear_primary] sends the null selection and
    returns 0 exactly if the display connects and both the seat and the
    primary selection manager were announced; otherwise it sends nothing
    and returns 1. *)
Theorem clear_primary_needs_its_globals :
  (∀ announced g,
     Registry.wayland_connect (Some announced) = Some g →
     (is_Some (Registry.wl_seat_obj g) ↔ announces "wl_seat" announced)
     ∧ (is_Some (Registry.ps_manager g)
        ↔ announces "zwp_primary_selection_device_manager_v1" announced)
     ∧ (is_Some (Registry.wl_ddm g)
        ↔ announces "wl_data_device_manager" announced)
     ∧ (is_Some (Registry.wl_comp g) ↔ announces "wl_compositor" announced)
     ∧ (is_Some (Registry.xdg_wmbase g) ↔ announces "xdg_wm_base" announced)
     ∧ (is_Some (Registry.wl_shm_obj g) ↔ announces "wl_shm" announced)
     ∧ (∀ v, Registry.wl_ddm g = Some v →
          ∃ w, ("wl_data_device_manager"%string, w) ∈ announced
               ∧ v = N.min w 3)
     ∧ (∀ v, Registry.wl_comp g = Some v →
          ∃ w, ("wl_compositor"%string, w) ∈ announced ∧ v = N.min w 4))
  ∧ Registry.run_clear_primary None = (1%Z, false)
  ∧ (∀ announced,
       announces "wl_seat" announced →
       announces "zwp_primary_selection_device_manager_v1" announced →
       Registry.run_clear_primary (Some announced) = (0%Z, true))
  ∧ (∀ announced,
       ¬ (announces "wl_seat" announced
          ∧ announces "zwp_primary_selection_device_manager_v1" announced) →
       Registry.run_clear_primary (Some announced) = (1%Z, false)).
Proof.
  split; [|split; [reflexivity | split]].
  - intros announced g Hg. injection Hg as <-.
    destruct (registry_bound announced)
      as (Hseat & Hps & Hddm & Hcomp & Hxdg & Hshm & Hv3 & Hv4).
    repeat (split; [assumption|]). exact Hv4.
  - intros announced Hseat Hps. unfold Registry.run_clear_primary.
    cbn [Registry.wayland_connect].
    destruct (registry_bound announced) as (Hs & Hp & _).
    apply Hs in Hseat as [v1 ->]. apply Hp in Hps as [v2 ->]. reflexivity.
  - intros announced Hnot. unfold Registry.run_clear_primary.
    cbn [Registry.wayland_connect].
    destruct (registry_bound announced) as (Hs & Hp & _).
    destruct (Registry.ps_manager _) as [v2|] eqn:H2; [|reflexivity].
    destruct (Registry.wl_seat_obj _) as [v1|] eqn:H1; [|reflexivity].
    exfalso. apply Hnot. split; [apply Hs | apply Hp]; eauto.
Qed.

Lemma clear_primary_needs_its_globals_witness :
  Registry.run_clear_primary
    (Some [("wl_seat"%string, 7%N);
           ("zwp_primary_selection_device_manager_v1"%string, 1%N)])
  = (0%Z, true).
Proof.
  destruct clear_primary_needs_its_globals as (_ & _ & Hok & _).
  apply Hok.
  - exists 7%N. repeat constructor.
  - exists 1%N. repeat constructor.
Defined.

(** * The clipboard server of the XWayland sibling *)

Lemma xwayland_drain_timeout_count evs :
  ∀ c,
    XWayland.timeout_count (XWayland.drain_pending evs c)
    = XWayland.timeout_count c.
Proof.
  induction evs as [|ev evs IH]; intros c; [reflexivity|].
  destruct ev as [sel | target | | ]; cbn [XWayland.drain_pending];
    try apply IH; [|reflexivity].
  rewrite IH. unfold XWayland.handle_selection_request.
  repeat case_match; reflexivity.
Qed.

Lemma xwayland_serve_loop_app pre quiet :
  ∀ c,
    XWayland.selection_request_received c = false →
    (0 ≤ XWayland.timeout_count c)%Z →
    (∃ c', XWayland.serve_loop (pre ++ quiet) c = Exited 0 c')
    ∨ ∃ c1,
        XWayland.serve_loop (pre ++ quiet) c = XWayland.serve_loop quiet c1
        ∧ XWayland.selection_request_received c1 = false
        ∧ (0 ≤ XWayland.timeout_count c1)%Z.
Proof.
  induction pre as [|t pre IH]; intros c Hflag Htc.
  - right. exists c. auto.
  - cbn [app XWayland.serve_loop].
    destruct (_ && _); [|left; eauto].
    destruct (negb _); [left; eauto|].
    apply IH; [reflexivity|].
    cbn [XWayland.timeout_count].
    rewrite xwayland_drain_timeout_count.
    destruct (XWayland.selection_request_received
                (XWayland.drain_pending _ _)); lia.
Qed.

Lemma xwayland_drain_data_request evs :
  ∀ c,
    Forall (fun ev => ev ≠ X11.SelectionClear) evs →
    XWayland.selection_request_received c = true
    ∨ (∃ target,
         In (X11.SelectionRequest target) evs
         ∧ (target = X11.XA_UTF8_STRING ∨ target = X11.XA_STRING)) →
    XWayland.selection_request_received (XWayland.drain_pending evs c) = true
    ∧ XWayland.c_running (XWayland.drain_pending evs c) = XWayland.c_running c.
Proof.
  induction evs as [|ev evs IH]; intros c Hall Hreq.
  - destruct Hreq as [H | (target & [] & _)]. auto.
  - inversion Hall as [|? ? Hev Hrest]; subst.
    destruct ev as [sel | target | | ]; cbn [XWayland.drain_pending];
      try contradiction.
    + apply IH; [exact Hrest|].
      destruct Hreq as [H | (tg & [Heq | Hin] & Htg)];
        [now left | discriminate | right; eauto].
    + assert (Hc : XWayland.c_running
                     (XWayland.handle_selection_request target c)
                   = XWayland.c_running c).
      { unfold XWayland.handle_selection_request.
        repeat case_match; reflexivity. }
      rewrite <- Hc. apply IH; [exact Hrest|].
      destruct Hreq as [H | (tg & [Heq | Hin] & Htg)].
      * left. unfold XWayland.handle_selection_request.
        repeat case_match; cbn; auto.
      * left. injection Heq as ->.
        unfold XWayland.handle_selection_request.
        destruct Htg as [-> | ->]; reflexivity.
      * right. eauto.
    + apply IH; [exact Hrest|].
      destruct Hreq as [H | (tg & [Heq | Hin] & Htg)];
        [now left | discriminate | right; eauto].
Qed.

(** X16.  XWayland sibling.  Its clipboard server counts down again after
    every request it has answered with data: whatever happened before, 500
    passes in a row that bring no request end it, with status 0.  A pass
    that brings a request for [UTF8_STRING] or [STRING], and no
    [SelectionClear], sets the countdown back to 0. *)
Theorem xwayland_child_times_out_after_the_last_request :
  (∀ pre quiet,
     Forall no_request quiet →
     500 ≤ length quiet →
     ∃ c, XWayland.serve_loop (pre ++ quiet) XWayland.child_start
          = Exited 0 c)
  ∧ (∀ t rest c,
       XWayland.c_running c = true →
       (XWayland.timeout_count c < 500)%Z →
       Forall (fun ev => ev ≠ X11.SelectionClear) (X11.tk_pending t) →
       (∃ target,
          In (X11.SelectionRequest target) (X11.tk_pending t)
          ∧ (target = X11.XA_UTF8_STRING ∨ target = X11.XA_STRING)) →
       XWayland.serve_loop (t :: rest) c
       = XWayland.serve_loop rest
           {| XWayland.c_running := negb (X11.tk_signal t);
              XWayland.timeout_count := 0;
              XWayland.selection_request_received := false |}).
Proof.
  split.
  - intros pre quiet Hquiet Hlen.
    destruct (xwayland_serve_loop_app pre quiet XWayland.child_start)
      as [Hexit | (c1 & -> & Hflag & Htc)];
      [reflexivity | cbn; lia | exact Hexit |].
    apply xwayland_child_times_out; [exact Hflag | exact Hquiet | lia].
  - intros t rest c Hrun Hlt Hall Hreq. cbn [XWayland.serve_loop].
    rewrite Hrun. apply Z.ltb_lt in Hlt. rewrite Hlt. cbn [andb].
    destruct (xwayland_drain_data_request (X11.tk_pending t) c Hall
                (or_intror Hreq)) as (-> & ->).
    rewrite Hrun. reflexivity.
Qed.

Lemma xwayland_child_times_out_after_the_last_request_witness :
  ∃ c, XWayland.serve_loop ([request_tick] ++ replicate 500 idle_tick)
         XWayland.child_start
       = Exited 0 c.
Proof.
  destruct xwayland_child_times_out_after_the_last_request as (Hout & _).
  apply (Hout [request_tick] (replicate 500 idle_tick)).
  - apply Forall_replicate. constructor.
  - rewrite length_replicate. lia.
Defined.

(** * Waiting for the selection *)

Section WaitFacts.

Variable alloc_ok : N → bool.

Lemma wait_notify_take n :
  ∀ checks, X11.wait_notify n (take n checks) = X11.wait_notify n checks.
Proof.
  induction n as [|n IH]; intros checks; [reflexivity|].
  destruct checks as [|[] checks]; cbn [take X11.wait_notify];
    [reflexivity | reflexivity | apply IH].
Qed.

Lemma wait_notify_none n :
  ∀ checks,
    Forall (fun b => b = false) (take n checks) →
    X11.wait_notify n checks = false.
Proof.
  induction n as [|n IH]; intros checks Hall; [reflexivity|].
  destruct checks as [|b checks]; [reflexivity|].
  cbn [take] in Hall. inversion Hall as [|? ? -> Hrest]; subst.
  cbn [X11.wait_notify]. apply IH, Hrest.
Qed.

Lemma oneshot_wait_take n :
  ∀ polls st,
    Wayland.oneshot_wait alloc_ok n (take n polls) st
    = Wayland.oneshot_wait alloc_ok n polls st.
Proof.
  induction n as [|n IH]; intros polls st; [reflexivity|].
  cbn [Wayland.oneshot_wait].
  destruct (Wayland.got_selection st); [reflexivity|].
  destruct polls as [|evs polls]; cbn [take]; [reflexivity | apply IH].
Qed.

End WaitFacts.

(** X17.  Both selection reads give up waiting.  The X11 read looks for
    the owner's notification 100 times and no more: what a later look would
    find has no effect, and when the first 100 find nothing the read
    obtains nothing although the selection has an owner.  The Wayland
    one-shot read polls for the selection event 50 times and no more: what
    the compositor would send after that has no effect.  Neither gives up
    earlier: a notification found by any of the 100 checks, the last
    included, yields the property value, and a selection event dispatched
    by any of the 50 polls, the last included, is read and printed. *)
Theorem selection_reads_give_up (alloc_ok : N → bool) :
  (∀ x, X11.get_selection alloc_ok (first_checks 100 x)
        = X11.get_selection alloc_ok x)
  ∧ (∀ x,
       Forall (fun b => b = false) (take 100 (X11.xs_checks x)) →
       X11.get_selection alloc_ok x = (None, 0%N)
       ∧ X11.run_oneshot alloc_ok x = (1%Z, [])
       ∧ X11.run_get_clipboard alloc_ok x = (1%Z, []))
  ∧ (∀ env st,
       Wayland.run_oneshot alloc_ok (first_attempts 50 env) st
       = Wayland.run_oneshot alloc_ok env st)
  ∧ (∀ x k rest v,
       X11.xs_owner x = true →
       X11.xs_property x = true →
       X11.xs_value x = Some v →
       v ≠ [] →
       alloc_ok (N.min (N.of_nat (length v)) MAX_SELECTION_SIZE + 1)%N = true →
       X11.xs_checks x = replicate k false ++ true :: rest →
       k < 100 →
       X11.get_selection alloc_ok x
       = (Some (take (N.to_nat MAX_SELECTION_SIZE) v),
          N.min (N.of_nat (length v)) MAX_SELECTION_SIZE))
  ∧ (∀ env d k rest o mime p polls data len,
       Wayland.os_connect_ok env && Wayland.os_has_ps_manager env
         && Wayland.os_has_seat env = true →
       Wayland.os_roundtrip env = [] →
       Wayland.os_can_map env = true →
       Wayland.os_surface_events env = [] →
       Wayland.os_attempts env
       = replicate k []
         ++ [Wayland.PsDataOffer o; Wayland.PsOfferMime o mime;
             Wayland.PsSelection (Some o) p] :: rest →
       k < 50 →
       accepted_mime mime →
       Wayland.os_pipe env = Some polls →
       read_fd_with_timeout alloc_ok polls MAX_SELECTION_SIZE
       = (Some data, len) →
       fst (Wayland.run_oneshot alloc_ok env (Wayland.initial d))
       = (0%Z, data)).
Proof.
  split; [|split; [|split; [|split]]].
  - intros x. unfold X11.get_selection, first_checks.
    cbn [X11.xs_owner X11.xs_checks X11.xs_property X11.xs_value].
    now rewrite wait_notify_take.
  - intros x Hall.
    assert (Hsel : X11.get_selection alloc_ok x = (None, 0%N)).
    { unfold X11.get_selection. rewrite (wait_notify_none 100 _ Hall).
      destruct (negb (X11.xs_owner x)); reflexivity. }
    unfold X11.run_oneshot, X11.get_primary_selection, X11.run_get_clipboard.
    rewrite Hsel. auto.
  - intros env st. unfold Wayland.run_oneshot, first_attempts.
    cbn [Wayland.os_connect_ok Wayland.os_has_ps_manager Wayland.os_has_seat
         Wayland.os_roundtrip Wayland.os_can_map Wayland.os_surface_events
         Wayland.os_attempts Wayland.os_have_cache Wayland.os_pipe].
    now rewrite oneshot_wait_take.
  - intros x k rest v Hown Hprop Hval Hne Hmem Hchecks Hk.
    apply x11_get_selection_obtained; try assumption.
    rewrite Hchecks. now apply wait_notify_found.
  - intros env d k rest o mime p polls data len Hok Hrt Hmap Hsurf Hatt Hk
      Hmime Hpipe Hread.
    rewrite (run_oneshot_output alloc_ok env _ Hok). cbn zeta.
    unfold oneshot_offer_state. rewrite Hrt, Hmap, Hsurf, Hatt.
    cbn [Wayland.dispatch foldl Wayland.got_selection
         Wayland.set_got_selection negb andb].
    set (st0 := Wayland.set_got_selection false (Wayland.initial d)).
    destruct (dispatch_offer_with_text alloc_ok o mime p st0 eq_refl Hmime)
      as (Hcur & Htext & Hgot).
    rewrite (oneshot_wait_found alloc_ok k _ rest 50 st0 Hk eq_refl Hgot).
    now rewrite Hcur, Htext, Hpipe, Hread.
Qed.

Lemma selection_reads_give_up_witness :
  (X11.get_selection always_alloc x_slow = (None, 0%N)
   ∧ X11.run_oneshot always_alloc x_slow = (1%Z, [])
   ∧ X11.run_get_clipboard always_alloc x_slow = (1%Z, []))
  ∧ X11.get_selection always_alloc x_last_check = (Some hello, 5%N)
  ∧ fst (Wayland.run_oneshot always_alloc late_oneshot_env
           (Wayland.initial empty_disk))
    = (0%Z, hello).
Proof.
  destruct (selection_reads_give_up always_alloc)
    as (_ & Hnone & _ & Hfound & Hlate).
  split; [|split].
  - apply (Hnone x_slow).
    unfold x_slow. cbn [X11.xs_checks].
    rewrite take_app_length' by (symmetry; apply length_replicate).
    apply Forall_replicate. reflexivity.
  - apply (Hfound x_last_check 99 [] hello); try reflexivity;
      [discriminate | lia].
  - apply (Hlate late_oneshot_env empty_disk 49 [] 5%N
             "text/plain;charset=utf-8"%string (Some hello_pipe) hello_pipe
             hello 5%N); try reflexivity; [lia | left; reflexivity].
Defined.

(** * The pid file *)

Lemma publishes_trans d1 d2 d3 :
  publishes d1 d2 → publishes d2 d3 → publishes d1 d3.
Proof.
  induction 1 as [d | d data len seq d' H IH]; intros H23; [exact H23|].
  eapply publishes_step, IH, H23.
Qed.

Lemma publishes_one data len seq d :
  publishes d (write_primary data len seq d).
Proof. eapply publishes_step, publishes_refl. Qed.

Lemma write_primary_other_files data len seq d (p : string) :
  p ≠ PRIMARY_FILE → p ≠ SEQ_FILE →
  files (write_primary data len seq d) !! p = files d !! p.
Proof.
  intros Hp Hs. rewrite write_primary_files. apply replay_untouched.
  unfold primary_spec_calls, seq_spec_calls.
  repeat case_decide; destruct data as [buf|]; try destruct (0 <? len)%N;
    repeat constructor; cbn; congruence.
Qed.

Lemma publishes_other_files d d' (p : string) :
  publishes d d' → p ≠ PRIMARY_FILE → p ≠ SEQ_FILE →
  files d' !! p = files d !! p.
Proof.
  induction 1 as [d | d data len seq d' H IH]; intros Hp Hs; [reflexivity|].
  rewrite IH by assumption. now apply write_primary_other_files.
Qed.

Lemma write_pid_file_content pid d :
  PID_FILE ∉ denied d →
  files (write_pid_file pid d) !! PID_FILE = Some (fmt_d pid ++ [newline]).
Proof.
  intros Hp. unfold write_pid_file, sys_open.
  destruct (decide (PID_FILE ∈ denied d)); [contradiction|]. cbn.
  rewrite lookup_insert. rewrite lookup_insert. reflexivity.
Qed.

Section PidFacts.

Variable alloc_ok : N → bool.

Lemma x11_handle_event_publishes ev x st :
  publishes (X11.cache st) (X11.cache (X11.handle_event alloc_ok ev x st)).
Proof.
  destruct ev as [sel| | |]; cbn [X11.handle_event]; try apply publishes_refl.
  case_decide; [|apply publishes_refl].
  rewrite x11_check_and_update_primary_eq. apply publishes_one.
Qed.

Lemma x11_next_event_loop_publishes inputs :
  ∀ st,
    publishes (X11.cache st)
      (X11.cache (X11.next_event_loop alloc_ok inputs st).1).
Proof.
  induction inputs as [|i inputs IH]; intros st; [apply publishes_refl|].
  destruct i as [|ev x]; cbn [X11.next_event_loop].
  - apply (IH (X11.set_running false st)).
  - pose proof (x11_handle_event_publishes ev x st) as H1.
    destruct (X11.running (X11.handle_event alloc_ok ev x st)); [|exact H1].
    eapply publishes_trans; [exact H1 | apply IH].
Qed.

Lemma wl_handle_event_publishes ev st :
  publishes (Wayland.cache st)
    (Wayland.cache (Wayland.handle_event alloc_ok ev st)).
Proof.
  destruct ev as [o | o mime | o pipe | o | o mime | o | | ];
    cbn [Wayland.handle_event]; try apply publishes_refl.
  - unfold Wayland.ps_offer_handle_offer. destruct (_ || _);
      apply publishes_refl.
  - unfold Wayland.ps_device_handle_selection, Wayland.read_ps_offer,
      Wayland.publish_next.
    repeat case_match; simplify_eq;
      cbn -[write_primary ulong_incr];
      first [ apply publishes_refl | apply publishes_one ].
  - unfold Wayland.clip_offer_handle_offer. destruct (_ || _);
      apply publishes_refl.
  - unfold Wayland.dd_handle_selection.
    repeat case_match; apply publishes_refl.
Qed.

Lemma wl_dispatch_publishes evs :
  ∀ st,
    publishes (Wayland.cache st)
      (Wayland.cache (Wayland.dispatch alloc_ok evs st)).
Proof.
  induction evs as [|ev evs IH]; intros st; [apply publishes_refl|].
  cbn [Wayland.dispatch foldl].
  eapply publishes_trans; [apply wl_handle_event_publishes | apply IH].
Qed.

Lemma wl_check_and_update_publishes pipe st :
  publishes (Wayland.cache st)
    (Wayland.cache (Wayland.check_and_update_primary alloc_ok pipe st).2).
Proof.
  unfold Wayland.check_and_update_primary, Wayland.read_ps_offer,
    Wayland.publish_next.
  repeat case_match; simplify_eq; cbn -[write_primary ulong_incr];
    first [ apply publishes_refl | apply publishes_one ].
Qed.

Lemma wl_daemon_pass_publishes t st :
  publishes (Wayland.cache st)
    (Wayland.cache (Wayland.daemon_pass alloc_ok t st).1).
Proof.
  unfold Wayland.daemon_pass.
  pose proof (wl_dispatch_publishes (Wayland.tk_queued t) st) as H1.
  set (st1 := Wayland.dispatch alloc_ok (Wayland.tk_queued t) st) in *.
  set (st2 := if Wayland.tk_signal t then Wayland.set_running false st1
              else st1).
  assert (H2 : Wayland.cache st2 = Wayland.cache st1)
    by (subst st2; destruct (Wayland.tk_signal t); reflexivity).
  rewrite <- H2 in H1. clearbody st2. clear H2.
  destruct (Wayland.tk_poll t) as [ | | | pipe | [evs|] err | err];
    cbn [fst]; try exact H1.
  - destruct (Wayland.current_ps_offer st2) as [o|];
      [destruct (Wayland.ps_has_text st2)|]; cbn [fst]; try exact H1.
    eapply publishes_trans; [exact H1 | apply wl_check_and_update_publishes].
  - eapply publishes_trans; [exact H1 | apply wl_dispatch_publishes].
Qed.

Lemma wl_event_loop_publishes ticks :
  ∀ st,
    publishes (Wayland.cache st)
      (Wayland.cache (Wayland.event_loop alloc_ok ticks st).1).
Proof.
  induction ticks as [|t ticks IH]; intros st; cbn [Wayland.event_loop].
  - destruct (Wayland.running st); apply publishes_refl.
  - destruct (Wayland.running st); [|apply publishes_refl].
    pose proof (wl_daemon_pass_publishes t st) as Hp.
    destruct (Wayland.daemon_pass alloc_ok t st) as [st' []]; cbn [fst] in *;
      [exact Hp|].
    eapply publishes_trans; [exact Hp | apply IH].
Qed.

End PidFacts.

(** X18.  The pid file.  For as long as a daemon is in its event loop,
    [monitor.pid] holds the decimal of the daemon's process id followed by
    a newline, provided the file could be opened: no publish touches it. *)
Theorem pid_file_names_the_daemon (alloc_ok : N → bool) (d : disk) :
  PID_FILE ∉ denied d →
  (∀ env inputs st,
     X11.run_daemon alloc_ok env inputs (X11.initial d) = Blocked st →
     files (X11.cache st) !! PID_FILE
     = Some (fmt_d (X11.pid env) ++ [newline]))
  ∧ (∀ env ticks st,
       Wayland.run_daemon alloc_ok env ticks (Wayland.initial d)
       = Blocked st →
       files (Wayland.cache st) !! PID_FILE
       = Some (fmt_d (Wayland.pid env) ++ [newline])).
Proof.
  intros Hpid. split.
  - intros env inputs st. unfold X11.run_daemon, X11.daemon_startup.
    destruct (X11.cache_dir_ok env); [|discriminate].
    destruct (X11.xfixes_ok env); [|discriminate].
    destruct (X11.daemonize_ok env); [|discriminate].
    cbn [negb X11.initial X11.running X11.seq_counter X11.cache].
    set (st2 := {| X11.running := true; X11.seq_counter := _;
                   X11.cache := write_pid_file _ _ |}).
    assert (H2 : files (X11.cache st2) !! PID_FILE
                 = Some (fmt_d (X11.pid env) ++ [newline])).
    { apply write_pid_file_content.
      now rewrite write_primary_keeps_denied. }
    set (st3 := X11.check_and_update_primary alloc_ok _ st2).
    assert (H3 : publishes (X11.cache st2) (X11.cache st3)).
    { subst st3. rewrite x11_check_and_update_primary_eq.
      apply publishes_one. }
    clearbody st3 st2. unfold X11.event_loop.
    destruct (X11.running st3); [|discriminate].
    pose proof (x11_next_event_loop_publishes alloc_ok inputs st3) as H4.
    destruct (X11.next_event_loop alloc_ok inputs st3) as [st4 []];
      [discriminate|].
    intros Heq. injection Heq as <-. cbn [fst] in H4.
    rewrite (publishes_other_files _ _ PID_FILE H4) by discriminate.
    rewrite (publishes_other_files _ _ PID_FILE H3) by discriminate.
    exact H2.
  - intros env ticks st. unfold Wayland.run_daemon, Wayland.daemon_startup.
    destruct (Wayland.connect_ok env); [|discriminate].
    destruct (Wayland.has_ps_manager env); [|discriminate].
    destruct (Wayland.has_seat env); [|discriminate].
    destruct (Wayland.cache_dir_ok env); [|discriminate].
    destruct (Wayland.daemonize_ok env); [|discriminate].
    cbn [negb].
    set (st2 := Wayland.set_cache (write_pid_file _ _) _).
    assert (H2 : files (Wayland.cache st2) !! PID_FILE
                 = Some (fmt_d (Wayland.pid env) ++ [newline])).
    { apply write_pid_file_content.
      cbn. now rewrite write_primary_keeps_denied. }
    clearbody st2.
    pose proof (wl_dispatch_publishes alloc_ok (Wayland.startup_events env)
                  st2) as H3.
    set (st3 := Wayland.dispatch alloc_ok (Wayland.startup_events env) st2)
      in *. clearbody st3.
    destruct (Wayland.surface_events env) as [evs|]; [|discriminate].
    pose proof (wl_dispatch_publishes alloc_ok evs st3) as H4.
    set (st4 := Wayland.dispatch alloc_ok evs st3) in *. clearbody st4.
    pose proof (wl_event_loop_publishes alloc_ok ticks st4) as H5.
    destruct (Wayland.event_loop alloc_ok ticks st4) as [st5 []];
      [discriminate|].
    intros Heq. injection Heq as <-. cbn [fst] in H5.
    rewrite (publishes_other_files _ _ PID_FILE H5) by discriminate.
    rewrite (publishes_other_files _ _ PID_FILE H4) by discriminate.
    rewrite (publishes_other_files _ _ PID_FILE H3) by discriminate.
    exact H2.
Qed.

Lemma pid_file_names_the_daemon_witness :
  files
    (X11.cache
       (final_state
          (X11.run_daemon always_alloc x_env [primary_changed]
             (X11.initial empty_disk)))) !! PID_FILE
  = Some (fmt_d 4242 ++ [newline]).
Proof.
  destruct (pid_file_names_the_daemon always_alloc empty_disk) as (Hx & _).
  - apply not_elem_of_empty.
  - apply (Hx x_env [primary_changed]). vm_compute. reflexivity.
Defined.

(** * A start that fails *)

Lemma no_unlink_since_refl d : no_unlink_since d d.
Proof. exists []. split; [now rewrite app_nil_r | constructor]. Qed.

Lemma no_unlink_since_trans d1 d2 d3 :
  no_unlink_since d1 d2 → no_unlink_since d2 d3 → no_unlink_since d1 d3.
Proof.
  intros (c1 & H1 & Hc1) (c2 & H2 & Hc2). exists (c1 ++ c2).
  split; [now rewrite H2, H1, app_assoc | now apply Forall_app].
Qed.

Lemma write_primary_no_unlink data len seq d :
  no_unlink_since d (write_primary data len seq d).
Proof.
  eexists. split; [apply write_primary_trace|].
  unfold primary_spec_calls, seq_spec_calls.
  repeat case_decide; destruct data as [buf|]; try destruct (0 <? len)%N;
    repeat constructor; discriminate.
Qed.

Lemma write_pid_file_no_unlink pid d :
  no_unlink_since d (write_pid_file pid d).
Proof.
  unfold write_pid_file, sys_open, no_unlink_since.
  destruct (decide (PID_FILE ∈ denied d)); cbn.
  - eexists. split; [reflexivity|]. repeat constructor; discriminate.
  - exists [SysOpen PID_FILE true;
            SysWrite PID_FILE (fmt_d pid ++ [newline]); SysClose PID_FILE].
    split; [now rewrite <- !app_assoc|]. repeat constructor; discriminate.
Qed.

Lemma publishes_no_unlink d d' : publishes d d' → no_unlink_since d d'.
Proof.
  induction 1 as [d | d data len seq d' H IH]; [apply no_unlink_since_refl|].
  eapply no_unlink_since_trans; [apply write_primary_no_unlink | exact IH].
Qed.

Lemma publishes_keeps_denied d d' : publishes d d' → denied d' = denied d.
Proof.
  induction 1 as [d | d data len seq d' H IH]; [reflexivity|].
  now rewrite IH, write_primary_keeps_denied.
Qed.

Lemma publishes_keeps_both d d' :
  publishes d d' →
  PRIMARY_FILE ∉ denied d → SEQ_FILE ∉ denied d →
  is_Some (files d !! PRIMARY_FILE) ∧ is_Some (files d !! SEQ_FILE) →
  is_Some (files d' !! PRIMARY_FILE) ∧ is_Some (files d' !! SEQ_FILE).
Proof.
  induction 1 as [d | d data len seq d' H IH]; intros Hp Hs Hboth;
    [exact Hboth|].
  apply IH; rewrite ?write_primary_keeps_denied; try assumption.
  destruct (write_primary_ok data len seq d Hp Hs) as (_ & -> & ->). eauto.
Qed.

(** X20.  A start that fails.  A daemon whose start fails exits with 1.
    When [daemon()] fails, the seed publish has been made already and
    stays: [primary], empty, and [seq], holding the seed, are left in the
    cache directory.  When the Wayland daemon cannot create its surface,
    the pid file has been written as well: the process exits leaving
    [primary], [seq] and a [monitor.pid] that names it, no [unlink] having
    been made. *)
Theorem failed_start_leaves_files_behind (alloc_ok : N → bool) (d : disk) :
  PRIMARY_FILE ∉ denied d →
  SEQ_FILE ∉ denied d →
  PID_FILE ∉ denied d →
  (∀ env inputs,
     X11.cache_dir_ok env = true → X11.xfixes_ok env = true →
     X11.daemonize_ok env = false →
     ∃ st,
       X11.run_daemon alloc_ok env inputs (X11.initial d) = Exited 1 st
       ∧ files (X11.cache st) !! PRIMARY_FILE = Some []
       ∧ files (X11.cache st) !! SEQ_FILE
         = Some (seq_text (X11.now env mod ULONG_MODULUS))
       ∧ no_unlink_since d (X11.cache st))
  ∧ (∀ env ticks,
       Wayland.connect_ok env = true → Wayland.has_ps_manager env = true →
       Wayland.has_seat env = true → Wayland.cache_dir_ok env = true →
       Wayland.daemonize_ok env = false →
       ∃ st,
         Wayland.run_daemon alloc_ok env ticks (Wayland.initial d)
         = Exited 1 st
         ∧ files (Wayland.cache st) !! PRIMARY_FILE = Some []
         ∧ files (Wayland.cache st) !! SEQ_FILE
           = Some (seq_text (Wayland.now env mod ULONG_MODULUS))
         ∧ no_unlink_since d (Wayland.cache st))
  ∧ (∀ env ticks,
       Wayland.connect_ok env = true → Wayland.has_ps_manager env = true →
       Wayland.has_seat env = true → Wayland.cache_dir_ok env = true →
       Wayland.daemonize_ok env = true →
       Wayland.surface_events env = None →
       ∃ st,
         Wayland.run_daemon alloc_ok env ticks (Wayland.initial d)
         = Exited 1 st
         ∧ is_Some (files (Wayland.cache st) !! PRIMARY_FILE)
         ∧ is_Some (files (Wayland.cache st) !! SEQ_FILE)
         ∧ files (Wayland.cache st) !! PID_FILE
           = Some (fmt_d (Wayland.pid env) ++ [newline])
         ∧ no_unlink_since d (Wayland.cache st)).
Proof.
  intros Hp Hs Hpid.
  assert (Hseed : ∀ seed,
            files (write_primary (Some []) 0 seed d) !! PRIMARY_FILE = Some []
            ∧ files (write_primary (Some []) 0 seed d) !! SEQ_FILE
              = Some (seq_text seed)).
  { intros seed.
    destruct (write_primary_ok (Some []) 0 seed d Hp Hs) as (_ & H1 & H2).
    split; assumption. }
  split; [|split].
  - intros env inputs Hc Hx Hd. unfold X11.run_daemon, X11.daemon_startup.
    rewrite Hc, Hx, Hd. cbn [negb]. eexists. split; [reflexivity|].
    cbn [X11.cache X11.initial].
    destruct (Hseed (X11.now env mod ULONG_MODULUS)%Z) as (H1 & H2).
    repeat split; try assumption. apply write_primary_no_unlink.
  - intros env ticks Hc Hm Hseat Hdir Hd.
    unfold Wayland.run_daemon, Wayland.daemon_startup.
    rewrite Hc, Hm, Hseat, Hdir, Hd. cbn [negb]. eexists.
    split; [reflexivity|]. rewrite wayland_disconnect_cache.
    cbn [Wayland.cache Wayland.set_cache].
    destruct (Hseed (Wayland.now env mod ULONG_MODULUS)%Z) as (H1 & H2).
    repeat split; try assumption. apply write_primary_no_unlink.
  - intros env ticks Hc Hm Hseat Hdir Hd Hsurf.
    unfold Wayland.run_daemon, Wayland.daemon_startup.
    rewrite Hc, Hm, Hseat, Hdir, Hd, Hsurf. cbn [negb]. eexists.
    split; [reflexivity|]. rewrite wayland_disconnect_cache.
    set (st2 := Wayland.set_cache (write_pid_file _ _) _).
    pose proof (wl_dispatch_publishes alloc_ok (Wayland.startup_events env)
                  st2) as H3.
    set (d1 := write_primary (Some []) 0
                 (Wayland.now env mod ULONG_MODULUS) d).
    assert (H2 : Wayland.cache st2 = write_pid_file (Wayland.pid env) d1)
      by reflexivity.
    clearbody st2. rewrite H2 in H3.
    destruct (Hseed (Wayland.now env mod ULONG_MODULUS)%Z) as (H1p & H1s).
    fold d1 in H1p, H1s.
    assert (Hd1 : denied d1 = denied d)
      by apply write_primary_keeps_denied.
    destruct (publishes_keeps_both _ _ H3) as (Hprim & Hseq).
    { now rewrite write_pid_file_keeps_denied, Hd1. }
    { now rewrite write_pid_file_keeps_denied, Hd1. }
    { rewrite !write_pid_file_files by discriminate.
      rewrite H1p, H1s. eauto. }
    repeat split; try assumption.
    + rewrite (publishes_other_files _ _ PID_FILE H3) by discriminate.
      apply write_pid_file_content. now rewrite Hd1.
    + eapply no_unlink_since_trans; [apply write_primary_no_unlink|].
      eapply no_unlink_since_trans; [apply write_pid_file_no_unlink|].
      fold d1. apply publishes_no_unlink, H3.
Qed.

Lemma failed_start_leaves_files_behind_witness :
  ∃ st,
    Wayland.run_daemon always_alloc no_surface_env []
      (Wayland.initial empty_disk)
    = Exited 1 st
    ∧ is_Some (files (Wayland.cache st) !! PRIMARY_FILE)
    ∧ is_Some (files (Wayland.cache st) !! SEQ_FILE)
    ∧ files (Wayland.cache st) !! PID_FILE = Some (fmt_d 4242 ++ [newline])
    ∧ no_unlink_since empty_disk (Wayland.cache st).
Proof.
  destruct (failed_start_leaves_files_behind always_alloc empty_disk)
    as (_ & _ & Hsurf).
  - apply not_elem_of_empty.
  - apply not_elem_of_empty.
  - apply not_elem_of_empty.
  - apply (Hsurf no_surface_env []); reflexivity.
Defined.

Lemma wl_daemon_pass_breaks alloc_ok t st :
  breaking_pass t → (Wayland.daemon_pass alloc_ok t st).2 = true.
Proof.
  unfold breaking_pass, Wayland.daemon_pass.
  destruct (Wayland.tk_poll t) as [ | | | pipe | [evs|] err | err];
    cbn [snd]; try contradiction; auto.
Qed.

Lemma wl_event_loop_breaks alloc_ok ticks :
  Exists breaking_pass ticks →
  ∀ st, (Wayland.event_loop alloc_ok ticks st).2 = true.
Proof.
  induction 1 as [t ticks Hbreak | t ticks Hlater IH]; intros st;
    cbn [Wayland.event_loop]; destruct (Wayland.running st);
    try reflexivity.
  - pose proof (wl_daemon_pass_breaks alloc_ok t st Hbreak) as Hb.
    destruct (Wayland.daemon_pass alloc_ok t st) as [st' b]. cbn in Hb.
    now subst b.
  - destruct (Wayland.daemon_pass alloc_ok t st) as [st' []];
      [reflexivity | apply IH].
Qed.



(** * The system calls of a daemon *)

Lemma closed_calls_app calls1 calls2 :
  closed_calls calls1 → closed_calls calls2 → closed_calls (calls1 ++ calls2).
Proof.
  induction 1 as [| p calls H IH | p writes calls H IH | p calls H IH];
    intros H2; cbn [app].
  - exact H2.
  - apply closed_failed, IH, H2.
  - rewrite <- app_assoc. cbn [app]. apply closed_session, IH, H2.
  - apply closed_unlink, IH, H2.
Qed.

Lemma orderly_since_refl d : orderly_since d d.
Proof.
  exists []. rewrite app_nil_r. repeat split; constructor.
Qed.

Lemma orderly_since_trans d1 d2 d3 :
  orderly_since d1 d2 → orderly_since d2 d3 → orderly_since d1 d3.
Proof.
  intros (c1 & H1 & Hc1 & Hf1) (c2 & H2 & Hc2 & Hf2). exists (c1 ++ c2).
  split; [now rewrite H2, H1, app_assoc|].
  split; [now apply closed_calls_app | now apply Forall_app].
Qed.

Lemma write_primary_orderly data len seq d :
  orderly_since d (write_primary data len seq d).
Proof.
  eexists. split; [apply write_primary_trace|].
  assert (Hprim : closed_calls (primary_spec_calls data len)).
  { unfold primary_spec_calls.
    destruct data as [buf|]; [destruct (0 <? len)%N|].
    - apply (closed_session PRIMARY_FILE [take (N.to_nat len) buf] []).
      constructor.
    - apply (closed_session PRIMARY_FILE [] []). constructor.
    - apply (closed_session PRIMARY_FILE [] []). constructor. }
  assert (Hseq : closed_calls (seq_spec_calls seq)).
  { apply (closed_session SEQ_FILE [fmt_lu seq ++ [newline]] []).
    constructor. }
  split.
  - destruct (decide (PRIMARY_FILE ∈ denied d));
      [apply closed_failed; constructor|].
    apply closed_calls_app; [exact Hprim|].
    destruct (decide (SEQ_FILE ∈ denied d)); [|exact Hseq].
    apply closed_failed. constructor.
  - unfold primary_spec_calls, seq_spec_calls.
    repeat case_decide; destruct data as [buf|]; try destruct (0 <? len)%N;
      cbn [app];
      repeat (apply List.Forall_cons; [unfold cache_file; cbn; auto|]);
      apply List.Forall_nil.
Qed.

Lemma write_pid_file_orderly pid d : orderly_since d (write_pid_file pid d).
Proof.
  unfold write_pid_file, sys_open, orderly_since.
  destruct (decide (PID_FILE ∈ denied d)); cbn.
  - eexists. split; [reflexivity|]. split.
    + apply closed_failed. constructor.
    + repeat (apply List.Forall_cons; [unfold cache_file; cbn; auto|]).
      apply List.Forall_nil.
  - exists [SysOpen PID_FILE true;
            SysWrite PID_FILE (fmt_d pid ++ [newline]); SysClose PID_FILE].
    split; [now rewrite <- !app_assoc|]. split.
    + apply (closed_session PID_FILE [fmt_d pid ++ [newline]] []).
      constructor.
    + repeat (apply List.Forall_cons; [unfold cache_file; cbn; auto|]).
      apply List.Forall_nil.
Qed.

Lemma unlink_cache_files_orderly d : orderly_since d (unlink_cache_files d).
Proof.
  exists [SysUnlink PRIMARY_FILE; SysUnlink SEQ_FILE; SysUnlink PID_FILE].
  split; [apply unlink_cache_files_gone|]. split.
  - repeat apply closed_unlink. constructor.
  - repeat (apply List.Forall_cons; [unfold cache_file; cbn; auto|]).
    apply List.Forall_nil.
Qed.

Lemma counter_steps_orderly n x y :
  counter_steps n x y → orderly_since x.2 y.2.
Proof.
  induction 1 as [n x | n s d y H IH | n s d data len y H IH
                  | n s d pid y H IH]; cbn [snd] in *.
  - apply orderly_since_refl.
  - exact IH.
  - eapply orderly_since_trans; [apply write_primary_orderly | exact IH].
  - eapply orderly_since_trans; [apply write_pid_file_orderly | exact IH].
Qed.

(** X22.  The system calls of a daemon.  Whatever a run brings and however
    it ends, the calls a daemon makes on its cache directory concern
    [primary], [seq] and [monitor.pid] only, and every file it opens is
    closed again before the daemon opens or unlinks anything: the writes
    made in between go to that very file, no descriptor is left open, and
    no two are open at once. *)
Theorem daemons_close_what_they_open (alloc_ok : N → bool) (d : disk) :
  (∀ env inputs,
     orderly_since d
       (X11.cache
          (final_state (X11.run_daemon alloc_ok env inputs (X11.initial d)))))
  ∧ (∀ env ticks,
       orderly_since d
         (Wayland.cache
            (final_state
               (Wayland.run_daemon alloc_ok env ticks (Wayland.initial d))))).
Proof.
  split.
  - intros env inputs.
    destruct (x11_run_daemon_steps alloc_ok env inputs d)
      as [-> | (y & Hsteps & Hy)]; [apply orderly_since_refl|].
    apply counter_steps_orderly in Hsteps. cbn [snd] in Hsteps.
    eapply orderly_since_trans; [apply write_primary_orderly|].
    destruct Hy as [-> | ->]; [exact Hsteps|].
    eapply orderly_since_trans; [exact Hsteps|].
    apply unlink_cache_files_orderly.
  - intros env ticks.
    destruct (wl_run_daemon_steps alloc_ok env ticks d)
      as [-> | (y & Hsteps & Hy)]; [apply orderly_since_refl|].
    apply counter_steps_orderly in Hsteps. cbn [snd] in Hsteps.
    eapply orderly_since_trans; [apply write_primary_orderly|].
    destruct Hy as [-> | ->]; [exact Hsteps|].
    eapply orderly_since_trans; [exact Hsteps|].
    apply unlink_cache_files_orderly.
Qed.

(** * Requests on offers *)

Lemma wire_safe_from_app w1 :
  ∀ ps clip w2,
    wire_safe_from ps clip (w1 ++ w2)
    ↔ wire_safe_from ps clip w1
      ∧ wire_safe_from (foldl held_ps_step ps w1)
          (foldl held_clip_step clip w1) w2.
Proof.
  induction w1 as [|m w1 IH]; intros ps clip w2; cbn [app wire_safe_from foldl].
  - tauto.
  - rewrite IH. tauto.
Qed.

Lemma offers_safe_append st st' msgs :
  offers_safe st →
  Wayland.wire st' = Wayland.wire st ++ msgs →
  wire_safe_from (current_set (Wayland.current_ps_offer st))
    (current_set (Wayland.current_clipboard_offer st)) msgs →
  offers_tracked st' →
  offers_safe st'.
Proof.
  intros ((Hps & Hclip) & Hsafe) Hwire Hmsgs Htracked.
  split; [exact Htracked|]. unfold wire_safe. rewrite Hwire.
  apply wire_safe_from_app. split; [exact Hsafe|].
  fold (held_ps (Wayland.wire st)) (held_clip (Wayland.wire st)).
  now rewrite Hps, Hclip.
Qed.

Section SafeFacts.

Variable alloc_ok : N → bool.

Lemma read_ps_offer_wire o pipe st :
  Wayland.wire (Wayland.read_ps_offer alloc_ok o pipe 0 st).2
  = Wayland.wire st
  ∨ Wayland.wire (Wayland.read_ps_offer alloc_ok o pipe 0 st).2
    = Wayland.wire st ++ [Wayland.PsOfferReceive o Wayland.TEXT_UTF8].
Proof. destruct pipe; cbn; auto. Qed.

Lemma read_clip_offer_wire o pipe st :
  Wayland.wire (Wayland.read_clip_offer alloc_ok o pipe 0 st).2
  = Wayland.wire st
  ∨ Wayland.wire (Wayland.read_clip_offer alloc_ok o pipe 0 st).2
    = Wayland.wire st ++ [Wayland.DataOfferReceive o Wayland.TEXT_UTF8].
Proof. destruct pipe; cbn; auto. Qed.

(** What the handler of a PRIMARY selection event adds to the transcript:
    the event, the [destroy] of the offer it replaces, and at most one
    [receive], on the offer just delivered. *)
Lemma ps_selection_wire o pipe st :
  ∃ destroyed received,
    Wayland.wire
      (Wayland.handle_event alloc_ok (Wayland.PsSelection o pipe) st)
    = Wayland.wire st
      ++ Wayland.PsSelectionEvent o :: destroyed ++ received
    ∧ (destroyed = []
       ∧ (Wayland.current_ps_offer st = None
          ∨ Wayland.current_ps_offer st = o)
       ∨ ∃ cur, Wayland.current_ps_offer st = Some cur ∧ Some cur ≠ o
                ∧ destroyed = [Wayland.PsOfferDestroy cur])
    ∧ (received = []
       ∨ ∃ off, o = Some off
                ∧ received = [Wayland.PsOfferReceive off Wayland.TEXT_UTF8]).
Proof.
  cbn [Wayland.handle_event]. unfold Wayland.ps_device_handle_selection.
  set (st0 := Wayland.send (Wayland.PsSelectionEvent o) st).
  set (st1 := match Wayland.current_ps_offer st0 with
              | Some cur =>
                  if bool_decide (Some cur ≠ o)
                  then Wayland.send (Wayland.PsOfferDestroy cur) st0 else st0
              | None => st0
              end).
  assert (H1 : ∃ destroyed,
             Wayland.wire st1
             = Wayland.wire st ++ Wayland.PsSelectionEvent o :: destroyed
             ∧ (destroyed = []
                ∧ (Wayland.current_ps_offer st = None
                   ∨ Wayland.current_ps_offer st = o)
                ∨ ∃ cur, Wayland.current_ps_offer st = Some cur
                         ∧ Some cur ≠ o
                         ∧ destroyed = [Wayland.PsOfferDestroy cur])).
  { subst st1 st0. cbn [Wayland.send Wayland.current_ps_offer].
    destruct (Wayland.current_ps_offer st) as [cur|] eqn:Hcur.
    - case_bool_decide as Hne.
      + exists [Wayland.PsOfferDestroy cur]. cbn [Wayland.send Wayland.wire].
        rewrite <- app_assoc. split; [reflexivity|]. right. eauto.
      + exists []. split; [reflexivity|]. left. split; [reflexivity|].
        right. destruct (decide (Some cur = o)); [assumption | contradiction].
    - exists []. split; [reflexivity|]. left. auto. }
  destruct H1 as (destroyed & Hw1 & Hd).
  set (st2 := Wayland.set_got_selection true
                (Wayland.bump_seq (Wayland.set_current_ps_offer o st1))).
  assert (H2 : Wayland.wire st2 = Wayland.wire st1) by reflexivity.
  clearbody st2 st1. clear st0.
  assert (Hnone : ∀ st', Wayland.wire st' = Wayland.wire st2 →
            ∃ destroyed0 received,
              Wayland.wire st'
              = Wayland.wire st
                ++ Wayland.PsSelectionEvent o :: destroyed0 ++ received
              ∧ (destroyed0 = []
                 ∧ (Wayland.current_ps_offer st = None
                    ∨ Wayland.current_ps_offer st = o)
                 ∨ ∃ cur, Wayland.current_ps_offer st = Some cur
                          ∧ Some cur ≠ o
                          ∧ destroyed0 = [Wayland.PsOfferDestroy cur])
              ∧ (received = []
                 ∨ ∃ off, o = Some off
                          ∧ received
                            = [Wayland.PsOfferReceive off Wayland.TEXT_UTF8])).
  { intros st' Hst'. exists destroyed, [].
    rewrite Hst', H2, Hw1, app_nil_r. auto. }
  destruct (negb (Wayland.is_daemon_mode st2)); [now apply Hnone|].
  destruct o as [off|].
  - destruct (Wayland.ps_has_text st2).
    + pose proof (read_ps_offer_wire off pipe st2) as Hread.
      destruct (Wayland.read_ps_offer alloc_ok off pipe 0 st2)
        as [[sel len] st3]. cbn [snd] in Hread.
      assert (H3 : ∀ st', Wayland.wire st' = Wayland.wire st3 →
                ∃ destroyed0 received,
                  Wayland.wire st'
                  = Wayland.wire st
                    ++ Wayland.PsSelectionEvent (Some off)
                       :: destroyed0 ++ received
                  ∧ (destroyed0 = []
                     ∧ (Wayland.current_ps_offer st = None
                        ∨ Wayland.current_ps_offer st = Some off)
                     ∨ ∃ cur, Wayland.current_ps_offer st = Some cur
                              ∧ Some cur ≠ Some off
                              ∧ destroyed0 = [Wayland.PsOfferDestroy cur])
                  ∧ (received = []
                     ∨ ∃ off0, Some off = Some off0
                               ∧ received
                                 = [Wayland.PsOfferReceive off0
                                      Wayland.TEXT_UTF8])).
      { intros st' Hst'. destruct Hread as [Hr | Hr].
        - apply Hnone. now rewrite Hst', Hr.
        - exists destroyed, [Wayland.PsOfferReceive off Wayland.TEXT_UTF8].
          rewrite Hst', Hr, H2, Hw1, <- app_assoc. cbn [app].
          split; [reflexivity|]. split; [exact Hd|]. right. eauto. }
      destruct (Wayland.content_changed sel len _ _); now apply H3.
    + destruct (Wayland.last_known_content st2); now apply Hnone.
  - destruct (Wayland.last_known_content st2); now apply Hnone.
Qed.

Lemma ps_selection_safe o pipe st :
  offers_safe st →
  offers_safe (Wayland.handle_event alloc_ok (Wayland.PsSelection o pipe) st).
Proof.
  intros Hsafe.
  destruct (ps_selection_wire o pipe st)
    as (destroyed & received & Hwire & Hd & Hr).
  eapply offers_safe_append; [exact Hsafe | exact Hwire | |].
  - cbn [wire_safe_from request_on_held held_ps_step held_clip_step].
    split; [exact I|].
    destruct Hd as [(-> & Hcur) | (cur & Hcur & Hne & ->)];
      destruct Hr as [-> | (off & -> & ->)];
      cbn [app wire_safe_from request_on_held held_ps_step held_clip_step];
      rewrite ?Hcur; cbn [current_set].
    + exact I.
    + split; [|exact I]. set_solver.
    + split; [|exact I]. destruct o; set_solver.
    + split; [set_solver|]. split; [|exact I].
      assert (cur ≠ off) by congruence. set_solver.
  - apply ps_selection_tracked, Hsafe.
Qed.

Lemma data_selection_safe o st :
  offers_safe st →
  offers_safe (Wayland.handle_event alloc_ok (Wayland.DataSelection o) st).
Proof.
  intros Hsafe.
  assert (Hwire : ∃ destroyed,
            Wayland.wire
              (Wayland.handle_event alloc_ok (Wayland.DataSelection o) st)
            = Wayland.wire st ++ Wayland.DataSelectionEvent o :: destroyed
            ∧ (destroyed = []
               ∨ ∃ cur, Wayland.current_clipboard_offer st = Some cur
                        ∧ destroyed = [Wayland.DataOfferDestroy cur])).
  { cbn [Wayland.handle_event]. unfold Wayland.dd_handle_selection.
    cbn [Wayland.send Wayland.current_clipboard_offer].
    destruct (Wayland.current_clipboard_offer st) as [cur|] eqn:Hcur.
    - case_bool_decide.
      + exists [Wayland.DataOfferDestroy cur]. cbn. rewrite <- app_assoc.
        split; [reflexivity|]. right. eauto.
      + exists []. cbn. auto.
    - exists []. cbn. auto. }
  destruct Hwire as (destroyed & Hwire & Hd).
  eapply offers_safe_append; [exact Hsafe | exact Hwire | |].
  - cbn [wire_safe_from request_on_held held_ps_step held_clip_step].
    split; [exact I|].
    destruct Hd as [-> | (cur & Hcur & ->)];
      cbn [wire_safe_from request_on_held held_ps_step held_clip_step];
      [exact I|].
    rewrite Hcur. cbn [current_set]. split; [|exact I].
    destruct o; set_solver.
  - apply data_selection_tracked, Hsafe.
Qed.

Lemma offers_safe_same st st' :
  Wayland.wire st' = Wayland.wire st →
  Wayland.current_ps_offer st' = Wayland.current_ps_offer st →
  Wayland.current_clipboard_offer st' = Wayland.current_clipboard_offer st →
  offers_safe st → offers_safe st'.
Proof.
  intros Hw Hp Hc (Ht & Hs). split.
  - now apply (offers_tracked_same st st').
  - now rewrite Hw.
Qed.

Lemma handle_event_safe ev st :
  offers_safe st → offers_safe (Wayland.handle_event alloc_ok ev st).
Proof.
  intros H. destruct ev as [o | o mime | o pipe | o | o mime | o | | ].
  - exact H.
  - cbn. unfold Wayland.ps_offer_handle_offer.
    destruct (_ || _); [|exact H].
    eapply offers_safe_same; [ | | | exact H]; reflexivity.
  - now apply ps_selection_safe.
  - exact H.
  - cbn. unfold Wayland.clip_offer_handle_offer.
    destruct (_ || _); [|exact H].
    eapply offers_safe_same; [ | | | exact H]; reflexivity.
  - now apply data_selection_safe.
  - exact H.
  - exact H.
Qed.

Lemma dispatch_safe evs :
  ∀ st, offers_safe st → offers_safe (Wayland.dispatch alloc_ok evs st).
Proof.
  induction evs as [|ev evs IH]; intros st H; [exact H|].
  apply IH. now apply handle_event_safe.
Qed.

Lemma read_ps_offer_safe o pipe st :
  offers_safe st →
  Wayland.current_ps_offer st = Some o →
  offers_safe (Wayland.read_ps_offer alloc_ok o pipe 0 st).2.
Proof.
  intros Hsafe Hcur.
  destruct (read_ps_offer_wire o pipe st) as [Hw | Hw].
  - eapply (offers_safe_append st _ []); [exact Hsafe | | exact I |].
    + now rewrite app_nil_r.
    + apply offers_tracked_read_ps, Hsafe.
  - eapply offers_safe_append; [exact Hsafe | exact Hw | |].
    + cbn [wire_safe_from request_on_held]. rewrite Hcur. cbn [current_set].
      split; [set_solver | exact I].
    + apply offers_tracked_read_ps, Hsafe.
Qed.

Lemma read_clip_offer_safe o pipe st :
  offers_safe st →
  Wayland.current_clipboard_offer st = Some o →
  offers_safe (Wayland.read_clip_offer alloc_ok o pipe 0 st).2.
Proof.
  intros Hsafe Hcur.
  assert (Ht : offers_tracked (Wayland.read_clip_offer alloc_ok o pipe 0 st).2).
  { destruct pipe; cbn; [apply offers_tracked_receive_clip|]; apply Hsafe. }
  destruct (read_clip_offer_wire o pipe st) as [Hw | Hw].
  - eapply (offers_safe_append st _ []); [exact Hsafe | | exact I | exact Ht].
    now rewrite app_nil_r.
  - eapply offers_safe_append; [exact Hsafe | exact Hw | | exact Ht].
    cbn [wire_safe_from request_on_held]. rewrite Hcur. cbn [current_set].
    split; [set_solver | exact I].
Qed.

Lemma check_and_update_primary_safe pipe st :
  offers_safe st →
  offers_safe (Wayland.check_and_update_primary alloc_ok pipe st).2.
Proof.
  intros H. unfold Wayland.check_and_update_primary.
  destruct (Wayland.current_ps_offer st) as [o|] eqn:Hcur.
  - destruct (Wayland.ps_has_text st).
    + pose proof (read_ps_offer_safe o pipe st H Hcur) as Hread.
      destruct (Wayland.read_ps_offer alloc_ok o pipe 0 st)
        as [[sel len] st1].
      cbn [snd] in Hread |- *.
      eapply offers_safe_same; [ | | | exact Hread]; reflexivity.
    + destruct (Wayland.last_known_content st); [|exact H].
      eapply offers_safe_same; [ | | | exact H]; reflexivity.
  - destruct (Wayland.last_known_content st); [|exact H].
    eapply offers_safe_same; [ | | | exact H]; reflexivity.
Qed.

Lemma wayland_disconnect_safe st :
  offers_safe st →
  offers_safe (Wayland.wayland_disconnect st)
  ∧ held_ps (Wayland.wire (Wayland.wayland_disconnect st)) = ∅
  ∧ held_clip (Wayland.wire (Wayland.wayland_disconnect st)) = ∅.
Proof.
  intros Hsafe.
  pose proof (wayland_disconnect_tracked st (proj1 Hsafe)) as Ht.
  assert (Hnone : Wayland.current_ps_offer (Wayland.wayland_disconnect st)
                  = None
                  ∧ Wayland.current_clipboard_offer
                      (Wayland.wayland_disconnect st) = None).
  { unfold Wayland.wayland_disconnect.
    destruct (Wayland.current_ps_offer st) as [p|] eqn:Hp;
      destruct (Wayland.current_clipboard_offer st) as [c|] eqn:Hc;
      cbn; rewrite ?Hc, ?Hp; cbn; auto. }
  split.
  - assert (Hwire : ∃ msgs,
              Wayland.wire (Wayland.wayland_disconnect st)
              = Wayland.wire st ++ msgs
              ∧ wire_safe_from (current_set (Wayland.current_ps_offer st))
                  (current_set (Wayland.current_clipboard_offer st)) msgs).
    { unfold Wayland.wayland_disconnect.
      destruct (Wayland.current_ps_offer st) as [p|] eqn:Hp;
        destruct (Wayland.current_clipboard_offer st) as [c|] eqn:Hc;
        cbn; rewrite ?Hc; cbn.
      - exists [Wayland.PsOfferDestroy p; Wayland.DataOfferDestroy c].
        rewrite <- app_assoc. split; [reflexivity|]. cbn. set_solver.
      - exists [Wayland.PsOfferDestroy p]. split; [reflexivity|].
        cbn. set_solver.
      - exists [Wayland.DataOfferDestroy c]. split; [reflexivity|].
        cbn. set_solver.
      - exists []. rewrite app_nil_r. split; [reflexivity | exact I]. }
    destruct Hwire as (msgs & Hw & Hm).
    eapply offers_safe_append; eassumption.
  - destruct Ht as (Hps & Hclip). destruct Hnone as (Hn1 & Hn2).
    rewrite Hps, Hclip, Hn1, Hn2. auto.
Qed.

Lemma daemon_pass_safe t st :
  offers_safe st → offers_safe (Wayland.daemon_pass alloc_ok t st).1.
Proof.
  intros H. unfold Wayland.daemon_pass.
  set (st1 := Wayland.dispatch alloc_ok (Wayland.tk_queued t) st).
  assert (H1 : offers_safe st1) by now apply dispatch_safe.
  set (st2 := if Wayland.tk_signal t then Wayland.set_running false st1
              else st1).
  assert (H2 : offers_safe st2).
  { subst st2. destruct (Wayland.tk_signal t); [|exact H1].
    eapply offers_safe_same; [ | | | exact H1]; reflexivity. }
  clearbody st2. clear st1 H1 H.
  destruct (Wayland.tk_poll t) as [ | | | pipe | [evs|] err | err]; cbn;
    try exact H2.
  - destruct (Wayland.current_ps_offer st2) eqn:Hcur; [|exact H2].
    destruct (Wayland.ps_has_text st2); [|exact H2].
    cbn. now apply check_and_update_primary_safe.
  - now apply dispatch_safe.
Qed.

Lemma event_loop_safe ticks :
  ∀ st, offers_safe st →
        offers_safe (Wayland.event_loop alloc_ok ticks st).1.
Proof.
  induction ticks as [|t ticks IH]; intros st H; cbn [Wayland.event_loop].
  - destruct (Wayland.running st); exact H.
  - destruct (Wayland.running st); [|exact H].
    pose proof (daemon_pass_safe t st H) as Hpass.
    destruct (Wayland.daemon_pass alloc_ok t st) as [st' []]; cbn in Hpass.
    + exact Hpass.
    + now apply IH.
Qed.

Lemma oneshot_wait_safe n :
  ∀ polls st,
    offers_safe st → offers_safe (Wayland.oneshot_wait alloc_ok n polls st).
Proof.
  induction n as [|n IH]; intros polls st H; cbn [Wayland.oneshot_wait];
    [exact H|].
  destruct (Wayland.got_selection st); [exact H|].
  destruct polls as [|evs rest]; [exact H|].
  apply IH, dispatch_safe, H.
Qed.

Lemma initial_safe d : offers_safe (Wayland.initial d).
Proof. split; [apply initial_tracked | exact I]. Qed.

Lemma daemon_startup_safe env st :
  offers_safe st →
  match Wayland.daemon_startup alloc_ok env st with
  | inl (_, st') =>
      offers_safe st'
      ∧ (Wayland.connect_ok env = true →
         held_ps (Wayland.wire st') = ∅ ∧ held_clip (Wayland.wire st') = ∅)
  | inr st' => offers_safe st'
  end.
Proof.
  intros H. unfold Wayland.daemon_startup.
  destruct (Wayland.connect_ok env); cbn [negb]; [|split; [exact H | easy]].
  assert (Hend : ∀ st', offers_safe st' →
            offers_safe (Wayland.wayland_disconnect st')
            ∧ (true = true →
               held_ps (Wayland.wire (Wayland.wayland_disconnect st')) = ∅
               ∧ held_clip (Wayland.wire (Wayland.wayland_disconnect st'))
                 = ∅)).
  { intros st' Hst'. destruct (wayland_disconnect_safe st' Hst'); auto. }
  destruct (negb (Wayland.has_ps_manager env)); [now apply Hend|].
  destruct (negb (Wayland.has_seat env)); [now apply Hend|].
  destruct (negb (Wayland.cache_dir_ok env)); [now apply Hend|].
  match goal with
  | |- context [Wayland.set_cache ?d ?s] =>
      assert (H1 : offers_safe (Wayland.set_cache d s))
        by (eapply offers_safe_same; [ | | | exact H]; reflexivity);
      generalize dependent (Wayland.set_cache d s)
  end.
  intros st1 H1.
  destruct (negb (Wayland.daemonize_ok env)); [now apply Hend|].
  assert (H2 : offers_safe
                 (Wayland.set_cache
                    (write_pid_file (Wayland.pid env) (Wayland.cache st1)) st1))
    by (eapply offers_safe_same; [ | | | exact H1]; reflexivity).
  destruct (Wayland.surface_events env) as [evs|].
  - now apply dispatch_safe, dispatch_safe.
  - now apply Hend, dispatch_safe.
Qed.

Lemma publish_next_safe data len st :
  offers_safe st → offers_safe (Wayland.publish_next data len st).
Proof.
  intros H. eapply offers_safe_same; [ | | | exact H]; reflexivity.
Qed.

End SafeFacts.

(** X23.  Requests on offers.  Whatever events the compositor sends, the
    daemon, the one-shot read of PRIMARY and the read of the clipboard make
    every request on an offer, [receive] or [destroy], on an offer they hold
    at that point: none on an offer already destroyed, none twice.  And a
    run that ends has destroyed every offer it was given: the daemon when it
    exits, the two reads always. *)
Theorem wayland_requests_are_on_held_offers (alloc_ok : N → bool) (d : disk) :
  (∀ env ticks,
     let r := Wayland.run_daemon alloc_ok env ticks (Wayland.initial d) in
     wire_safe (Wayland.wire (final_state r))
     ∧ match r with
       | Exited _ st =>
           held_ps (Wayland.wire st) = ∅ ∧ held_clip (Wayland.wire st) = ∅
       | Blocked _ => True
       end)
  ∧ (∀ env,
       let st := (Wayland.run_oneshot alloc_ok env (Wayland.initial d)).2 in
       wire_safe (Wayland.wire st)
       ∧ held_ps (Wayland.wire st) = ∅ ∧ held_clip (Wayland.wire st) = ∅)
  ∧ (∀ connected has_ddm has_seat roundtrip pipe,
       let st :=
         (Wayland.run_get_clipboard alloc_ok connected has_ddm has_seat
            roundtrip pipe (Wayland.initial d)).2 in
       wire_safe (Wayland.wire st)
       ∧ held_ps (Wayland.wire st) = ∅ ∧ held_clip (Wayland.wire st) = ∅).
Proof.
  pose proof (initial_safe d) as Hinit.
  assert (Hend : ∀ st, offers_safe st →
            wire_safe (Wayland.wire (Wayland.wayland_disconnect st))
            ∧ held_ps (Wayland.wire (Wayland.wayland_disconnect st)) = ∅
            ∧ held_clip (Wayland.wire (Wayland.wayland_disconnect st)) = ∅).
  { intros st Hst.
    destruct (wayland_disconnect_safe alloc_ok st Hst) as ((_ & Hs) & He).
    auto. }
  assert (Hstart : wire_safe (Wayland.wire (Wayland.initial d))
                   ∧ held_ps (Wayland.wire (Wayland.initial d)) = ∅
                   ∧ held_clip (Wayland.wire (Wayland.initial d)) = ∅)
    by (split; [apply Hinit | split; reflexivity]).
  split; [|split].
  - intros env ticks r. subst r. unfold Wayland.run_daemon.
    pose proof (daemon_startup_safe alloc_ok env _ Hinit) as Hs.
    destruct (Wayland.daemon_startup alloc_ok env (Wayland.initial d))
      as [[code st']|st1] eqn:Hrun.
    + cbn [final_state]. destruct Hs as ((_ & Hsafe) & Hheld).
      split; [exact Hsafe|].
      destruct (Wayland.connect_ok env) eqn:Hconn; [now apply Hheld|].
      unfold Wayland.daemon_startup in Hrun. rewrite Hconn in Hrun.
      cbn in Hrun. injection Hrun as _ <-. apply Hstart.
    + pose proof (event_loop_safe alloc_ok ticks st1 Hs) as Hloop.
      destruct (Wayland.event_loop alloc_ok ticks st1) as [st2 []];
        cbn [fst] in Hloop; cbn [final_state].
      * destruct (Hend st2 Hloop) as (Hsafe & Hheld).
        split; [exact Hsafe | exact Hheld].
      * split; [apply Hloop | exact I].
  - intros env st. subst st. unfold Wayland.run_oneshot.
    destruct (negb (Wayland.os_connect_ok env)); [exact Hstart|].
    destruct (negb (_ && _)); [now apply Hend|].
    set (st1 := Wayland.dispatch alloc_ok (Wayland.os_roundtrip env) _).
    assert (H1 : offers_safe st1).
    { apply dispatch_safe.
      eapply offers_safe_same; [ | | | exact Hinit]; reflexivity. }
    set (st2 := if negb (Wayland.got_selection st1) && Wayland.os_can_map env
                then _ else st1).
    assert (H2 : offers_safe st2).
    { subst st2. destruct (negb _ && _); [|exact H1].
      now apply oneshot_wait_safe, dispatch_safe. }
    clearbody st2. clear st1 H1.
    assert (Hpub : ∀ data len st,
              offers_safe st →
              offers_safe (if Wayland.os_have_cache env
                           then Wayland.publish_next data len st else st)).
    { intros data len st Hst. destruct (Wayland.os_have_cache env);
        [now apply publish_next_safe | exact Hst]. }
    destruct (Wayland.current_ps_offer st2) as [o|] eqn:Hcur;
      [|cbn [snd]; now apply Hend, Hpub].
    destruct (Wayland.ps_has_text st2); [|cbn [snd]; now apply Hend, Hpub].
    pose proof (read_ps_offer_safe alloc_ok o (Wayland.os_pipe env) st2 H2 Hcur)
      as Hread.
    destruct (Wayland.read_ps_offer alloc_ok o (Wayland.os_pipe env) 0 st2)
      as [[data len] st3].
    cbn [snd] in Hread.
    destruct data as [bytes|]; [|cbn [snd]; now apply Hend].
    destruct (0 <? len)%N; cbn [snd]; [now apply Hend, Hpub | now apply Hend].
  - intros connected has_ddm has_seat roundtrip pipe st. subst st.
    unfold Wayland.run_get_clipboard.
    destruct (negb connected); [exact Hstart|].
    destruct (negb (_ && _)); [now apply Hend|].
    set (st1 := Wayland.dispatch alloc_ok roundtrip _).
    assert (H1 : offers_safe st1) by now apply dispatch_safe.
    clearbody st1.
    destruct (Wayland.current_clipboard_offer st1) as [o|] eqn:Hcur;
      [|cbn [snd]; now apply Hend].
    destruct (Wayland.clip_has_text st1); [|cbn [snd]; now apply Hend].
    pose proof (read_clip_offer_safe alloc_ok o pipe st1 H1 Hcur) as Hread.
    destruct (Wayland.read_clip_offer alloc_ok o pipe 0 st1)
      as [[data len] st2].
    cbn [snd] in Hread.
    destruct data as [bytes|]; [|cbn [snd]; now apply Hend].
    destruct (0 <? len)%N; cbn [snd]; now apply Hend.
Qed.
